(* ===== verification/_CoqProject ===== *)
-Q . S2P
Prelude.v
Bytes.v
GoStrings.v
NetIP.v
NetParse.v
GoOs.v
Utf8.v
Config.v
Stun.v
StunClient.v
Json.v
JsonStruct.v
Rfc3339.v
DnsName.v
DnsMessage.v
DnsServer.v
DnsService.v
Base64.v
FilePath.v
RelayWire.v
RelayServer.v
RelayLifecycle.v
RelayClient.v
Sha256.v
Noise.v
Discovery.v
DiscoveryWire.v
WireGuard.v
GoTime.v
Dashboard.v
DashboardServer.v
Cli.v
