(* ===== verification/Prelude.v ===== *)
(** * A verification of nexus-stun

    nexus-stun is a mesh VPN in Go: a node finds its public address with STUN,
    finds its peers over MQTT, talks to them through WireGuard or, when no direct
    path exists, through a relay, resolves their names with a small DNS server and
    shows the mesh on a dashboard.  This library models these parts as functions
    and step relations and proves what they promise to each other and where they
    do not keep it.

    ** The program and its model

    - config.go, [Config]: the configuration record with one field per field of
      the Go structs, [applyDefaults], and [LoadConfig] with its overrides from
      the environment ([GoOs]: os.ExpandEnv).  Every other part reads it.
    - stun.go, [Stun] and [StunClient]: the binding request, the parser of the
      response ([parseBindingResponse], its attribute loop [parse_attrs]), and
      the client that asks the configured servers in turn ([Discover]), compares
      two answers ([detectNATType]) and does so periodically.
    - dns.go, [DnsName], [DnsMessage], [DnsServer] and [DnsService]: names with
      compression pointers, with the names of RFC 1035 they are to implement
      ([rfc_name]) and those the parser takes ([reads_name]); the three kinds of answers; the server: the records
      ([prepopulate], [AddPeer], [RemovePeer]), [handleQuery], the forwarding, and
      the read loop whose handlers share one buffer ([serve_step]); and the server
      with its socket, from [Start] to [Stop] ([service_step]).
    - relay.go, [RelayWire], [RelayServer], [RelayLifecycle] and [RelayClient]:
      frames and their reader on a stream that may end or time out anywhere; the
      goroutines of [handleClient] as steps that interleave over the table of
      clients ([relay_step]), with writes that may fail part of the way; the TLS
      configuration, [Start], the accept loop and [Stop] around them, with bytes
      that arrive over time and writes that wait for their peer ([life_step]); and
      [RelayClientConn].  [StreamReader] (what a reader does
      on any stream) and [Codec] (a reader and an encoder that agree) are the
      interfaces between the wire format and its users.
    - crypto.go, [Noise]: the handshake messages on the handshake state,
      [Encrypt] and [Decrypt].  The primitives are the class [Crypto] with the
      laws [CryptoLaws]; SHA-256 is computed by [Sha256].
    - discovery.go, [Discovery] and [DiscoveryWire]: heartbeats, presence, health
      checks and publications as operations on the table of peers, and the two
      loops; the JSON of the payloads, [Start] with the options of the client, the
      subscriptions and the delivery of a message to the handlers.
    - wireguard.go, [WireGuard]: key files, the configuration texts given to the
      device, the table of peers.  It uses the curve of [Noise], [Base64] and
      [FilePath].
    - dashboard.go, [Dashboard] and [DashboardServer]: updates, broadcasts and
      WebSocket handlers as interleaved steps ([dash_step]), and the values of the
      API handlers; the routes and the HTTP server, from [Start] to [Shutdown].
    - main.go, [Cli]: the commands and their flags, what each calls, the exit
      status, and the signals of [up].  It puts [LoadConfig], [GenerateKeys] and
      [RunDashboard] to their use.

    The parts of the Go language and its standard library they use are modelled
    as they are used: bytes, slices with their run-time checks and
    encoding/binary in [Bytes], strings.Split and friends in [GoStrings], net.IP
    in [NetIP], ParseCIDR and ParseIP in [NetParse], UTF-8 in [Utf8],
    encoding/json in [Json] (scanner, parser, strings, integers) and [JsonStruct]
    (objects and the fields of structs), the times of JSON in [Rfc3339],
    Duration.String in [GoTime], and the files named above.

    ** How it is modelled

    A Go call that returns an error is a value of [outcome]: [Ok], [Err] with a
    constructor per error the code makes, [Panic] for a run-time panic, and
    [OutOfFuel] for a fuelled loop whose fuel ran out.  Calls that also change
    state are [stateful].  Integers are [Z] with their range in the hypotheses or
    their wrap-around written out; bytes are the Standard Library's.  Concurrency
    is a labelled step function and its traces ([trace]): a step is what a
    goroutine does between two accesses to what it shares, and an invariant is
    proved by induction on traces.  What the program gets from outside is an
    argument: a class where a part makes many calls (the network of the STUN
    client, upstream resolvers, the device, the file system, the primitives), the
    bytes a connection delivers, the bytes the random source delivers.  Times are
    arguments of the steps that read the clock.  The life of a server is a record
    around the state of its component, and its steps are those of the component
    and of what happens to it: its listener or socket failing, the context being
    cancelled, [Stop] being called and returning.

    Fuel: [parse_attrs] and [parse_name] carry fuel.  The attribute loop ends for
    every input within the length of the datagram ([parseBindingResponse] gives
    that, and [parseBindingResponse_returns] shows it is enough).  The name
    parser need not end: [parseDNSName_fuel] shows that the fuel given decides
    whether it does, so [OutOfFuel] there means a Go call that never returns.
    Every other recursion is structural.

    ** What the theorems show

    - Round trips and parsers: STUN responses ([parseBindingResponse_encode],
      with [parseBindingResponse_sound] for what is accepted), DNS names
      ([parseDNSName_encodeDNSName], and [parseDNSName_names]: every name of RFC
      1035 is read, and by which limits the parser takes more), DNS answers
      ([responses_decode]), relay frames ([readMessage_frame]), the JSON of
      heartbeats and presence, whatever their strings hold
      ([heartbeat_roundtrip]), and session encryption ([Decrypt_Encrypt]).
    - Safety and termination: no input makes the STUN parser run on
      ([parseBindingResponse_returns]); no query makes the DNS handler panic
      ([handleQuery_safe]), but one makes it recurse without end
      ([handleQuery_pointer_loop]); a goroutine of the relay ends with its stream,
      as long as its reads and writes return ([handleClient_terminates]); the
      handshake sends the public halves of the keys it keeps
      ([ephemerals_sent]).
    - Functional behaviour: the STUN client takes the first server that answers
      ([Discover_spec], [RunPeriodicDiscovery_invariant]); a configured peer's
      name resolves ([peer_query_resolves], [handleQuery_nexus]); the
      configuration is completed and overridden as written ([LoadConfig_spec]);
      a node's knowledge of a peer is its last heartbeat and what was missed since
      ([peer_history]), from the node that sends it through the broker to the
      table of the one that hears it ([heartbeat_received]); every path of the
      dashboard is answered ([every_path_answered]); a command calls what it
      should with the configuration of its flags, and the exit status says how it
      went ([main_spec]).
    - Concurrency: the relay's table ([relay_table_exact]), the order and framing
      of what it forwards ([relay_in_order], [relay_output_framed]), a whole
      session from client to destination ([client_session_relayed]), what a
      running DNS server answers ([service_in_turn]), and what viewers of the
      dashboard see ([viewers_up_to_date]).
    - Starting and stopping: the shutdown of a relay ends unless a silent peer or
      peers that do not read prevent it ([Stop_completes]), which both do for as
      long as they like ([Stop_silent_peer], [Stop_deadlock]);
      what it listens with ([Start_spec]); the shutdown of the dashboard
      ([dashboard_shutdown]); the signals of [up] ([up_signals]).
    - Where the code does not do what it means to: the two sides of the handshake
      derive different keys ([handshake_keys_diverge]), a node fails its first
      start ([NewWireGuardManager_first_start]), also after [gen-keys], whose keys
      it overwrites ([gen_keys_then_start]), a device that keeps to its
      documentation refuses every key ([device_refuses_keys]), the dashboard
      command shows an empty mesh ([RunDashboard_empty]).
    - Theorems that say more about a branch are not in this list but in their
      files, among them [relay_stale_leave], [readMessage_interrupted],
      [initiator_not_authenticated], [ReadMessageB_short_static],
      [local_endpoint_forgotten], [serveLoop_shares_buffer], [service_stopped],
      [service_crash], [viewers_left_behind], [nameless_heartbeat],
      [Stop_returned] and [dashboard_command].

    ** What is not modelled

    Run, Teardown, ShowStatus, ListPeers and RunDNS, which main.go calls, do not
    exist in the repository: what they return is a parameter.  The parser of the
    arguments, the MQTT client with its reconnections, crypto/tls, the WireGuard
    device and the primitives are third-party: classes with what their
    documentation says where it is used.  A write on a connection that has failed
    once is taken to fail from then on.  Logging, the JSON of the dashboard's
    replies (their values are modelled) and the dashboard's page, which is HTML
    and JavaScript, are left out.  Locks appear as the steps they make atomic.
    The cache of the DNS server is never used by the code.  Where the code does
    not compile (os.Read; byte of a shifted constant in stun.go) the evident
    meaning is modelled.

    ** This file

    The notions every part uses: outcomes and stateful calls with their
    automation, lemmas on lists, iteration of partial functions and traces. *)
From stdpp Require Export base tactics decidable list option gmap finite.
From Stdlib Require Export ZArith Lia.
From Stdlib Require Import Init.Byte Strings.Byte.

(** ** Outcomes of a Go call

    A Go function that returns [(T, error)] produces [Ok] or [Err]; an index or
    slice expression out of range panics; [OutOfFuel] is the answer of a
    fuelled model whose fuel ran out before the Go loop (or recursion) ended. *)
Inductive outcome (E A : Type) :=
  | Ok (a : A)
  | Err (e : E)
  | Panic
  | OutOfFuel.
Arguments Ok {E A} a.
Arguments Err {E A} e.
Arguments Panic {E A}.
Arguments OutOfFuel {E A}.

#[export] Instance outcome_ret E : MRet (outcome E) := λ A a, Ok a.
#[export] Instance outcome_bind E : MBind (outcome E) := λ A B f m,
  match m with
  | Ok a => f a
  | Err e => Err e
  | Panic => Panic
  | OutOfFuel => OutOfFuel
  end.
#[export] Instance outcome_fmap E : FMap (outcome E) := λ A B f m,
  match m with
  | Ok a => Ok (f a)
  | Err e => Err e
  | Panic => Panic
  | OutOfFuel => OutOfFuel
  end.

(** The error of a callee wrapped by its caller ([fmt.Errorf("...: %w", err)]). *)
Definition map_err {E F A} (f : E → F) (m : outcome E A) : outcome F A :=
  match m with
  | Ok a => Ok a
  | Err e => Err (f e)
  | Panic => Panic
  | OutOfFuel => OutOfFuel
  end.

(** Not a panic, and not a run that used up its fuel: the Go call returns. *)
Definition returns {E A} (m : outcome E A) : Prop :=
  match m with Ok _ | Err _ => True | Panic | OutOfFuel => False end.

Definition is_ok {E A} (m : outcome E A) : bool :=
  match m with Ok _ => true | _ => false end.

#[export] Instance outcome_eq_dec {E A} `{EqDecision E, EqDecision A} :
  EqDecision (outcome E A).
Proof. solve_decision. Defined.

Create HintDb nexus.
Create Rewrite HintDb nexus.

Section outcome.
Context {E A B : Type}.

Lemma bind_Ok (f : A → outcome E B) (m : outcome E A) b :
  m ≫= f = Ok b ↔ ∃ a, m = Ok a ∧ f a = Ok b.
Proof. destruct m; simpl; naive_solver. Qed.

Lemma returns_bind (f : A → outcome E B) (m : outcome E A) :
  returns m → (∀ a, m = Ok a → returns (f a)) → returns (m ≫= f).
Proof. destruct m; simpl; naive_solver. Qed.
End outcome.
#[export] Hint Resolve returns_bind : nexus.

(** ** Calls that also change a state

    The state is left as the call leaves it, also when it fails. *)
Definition stateful (S E A : Type) : Type := S → outcome E A * S.
#[export] Instance stateful_ret S E : MRet (stateful S E) := λ A a s, (Ok a, s).
#[export] Instance stateful_bind S E : MBind (stateful S E) := λ A B f m s,
  match m s with
  | (Ok a, s) => f a s
  | (Err e, s) => (Err e, s)
  | (Panic, s) => (Panic, s)
  | (OutOfFuel, s) => (OutOfFuel, s)
  end.
Definition fail {S E A} (e : E) : stateful S E A := λ s, (Err e, s).

Definition get {S E} : stateful S E S := λ s, (Ok s, s).
Definition modify {S E} (f : S → S) : stateful S E () := λ s, (Ok (), f s).
(** A call that does not change the state. *)
Definition lift {S E A} (o : outcome E A) : stateful S E A := λ s, (o, s).
(** The error [e] of a call that returns nothing else. *)
Definition or_fail {E A} (e : E) (o : option A) : outcome E A :=
  match o with Some a => Ok a | None => Err e end.

Lemma stateful_bind_Ok {S E A B} (m : stateful S E A) (f : A → stateful S E B) s b s' :
  (m ≫= f) s = (Ok b, s') ↔ ∃ a s1, m s = (Ok a, s1) ∧ f a s1 = (Ok b, s').
Proof.
  unfold mbind, stateful_bind. destruct (m s) as [[a|e| |] s1].
  - split; [by exists a, s1|]. by intros (? & ? & [= <- <-] & ?).
  - split; [done|]. by intros (? & ? & ? & ?).
  - split; [done|]. by intros (? & ? & ? & ?).
  - split; [done|]. by intros (? & ? & ? & ?).
Qed.

Lemma stateful_bind_eq {S E A B} (m : stateful S E A) (f : A → stateful S E B) s a s1 :
  m s = (Ok a, s1) → (m ≫= f) s = f a s1.
Proof. intros Hm. unfold mbind, stateful_bind. by rewrite Hm. Qed.

(** Case on the first [match] or [if] of the goal, with its equation. *)
Ltac case_goal :=
  match goal with
  | |- context [match ?x with _ => _ end] => destruct x eqn:?
  end.

(** Decide the first condition of an [if decide _] of the goal. *)
Ltac split_decide :=
  match goal with
  | |- context [if decide ?P then _ else _] => destruct (decide P)
  end.

(** Invert equations between outcomes and simplify. *)
Ltac inv_outcome :=
  repeat match goal with
  | H : Ok _ = Ok _ |- _ => injection H as H; try subst
  | H : Err _ = Err _ |- _ => injection H as H; try subst
  | H : Ok _ = Err _ |- _ => discriminate H
  | H : Err _ = Ok _ |- _ => discriminate H
  | H : Panic = _ |- _ => discriminate H
  | H : OutOfFuel = _ |- _ => discriminate H
  | H : _ ≫= _ = Ok _ |- _ => apply bind_Ok in H as (? & ? & H)
  end.

(** ** Lists *)
Section lists.
Context {A : Type}.
Implicit Types l : list A.

Lemma drop_app_at l1 l2 n : n = length l1 → drop n (l1 ++ l2) = l2.
Proof. intros ->. apply drop_app_length. Qed.

Lemma take_app_at l1 l2 n : n = length l1 → take n (l1 ++ l2) = l1.
Proof. intros ->. apply take_app_length. Qed.

Lemma filter_none (P : A → Prop) `{∀ x, Decision (P x)} l :
  (∀ x, x ∈ l → ¬ P x) → filter P l = [].
Proof.
  induction l as [|x l IH]; intros Hl; [done|].
  rewrite filter_cons_False by (apply Hl; left). apply IH. intros y Hy. apply Hl. by right.
Qed.

Lemma filter_all (P : A → Prop) `{∀ x, Decision (P x)} l : Forall P l → filter P l = l.
Proof. induction 1 as [|x l Hx _ IH]; [done|]. by rewrite filter_cons_True, IH. Qed.

(** Overwrite the elements of [l] from position [i] on with those of [v]. *)
Definition splice (i : nat) (v l : list A) : list A :=
  take i l ++ v ++ drop (i + length v) l.

Lemma length_splice i v l :
  i + length v ≤ length l → length (splice i v l) = length l.
Proof. intros. unfold splice. rewrite !length_app, length_take, length_drop. lia. Qed.
End lists.

Lemma omap_fmap {A B C} (f : A → B) (g : B → option C) (l : list A) :
  omap g (f <$> l) = omap (g ∘ f) l.
Proof. induction l as [|x l IH]; [done|]. simpl. destruct (g (f x)); [f_equal|]; apply IH. Qed.

(** ** Iterating a partial function

    The runs of a deterministic machine on states [A]: [steps f n x] is the
    state after [n] steps from [x], if there are that many. *)
Section steps.
Context {A : Type} (f : A → option A).

Fixpoint steps (n : nat) (x : A) : option A :=
  match n with
  | O => Some x
  | S n => f x ≫= steps n
  end.

Lemma steps_add m n x : steps (m + n) x = steps m x ≫= steps n.
Proof.
  revert x. induction m as [|m IH]; intros x; simpl; [done|].
  destruct (f x); simpl; auto.
Qed.

Lemma steps_prefix m n x : m ≤ n → is_Some (steps n x) → is_Some (steps m x).
Proof.
  intros Hmn. replace n with (m + (n - m)) by lia. rewrite steps_add.
  destruct (steps m x); [eauto|]. by intros [].
Qed.

(** A run that comes back to a state it was in never stops. *)
Lemma steps_cycle i k x y :
  0 < k → steps i x = Some y → steps k y = Some y → ∀ n, is_Some (steps n x).
Proof.
  intros Hk Hi Hc n. apply (steps_prefix n (i + n * k)); [nia|].
  rewrite steps_add, Hi. simpl. exists y. induction n as [|n IH]; simpl; [done|].
  by rewrite steps_add, Hc.
Qed.
End steps.

(** On states [0, ..., bound - 1], a run of more than [bound] steps goes through
    some state twice. *)
Lemma steps_pigeonhole (f : nat → option nat) bound x :
  (∀ y z, f y = Some z → y < bound) →
  is_Some (steps f (S bound) x) →
  ∃ i k y, 0 < k ∧ steps f i x = Some y ∧ steps f k y = Some y.
Proof.
  intros Hbound Hrun.
  assert (∀ i, i < S bound → ∃ y, steps f i x = Some y ∧ y < bound) as Hstate.
  { intros i Hi. destruct (steps_prefix f (S i) (S bound) x ltac:(lia) Hrun) as [z Hz].
    rewrite <-Nat.add_1_r, steps_add in Hz. destruct (steps f i x) as [y|]; [|done].
    exists y. split; [done|]. simpl in Hz. destruct (f y) eqn:Hy; [eauto|done]. }
  destruct (nat_pigeonhole (λ i, default 0 (steps f i x)) (S bound) bound)
    as (i & j & [Hij Hj] & Heq); [lia| |].
  { intros i Hi. by destruct (Hstate i Hi) as (y & -> & Hy). }
  destruct (Hstate i ltac:(lia)) as (y & Hy & _), (Hstate j Hj) as (z & Hz & _).
  rewrite Hy, Hz in Heq. simpl in Heq. subst z.
  exists i, (j - i), y. split_and!; [lia|done|].
  replace j with (i + (j - i)) in Hz by lia. by rewrite steps_add, Hy in Hz.
Qed.

(** ** Interleavings

    Runs of a system of labelled steps.  [exec] is the same as a function, for
    concrete runs. *)
Section traces.
Context {State Label : Type} (step : Label → State → option State).
Implicit Types (ok : State → Label → Prop) (s : State) (ls : list Label).

(** Runs whose steps are allowed by [ok], latest step last. *)
Inductive trace (ok : State → Label → Prop) (s : State) : list Label → State → Prop :=
  | trace_start : trace ok s [] s
  | trace_step ls s1 l s2 :
      trace ok s ls s1 → ok s1 l → step l s1 = Some s2 → trace ok s (ls ++ [l]) s2.

Definition any_step (s : State) (l : Label) : Prop := True.
Definition exec (ls : list Label) (s : State) : option State :=
  foldl (λ o l, o ≫= step l) (Some s) ls.

Lemma exec_trace ls s s' : exec ls s = Some s' → trace any_step s ls s'.
Proof.
  revert s'. induction ls as [|l ls IH] using rev_ind; intros s' Hrun.
  { injection Hrun as <-. constructor. }
  unfold exec in Hrun. rewrite foldl_app in Hrun. simpl in Hrun.
  apply bind_Some in Hrun as (s1 & Hrun & Hl). by econstructor; [apply IH|..].
Qed.

(** The same for the steps that [ok] allows. *)
Definition exec_ok ok `{∀ s l, Decision (ok s l)} ls s : option State :=
  foldl (λ o l, o ≫= λ s, if decide (ok s l) then step l s else None) (Some s) ls.

Lemma exec_ok_trace ok `{∀ s l, Decision (ok s l)} ls s s' :
  exec_ok ok ls s = Some s' → trace ok s ls s'.
Proof.
  revert s'. induction ls as [|l ls IH] using rev_ind; intros s' Hrun.
  { injection Hrun as <-. constructor. }
  unfold exec_ok in Hrun. rewrite foldl_app in Hrun. simpl in Hrun.
  apply bind_Some in Hrun as (s1 & Hrun & Hl). case_decide; [|done].
  by econstructor; [apply IH|..].
Qed.

(** What holds at the start and is kept by every allowed step. *)
Lemma trace_invariant ok (I : State → Prop) s ls s' :
  I s → (∀ s1 l s2, I s1 → ok s1 l → step l s1 = Some s2 → I s2) → trace ok s ls s' → I s'.
Proof. intros Hs Hstep. induction 1; eauto. Qed.

Lemma trace_mono (ok1 ok2 : State → Label → Prop) s ls s' :
  (∀ s l, ok1 s l → ok2 s l) → trace ok1 s ls s' → trace ok2 s ls s'.
Proof. intros Hok. induction 1; econstructor; eauto. Qed.

Lemma trace_Forall (P : Label → Prop) s ls s' :
  Forall P ls → trace any_step s ls s' → trace (λ _, P) s ls s'.
Proof.
  intros HP Hrun. induction Hrun as [|ls s1 l s2 _ IH _ Hl]; [constructor|].
  apply Forall_app in HP as [HP HPl%Forall_inv].
  eapply trace_step; [by apply IH|exact HPl|exact Hl].
Qed.

Lemma trace_app ok s ls1 s1 ls2 s2 :
  trace ok s ls1 s1 → trace ok s1 ls2 s2 → trace ok s (ls1 ++ ls2) s2.
Proof.
  intros H1. induction 1 as [|ls s2 l s3 _ IH Hok Hl]; [by rewrite app_nil_r|].
  rewrite app_assoc. by econstructor.
Qed.
End traces.
