(* ===== verification/Bytes.v ===== *)
(** * Bytes, Go strings and slices, and the integers of encoding/binary

    What the source takes from the Go language and its standard library at the
    level of bytes: the conversion [byte(x)], index and slice expressions with
    their run-time bound checks, [copy], and the big-endian readers and writers
    of [encoding/binary].  A slice expression is checked against the length of
    the slice, which is at least as strict as Go (it checks the capacity), so a
    theorem that no [Panic] arises here holds of the Go program too. *)
From S2P Require Import Prelude.
From Stdlib Require Import Init.Byte Strings.Byte.
From stdpp Require Export strings.

Abbreviation byte := Byte.byte.
(** A Go string is an immutable sequence of bytes. *)
Abbreviation gostring := (list Byte.byte).
(** A string literal of the source. *)
Definition str (s : String.string) : gostring := String.list_byte_of_string s.
Arguments str s%_string_scope.

#[export] Instance byte_eq_decision : EqDecision byte := Byte.byte_eq_dec.
#[export] Program Instance byte_countable : Countable byte :=
  inj_countable Byte.to_N Byte.of_N _.
Next Obligation. intros b. apply Byte.of_to_N. Qed.
#[export] Instance byte_inhabited : Inhabited byte := populate x00.

#[local] Open Scope Z_scope.

(** A byte as a number, and [byte(x)], which keeps the low eight bits of [x]. *)
Definition b2z (b : byte) : Z := Z.of_N (Byte.to_N b).
Definition z2b (z : Z) : byte := default x00 (Byte.of_N (Z.to_N (z mod 256))).

Lemma b2z_range b : 0 <= b2z b < 256.
Proof. unfold b2z. pose proof (Byte.to_N_bounded b). lia. Qed.

Lemma z2b_b2z b : z2b (b2z b) = b.
Proof.
  unfold z2b. rewrite Z.mod_small by apply b2z_range.
  unfold b2z. by rewrite N2Z.id, Byte.of_to_N.
Qed.

Lemma b2z_z2b z : b2z (z2b z) = z mod 256.
Proof.
  unfold z2b, b2z. pose proof (Z.mod_pos_bound z 256 ltac:(lia)) as Hz.
  destruct (Byte.of_N (Z.to_N (z mod 256))) as [b|] eqn:Hb; simpl.
  - apply Byte.to_of_N in Hb. rewrite Hb. lia.
  - apply Byte.of_N_None_iff in Hb. lia.
Qed.

Lemma b2z_inj b c : b2z b = b2z c → b = c.
Proof. intros H. rewrite <-(z2b_b2z b), <-(z2b_b2z c). by f_equal. Qed.

Lemma b2z_z2b_small z : 0 <= z < 256 → b2z (z2b z) = z.
Proof. intros. rewrite b2z_z2b. by apply Z.mod_small. Qed.

(** Shifting in one byte, as the readers of [encoding/binary] do. *)
Lemma lor_shiftl_byte a b :
  0 <= b < 256 → Z.lor (Z.shiftl a 8) b = a * 256 + b.
Proof.
  intros Hb. rewrite Z.shiftl_mul_pow2 by lia. change (2 ^ 8) with 256.
  rewrite <-Z.lxor_lor, <-Z.add_nocarry_lxor; try done.
  all: change 256 with (2 ^ 8); rewrite <-Z.shiftl_mul_pow2 by lia.
  all: apply Z.bits_inj'; intros n Hn; rewrite Z.land_spec, Z.bits_0.
  all: destruct (decide (n < 8)).
  all: try (rewrite Z.shiftl_spec_low by lia; done).
  all: rewrite (Z.testbit_eqb b) by lia; rewrite Z.div_small; [simpl; by rewrite andb_false_r|].
  all: split; [lia|]; apply Z.lt_le_trans with (2 ^ 8); [lia|].
  all: apply Z.pow_le_mono_r; lia.
Qed.

(** Exclusive or stays within a width. *)
Lemma lxor_range n a b :
  0 <= n → 0 <= a < 2 ^ n → 0 <= b < 2 ^ n → 0 <= Z.lxor a b < 2 ^ n.
Proof.
  intros Hn Ha Hb.
  replace (Z.lxor a b) with (Z.lxor a b mod 2 ^ n); [apply Z.mod_pos_bound; lia|].
  apply Z.bits_inj'. intros i Hi. destruct (decide (i < n)).
  - by apply Z.mod_pow2_bits_low.
  - rewrite Z.mod_pow2_bits_high, Z.lxor_spec by lia.
    assert (∀ x, 0 <= x < 2 ^ n → Z.testbit x i = false) as Hx.
    { intros x Hx. rewrite <-(Z.mod_small x (2 ^ n)) by done.
      apply Z.mod_pow2_bits_high. lia. }
    by rewrite !Hx.
Qed.

Lemma lxor_involutive a b : Z.lxor (Z.lxor a b) b = a.
Proof. by rewrite Z.lxor_assoc, Z.lxor_nilpotent, Z.lxor_0_r. Qed.

(** ** Big-endian integers *)

(** The number a big-endian sequence of bytes denotes. *)
Definition be_value (bs : list byte) : Z :=
  fold_left (λ acc b, Z.lor (Z.shiftl acc 8) (b2z b)) bs 0.

(** The [n] low-order bytes of [v], most significant first. *)
Fixpoint be_bytes (n : nat) (v : Z) : list byte :=
  match n with
  | O => []
  | S n => be_bytes n (Z.shiftr v 8) ++ [z2b v]
  end.

Lemma be_value_snoc bs b : be_value (bs ++ [b]) = be_value bs * 256 + b2z b.
Proof.
  unfold be_value. rewrite fold_left_app. simpl.
  apply lor_shiftl_byte, b2z_range.
Qed.

Lemma length_be_bytes n v : length (be_bytes n v) = n.
Proof. revert v. induction n; intros v; simpl; rewrite ?length_app, ?IHn; simpl; lia. Qed.

Lemma be_value_be_bytes n v : be_value (be_bytes n v) = v mod 256 ^ Z.of_nat n.
Proof.
  revert v. induction n as [|n IH]; intros v; cbn [be_bytes].
  { change (256 ^ Z.of_nat 0) with 1. by rewrite Z.mod_1_r. }
  rewrite be_value_snoc, IH, b2z_z2b, Z.shiftr_div_pow2 by lia.
  change (2 ^ 8) with 256. rewrite Nat2Z.inj_succ, Z.pow_succ_r by lia.
  rewrite Z.rem_mul_r by lia. lia.
Qed.

Lemma be_value_range bs : 0 <= be_value bs < 256 ^ Z.of_nat (length bs).
Proof.
  induction bs as [|b bs IH] using rev_ind; [done|].
  rewrite be_value_snoc, length_app. simpl length.
  rewrite Nat2Z.inj_add, Z.pow_add_r by lia. change (256 ^ Z.of_nat 1) with 256.
  pose proof (b2z_range b). nia.
Qed.

Lemma be_bytes_be_value bs : be_bytes (length bs) (be_value bs) = bs.
Proof.
  induction bs as [|b bs IH] using rev_ind; [done|].
  rewrite be_value_snoc, length_app, Nat.add_comm. simpl.
  pose proof (b2z_range b). f_equal.
  - rewrite Z.shiftr_div_pow2 by lia. change (2 ^ 8) with 256.
    rewrite Z.div_add_l, Z.div_small, Z.add_0_r by lia. apply IH.
  - f_equal. apply b2z_inj. rewrite b2z_z2b, Z.add_comm, Z.mod_add by lia.
    by apply Z.mod_small.
Qed.

Lemma be_value_inj bs cs :
  length bs = length cs → be_value bs = be_value cs → bs = cs.
Proof.
  intros Hl Hv. rewrite <-(be_bytes_be_value bs), <-(be_bytes_be_value cs).
  by rewrite Hl, Hv.
Qed.

Lemma be_value_be_bytes_small n v :
  0 <= v < 256 ^ Z.of_nat n → be_value (be_bytes n v) = v.
Proof. intros. rewrite be_value_be_bytes. by apply Z.mod_small. Qed.

#[local] Close Scope Z_scope.

(** [binary.BigEndian.Uint16], [Uint32] and their writers.  The readers index
    their argument, so they panic when it is too short. *)
Definition Uint16 {E} (bs : list byte) : outcome E Z :=
  match bs with
  | b0 :: b1 :: _ => Ok (be_value [b0; b1])
  | _ => Panic
  end.
Definition Uint32 {E} (bs : list byte) : outcome E Z :=
  match bs with
  | b0 :: b1 :: b2 :: b3 :: _ => Ok (be_value [b0; b1; b2; b3])
  | _ => Panic
  end.
Definition PutUint16 (v : Z) : list byte := be_bytes 2 v.
Definition PutUint32 (v : Z) : list byte := be_bytes 4 v.
#[global] Arguments PutUint16 : simpl never.
#[global] Arguments PutUint32 : simpl never.
#[global] Arguments be_value : simpl never.
#[global] Arguments b2z : simpl never.
#[global] Arguments z2b : simpl never.

(** ** Index and slice expressions *)
Definition index {E} (data : list byte) (i : nat) : outcome E byte :=
  match data !! i with Some b => Ok b | None => Panic end.
Definition slice {E} (data : list byte) (lo hi : nat) : outcome E (list byte) :=
  if decide (lo ≤ hi ∧ hi ≤ length data)
  then Ok (take (hi - lo) (drop lo data)) else Panic.

Section slices.
Context {E : Type}.
Implicit Types data : list byte.

Lemma slice_in data lo hi :
  lo ≤ hi → hi ≤ length data →
  slice (E:=E) data lo hi = Ok (take (hi - lo) (drop lo data)).
Proof. intros. unfold slice. by rewrite decide_True. Qed.

Lemma slice_app pre mid post lo hi :
  lo = length pre → hi = lo + length mid →
  slice (E:=E) (pre ++ mid ++ post) lo hi = Ok mid.
Proof.
  intros -> ->. rewrite slice_in by (rewrite ?length_app; lia).
  by rewrite drop_app_length, Nat.add_comm, Nat.add_sub, take_app_length.
Qed.

Lemma slice_out data lo hi :
  ¬ (lo ≤ hi ∧ hi ≤ length data) → slice (E:=E) data lo hi = Panic.
Proof. intros. unfold slice. by rewrite decide_False. Qed.

Lemma slice_returns data lo hi :
  lo ≤ hi → hi ≤ length data →
  ∃ bs, slice (E:=E) data lo hi = Ok bs ∧ length bs = hi - lo.
Proof.
  intros. rewrite slice_in by done. eexists; split; [done|].
  rewrite length_take, length_drop. lia.
Qed.

Lemma Uint16_be v bs :
  (0 ≤ v < 65536)%Z → Uint16 (E:=E) (PutUint16 v ++ bs) = Ok v.
Proof.
  intros Hv. unfold PutUint16. cbn [be_bytes app Uint16].
  f_equal. apply (be_value_be_bytes_small 2). done.
Qed.

Lemma Uint32_be v bs :
  (0 ≤ v < 2 ^ 32)%Z → Uint32 (E:=E) (PutUint32 v ++ bs) = Ok v.
Proof.
  intros Hv. unfold PutUint32. cbn [be_bytes app Uint32].
  f_equal. apply (be_value_be_bytes_small 4). done.
Qed.

Lemma Uint16_returns bs :
  2 ≤ length bs → ∃ v, Uint16 (E:=E) bs = Ok v ∧ (0 ≤ v < 65536)%Z.
Proof.
  destruct bs as [|b0 [|b1 bs]]; simpl; try lia. intros _.
  eexists; split; [done|]. apply (be_value_range [b0; b1]).
Qed.

Lemma Uint32_returns bs :
  4 ≤ length bs → ∃ v, Uint32 (E:=E) bs = Ok v ∧ (0 ≤ v < 2 ^ 32)%Z.
Proof.
  destruct bs as [|b0 [|b1 [|b2 [|b3 bs]]]]; simpl; try lia. intros _.
  eexists; split; [done|]. apply (be_value_range [b0; b1; b2; b3]).
Qed.

(** [binary.BigEndian.Uint16(data[lo:lo+2])], the reader every parser uses. *)
Lemma slice_Uint16 data lo :
  lo + 2 ≤ length data →
  ∃ v, (slice (E:=E) data lo (lo + 2) ≫= Uint16) = Ok v ∧ (0 ≤ v < 65536)%Z.
Proof.
  intros. destruct (slice_returns data lo (lo + 2)) as (bs & -> & Hl); [lia..|].
  apply Uint16_returns. lia.
Qed.

(** The reader at a known place of a composed message. *)
Lemma slice_Uint16_app pre v post lo hi :
  lo = length pre → hi = lo + 2 → (0 ≤ v < 65536)%Z →
  (slice (E:=E) (pre ++ PutUint16 v ++ post) lo hi ≫= Uint16) = Ok v.
Proof.
  intros Hlo Hhi Hv. rewrite slice_app by (rewrite ?length_be_bytes; done || lia).
  change (Uint16 (E:=E) (PutUint16 v) = Ok v).
  rewrite <-(app_nil_r (PutUint16 v)). by apply Uint16_be.
Qed.

Lemma slice_Uint32_app pre v post lo hi :
  lo = length pre → hi = lo + 4 → (0 ≤ v < 2 ^ 32)%Z →
  (slice (E:=E) (pre ++ PutUint32 v ++ post) lo hi ≫= Uint32) = Ok v.
Proof.
  intros Hlo Hhi Hv. rewrite slice_app by (rewrite ?length_be_bytes; done || lia).
  change (Uint32 (E:=E) (PutUint32 v) = Ok v).
  rewrite <-(app_nil_r (PutUint32 v)). by apply Uint32_be.
Qed.

(** Bytes before the slice do not matter, only how many there are. *)
Lemma slice_tail pre1 pre2 data lo hi :
  length pre1 = length pre2 → length pre1 ≤ lo →
  slice (E:=E) (pre1 ++ data) lo hi = slice (pre2 ++ data) lo hi.
Proof.
  intros Hl Hlo. unfold slice. rewrite !length_app, Hl.
  repeat split_decide; try done.
  by rewrite !drop_app_ge, Hl by lia.
Qed.

Lemma index_in data i : i < length data → ∃ b, index (E:=E) data i = Ok b.
Proof.
  intros H. unfold index.
  destruct (lookup_lt_is_Some_2 data i H) as [b ->]. eauto.
Qed.

Lemma index_app pre b post i :
  i = length pre → index (E:=E) (pre ++ b :: post) i = Ok b.
Proof. intros ->. unfold index. by rewrite list_lookup_middle. Qed.
End slices.
#[export] Hint Rewrite length_be_bytes : nexus.

Lemma length_PutUint16 v : length (PutUint16 v) = 2.
Proof. apply length_be_bytes. Qed.
Lemma length_PutUint32 v : length (PutUint32 v) = 4.
Proof. apply length_be_bytes. Qed.
#[export] Hint Rewrite length_PutUint16 length_PutUint32 : nexus.
