(* ===== verification/GoStrings.v ===== *)
(** * The functions of package strings the source uses

    [strings.Split] and [strings.Join] with a one-byte separator,
    [strings.HasSuffix], and the lemmas that relate them. *)
From S2P Require Import Prelude Bytes.

(** [strings.Split(s, sep)] for a one-byte separator: always at least one part,
    and [""] for the empty string. *)
Fixpoint Split (s : gostring) (sep : byte) : list gostring :=
  match s with
  | [] => [[]]
  | c :: s =>
    if decide (c = sep) then [] :: Split s sep
    else match Split s sep with
         | [] => [[c]]
         | part :: parts => (c :: part) :: parts
         end
  end.

(** [strings.Join(parts, sep)]. *)
Fixpoint Join (parts : list gostring) (sep : byte) : gostring :=
  match parts with
  | [] => []
  | [part] => part
  | part :: parts => part ++ sep :: Join parts sep
  end.

(** [strings.HasSuffix]. *)
Definition HasSuffix (s suffix : gostring) : bool :=
  bool_decide (length suffix ≤ length s
    ∧ drop (length s - length suffix) s = suffix).

Section lemmas.
Context (sep : byte).
Implicit Types (s : gostring) (part : gostring) (parts : list gostring).

Lemma Split_ne s : Split s sep ≠ [].
Proof. destruct s; simpl; repeat case_match; done. Qed.

Lemma Join_cons part parts :
  parts ≠ [] → Join (part :: parts) sep = part ++ sep :: Join parts sep.
Proof. by destruct parts. Qed.

Lemma Join_Split s : Join (Split s sep) sep = s.
Proof.
  induction s as [|c s IH]; [done|]. simpl. pose proof (Split_ne s).
  case_decide; subst.
  - rewrite Join_cons by done. by rewrite IH.
  - destruct (Split s sep) as [|part parts] eqn:Hs; [done|].
    destruct parts; simpl in *; by rewrite IH.
Qed.

Lemma Split_part part : sep ∉ part → Split part sep = [part].
Proof.
  induction part as [|c part IH]; simpl; [done|]. intros Hc.
  rewrite decide_False by set_solver. by rewrite IH by set_solver.
Qed.

Lemma Split_app part s :
  sep ∉ part → Split (part ++ sep :: s) sep = part :: Split s sep.
Proof.
  induction part as [|c part IH]; simpl; intros Hc.
  - by rewrite decide_True.
  - rewrite decide_False by set_solver. by rewrite IH by set_solver.
Qed.

Lemma Split_app_sep s t : Split (s ++ sep :: t) sep = Split s sep ++ Split t sep.
Proof.
  induction s as [|c s IH]; simpl; [by rewrite decide_True|].
  case_decide; [by rewrite IH|]. rewrite IH. pose proof (Split_ne s). by destruct (Split s sep).
Qed.

Lemma Split_Join parts :
  parts ≠ [] → Forall (λ part, sep ∉ part) parts → Split (Join parts sep) sep = parts.
Proof.
  intros Hne Hp. induction Hp as [|part parts Hpart Hp IH]; [done|].
  destruct (decide (parts = [])) as [->|Hparts].
  - by apply Split_part.
  - rewrite Join_cons by done. rewrite Split_app by done. by rewrite IH.
Qed.

(** Each part of a split is free of the separator, so [Split] inverts [Join]
    exactly on the lists it produces. *)
Lemma Split_Forall s : Forall (λ part, sep ∉ part) (Split s sep).
Proof.
  induction s as [|c s IH]; simpl; [repeat constructor; set_solver|].
  case_decide; [constructor; [set_solver|done]|].
  destruct (Split s sep) as [|part parts]; inversion IH; subst;
    repeat constructor; set_solver.
Qed.

(** Joining with the last part already joined. *)
Lemma Join_app parts1 parts2 :
  parts2 ≠ [] → Join (parts1 ++ parts2) sep = Join (parts1 ++ [Join parts2 sep]) sep.
Proof.
  intros H2. induction parts1 as [|part parts1 IH]; [done|].
  rewrite <-!app_comm_cons, !Join_cons by (destruct parts1; done).
  by rewrite IH.
Qed.

Lemma HasSuffix_app s suffix : HasSuffix (s ++ suffix) suffix = true.
Proof.
  apply bool_decide_eq_true. rewrite length_app. split; [lia|].
  replace (_ + _ - _) with (length s) by lia. apply drop_app_length.
Qed.

Lemma HasSuffix_spec s suffix :
  HasSuffix s suffix = true ↔ ∃ p, s = p ++ suffix.
Proof.
  split; [|intros [p ->]; apply HasSuffix_app].
  intros [Hl Hd]%bool_decide_eq_true.
  exists (take (length s - length suffix) s).
  by rewrite <-Hd at 2; rewrite take_drop.
Qed.

Lemma HasSuffix_length s suffix :
  HasSuffix s suffix = true → length suffix ≤ length s.
Proof. by intros [? _]%bool_decide_eq_true. Qed.
End lemmas.
