(* ===== verification/NetIP.v ===== *)
(** * net.IP

    The part of package net the source uses on addresses that are already
    bytes: [net.IPv4], [IP.To4], [IP.Equal].  A [net.IP] is a byte slice of
    length 4 or 16; [nil] is the empty one. *)
From S2P Require Import Prelude Bytes.
From Stdlib Require Import Init.Byte.

Abbreviation IP := (list Byte.byte).

Definition v4InV6Prefix : list byte := replicate 10 x00 ++ [xff; xff].

(** [net.IPv4(a, b, c, d)], the sixteen-byte form. *)
Definition IPv4 (a b c d : byte) : IP := v4InV6Prefix ++ [a; b; c; d].

(** [ip.To4()], [nil] when the address is not an IPv4 address. *)
Definition To4 (ip : IP) : IP :=
  if decide (length ip = 4) then ip
  else if decide (length ip = 16 ∧ take 12 ip = v4InV6Prefix) then drop 12 ip
  else [].

(** [ip.Equal(x)]: an IPv4 address and its sixteen-byte form are equal. *)
Definition IP_Equal (ip x : IP) : bool :=
  if decide (length ip = length x) then bool_decide (ip = x)
  else if decide (length ip = 4 ∧ length x = 16)
  then bool_decide (take 12 x = v4InV6Prefix ∧ ip = drop 12 x)
  else if decide (length ip = 16 ∧ length x = 4)
  then bool_decide (take 12 ip = v4InV6Prefix ∧ drop 12 ip = x)
  else false.

(** The address in its long form; [IP_Equal] compares these. *)
Definition IP_canon (ip : IP) : IP :=
  if decide (length ip = 4) then v4InV6Prefix ++ ip else ip.

Lemma IP_Equal_canon ip x : IP_Equal ip x = true ↔ IP_canon ip = IP_canon x.
Proof.
  unfold IP_Equal, IP_canon.
  assert (∀ y z : IP, length y = 16 →
    (take 12 y = v4InV6Prefix ∧ z = drop 12 y) ↔ v4InV6Prefix ++ z = y) as Hp.
  { intros y z Hy. split; [intros [<- ->]; apply take_drop|].
    intros <-. by rewrite take_app_at, drop_app_at. }
  repeat split_decide; rewrite ?bool_decide_eq_true; try lia.
  - split; [by intros ->|]. by intros ?%(inj (app v4InV6Prefix)).
  - done.
  - apply Hp. lia.
  - specialize (Hp ip x ltac:(lia)). naive_solver.
  - split; [done|]. intros Heq%(f_equal length). rewrite length_app in Heq. simpl in Heq. lia.
  - split; [done|]. intros Heq%(f_equal length). rewrite length_app in Heq. simpl in Heq. lia.
  - split; [done|]. by intros ->.
Qed.

Lemma length_To4 ip : length (To4 ip) = 4 ∨ To4 ip = [].
Proof.
  unfold To4. repeat case_decide; auto. left. rewrite length_drop. lia.
Qed.

Lemma To4_IPv4 a b c d : To4 (IPv4 a b c d) = [a; b; c; d].
Proof. done. Qed.

Lemma To4_short ip : length ip = 4 → To4 ip = ip.
Proof. intros. unfold To4. by rewrite decide_True. Qed.

(** Equal addresses as a setoid: [To4] does not distinguish them. *)
Definition same_addr (ip x : IP) : Prop := IP_Equal ip x = true.

#[export] Instance same_addr_equiv : Equivalence same_addr.
Proof.
  unfold same_addr. split; repeat intro; rewrite IP_Equal_canon in *; congruence.
Qed.

Lemma To4_canon ip : To4 (IP_canon ip) = To4 ip.
Proof.
  unfold IP_canon. case_decide as Hl; [|done]. rewrite (To4_short ip) by done.
  destruct ip as [|a [|b [|c [|d [|]]]]]; try done.
Qed.

#[export] Instance To4_proper : Proper (same_addr ==> eq) To4.
Proof.
  intros ip x H%IP_Equal_canon. by rewrite <-To4_canon, H, To4_canon.
Qed.
