(* ===== verification/NetParse.v ===== *)
(** * Parsing addresses: net.ParseCIDR, net.ParseIP

    The standard library's [netip.ParseAddr], with its IPv4 and IPv6 forms, and
    [net.ParseCIDR] and [net.ParseIP] on top of it. *)
From S2P Require Import Prelude Bytes GoStrings NetIP.
From Stdlib Require Import Init.Byte.

Definition slash : byte := x2f.
Definition colon : byte := x3a.
Definition full_stop : byte := x2e.
Definition percent : byte := x25.

Definition dec_digit (c : byte) : option Z :=
  let n := (b2z c - 48)%Z in if decide (0 ≤ n ≤ 9)%Z then Some n else None.
Definition hex_digit (c : byte) : option Z :=
  let n := b2z c in
  if decide (48 ≤ n ≤ 57)%Z then Some (n - 48)%Z
  else if decide (97 ≤ n ≤ 102)%Z then Some (n - 97 + 10)%Z
  else if decide (65 ≤ n ≤ 70)%Z then Some (n - 65 + 10)%Z
  else None.

(** [strings.Cut(s, sep)] at the first [sep]. *)
Fixpoint Cut (s : gostring) (sep : byte) : option (gostring * gostring) :=
  match s with
  | [] => None
  | c :: s => if decide (c = sep) then Some ([], s) else prod_map (cons c) id <$> Cut s sep
  end.

(** ** IPv4 *)

(** A field of at most 255, without leading zeros; [digLen] digits make [val]. *)
Fixpoint octet_from (digLen : nat) (val : Z) (s : gostring) : option byte :=
  match s with
  | [] => if decide (digLen = 0) then None else Some (z2b val)
  | c :: s =>
    d ← dec_digit c;
    if decide (digLen = 1 ∧ val = 0%Z) then None else
    let val := (val * 10 + d)%Z in
    if decide (val > 255)%Z then None else octet_from (S digLen) val s
  end.
Definition parseIPv4 (s : gostring) : option (list byte) :=
  fields ← mapM (octet_from 0 0) (Split s full_stop);
  if decide (length fields = 4) then Some fields else None.

(** ** IPv6 *)

(** The value of the leading hex digits, how many they are, and what follows;
    more than four are too many. *)
Fixpoint hex_field (off : nat) (acc : Z) (s : gostring) : option (Z * nat * gostring) :=
  match s with
  | [] => Some (acc, off, [])
  | c :: s' =>
    match hex_digit c with
    | None => Some (acc, off, s)
    | Some d => if decide (3 < off) then None else hex_field (S off) (acc * 16 + d)%Z s'
    end
  end.

(** The fields read so far, the position of the ellipsis among them, and what is
    left to read; a field is two bytes, so eight rounds fill the address. *)
Fixpoint ipv6_fields (fuel : nat) (ip : list byte) (ellipsis : option nat) (s : gostring) :
    option (list byte * option nat) :=
  match fuel with
  | O => if decide (s = []) then Some (ip, ellipsis) else None
  | S fuel =>
    if decide (16 ≤ length ip) then (if decide (s = []) then Some (ip, ellipsis) else None) else
    '(acc, off, rest) ← hex_field 0 0 s;
    if decide (off = 0) then None else
    if decide (head rest = Some full_stop) then
      if decide (ellipsis = None ∧ length ip ≠ 12) then None
      else if decide (16 < length ip + 4) then None
      else fields ← parseIPv4 s; Some (ip ++ fields, ellipsis)
    else
      let ip := ip ++ [z2b (Z.shiftr acc 8); z2b acc] in
      match rest with
      | [] => Some (ip, ellipsis)
      | c :: rest =>
        if decide (c ≠ colon) then None else
        match rest with
        | [] => None
        | c :: rest' =>
          if decide (c = colon) then
            match ellipsis with
            | Some _ => None
            | None =>
              match rest' with
              | [] => Some (ip, Some (length ip))
              | _ => ipv6_fields fuel ip (Some (length ip)) rest'
              end
            end
          else ipv6_fields fuel ip ellipsis rest
        end
      end
  end.

Definition expand (ip : list byte) (ellipsis : option nat) : option (list byte) :=
  match ellipsis with
  | None => if decide (length ip < 16) then None else Some ip
  | Some at_ =>
    if decide (length ip < 16)
    then Some (take at_ ip ++ replicate (16 - length ip) x00 ++ drop at_ ip) else None
  end.

(** An address without a zone. *)
Definition parseIPv6 (s : gostring) : option (list byte) :=
  match s with
  | c1 :: c2 :: s' =>
    if decide (c1 = colon ∧ c2 = colon) then
      if decide (s' = []) then Some (replicate 16 x00)
      else '(ip, ellipsis) ← ipv6_fields 8 [] (Some 0) s'; expand ip ellipsis
    else '(ip, ellipsis) ← ipv6_fields 8 [] None s; expand ip ellipsis
  | _ => '(ip, ellipsis) ← ipv6_fields 8 [] None s; expand ip ellipsis
  end.

(** [netip.ParseAddr], for addresses without a zone: four or sixteen bytes. *)
Fixpoint first_of (cs : list byte) (s : gostring) : option byte :=
  match s with
  | [] => None
  | c :: s => if decide (c ∈ cs) then Some c else first_of cs s
  end.
Definition ParseAddr (s : gostring) : option (list byte) :=
  match first_of [full_stop; colon; percent] s with
  | Some c =>
    if decide (c = full_stop) then parseIPv4 s
    else if decide (c = colon ∧ percent ∉ s) then parseIPv6 s
    else None
  | None => None
  end.
Definition As16 (addr : list byte) : IP :=
  if decide (length addr = 4) then v4InV6Prefix ++ addr else addr.

(** [net.ParseIP], [nil] as [None]. *)
Definition ParseIP (s : gostring) : option IP := As16 <$> ParseAddr s.

(** ** Prefixes *)
Fixpoint dtoi_from (n : Z) (s : gostring) : option Z :=
  match s with
  | [] => Some n
  | c :: s =>
    d ← dec_digit c;
    let n := (n * 10 + d)%Z in
    if decide (16777215 ≤ n)%Z then None else dtoi_from n s
  end.
(** A number that is all of the string. *)
Definition dtoi (s : gostring) : option Z :=
  if decide (s = []) then None else dtoi_from 0 s.

Fixpoint CIDRMask (n : Z) (len : nat) : list byte :=
  match len with
  | O => []
  | S len =>
    if decide (8 ≤ n)%Z then xff :: CIDRMask (n - 8) len
    else z2b (255 - Z.shiftr 255 n) :: CIDRMask 0 len
  end.
Definition Mask (ip mask : list byte) : IP :=
  let mask := if decide (length mask = 16 ∧ length ip = 4 ∧ take 12 mask = replicate 12 xff)
              then drop 12 mask else mask in
  let ip := if decide (length mask = 4 ∧ length ip = 16 ∧ take 12 ip = v4InV6Prefix)
            then drop 12 ip else ip in
  if decide (length ip = length mask)
  then zip_with (λ b m, z2b (Z.land (b2z b) (b2z m))) ip mask else [].

(** The address, and the one of its network. *)
Definition ParseCIDR (s : gostring) : option (IP * IP) :=
  '(addr, mask) ← Cut s slash;
  ip ← ParseAddr addr;
  n ← dtoi mask;
  if decide (n > 8 * Z.of_nat (length ip))%Z then None
  else Some (As16 ip, Mask (As16 ip) (CIDRMask n (length ip))).

Example ParseCIDR_v4 : ParseCIDR (str "100.64.0.9/10") =
  Some (IPv4 x64 x40 x00 x09, [x64; x40; x00; x00]).
Proof. vm_compute. reflexivity. Qed.
Example ParseCIDR_v6 : ParseCIDR (str "fd00:1::a:192.0.2.1/32") =
  Some ([xfd; x00; x00; x01; x00; x00; x00; x00; x00; x00; x00; x0a; xc0; x00; x02; x01],
        [xfd; x00; x00; x01] ++ replicate 12 x00).
Proof. vm_compute. reflexivity. Qed.
Example ParseCIDR_bad :
  (λ s, ParseCIDR (str s)) <$> ["1.2.3/8"; "1.2.3.04/8"; "1.2.3.256/8"; "1.2.3.4/33"; "1.2.3.4";
    ":::1/8"; "1::2::3/8"; "1:2:3:4:5:6:7:8::/64"; "fe80::1%eth0/64"; "12345::/16"; "/8"]%string
  = replicate 11 None.
Proof. vm_compute. reflexivity. Qed.

(** ** Dotted addresses *)
Definition digit (n : Z) : byte := z2b (48 + n).
Definition print_octet (b : byte) : gostring :=
  let n := b2z b in
  if decide (n < 10)%Z then [digit n]
  else if decide (n < 100)%Z then [digit (n / 10); digit (n mod 10)]
  else [digit (n / 100); digit (n / 10 mod 10); digit (n mod 10)].
Definition dotted (a b c d : byte) : gostring := Join (print_octet <$> [a; b; c; d]) full_stop.

Lemma octet_print b : octet_from 0 0 (print_octet b) = Some b.
Proof. destruct b; vm_compute; reflexivity. Qed.
Lemma print_octet_clean b c :
  c ∈ [full_stop; slash; colon; percent] → c ∉ print_octet b.
Proof.
  intros Hc. apply (bool_decide_unpack (c ∉ print_octet b)).
  rewrite !elem_of_cons, elem_of_nil in Hc.
  destruct Hc as [->|[->|[->|[->|[]]]]]; destruct b; vm_compute; exact I.
Qed.

Lemma dotted_clean a b c d s :
  s ∈ [slash; colon; percent] → s ∉ dotted a b c d.
Proof.
  intros Hs. assert (s ∈ [full_stop; slash; colon; percent] ∧ s ≠ full_stop) as [Hs' Hne].
  { split; [set_solver|]. rewrite !elem_of_cons, elem_of_nil in Hs. naive_solver. }
  unfold dotted. simpl. rewrite !not_elem_of_app, !not_elem_of_cons, !not_elem_of_app,
    !not_elem_of_cons, !not_elem_of_app, !not_elem_of_cons.
  pose proof (λ b, print_octet_clean b s Hs'). naive_solver.
Qed.

Lemma parseIPv4_dotted a b c d : parseIPv4 (dotted a b c d) = Some [a; b; c; d].
Proof.
  unfold parseIPv4, dotted. rewrite Split_Join.
  - simpl. by rewrite !octet_print.
  - done.
  - repeat constructor; apply print_octet_clean; set_solver.
Qed.

Lemma first_of_app cs s c t :
  Forall (λ c, c ∉ cs) s → c ∈ cs → first_of cs (s ++ c :: t) = Some c.
Proof.
  intros Hs Hc. induction Hs as [|x s Hx Hs IH]; simpl.
  - by rewrite decide_True.
  - by rewrite decide_False.
Qed.

Lemma ParseAddr_dotted a b c d : ParseAddr (dotted a b c d) = Some [a; b; c; d].
Proof.
  unfold ParseAddr. assert (first_of [full_stop; colon; percent] (dotted a b c d) = Some full_stop)
    as ->; [|apply parseIPv4_dotted].
  unfold dotted. simpl. apply first_of_app; [|set_solver].
  apply Forall_forall. intros x Hx Hin. eapply print_octet_clean, Hx. set_solver.
Qed.

Lemma Cut_app s sep t : sep ∉ s → Cut (s ++ sep :: t) sep = Some (s, t).
Proof.
  induction s as [|c s IH]; intros Hs; simpl.
  - by rewrite decide_True.
  - rewrite decide_False by set_solver. by rewrite IH by set_solver.
Qed.

(** A dotted address with a prefix length parses to it. *)
Lemma ParseCIDR_dotted a b c d mask n :
  dtoi mask = Some n → (n ≤ 32)%Z →
  ParseCIDR (dotted a b c d ++ slash :: mask)
  = Some (IPv4 a b c d, Mask (IPv4 a b c d) (CIDRMask n 4)).
Proof.
  intros Hn Hle. unfold ParseCIDR. rewrite Cut_app by (apply dotted_clean; set_solver).
  simpl. rewrite ParseAddr_dotted. simpl. rewrite Hn. simpl. by rewrite decide_False by lia.
Qed.

Definition network (addr : list byte) (n : Z) : list byte :=
  zip_with (λ b m, z2b (Z.land (b2z b) (b2z m))) addr (CIDRMask n (length addr)).

Lemma length_CIDRMask n len : length (CIDRMask n len) = len.
Proof.
  revert n. induction len as [|len IH]; intros n; simpl; [done|].
  case_decide; simpl; by rewrite IH.
Qed.

Lemma length_network addr n : length (network addr n) = length addr.
Proof. unfold network. rewrite length_zip_with, length_CIDRMask. lia. Qed.

Lemma Mask_IPv4 a b c d n : Mask (IPv4 a b c d) (CIDRMask n 4) = network [a; b; c; d] n.
Proof.
  unfold Mask. cbv zeta. rewrite (decide_False (P:=_ = 16 ∧ _)).
  - rewrite (decide_True (P:=_ = 4 ∧ _)) by (by rewrite length_CIDRMask).
    by rewrite decide_True by (by rewrite length_CIDRMask).
  - rewrite length_CIDRMask. by intros [? _].
Qed.

Lemma network_32 a b c d : network [a; b; c; d] 32 = [a; b; c; d].
Proof.
  assert (∀ b, z2b (Z.land (b2z b) (b2z xff)) = b) as Hb by (intros x; by destruct x).
  unfold network. simpl. by rewrite !Hb.
Qed.
