(* ===== verification/GoOs.v ===== *)
(** * The part of package os that reads the environment

    [os.Expand] and [os.ExpandEnv], which LoadConfig runs over the text of the
    configuration file before it is parsed.  The environment is a function
    from names to values ([os.Getenv]: the empty string when unset). *)
From S2P Require Import Prelude Bytes.
From Stdlib Require Import Init.Byte.

Definition in_range (lo hi c : byte) : bool :=
  bool_decide (b2z lo ≤ b2z c ∧ b2z c ≤ b2z hi)%Z.

(** [isShellSpecialVar]: one of [*#$@!?-] or a digit. *)
Definition isShellSpecialVar (c : byte) : bool :=
  bool_decide (c ∈ [x2a; x23; x24; x40; x21; x3f; x2d]) || in_range x30 x39 c.
(** [isAlphaNum]: underscore, digits, letters. *)
Definition isAlphaNum (c : byte) : bool :=
  bool_decide (c = x5f) || in_range x30 x39 c || in_range x61 x7a c || in_range x41 x5a c.

(** The bytes of [s] before the first closing brace, if there is one. *)
Fixpoint upto_brace (s : gostring) : option gostring :=
  match s with
  | [] => None
  | c :: s => if decide (c = x7d) then Some [] else cons c <$> upto_brace s
  end.

Fixpoint take_alnum (s : gostring) : gostring :=
  match s with
  | [] => []
  | c :: s => if isAlphaNum c then c :: take_alnum s else []
  end.

(** [getShellName(s)]: the variable's name and how many bytes of [s] it takes;
    [s] is not empty. *)
Definition getShellName (s : gostring) : gostring * nat :=
  match s with
  | [] => ([], 0)
  | c :: rest =>
    if decide (c = x7b) then
      match rest with
      | c1 :: x7d :: _ =>
        if isShellSpecialVar c1 then ([c1], 3)
        else match upto_brace rest with
             | Some [] => ([], 2)
             | Some name => (name, length name + 2)
             | None => ([], 1)
             end
      | _ => match upto_brace rest with
             | Some [] => ([], 2)
             | Some name => (name, length name + 2)
             | None => ([], 1)
             end
      end
    else if isShellSpecialVar c then ([c], 1)
    else (take_alnum s, length (take_alnum s))
  end.

(** [os.Expand(s, mapping)].  [skip] bytes of [s] belong to the variable
    reference just expanded. *)
Fixpoint Expand_from (mapping : gostring → gostring) (skip : nat) (s : gostring) : gostring :=
  match s with
  | [] => []
  | c :: rest =>
    match skip with
    | S skip => Expand_from mapping skip rest
    | O =>
      if decide (c = x24 ∧ rest ≠ []) then
        let '(name, w) := getShellName rest in
        (if decide (name = []) then if decide (0 < w) then [] else [c] else mapping name)
          ++ Expand_from mapping w rest
      else c :: Expand_from mapping 0 rest
    end
  end.
Definition Expand (s : gostring) (mapping : gostring → gostring) : gostring :=
  Expand_from mapping 0 s.
Definition ExpandEnv (getenv : gostring → gostring) (s : gostring) : gostring :=
  Expand s getenv.

(** Text without a dollar sign is left as it is. *)
Lemma ExpandEnv_plain getenv s : x24 ∉ s → ExpandEnv getenv s = s.
Proof.
  unfold ExpandEnv, Expand. induction s as [|c s IH]; simpl; [done|]. intros Hc.
  rewrite decide_False by set_solver. by rewrite IH by set_solver.
Qed.

Example ExpandEnv_examples :
  let env (name : gostring) := if decide (name = str "NODE") then str "brigid" else [] in
  ExpandEnv env (str "a $NODE-1 ${NODE}x $$ ${} ${NO $") = str "a brigid-1 brigidx   NO $".
Proof. vm_compute. reflexivity. Qed.
