(* ===== verification/Utf8.v ===== *)
(** * UTF-8, as package unicode/utf8 decodes it

    A Go string is any sequence of bytes.  Ranging over it yields its valid
    sequences and, for each byte that starts none, the replacement character. *)
From S2P Require Import Prelude Bytes GoOs.
From Stdlib Require Import Init.Byte.

Definition continuation (b : byte) : bool := in_range x80 xbf b.

(** The length of the sequence a string starts with, if it is a valid one. *)
Definition rune_size (s : list byte) : option nat :=
  match s with
  | [] => None
  | b0 :: s =>
    if in_range x00 x7f b0 then Some 1 else
    match s with
    | [] => None
    | b1 :: s =>
      if in_range xc2 xdf b0 && continuation b1 then Some 2 else
      match s with
      | [] => None
      | b2 :: s =>
        if (bool_decide (b0 = xe0) && in_range xa0 xbf b1
            || (in_range xe1 xec b0 || in_range xee xef b0) && continuation b1
            || bool_decide (b0 = xed) && in_range x80 x9f b1) && continuation b2
        then Some 3 else
        match s with
        | [] => None
        | b3 :: s =>
          if (bool_decide (b0 = xf0) && in_range x90 xbf b1
              || in_range xf1 xf3 b0 && continuation b1
              || bool_decide (b0 = xf4) && in_range x80 x8f b1)
             && continuation b2 && continuation b3
          then Some 4 else None
        end
      end
    end
  end.

(** A valid sequence, or a byte that starts none. *)
Inductive rune_text := Good (bs : list byte) | Bad.

#[export] Instance rune_text_eq_dec : EqDecision rune_text.
Proof. solve_decision. Defined.

(** The sequences of a string, [skip] bytes of the first one already taken. *)
Fixpoint runes_from (skip : nat) (s : list byte) : list rune_text :=
  match s with
  | [] => []
  | _ :: t =>
    match skip with
    | S skip => runes_from skip t
    | O =>
      match rune_size s with
      | Some n => Good (take n s) :: runes_from (pred n) t
      | None => Bad :: runes_from 0 t
      end
    end
  end.
Definition runes (s : list byte) : list rune_text := runes_from 0 s.

Definition replacement : list byte := [xef; xbf; xbd].
Definition rune_bytes (r : rune_text) : list byte := match r with Good bs => bs | Bad => replacement end.
(** A string with what is not UTF-8 in it replaced. *)
Definition sanitize (s : list byte) : list byte := concat (rune_bytes <$> runes s).
Definition utf8_valid (s : list byte) : bool := bool_decide (Bad ∉ runes s).

(** [utf8.EncodeRune] of a code point. *)
Definition encode_rune (r : Z) : list byte :=
  (if decide (r < 0 ∨ 1114111 < r ∨ 55296 ≤ r ≤ 57343) then replacement
   else if decide (r < 128) then [z2b r]
   else if decide (r < 2048) then [z2b (192 + r / 64); z2b (128 + r mod 64)]
   else if decide (r < 65536) then
     [z2b (224 + r / 4096); z2b (128 + r / 64 mod 64); z2b (128 + r mod 64)]
   else [z2b (240 + r / 262144); z2b (128 + r / 4096 mod 64); z2b (128 + r / 64 mod 64);
         z2b (128 + r mod 64)])%Z.

(** ** Lemmas *)
Lemma runes_from_skip x t : runes_from (length x) (x ++ t) = runes t.
Proof. induction x as [|b x IH]; [|exact IH]. by destruct t. Qed.

(** A sequence is told from its own bytes. *)
Lemma rune_size_local s n :
  rune_size s = Some n →
  0 < n ∧ n ≤ length s ∧ (∀ t, rune_size (take n s ++ t) = Some n)
  ∧ (n = 1 → ∃ b, take n s = [b] ∧ in_range x00 x7f b = true)
  ∧ (1 < n → Forall (λ b, in_range x80 xff b = true) (take n s)).
Proof.
  assert (∀ b, in_range x00 x7f b = false → in_range x80 xff b = true) as Hhigh by by intros [].
  assert (∀ b, in_range x80 xff b = false → continuation b = false) as Hcont by by intros [].
  assert (∀ b, continuation b = true → in_range x80 xff b = true) as Hcont'.
  { intros b Hb. destruct (in_range x80 xff b) eqn:H; [done|]. apply Hcont in H. congruence. }
  assert (∀ b l h, in_range l h b = true → (b2z x80 ≤ b2z l)%Z → in_range x80 xff b = true) as Hr.
  { intros b l h Hb Hl. unfold in_range in *. apply bool_decide_eq_true in Hb as [H1 H2].
    apply bool_decide_eq_true. pose proof (b2z_range b). split; [lia|]. change (b2z xff) with 255%Z. lia. }
  destruct s as [|b0 [|b1 [|b2 [|b3 s]]]]; cbn [rune_size]; [done|..].
  all: destruct (in_range x00 x7f b0) eqn:H0;
    [intros [= <-]; simpl; rewrite H0; split_and!; [lia..|done|by intros _; exists b0|lia]|]; try done.
  all: destruct (in_range xc2 xdf b0 && continuation b1) eqn:H1;
    [intros [= <-]; simpl; rewrite H0, H1; apply andb_true_iff in H1 as [? ?];
     split_and!; [lia..|done|lia|]; intros _; repeat constructor; auto|]; try done.
  all: match goal with |- context [if ?c then Some 3 else _] => destruct c eqn:H2 end;
    [intros [= <-]; simpl; rewrite H0, H1, H2; split_and!; [lia..|done|lia|]; intros _;
     apply andb_true_iff in H2 as [H2 ?]; repeat constructor; auto|]; try done.
  1,2: apply orb_true_iff in H2 as [H2%orb_true_iff|H2]; [destruct H2 as [H2|H2]|];
    apply andb_true_iff in H2 as [_ H2]; (eapply Hr; [exact H2|vm_compute; discriminate]).
  match goal with |- context [if ?c then Some 4 else _] => destruct c eqn:H3 end; [|done].
  intros [= <-]; simpl; rewrite H0, H1, H2, H3; split_and!; [lia..|done|lia|]; intros _.
  apply andb_true_iff in H3 as [[H3 ?]%andb_true_iff ?]; repeat constructor; auto.
  apply orb_true_iff in H3 as [H3%orb_true_iff|H3]; [destruct H3 as [H3|H3]|];
    apply andb_true_iff in H3 as [_ H3]; (eapply Hr; [exact H3|vm_compute; discriminate]).
Qed.

Lemma runes_cons s n :
  rune_size s = Some n → runes s = Good (take n s) :: runes (drop n s).
Proof.
  intros Hn. destruct (rune_size_local s n Hn) as (Hpos & Hle & _).
  destruct s as [|b s]; [done|]. unfold runes at 1. cbn [runes_from]. rewrite Hn. f_equal.
  destruct n as [|n]; [lia|]. cbn [pred drop length] in *.
  rewrite <-(take_drop n s) at 1. rewrite <-(runes_from_skip (take n s)). f_equal.
  rewrite length_take. lia.
Qed.

Lemma runes_bad b s : rune_size (b :: s) = None → runes (b :: s) = Bad :: runes s.
Proof. intros Hn. unfold runes at 1. cbn [runes_from]. by rewrite Hn. Qed.

(** Induction on a string by what it decodes to. *)
Lemma rune_ind (P : list byte → Prop) :
  P [] →
  (∀ bs s, rune_size (bs ++ s) = Some (length bs) → P s → P (bs ++ s)) →
  (∀ b s, rune_size (b :: s) = None → P s → P (b :: s)) →
  ∀ s, P s.
Proof.
  intros Hnil Hgood Hbad s. induction s as [s IH] using (induction_ltof1 _ length).
  unfold ltof in IH. destruct s as [|b s]; [done|]. destruct (rune_size (b :: s)) as [n|] eqn:Hn.
  - destruct (rune_size_local _ n Hn) as (Hpos & Hle & _). rewrite <-(take_drop n (b :: s)).
    apply Hgood.
    + rewrite take_drop, Hn, length_take. f_equal. lia.
    + apply IH. rewrite length_drop. simpl in *. lia.
  - apply Hbad; [done|]. apply IH. simpl. lia.
Qed.

Lemma runes_good bs s : rune_size (bs ++ s) = Some (length bs) → runes (bs ++ s) = Good bs :: runes s.
Proof. intros Hn. by rewrite (runes_cons _ _ Hn), take_app_length, drop_app_length. Qed.

Lemma sanitize_valid s : utf8_valid s = true → sanitize s = s.
Proof.
  unfold utf8_valid, sanitize. intros Hv%bool_decide_eq_true. revert Hv.
  induction s as [|bs s Hn IH|b s Hn IH] using rune_ind; [done|..].
  - rewrite (runes_good _ _ Hn). intros Hv.
    etrans; [|apply (f_equal (app bs)), IH; set_solver]. done.
  - rewrite (runes_bad _ _ Hn). set_solver.
Qed.

(** Text in ASCII is valid. *)
Lemma utf8_valid_ascii s : Forall (λ b, in_range x00 x7f b = true) s → utf8_valid s = true.
Proof.
  intros Hs. apply bool_decide_eq_true. induction Hs as [|b s Hb _ IH]; [by apply not_elem_of_nil|].
  change (b :: s) with ([b] ++ s). rewrite (runes_good [b] s); [set_solver|]. simpl. by rewrite Hb.
Qed.

Example runes_vectors :
  runes [x61; xc3; xa9; xe2; x82; xac; xf0; x9f; x98; x80; xc3; x28; xed; xa0; x80]
  = [Good [x61]; Good [xc3; xa9]; Good [xe2; x82; xac]; Good [xf0; x9f; x98; x80]; Bad; Good [x28];
     Bad; Bad; Bad].
Proof. reflexivity. Qed.
