(* ===== verification/Config.v ===== *)
(** * config.go: the configuration record, its defaults and overrides

    Durations are nanoseconds.  The YAML parser ([gopkg.in/yaml.v3]) is code
    outside the repository and a parameter of [LoadConfig]; so are the file
    system and the environment it reads. *)
From S2P Require Import Prelude Bytes GoOs.

Record WireGuardConf := mkWireGuardConf {
  wg_Interface : gostring; wg_ListenPort : Z; wg_MTU : Z; wg_KeyDir : gostring }.
Record STUNConf := mkSTUNConf {
  stun_Servers : list gostring; stun_ListenAddr : gostring; stun_RefreshInterval : Z }.
Record TLSConf := mkTLSConf {
  tls_CertFile : gostring; tls_KeyFile : gostring; tls_CAFile : gostring }.
Record RelayConf := mkRelayConf {
  relay_ListenAddr : gostring; relay_TLS : TLSConf; relay_FallbackTimeout : Z }.
Record MQTTConf := mkMQTTConf {
  mqtt_Broker : gostring; mqtt_TopicPrefix : gostring; mqtt_ClientID : gostring;
  mqtt_HeartbeatInterval : Z; mqtt_Username : gostring; mqtt_Password : gostring }.
Record DNSConf := mkDNSConf {
  dns_ListenAddr : gostring; dns_Domain : gostring; dns_Upstream : list gostring;
  dns_CacheTTL : Z }.
Record DashboardConf := mkDashboardConf {
  dash_ListenAddr : gostring; dash_TLS : TLSConf; dash_Password : gostring }.
Record CryptoConf := mkCryptoConf { crypto_Protocol : gostring; crypto_PSK : gostring }.
Record HardwareConf := mkHardwareConf { hw_GPU : bool; hw_RAMGB : Z; hw_CPU : gostring }.
Record PeerConf := mkPeerConf {
  peer_Name : gostring; peer_PublicKey : gostring; peer_AllowedIPs : list gostring;
  peer_Endpoint : gostring; peer_TailscaleFallback : gostring; peer_Keepalive : Z;
  peer_Role : gostring; peer_Hardware : HardwareConf; peer_Optional : bool }.

Record Config := mkConfig {
  NodeName : gostring;
  WireGuard : WireGuardConf;
  STUN : STUNConf;
  Relay : RelayConf;
  MQTT : MQTTConf;
  DNS : DNSConf;
  Dashboard : DashboardConf;
  Crypto : CryptoConf;
  Peers : gmap gostring PeerConf
}.

(** The zero value of the struct, [&Config{}]. *)
Definition zero_TLSConf := mkTLSConf [] [] [].
Definition zero_Config : Config :=
  mkConfig [] (mkWireGuardConf [] 0 0 []) (mkSTUNConf [] [] 0)
    (mkRelayConf [] zero_TLSConf 0) (mkMQTTConf [] [] [] 0 [] [])
    (mkDNSConf [] [] [] 0) (mkDashboardConf [] zero_TLSConf [])
    (mkCryptoConf [] []) ∅.

(** ** applyDefaults *)

(** [if x == zero { x = d }] *)
Definition default_str (x d : gostring) : gostring := if decide (x = []) then d else x.
Definition default_int (x d : Z) : Z := if decide (x = 0%Z) then d else x.

(** A duration in seconds. *)
Definition seconds (n : Z) : Z := (n * 1000000000)%Z.

Definition applyDefaults (c : Config) : Config := {|
  NodeName := NodeName c;
  WireGuard := {|
    wg_Interface := default_str (wg_Interface (WireGuard c)) (str "nexus0");
    wg_ListenPort := default_int (wg_ListenPort (WireGuard c)) 51820;
    wg_MTU := default_int (wg_MTU (WireGuard c)) 1420;
    wg_KeyDir := default_str (wg_KeyDir (WireGuard c)) (str "/etc/nexus-vpn/keys") |};
  STUN := {|
    stun_Servers :=
      if decide (length (stun_Servers (STUN c)) = 0)
      then [str "stun.l.google.com:19302"; str "stun1.l.google.com:19302"]
      else stun_Servers (STUN c);
    stun_ListenAddr := stun_ListenAddr (STUN c);
    stun_RefreshInterval := default_int (stun_RefreshInterval (STUN c)) (seconds 30) |};
  Relay := {|
    relay_ListenAddr := relay_ListenAddr (Relay c);
    relay_TLS := relay_TLS (Relay c);
    relay_FallbackTimeout := default_int (relay_FallbackTimeout (Relay c)) (seconds 10) |};
  MQTT := {|
    mqtt_Broker := default_str (mqtt_Broker (MQTT c)) (str "tcp://dagda:1883");
    mqtt_TopicPrefix := default_str (mqtt_TopicPrefix (MQTT c)) (str "nexus-vpn");
    mqtt_ClientID := mqtt_ClientID (MQTT c);
    mqtt_HeartbeatInterval := default_int (mqtt_HeartbeatInterval (MQTT c)) (seconds 15);
    mqtt_Username := mqtt_Username (MQTT c);
    mqtt_Password := mqtt_Password (MQTT c) |};
  DNS := {|
    dns_ListenAddr := dns_ListenAddr (DNS c);
    dns_Domain := default_str (dns_Domain (DNS c)) (str "nexus.local");
    dns_Upstream := dns_Upstream (DNS c);
    dns_CacheTTL := default_int (dns_CacheTTL (DNS c)) 300 |};
  Dashboard := Dashboard c;
  Crypto := {|
    crypto_Protocol :=
      default_str (crypto_Protocol (Crypto c)) (str "Noise_XX_25519_ChaChaPoly_SHA256");
    crypto_PSK := crypto_PSK (Crypto c) |};
  Peers := Peers c
|}.

(** ** LoadConfig *)
Inductive config_error :=
  | ErrReadingConfig (path : gostring)
  | ErrParsingConfig
  | ErrNodeNameUnset.

(** Assignments to one field. *)
Definition set_NodeName (n : gostring) (c : Config) : Config :=
  mkConfig n (WireGuard c) (STUN c) (Relay c) (MQTT c) (DNS c) (Dashboard c) (Crypto c) (Peers c).
Definition set_MQTT (m : MQTTConf) (c : Config) : Config :=
  mkConfig (NodeName c) (WireGuard c) (STUN c) (Relay c) m (DNS c) (Dashboard c) (Crypto c) (Peers c).
Definition set_PSK (psk : gostring) (c : Config) : Config :=
  mkConfig (NodeName c) (WireGuard c) (STUN c) (Relay c) (MQTT c) (DNS c) (Dashboard c)
    (mkCryptoConf (crypto_Protocol (Crypto c)) psk) (Peers c).
Definition set_DashboardPassword (p : gostring) (c : Config) : Config :=
  mkConfig (NodeName c) (WireGuard c) (STUN c) (Relay c) (MQTT c) (DNS c)
    (mkDashboardConf (dash_ListenAddr (Dashboard c)) (dash_TLS (Dashboard c)) p)
    (Crypto c) (Peers c).
Definition set_Username (u : gostring) (m : MQTTConf) : MQTTConf :=
  mkMQTTConf (mqtt_Broker m) (mqtt_TopicPrefix m) (mqtt_ClientID m) (mqtt_HeartbeatInterval m)
    u (mqtt_Password m).
Definition set_Password (p : gostring) (m : MQTTConf) : MQTTConf :=
  mkMQTTConf (mqtt_Broker m) (mqtt_TopicPrefix m) (mqtt_ClientID m) (mqtt_HeartbeatInterval m)
    (mqtt_Username m) p.
Definition set_ClientID (i : gostring) (m : MQTTConf) : MQTTConf :=
  mkMQTTConf (mqtt_Broker m) (mqtt_TopicPrefix m) i (mqtt_HeartbeatInterval m)
    (mqtt_Username m) (mqtt_Password m).

(** [if v := os.Getenv(name); v != "" { ... }] *)
Definition override (v : gostring) (set : gostring → Config → Config) (c : Config) : Config :=
  if decide (v = []) then c else set v c.

Definition default_client_id : gostring := str "nexus-vpn-dagda".

Section LoadConfig.
Context (ReadFile : gostring → option gostring).
Context (Getenv : gostring → gostring).
Context (Unmarshal : gostring → Config → option Config).

(** Override node name from flag, then env. *)
Definition overrideNodeName (nodeName : gostring) (cfg : Config) : Config :=
  if decide (nodeName ≠ []) then set_NodeName nodeName cfg
  else override (Getenv (str "NEXUS_NODE")) set_NodeName cfg.

(** Apply environment overrides for secrets. *)
Definition overrideSecrets (cfg : Config) : Config :=
  let cfg := override (Getenv (str "NEXUS_PSK")) set_PSK cfg in
  let cfg := override (Getenv (str "NEXUS_MQTT_USER"))
    (λ u c, set_MQTT (set_Username u (MQTT c)) c) cfg in
  let cfg := override (Getenv (str "NEXUS_MQTT_PASS"))
    (λ p c, set_MQTT (set_Password p (MQTT c)) c) cfg in
  override (Getenv (str "NEXUS_DASHBOARD_PASS")) set_DashboardPassword cfg.

(** Set MQTT client ID from node name if not overridden. *)
Definition deriveClientID (cfg : Config) : Config :=
  if decide (mqtt_ClientID (MQTT cfg) = [] ∨ mqtt_ClientID (MQTT cfg) = default_client_id)
  then set_MQTT (set_ClientID (str "nexus-vpn-" ++ NodeName cfg) (MQTT cfg)) cfg
  else cfg.

(** Everything LoadConfig does once the file is parsed. *)
Definition finishConfig (nodeName : gostring) (cfg : Config) : outcome config_error Config :=
  let cfg := overrideNodeName nodeName (applyDefaults cfg) in
  if decide (NodeName cfg = []) then Err ErrNodeNameUnset else
  Ok (deriveClientID (overrideSecrets cfg)).

Definition LoadConfig (path nodeName : gostring) : outcome config_error Config :=
  match ReadFile path with
  | None => Err (ErrReadingConfig path)
  | Some data =>
    let expanded := ExpandEnv Getenv data in
    match Unmarshal expanded zero_Config with
    | None => Err ErrParsingConfig
    | Some cfg => finishConfig nodeName cfg
    end
  end.
End LoadConfig.

(** ** Peers *)

(** GetPeer returns the address of a copy: a value, or nil. *)
Definition GetPeer (c : Config) (name : gostring) : option PeerConf := Peers c !! name.

Definition GetOtherPeers (c : Config) : gmap gostring PeerConf :=
  map_fold (λ name peer others,
    if decide (name ≠ NodeName c) then <[name := peer]> others else others) ∅ (Peers c).

(** ** Specification and lemmas *)

(** Every setting that has a default carries a value. *)
Definition defaults_set (c : Config) : Prop :=
  (wg_Interface (WireGuard c) ≠ [] ∧ wg_ListenPort (WireGuard c) ≠ 0%Z
   ∧ wg_MTU (WireGuard c) ≠ 0%Z ∧ wg_KeyDir (WireGuard c) ≠ [])
  ∧ (stun_Servers (STUN c) ≠ [] ∧ stun_RefreshInterval (STUN c) ≠ 0%Z)
  ∧ relay_FallbackTimeout (Relay c) ≠ 0%Z
  ∧ (mqtt_Broker (MQTT c) ≠ [] ∧ mqtt_TopicPrefix (MQTT c) ≠ []
   ∧ mqtt_HeartbeatInterval (MQTT c) ≠ 0%Z)
  ∧ (dns_Domain (DNS c) ≠ [] ∧ dns_CacheTTL (DNS c) ≠ 0%Z)
  ∧ crypto_Protocol (Crypto c) ≠ [].

(** The first non-empty of several sources of a setting. *)
Fixpoint first_set (l : list gostring) : gostring :=
  match l with
  | [] => []
  | x :: l => if decide (x = []) then first_set l else x
  end.

Lemma default_str_ne x d : d ≠ [] → default_str x d ≠ [].
Proof. unfold default_str. by case_decide. Qed.
Lemma default_int_ne x d : d ≠ 0%Z → default_int x d ≠ 0%Z.
Proof. unfold default_int. by case_decide. Qed.
Lemma default_str_id x d : x ≠ [] → default_str x d = x.
Proof. unfold default_str. by case_decide. Qed.
Lemma default_int_id x d : x ≠ 0%Z → default_int x d = x.
Proof. unfold default_int. by case_decide. Qed.
#[export] Hint Resolve default_str_ne default_int_ne : nexus.

Lemma applyDefaults_set c : defaults_set (applyDefaults c).
Proof.
  unfold defaults_set, applyDefaults. simpl.
  split_and!; try (apply default_str_ne; done); try (apply default_int_ne; done).
  case_decide as Hs; [done|]. by destruct (stun_Servers (STUN c)).
Qed.

Lemma applyDefaults_id c : defaults_set c → applyDefaults c = c.
Proof.
  destruct c as [n [] [servers] [] [] [] d [] p]. unfold defaults_set, applyDefaults. simpl.
  intros ([? [? [? ?]]] & [? ?] & ? & [? [? ?]] & [? ?] & ?).
  rewrite !default_str_id, !default_int_id by done. case_decide as Hs; [|done].
  by destruct servers.
Qed.

Section stages.
Context (Getenv : gostring → gostring).

Lemma overrideNodeName_eq nodeName c :
  overrideNodeName Getenv nodeName c =
    set_NodeName (first_set [nodeName; Getenv (str "NEXUS_NODE"); NodeName c]) c.
Proof.
  unfold overrideNodeName, override. destruct c as [n ? ? ? ? ? ? ? ?]. simpl.
  destruct (decide (nodeName = [])) as [->|Hn]; [|by rewrite decide_True].
  rewrite decide_False by (intros H; by apply H).
  case_decide; [|done]. by case_decide as Hc; rewrite ?Hc.
Qed.

Lemma overrideSecrets_eq c :
  overrideSecrets Getenv c =
    set_DashboardPassword
      (first_set [Getenv (str "NEXUS_DASHBOARD_PASS"); dash_Password (Dashboard c)])
    (set_MQTT (set_Username
      (first_set [Getenv (str "NEXUS_MQTT_USER"); mqtt_Username (MQTT c)])
      (set_Password (first_set [Getenv (str "NEXUS_MQTT_PASS"); mqtt_Password (MQTT c)])
        (MQTT c)))
    (set_PSK (first_set [Getenv (str "NEXUS_PSK"); crypto_PSK (Crypto c)]) c)).
Proof.
  assert (∀ x y : gostring, first_set [x; y] = if decide (x = []) then y else x) as Hfs.
  { intros x y. simpl. repeat case_decide; congruence. }
  rewrite !Hfs. unfold overrideSecrets, override. destruct c as [? ? ? ? [] ? [] [] ?].
  repeat case_decide; done.
Qed.
End stages.

(** ** Properties *)

(** After applyDefaults every setting that has a default is set; it changes
    nothing exactly when they all were, so values of the file are kept and a
    second application is the identity. *)
Theorem applyDefaults_complete c :
  defaults_set (applyDefaults c)
  ∧ applyDefaults (applyDefaults c) = applyDefaults c
  ∧ (applyDefaults c = c ↔ defaults_set c).
Proof.
  split_and!; [apply applyDefaults_set|apply applyDefaults_id, applyDefaults_set|].
  split; [intros <-; apply applyDefaults_set|apply applyDefaults_id].
Qed.

(** C32. LoadConfig on a readable file that parses: it fails exactly when the
    node name is set nowhere; otherwise the configuration it returns is this one in
    every field: the node name is the flag, else NEXUS_NODE, else the file's; each
    of the four secrets is its environment variable, else the file's value; the
    MQTT client id is derived from the node name when the file leaves it unset or at
    the shipped default; and every other setting is the file's with the defaults
    applied, so that each setting that has a default is set. *)
Theorem LoadConfig_spec ReadFile Getenv Unmarshal path nodeName data file :
  ReadFile path = Some data →
  Unmarshal (ExpandEnv Getenv data) zero_Config = Some file →
  let node := first_set [nodeName; Getenv (str "NEXUS_NODE"); NodeName file] in
  let id := mqtt_ClientID (MQTT file) in
  let d := applyDefaults file in
  match LoadConfig ReadFile Getenv Unmarshal path nodeName with
  | Ok c =>
    node ≠ [] ∧ defaults_set c
    ∧ c = {| NodeName := node;
             WireGuard := WireGuard d;
             STUN := STUN d;
             Relay := Relay d;
             MQTT := {|
               mqtt_Broker := mqtt_Broker (MQTT d);
               mqtt_TopicPrefix := mqtt_TopicPrefix (MQTT d);
               mqtt_ClientID :=
                 if decide (id = [] ∨ id = default_client_id) then str "nexus-vpn-" ++ node else id;
               mqtt_HeartbeatInterval := mqtt_HeartbeatInterval (MQTT d);
               mqtt_Username := first_set [Getenv (str "NEXUS_MQTT_USER"); mqtt_Username (MQTT file)];
               mqtt_Password := first_set [Getenv (str "NEXUS_MQTT_PASS"); mqtt_Password (MQTT file)] |};
             DNS := DNS d;
             Dashboard := {|
               dash_ListenAddr := dash_ListenAddr (Dashboard file);
               dash_TLS := dash_TLS (Dashboard file);
               dash_Password :=
                 first_set [Getenv (str "NEXUS_DASHBOARD_PASS"); dash_Password (Dashboard file)] |};
             Crypto := {|
               crypto_Protocol := crypto_Protocol (Crypto d);
               crypto_PSK := first_set [Getenv (str "NEXUS_PSK"); crypto_PSK (Crypto file)] |};
             Peers := Peers file |}
  | Err e => e = ErrNodeNameUnset ∧ node = []
  | Panic | OutOfFuel => False
  end.
Proof.
  intros Hread Hun node id d. unfold LoadConfig. rewrite Hread, Hun. unfold finishConfig.
  rewrite overrideNodeName_eq. change (NodeName (applyDefaults file)) with (NodeName file).
  fold node. cbn [NodeName set_NodeName]. case_decide as Hn; [done|].
  pose proof (applyDefaults_set file) as Hd. unfold deriveClientID. rewrite overrideSecrets_eq.
  case_decide as Hid; cbn in Hid; fold id in Hid; (split; [done|]; split; [exact Hd|]).
  - by rewrite decide_True.
  - rewrite decide_False by done. reflexivity.
Qed.

(** GetOtherPeers is the configured peers without the node itself, whatever
    order the map is iterated in, and GetPeer finds every peer it returns. *)
Theorem GetOtherPeers_spec c :
  GetOtherPeers c = delete (NodeName c) (Peers c)
  ∧ (∀ name peer, GetOtherPeers c !! name = Some peer →
       name ≠ NodeName c ∧ GetPeer c name = Some peer).
Proof.
  assert (GetOtherPeers c = delete (NodeName c) (Peers c)) as ->.
  { unfold GetOtherPeers. apply (map_fold_weak_ind
      (λ others m, others = delete (NodeName c) m)); [by rewrite delete_empty|].
    intros name peer m others Hm ->. case_decide as Hn.
    - by rewrite delete_insert_ne.
    - subst name. by rewrite delete_insert_eq. }
  split; [done|]. intros name peer [Hne Hp]%lookup_delete_Some. done.
Qed.

(** ** Witnesses *)
Definition witness_env (name : gostring) : gostring :=
  if decide (name = str "REGION") then str "eu"
  else if decide (name = str "NEXUS_PSK") then str "secret" else [].

Lemma LoadConfig_spec_witness :
  ∃ c, LoadConfig (λ _, Some (str "brigid-$REGION")) witness_env
         (λ text c, Some (set_NodeName text c)) (str "config.yaml") [] = Ok c
    ∧ NodeName c = str "brigid-eu"
    ∧ crypto_PSK (Crypto c) = str "secret"
    ∧ mqtt_ClientID (MQTT c) = str "nexus-vpn-brigid-eu".
Proof.
  pose proof (LoadConfig_spec (λ _, Some (str "brigid-$REGION")) witness_env
    (λ text c, Some (set_NodeName text c)) (str "config.yaml") [] (str "brigid-$REGION")
    (set_NodeName (str "brigid-eu") zero_Config) eq_refl ltac:(vm_compute; reflexivity)) as H.
  destruct (LoadConfig _ _ _ _ _) as [c|e| |]; [|exfalso; by destruct H as [_ H]|done..].
  exists c. destruct H as (_ & _ & ->). split_and!; reflexivity.
Defined.
