(* ===== verification/Stun.v ===== *)
(** * stun.go: the STUN wire format

    The binding request the client sends and the parser of the binding
    response.  [parse_attrs] is the [for offset < 20+msgLen] loop of
    [parseBindingResponse]; its fuel counts iterations. *)
From S2P Require Import Prelude Bytes NetIP.
From Stdlib Require Import Init.Byte.

#[local] Open Scope Z_scope.
Definition stunMagicCookie : Z := 0x2112A442.
Definition stunMethodBinding : Z := 0x0001.
Definition stunClassRequest : Z := 0x0000.
Definition stunClassSuccess : Z := 0x0100.
Definition stunAttrMappedAddr : Z := 0x0001.
Definition stunAttrXORMapped : Z := 0x0020.
#[local] Close Scope Z_scope.

(** NATType describes the NAT classification; [NATNone] is the zero value. *)
Inductive NATType :=
  | NATNone | NATFullCone | NATRestrictedCone | NATPortRestricted
  | NATSymmetric | NATUnknown.
#[export] Instance NATType_eq_dec : EqDecision NATType.
Proof. solve_decision. Defined.

Definition NATType_String (n : NATType) : gostring :=
  match n with
  | NATNone => str "No NAT (public IP)"
  | NATFullCone => str "Full Cone NAT"
  | NATRestrictedCone => str "Restricted Cone NAT"
  | NATPortRestricted => str "Port Restricted Cone NAT"
  | NATSymmetric => str "Symmetric NAT"
  | NATUnknown => str "Unknown"
  end.

(** STUNResult holds the result of a STUN binding request; [RTT] is a
    [time.Duration] in nanoseconds. *)
Record STUNResult := mkSTUNResult {
  MappedIP : IP;
  MappedPort : Z;
  Server : gostring;
  RTT : Z;
  resultNATType : NATType
}.
#[export] Instance STUNResult_eq_dec : EqDecision STUNResult.
Proof. solve_decision. Defined.

(** The errors of [parseBindingResponse]. *)
Inductive stun_error :=
  | ResponseTooShort (n : nat)
  | InvalidMagicCookie (cookie : Z)
  | UnexpectedMessageType (msgType : Z)
  | MessageTruncated
  | NoMappedAddress.
#[export] Instance stun_error_eq_dec : EqDecision stun_error.
Proof. solve_decision. Defined.

(** ** The request *)
Definition buildBindingRequest : list byte :=
  let msg := replicate 20 x00 in
  let msg := splice 0 (PutUint16 stunMethodBinding) msg in
  let msg := splice 2 (PutUint16 0) msg in
  let msg := splice 4 (PutUint32 stunMagicCookie) msg in
  foldl (λ msg i, <[i := z2b (Z.of_nat i)]> msg) msg (seq 8 12).

(** ** The response *)

(** The [i]th byte of the magic cookie, [byte(stunMagicCookie>>(24-i*8))]. *)
Definition cookie_byte (i : nat) : byte :=
  z2b (Z.shiftr stunMagicCookie (24 - Z.of_nat i * 8)).
Definition byte_xor (a b : byte) : byte := z2b (Z.lxor (b2z a) (b2z b)).

Definition parseXORMappedAddr (data transactionID : list byte) :
    outcome stun_error (IP * Z) :=
  if decide (length data < 8) then Ok ([], 0%Z) else
  p ← slice data 2 4 ≫= Uint16;
  let port := Z.lxor p (Z.shiftr stunMagicCookie 16) in
  ip ← mapM (λ i, b ← index data (4 + i); Ok (byte_xor b (cookie_byte i))) (seq 0 4);
  Ok (ip, port).

Definition parseMappedAddr (data : list byte) : outcome stun_error (IP * Z) :=
  if decide (length data < 8) then Ok ([], 0%Z) else
  port ← slice data 2 4 ≫= Uint16;
  a ← index data 4; b ← index data 5; c ← index data 6; d ← index data 7;
  Ok (IPv4 a b c d, port).

(** [&STUNResult{MappedIP: ip, MappedPort: port}] *)
Definition mapped (addr : IP * Z) : STUNResult :=
  mkSTUNResult addr.1 addr.2 [] 0 NATNone.

(** Skip the padding to the next multiple of four. *)
Definition pad4 (attrLen offset : nat) : nat :=
  if decide (attrLen mod 4 ≠ 0) then offset + (4 - attrLen mod 4) else offset.

Fixpoint parse_attrs (fuel : nat) (data : list byte) (limit offset : nat) :
    outcome stun_error STUNResult :=
  match fuel with
  | O => OutOfFuel
  | S fuel =>
    if decide (offset < limit) then
      if decide (length data < offset + 4) then Err NoMappedAddress else
      attrType ← slice data offset (offset + 2) ≫= Uint16;
      attrLen ← Z.to_nat <$> (slice data (offset + 2) (offset + 4) ≫= Uint16);
      let offset := offset + 4 in
      if decide (length data < offset + attrLen) then Err NoMappedAddress else
      if decide (attrType = stunAttrXORMapped) then
        value ← slice data offset (offset + attrLen);
        transactionID ← slice data 4 20;
        mapped <$> parseXORMappedAddr value transactionID
      else if decide (attrType = stunAttrMappedAddr) then
        value ← slice data offset (offset + attrLen);
        mapped <$> parseMappedAddr value
      else parse_attrs fuel data limit (pad4 attrLen (offset + attrLen))
    else Err NoMappedAddress
  end.
#[global] Arguments parse_attrs : simpl never.

Definition parseBindingResponse (data : list byte) : outcome stun_error STUNResult :=
  if decide (length data < 20) then Err (ResponseTooShort (length data)) else
  cookie ← slice data 4 8 ≫= Uint32;
  if decide (cookie ≠ stunMagicCookie) then Err (InvalidMagicCookie cookie) else
  msgType ← slice data 0 2 ≫= Uint16;
  if decide (msgType ≠ stunClassSuccess + stunMethodBinding)%Z
  then Err (UnexpectedMessageType msgType) else
  msgLen ← Z.to_nat <$> (slice data 2 4 ≫= Uint16);
  if decide (length data < 20 + msgLen) then Err MessageTruncated else
  parse_attrs (S msgLen) data (20 + msgLen) 20.

(** ** A specification of the messages: attributes of RFC 8489

    An attribute is a type, the length of its value, the value, and zero to
    three bytes of padding; addresses here are IPv4 (family 1). *)
Inductive attr :=
  | AttrXORMapped (a b c d : byte) (port : Z)
  | AttrMapped (a b c d : byte) (port : Z)
  | AttrOther (ty : Z) (value : list byte).

Definition attr_type (x : attr) : Z :=
  match x with
  | AttrXORMapped _ _ _ _ _ => 0x0020
  | AttrMapped _ _ _ _ _ => 0x0001
  | AttrOther ty _ => ty
  end.
Definition attr_value (x : attr) : list byte :=
  match x with
  | AttrXORMapped a b c d port =>
    x00 :: x01 :: PutUint16 (Z.lxor port 0x2112)
      ++ zip_with byte_xor [a; b; c; d] [x21; x12; xa4; x42]
  | AttrMapped a b c d port => x00 :: x01 :: PutUint16 port ++ [a; b; c; d]
  | AttrOther _ value => value
  end.
Definition padding (n : nat) : list byte := replicate ((4 - n mod 4) mod 4) x00.
Definition encode_attr (x : attr) : list byte :=
  PutUint16 (attr_type x) ++ PutUint16 (Z.of_nat (length (attr_value x)))
    ++ attr_value x ++ padding (length (attr_value x)).
#[global] Arguments encode_attr : simpl never.
Definition encode_message (ty : Z) (tid : list byte) (attrs : list attr) : list byte :=
  let body := concat (encode_attr <$> attrs) in
  PutUint16 ty ++ PutUint16 (Z.of_nat (length body)) ++ PutUint32 0x2112A442
    ++ tid ++ body.

Definition attr_wf (x : attr) : Prop :=
  match x with
  | AttrXORMapped _ _ _ _ port | AttrMapped _ _ _ _ port => (0 ≤ port < 65536)%Z
  | AttrOther ty value =>
    (0 ≤ ty < 65536)%Z ∧ ty ≠ 0x0020%Z ∧ ty ≠ 0x0001%Z ∧ (Z.of_nat (length value) < 65536)%Z
  end.
#[export] Instance attr_wf_dec x : Decision (attr_wf x).
Proof. destruct x; simpl; apply _. Defined.

(** The address a client is to take from a list of attributes. *)
Fixpoint first_address (attrs : list attr) : option (IP * Z) :=
  match attrs with
  | [] => None
  | AttrXORMapped a b c d port :: _ => Some ([a; b; c; d], port)
  | AttrMapped a b c d port :: _ => Some (IPv4 a b c d, port)
  | AttrOther _ _ :: attrs => first_address attrs
  end.

(** ** Lemmas *)

(** What the parser hands out: no address, or an address of four or sixteen
    bytes, and in each case a 16-bit port. *)
Definition addr_ok (addr : IP * Z) : Prop :=
  (length addr.1 = 0 ∨ length addr.1 = 4 ∨ length addr.1 = 16)
  ∧ (0 ≤ addr.2 < 65536)%Z.

Lemma parseXORMappedAddr_ok data tid :
  ∃ addr, parseXORMappedAddr data tid = Ok addr ∧ addr_ok addr.
Proof.
  unfold parseXORMappedAddr. case_decide as Hl.
  { eexists; split; [done|]. split; simpl; lia. }
  destruct data as [|b0 [|b1 [|b2 [|b3 [|b4 [|b5 [|b6 [|b7 rest]]]]]]]]; simpl in Hl; try lia.
  rewrite slice_in by (simpl; lia). simpl.
  eexists; split; [done|]. split; simpl; [lia|].
  apply (lxor_range 16); [lia|apply (be_value_range [b2; b3])|done].
Qed.

Lemma parseMappedAddr_ok data :
  ∃ addr, parseMappedAddr data = Ok addr ∧ addr_ok addr.
Proof.
  unfold parseMappedAddr. case_decide as Hl.
  { eexists; split; [done|]. split; simpl; lia. }
  destruct data as [|b0 [|b1 [|b2 [|b3 [|b4 [|b5 [|b6 [|b7 rest]]]]]]]]; simpl in Hl; try lia.
  rewrite slice_in by (simpl; lia). simpl.
  eexists; split; [done|]. split; simpl; [lia|].
  apply (be_value_range [b2; b3]).
Qed.

Lemma pad4_ge attrLen offset : offset ≤ pad4 attrLen offset.
Proof. unfold pad4. case_decide; lia. Qed.

(** One iteration of the loop. *)
Lemma parse_attrs_S fuel data limit offset :
  parse_attrs (S fuel) data limit offset =
    if decide (offset < limit) then
      if decide (length data < offset + 4) then Err NoMappedAddress else
      attrType ← slice data offset (offset + 2) ≫= Uint16;
      attrLen ← Z.to_nat <$> (slice data (offset + 2) (offset + 4) ≫= Uint16);
      let offset := offset + 4 in
      if decide (length data < offset + attrLen) then Err NoMappedAddress else
      if decide (attrType = stunAttrXORMapped) then
        value ← slice data offset (offset + attrLen);
        transactionID ← slice data 4 20;
        mapped <$> parseXORMappedAddr value transactionID
      else if decide (attrType = stunAttrMappedAddr) then
        value ← slice data offset (offset + attrLen);
        mapped <$> parseMappedAddr value
      else parse_attrs fuel data limit (pad4 attrLen (offset + attrLen))
    else Err NoMappedAddress.
Proof. done. Qed.

(** The attribute loop ends, within the fuel [parseBindingResponse] gives it,
    without an index or slice out of range. *)
Lemma parse_attrs_ok fuel data limit offset :
  limit ≤ length data → 20 ≤ length data → limit - offset < fuel →
  (∃ addr, parse_attrs fuel data limit offset = Ok (mapped addr) ∧ addr_ok addr)
  ∨ parse_attrs fuel data limit offset = Err NoMappedAddress.
Proof.
  revert offset. induction fuel as [|fuel IH]; intros offset Hlim Hlen Hfuel; [lia|].
  rewrite parse_attrs_S. case_decide; [|by right]. case_decide; [by right|].
  destruct (slice_Uint16 (E:=stun_error) data offset) as (ty & Hty & _); [lia|].
  destruct (slice_Uint16 (E:=stun_error) data (offset + 2)) as (len & Hlenv & _); [lia|].
  rewrite <-(Nat.add_assoc offset 2 2) in Hlenv. simpl in Hlenv.
  rewrite Hty, Hlenv. simpl. case_decide; [by right|].
  destruct (slice_returns (E:=stun_error) data (offset + 4) (offset + 4 + Z.to_nat len))
    as (value & Hvalue & _); [lia..|].
  destruct (slice_returns (E:=stun_error) data 4 20) as (tid & Htid & _); [lia..|].
  case_decide; [|case_decide].
  - rewrite Hvalue, Htid. simpl. destruct (parseXORMappedAddr_ok value tid) as (addr & -> & ?).
    left. by exists addr.
  - rewrite Hvalue. simpl. destruct (parseMappedAddr_ok value) as (addr & -> & ?).
    left. by exists addr.
  - apply IH; try done. pose proof (pad4_ge (Z.to_nat len) (offset + 4 + Z.to_nat len)). lia.
Qed.

(** A response that passes the header checks. *)
Definition response_header_ok (data : list byte) (msgLen : nat) : Prop :=
  20 + msgLen ≤ length data
  ∧ take 2 data = PutUint16 0x0101
  ∧ take 2 (drop 2 data) = PutUint16 (Z.of_nat msgLen)
  ∧ take 4 (drop 4 data) = PutUint32 0x2112A442.

(** The parser's header checks, as one case split: either an error of the
    header, or a well-formed header and the attribute loop. *)
Lemma parseBindingResponse_cases data :
  (∃ e, parseBindingResponse data = Err e)
  ∨ ∃ msgLen, response_header_ok data msgLen
     ∧ parseBindingResponse data = parse_attrs (S msgLen) data (20 + msgLen) 20.
Proof.
  unfold parseBindingResponse. case_decide as Hlen; [eauto|].
  rewrite !slice_in by lia.
  destruct data as [|b0 [|b1 [|b2 [|b3 [|b4 [|b5 [|b6 [|b7 rest]]]]]]]]; simpl in Hlen; try lia.
  simpl. case_decide as Hc; [eauto|]. case_decide as Ht; [eauto|].
  case_decide as Hl; [eauto|]. right. eexists; split; [|done].
  pose proof (be_value_range [b2; b3]) as Hr.
  split_and!; [simpl; lia|..]; simpl; rewrite ?Z2Nat.id by lia.
  - apply (be_value_inj [b0; b1]); [done|]. rewrite Ht. done.
  - symmetry. apply (be_bytes_be_value [b2; b3]).
  - apply (be_value_inj [b4; b5; b6; b7]); [done|]. rewrite Hc. done.
Qed.

(** What the parser answers, on any input. *)
Lemma parse_result_ok data :
  match parseBindingResponse data with
  | Ok r => ∃ addr, r = mapped addr ∧ addr_ok addr
  | Err _ => True
  | Panic | OutOfFuel => False
  end.
Proof.
  destruct (parseBindingResponse_cases data) as [[e ->]|(n & (Hn & _) & ->)]; [done|].
  destruct (parse_attrs_ok (S n) data (20 + n) 20) as [(addr & -> & ?)| ->]; [lia..| |done].
  by exists addr.
Qed.

(** Conversely a well-formed header leads to the attribute loop. *)
Lemma parseBindingResponse_attrs tid body n :
  length tid = 12 → n = length body → (Z.of_nat n < 65536)%Z →
  let data := PutUint16 0x0101 ++ PutUint16 (Z.of_nat n) ++ PutUint32 0x2112A442 ++ tid ++ body in
  parseBindingResponse data = parse_attrs (S n) data (20 + n) 20.
Proof.
  intros Htid Hn Hs data. unfold parseBindingResponse.
  assert (length data = 20 + n) as Hlen.
  { unfold data. rewrite !length_app, !length_PutUint16, length_PutUint32. lia. }
  rewrite decide_False by lia.
  assert (slice (E:=stun_error) data 4 8 ≫= Uint32 = Ok 0x2112A442%Z) as ->.
  { unfold data. rewrite (app_assoc (PutUint16 0x0101)). by apply slice_Uint32_app. }
  assert (slice (E:=stun_error) data 0 2 ≫= Uint16 = Ok 0x0101%Z) as Hty.
  { by apply (slice_Uint16_app []). }
  assert (slice (E:=stun_error) data 2 4 ≫= Uint16 = Ok (Z.of_nat n)) as Hln.
  { apply (slice_Uint16_app (PutUint16 0x0101)); [done|done|lia]. }
  cbn [mbind outcome_bind]. rewrite decide_False by (by intros []).
  rewrite Hty. cbn [mbind outcome_bind]. rewrite decide_False by (by intros []).
  rewrite Hln. cbn [fmap outcome_fmap mbind outcome_bind].
  by rewrite Nat2Z.id, decide_False by lia.
Qed.

(** *** The encoder's view *)
Lemma length_padding n : length (padding n) = (4 - n mod 4) mod 4.
Proof. apply length_replicate. Qed.

Lemma pad4_padding n offset : pad4 n (offset + n) = offset + n + length (padding n).
Proof.
  rewrite length_padding. unfold pad4.
  assert (n mod 4 < 4) by (by apply Nat.mod_upper_bound).
  case_decide; destruct (n mod 4) as [|[|[|[|m]]]]; simpl; lia.
Qed.

Lemma byte_xor_involutive a b : byte_xor (byte_xor a b) b = a.
Proof.
  unfold byte_xor. pose proof (b2z_range a). pose proof (b2z_range b).
  rewrite (b2z_z2b_small (Z.lxor _ _)) by (apply (lxor_range 8); lia).
  by rewrite lxor_involutive, z2b_b2z.
Qed.

Lemma parseXORMappedAddr_encode a b c d port tid :
  (0 ≤ port < 65536)%Z →
  parseXORMappedAddr (attr_value (AttrXORMapped a b c d port)) tid = Ok ([a; b; c; d], port).
Proof.
  intros Hp. unfold parseXORMappedAddr. rewrite decide_False by (simpl; lia).
  assert (slice (E:=stun_error) (attr_value (AttrXORMapped a b c d port)) 2 4 ≫= Uint16
    = Ok (Z.lxor port 0x2112)) as ->.
  { apply (slice_Uint16_app [x00; x01]); [done..|]. by apply (lxor_range 16). }
  cbn [mbind outcome_bind]. change (Z.shiftr stunMagicCookie 16) with 0x2112%Z.
  rewrite lxor_involutive.
  change (mapM _ _) with (Ok (E:=stun_error) (zip_with byte_xor
    (zip_with byte_xor [a; b; c; d] [x21; x12; xa4; x42]) (cookie_byte <$> seq 0 4))).
  simpl. by rewrite !(byte_xor_involutive _ _).
Qed.

Lemma parseMappedAddr_encode a b c d port :
  (0 ≤ port < 65536)%Z →
  parseMappedAddr (attr_value (AttrMapped a b c d port)) = Ok (IPv4 a b c d, port).
Proof.
  intros Hp. unfold parseMappedAddr. rewrite decide_False by (simpl; lia).
  assert (slice (E:=stun_error) (attr_value (AttrMapped a b c d port)) 2 4 ≫= Uint16
    = Ok port) as ->; [|done].
  by apply (slice_Uint16_app [x00; x01]).
Qed.

Lemma attr_wf_ranges x :
  attr_wf x →
  (0 ≤ attr_type x < 65536)%Z ∧ (0 ≤ Z.of_nat (length (attr_value x)) < 65536)%Z.
Proof.
  destruct x; cbn [attr_wf attr_type attr_value]; simpl; try lia;
    rewrite ?length_app, ?length_PutUint16; simpl; lia.
Qed.

Lemma length_encode_attr x :
  length (encode_attr x) = 4 + length (attr_value x) + length (padding (length (attr_value x))).
Proof. unfold encode_attr. rewrite !length_app, !length_PutUint16. lia. Qed.

(** The transaction id is an argument the decoder does not look at. *)
Lemma parseXORMappedAddr_tid value tid :
  parseXORMappedAddr value tid = parseXORMappedAddr value [].
Proof. done. Qed.

(** One iteration of the loop at the start of an encoded attribute, whatever
    the attribute's type and value. *)
Lemma parse_attrs_encode_attr fuel pre x post limit :
  (0 ≤ attr_type x < 65536)%Z → (0 ≤ Z.of_nat (length (attr_value x)) < 65536)%Z →
  20 ≤ length pre → length pre < limit →
  parse_attrs (S fuel) (pre ++ encode_attr x ++ post) limit (length pre) =
    if decide (attr_type x = stunAttrXORMapped)
    then mapped <$> parseXORMappedAddr (attr_value x) []
    else if decide (attr_type x = stunAttrMappedAddr)
    then mapped <$> parseMappedAddr (attr_value x)
    else parse_attrs fuel (pre ++ encode_attr x ++ post) limit (length (pre ++ encode_attr x)).
Proof.
  intros Hty Hlen Hpre Hlim. set (data := pre ++ encode_attr x ++ post).
  assert (length data = length pre + length (encode_attr x) + length post) as Hdata.
  { unfold data. rewrite !length_app. lia. }
  pose proof (length_encode_attr x).
  rewrite parse_attrs_S, decide_True, decide_False by lia.
  assert (slice (E:=stun_error) data (length pre) (length pre + 2) ≫= Uint16
    = Ok (attr_type x)) as ->.
  { unfold data, encode_attr. rewrite <-!app_assoc. by apply slice_Uint16_app. }
  assert (slice (E:=stun_error) data (length pre + 2) (length pre + 4) ≫= Uint16
    = Ok (Z.of_nat (length (attr_value x)))) as Hl.
  { unfold data, encode_attr. rewrite <-!app_assoc, (app_assoc pre).
    apply slice_Uint16_app; rewrite ?length_app, ?length_PutUint16; lia. }
  assert (∀ n, n = length (attr_value x) →
    slice (E:=stun_error) data (length pre + 4) (length pre + 4 + n)
    = Ok (attr_value x)) as Hv.
  { intros n ->. unfold data, encode_attr. rewrite <-!app_assoc, (app_assoc pre), (app_assoc (pre ++ _)).
    apply slice_app; rewrite ?length_app, ?length_PutUint16; lia. }
  destruct (slice_returns (E:=stun_error) data 4 20) as (tid & Htid & _); [lia..|].
  cbn [mbind outcome_bind]. rewrite Hl. cbn [fmap outcome_fmap mbind outcome_bind].
  rewrite Nat2Z.id, decide_False, Hv, Htid by lia.
  split_decide; [by rewrite <-(parseXORMappedAddr_tid _ tid)|]. split_decide; [done|].
  f_equal. rewrite pad4_padding, length_app, length_encode_attr. lia.
Qed.

Lemma parse_attrs_encode attrs fuel pre :
  Forall attr_wf attrs → 20 ≤ length pre →
  length (concat (encode_attr <$> attrs)) < fuel →
  parse_attrs fuel (pre ++ concat (encode_attr <$> attrs))
    (length (pre ++ concat (encode_attr <$> attrs))) (length pre) =
    match first_address attrs with
    | Some addr => Ok (mapped addr)
    | None => Err NoMappedAddress
    end.
Proof.
  intros Hwf. revert fuel pre. induction Hwf as [|x attrs Hx Hwf IH]; intros fuel pre Hpre Hf;
    (destruct fuel as [|fuel]; [lia|]).
  { by rewrite parse_attrs_S, app_nil_r, decide_False by lia. }
  cbn [fmap list_fmap concat first_address] in Hf |- *. pose proof (length_encode_attr x). rewrite length_app in Hf.
  destruct (attr_wf_ranges x Hx).
  rewrite parse_attrs_encode_attr by (try done; rewrite !length_app; lia).
  destruct x as [a b c d port|a b c d port|ty value]; cbn [attr_type].
  - by rewrite decide_True, parseXORMappedAddr_encode by done.
  - by rewrite decide_False, decide_True, parseMappedAddr_encode by done.
  - destruct Hx as (_ & ? & ? & _). rewrite !decide_False by done.
    rewrite app_assoc. apply IH; [rewrite length_app|]; lia.
Qed.

(** Only the number of bytes before the attributes matters to the loop. *)
Lemma parse_attrs_tail pre1 pre2 body fuel limit offset :
  length pre1 = length pre2 → 20 ≤ length pre1 → length pre1 ≤ offset →
  parse_attrs fuel (pre1 ++ body) limit offset = parse_attrs fuel (pre2 ++ body) limit offset.
Proof.
  intros Hl H20. revert offset. induction fuel as [|fuel IH]; intros offset Hoff; [done|].
  rewrite !parse_attrs_S, (length_app pre1), (length_app pre2), <-Hl.
  rewrite (slice_tail pre1 pre2 _ offset), (slice_tail pre1 pre2 _ (offset + 2)) by lia.
  split_decide; [|done]. split_decide; [done|].
  destruct (slice (pre2 ++ body) offset (offset + 2) ≫= Uint16) as [ty|?| |]; try done.
  cbn [mbind outcome_bind].
  destruct (slice (pre2 ++ body) (offset + 2) (offset + 4) ≫= Uint16) as [len|?| |]; try done.
  cbn [fmap outcome_fmap mbind outcome_bind]. split_decide; [done|].
  rewrite !(slice_tail pre1 pre2 _ (offset + 4)) by lia.
  split_decide; [|split_decide; [done|]].
  - destruct (slice (pre2 ++ body) (offset + 4) _) as [v|?| |]; try done.
    cbn [mbind outcome_bind].
    destruct (slice_returns (E:=stun_error) (pre1 ++ body) 4 20) as (t1 & -> & _);
      [lia|rewrite length_app; lia|].
    destruct (slice_returns (E:=stun_error) (pre2 ++ body) 4 20) as (t2 & -> & _);
      [lia|rewrite length_app; lia|]. done.
  - apply IH. pose proof (pad4_ge (Z.to_nat len) (offset + 4 + Z.to_nat len)). lia.
Qed.

(** ** Properties *)

(** C11. The parser of binding responses returns on every byte string the
    network may deliver: a result or one of its errors, never an index or slice
    out of range, and the attribute loop always ends. *)
Theorem parseBindingResponse_returns data : returns (parseBindingResponse data).
Proof.
  pose proof (parse_result_ok data). by destruct (parseBindingResponse data).
Qed.

(** C36. What the parser accepts is a binding success response: its header
    carries the type 0x0101, the magic cookie and a length the datagram covers;
    the result holds no address or one of four or sixteen bytes, and a 16-bit
    port; the fields the caller fills in (server, round-trip time) are empty. *)
Theorem parseBindingResponse_sound data r :
  parseBindingResponse data = Ok r →
  (∃ msgLen, response_header_ok data msgLen)
  ∧ (∃ addr, r = mapped addr ∧ addr_ok addr).
Proof.
  intros Hr. destruct (parseBindingResponse_cases data) as [[e He]|(n & Hn & Hp)];
    [congruence|]. split; [by exists n|].
  pose proof (parse_result_ok data) as Hok. by rewrite Hr in Hok.
Qed.

(** C6. For every well-formed success response of RFC 8489 with IPv4 addresses
    (any transaction id, any list of attributes, padding included) the parser
    returns the address of the first MAPPED-ADDRESS or XOR-MAPPED-ADDRESS
    attribute, undoing the exclusive or, and the error for a response without
    one otherwise. *)
Theorem parseBindingResponse_encode tid attrs :
  length tid = 12 → Forall attr_wf attrs →
  (Z.of_nat (length (concat (encode_attr <$> attrs))) < 65536)%Z →
  parseBindingResponse (encode_message 0x0101 tid attrs) =
    match first_address attrs with
    | Some addr => Ok (mapped addr)
    | None => Err NoMappedAddress
    end.
Proof.
  intros Htid Hwf Hs. unfold encode_message. set (body := concat _).
  rewrite (parseBindingResponse_attrs tid body (length body)) by done.
  set (pre := PutUint16 0x0101 ++ PutUint16 (Z.of_nat (length body)) ++ PutUint32 0x2112A442 ++ tid).
  assert (length pre = 20) as Hpre.
  { unfold pre. rewrite !length_app, !length_PutUint16, length_PutUint32. lia. }
  pose proof (parse_attrs_encode attrs (S (length body)) pre Hwf) as Hp.
  fold body in Hp. rewrite length_app, Hpre in Hp. rewrite <-Hp by lia.
  unfold pre. by rewrite <-!app_assoc.
Qed.

(** The response is not matched to the request: replacing the transaction
    id of a message changes nothing in what the parser answers. *)
Theorem parseBindingResponse_ignores_transaction header tid tid' body :
  length header = 8 → length tid = 12 → length tid' = 12 →
  parseBindingResponse (header ++ tid ++ body) = parseBindingResponse (header ++ tid' ++ body).
Proof.
  intros Hh Ht Ht'. unfold parseBindingResponse.
  rewrite !length_app, Ht, Ht'. split_decide; [done|].
  assert (∀ lo hi, hi ≤ 8 → slice (E:=stun_error) (header ++ tid ++ body) lo hi
    = slice (header ++ tid' ++ body) lo hi) as Hs.
  { intros lo hi Hhi. unfold slice. rewrite !length_app, Ht, Ht'. split_decide; [|done].
    f_equal. rewrite !skipn_app, !take_app. rewrite length_drop.
    replace (hi - lo - (length header - lo)) with 0 by lia. done. }
  rewrite !Hs by lia.
  repeat (match goal with |- ?m ≫= _ = _ => destruct m; [|done..] end; cbn [mbind outcome_bind];
    split_decide; [done|]).
  rewrite !app_assoc. apply parse_attrs_tail; rewrite ?length_app; lia.
Qed.

(** A mapped-address attribute too short to hold an address is accepted:
    the parser answers success with a nil address and port 0, whatever its
    bytes are. *)
Theorem parseBindingResponse_short_attribute tid value ty :
  length tid = 12 → length value < 8 → ty = stunAttrXORMapped ∨ ty = stunAttrMappedAddr →
  parseBindingResponse (encode_message 0x0101 tid [AttrOther ty value]) = Ok (mapped ([], 0%Z)).
Proof.
  intros Htid Hv Hty. set (x := AttrOther ty value).
  pose proof (length_encode_attr x) as Hl. rewrite length_padding in Hl. cbn [attr_value x] in Hl.
  pose proof (Nat.mod_upper_bound (4 - length value mod 4) 4).
  unfold encode_message. cbn [fmap list_fmap concat]. rewrite app_nil_r.
  rewrite (parseBindingResponse_attrs tid _ (length (encode_attr x))) by lia.
  rewrite (app_assoc (PutUint16 0x0101)), (app_assoc (_ ++ _)), (app_assoc (_ ++ _)).
  set (pre := (_ ++ _) ++ tid).
  assert (length pre = 20) as Hpre.
  { unfold pre. rewrite !length_app, !length_PutUint16, length_PutUint32. lia. }
  rewrite <-Hpre at 2. rewrite <-(app_nil_r (encode_attr x)) at 2.
  assert (0 ≤ attr_type x < 65536)%Z by (unfold x; destruct Hty as [-> | ->]; done).
  rewrite parse_attrs_encode_attr by (done || (cbn [attr_value x]; lia)).
  unfold parseXORMappedAddr, parseMappedAddr. cbn [attr_value x attr_type].
  rewrite !(decide_True (P:=length value < 8)) by done.
  split_decide; [done|]. by rewrite decide_True by naive_solver.
Qed.

(** The request is the attribute-free Binding Request of RFC 8489 with the
    fixed transaction id 8, 9, ..., 19; it is not itself acceptable as a
    response. *)
Theorem buildBindingRequest_spec :
  buildBindingRequest =
    encode_message stunMethodBinding ((λ i, z2b (Z.of_nat i)) <$> seq 8 12) []
  ∧ parseBindingResponse buildBindingRequest = Err (UnexpectedMessageType 1).
Proof. split; vm_compute; reflexivity. Qed.

(** ** Witnesses *)
Definition witness_tid : list byte := replicate 12 x07.
Definition witness_attrs : list attr :=
  [AttrOther 0x8022 [x61; x62; x63]; AttrXORMapped xc0 x00 x02 x01 32853].

Lemma parseBindingResponse_encode_witness :
  parseBindingResponse (encode_message 0x0101 witness_tid witness_attrs)
  = Ok (mapped ([xc0; x00; x02; x01], 32853%Z)).
Proof.
  apply (parseBindingResponse_encode witness_tid witness_attrs).
  - reflexivity.
  - repeat constructor; vm_compute; congruence.
  - vm_compute; reflexivity.
Defined.

Lemma parseBindingResponse_sound_witness :
  let data := encode_message 0x0101 witness_tid witness_attrs in
  (∃ msgLen, response_header_ok data msgLen)
  ∧ (∃ addr, mapped ([xc0; x00; x02; x01], 32853%Z) = mapped addr ∧ addr_ok addr).
Proof. apply parseBindingResponse_sound. vm_compute. reflexivity. Defined.

Lemma parseBindingResponse_ignores_transaction_witness :
  let message tid := encode_message 0x0101 tid witness_attrs in
  parseBindingResponse (message witness_tid) = parseBindingResponse (message (replicate 12 xff)).
Proof.
  exact (parseBindingResponse_ignores_transaction
    (take 8 (encode_message 0x0101 witness_tid witness_attrs)) witness_tid (replicate 12 xff)
    (drop 20 (encode_message 0x0101 witness_tid witness_attrs)) eq_refl eq_refl eq_refl).
Defined.

Lemma parseBindingResponse_short_attribute_witness :
  parseBindingResponse (encode_message 0x0101 witness_tid [AttrOther 0x0001 [x00; x01]])
  = Ok (mapped ([], 0%Z)).
Proof.
  apply parseBindingResponse_short_attribute; [reflexivity|simpl; lia|right; reflexivity].
Defined.
