(* ===== verification/StunClient.v ===== *)
(** * stun.go: the client

    [STUNClient] asks the configured servers in order and keeps what the first
    one that answers says.  The network is an interface, [UdpNetwork]: what a
    dial, a write and a read to a server give may depend on every exchange made
    before, so an operation threads the list of servers contacted so far next
    to the client's state. *)
From S2P Require Import Prelude Bytes NetIP Stun Config.

(** What one dial, write and read with a five-second deadline come to; a
    datagram comes with the round-trip time measured. *)
Inductive udp_outcome :=
  | DialFailed
  | WriteFailed
  | ReadFailed
  | Reply (datagram : list byte) (rtt : Z).

(** The exchange with a server, after the exchanges already made. *)
Class UdpNetwork := exchange : list gostring → gostring → list byte → udp_outcome.

Inductive client_error :=
  | ErrDialing (server : gostring)
  | ErrSending (server : gostring)
  | ErrReading (server : gostring)
  | ErrParsing (server : gostring) (err : stun_error).
Inductive discover_error := ErrAllServersFailed (lastErr : option client_error).

Record STUNClient := mkSTUNClient {
  cfg : Config;
  results : gmap gostring STUNResult;
  natType : NATType;
  publicIP : IP;
  publicPort : Z
}.

Definition NewSTUNClient (cfg : Config) : STUNClient := mkSTUNClient cfg ∅ NATNone [] 0.

Definition servers (s : STUNClient) : list gostring := stun_Servers (STUN (cfg s)).

Definition set_natType (n : NATType) (s : STUNClient) : STUNClient :=
  mkSTUNClient (cfg s) (results s) n (publicIP s) (publicPort s).
(** The critical section of Discover. *)
Definition record_result (server : gostring) (result : STUNResult) (s : STUNClient) : STUNClient :=
  mkSTUNClient (cfg s) (<[server := result]> (results s)) (natType s)
    (MappedIP result) (MappedPort result).

(** The size of the buffer a response is read into. *)
Definition read_buffer : nat := 1024.

Section operations.
Context `{UdpNetwork}.
Implicit Types (hist : list gostring) (server : gostring) (s : STUNClient).

Definition bindingRequest hist server : outcome client_error STUNResult :=
  match exchange hist server buildBindingRequest with
  | DialFailed => Err (ErrDialing server)
  | WriteFailed => Err (ErrSending server)
  | ReadFailed => Err (ErrReading server)
  | Reply datagram rtt =>
    result ← map_err (ErrParsing server) (parseBindingResponse (take read_buffer datagram));
    Ok (mkSTUNResult (MappedIP result) (MappedPort result) server rtt (resultNATType result))
  end.

(** The classification of a second answer against the first. *)
Definition same_mapping (r1 r2 : STUNResult) : bool :=
  IP_Equal (MappedIP r1) (MappedIP r2) && bool_decide (MappedPort r1 = MappedPort r2).

Definition detectNATType (firstResult : STUNResult) s hist :
    outcome discover_error unit * (STUNClient * list gostring) :=
  if decide (length (servers s) < 2) then (Ok (), (set_natType NATUnknown s, hist)) else
  match servers s !! 1 with
  | None => (Panic, (s, hist))
  | Some second =>
    match bindingRequest hist second with
    | Ok secondResult =>
      let n := if same_mapping firstResult secondResult then NATFullCone else NATSymmetric in
      (Ok (), (set_natType n s, hist ++ [second]))
    | Err _ => (Ok (), (set_natType NATUnknown s, hist ++ [second]))
    | Panic => (Panic, (s, hist))
    | OutOfFuel => (OutOfFuel, (s, hist))
    end
  end.

(** The loop of Discover over the servers left. *)
Fixpoint discover_loop (todo : list gostring) (lastErr : option client_error) s hist :
    outcome discover_error STUNResult * (STUNClient * list gostring) :=
  match todo with
  | [] => (Err (ErrAllServersFailed lastErr), (s, hist))
  | server :: todo =>
    match bindingRequest hist server with
    | Err err => discover_loop todo (Some err) s (hist ++ [server])
    | Ok result =>
      let s := record_result server result s in
      let hist := hist ++ [server] in
      if decide (1 < length (servers s) ∧ servers s !! 0 = Some server) then
        match detectNATType result s hist with
        | (Ok _, st) => (Ok result, st)
        | (Err e, st) => (Err e, st)
        | (Panic, st) => (Panic, st)
        | (OutOfFuel, st) => (OutOfFuel, st)
        end
      else (Ok result, (s, hist))
    | Panic => (Panic, (s, hist))
    | OutOfFuel => (OutOfFuel, (s, hist))
    end
  end.
Definition Discover s hist := discover_loop (servers s) None s hist.

Definition GetPublicEndpoint s : IP * Z := (publicIP s, publicPort s).
Definition GetNATType s : NATType := natType s.

(** What the select of RunPeriodicDiscovery receives; a ticker with an interval
    that is not positive panics. *)
Inductive loop_event := Tick | Done.
Fixpoint discovery_ticks (events : list loop_event) s hist : STUNClient * list gostring :=
  match events with
  | [] => (s, hist)
  | Done :: _ => (s, hist)
  | Tick :: events =>
    let '(_, (s, hist)) := Discover s hist in discovery_ticks events s hist
  end.
Definition RunPeriodicDiscovery (events : list loop_event) s hist :
    outcome Empty_set (STUNClient * list gostring) :=
  if decide (stun_RefreshInterval (STUN (cfg s)) ≤ 0)%Z then Panic
  else Ok (discovery_ticks events s hist).
End operations.

(** ** Specification: the first server that answers *)
Section specification.
Context `{UdpNetwork}.

(** The servers asked up to and including the first that answers, and its
    answer. *)
Fixpoint first_responder (hist todo : list gostring) :
    option (list gostring * gostring * STUNResult) :=
  match todo with
  | [] => None
  | server :: todo =>
    match bindingRequest hist server with
    | Ok result => Some (hist ++ [server], server, result)
    | _ => first_responder (hist ++ [server]) todo
    end
  end.

(** The NAT verdict after [server] answered [result]: a comparison with the
    second configured server when the first configured one answered, else the
    previous verdict. *)
Definition verdict (s : STUNClient) (server : gostring) (result : STUNResult)
    (hist : list gostring) : NATType * list gostring :=
  match servers s with
  | first :: second :: _ =>
    if decide (first = server) then
      (match bindingRequest hist second with
       | Ok result' => if same_mapping result result' then NATFullCone else NATSymmetric
       | _ => NATUnknown
       end, hist ++ [second])
    else (natType s, hist)
  | _ => (natType s, hist)
  end.
End specification.

Section lemmas.
Context `{UdpNetwork}.
Implicit Types (hist : list gostring) (server : gostring) (s : STUNClient).

(** A binding request always comes back, and only with a parsed answer. *)
Lemma bindingRequest_returns hist server :
  (∃ r, bindingRequest hist server = Ok r
    ∧ Server r = server ∧ resultNATType r = NATNone ∧ addr_ok (MappedIP r, MappedPort r))
  ∨ ∃ e, bindingRequest hist server = Err e.
Proof.
  unfold bindingRequest. destruct (exchange _ _ _) as [| | |d rtt]; eauto.
  pose proof (parse_result_ok (take read_buffer d)) as Hok.
  destruct (parseBindingResponse (take read_buffer d)) as [r|e| |]; simpl; eauto; try done.
  destruct Hok as (addr & -> & Haddr). left. eexists; split_and!; [done..|].
  by destruct addr.
Qed.

Lemma verdict_history s server result hist :
  ∃ tail, (verdict s server result hist).2 = hist ++ tail ∧ length tail ≤ 1.
Proof.
  unfold verdict. destruct (servers s) as [|first [|second ?]].
  1, 2: exists []; rewrite app_nil_r; simpl; auto.
  split_decide; [exists [second]; auto|exists []; rewrite app_nil_r; simpl; auto].
Qed.

Lemma first_responder_None hist todo :
  first_responder hist todo = None →
  ∀ lastErr s, ∃ e, discover_loop todo lastErr s hist = (Err e, (s, hist ++ todo)).
Proof.
  revert hist. induction todo as [|server todo IH]; intros hist Hf lastErr s; simpl in *.
  - rewrite app_nil_r. eauto.
  - destruct (bindingRequest_returns hist server) as [(r & Hr & _)|[e Hr] ]; rewrite Hr in *; [done|].
    replace (hist ++ server :: todo) with ((hist ++ [server]) ++ todo)
      by (by rewrite <-app_assoc). by apply IH.
Qed.

Lemma detect_verdict s server result hist :
  (if decide (1 < length (servers s) ∧ servers s !! 0 = Some server) then
     match detectNATType result s hist with
     | (Ok _, st) => (Ok result, st)
     | (Err e, st) => (Err e, st)
     | (Panic, st) => (Panic, st)
     | (OutOfFuel, st) => (OutOfFuel, st)
     end
   else (Ok result, (s, hist)))
  = let '(n, hist') := verdict s server result hist in (Ok result, (set_natType n s, hist')).
Proof.
  assert (set_natType (natType s) s = s) as Hid by by destruct s.
  unfold verdict, detectNATType.
  destruct (servers s) as [|first [|second rest]].
  1, 2: by rewrite decide_False, Hid by (simpl; lia).
  destruct (decide (first = server)) as [->|Hne].
  - rewrite decide_True, decide_False by (split; [simpl; lia|done]) || (simpl; lia).
    simpl. destruct (bindingRequest_returns hist second) as [(r & -> & _)|[e -> ] ]; done.
  - rewrite decide_False by (intros [_ [= ]]; done). by rewrite Hid.
Qed.

Lemma first_responder_Some hist todo hist' server r :
  first_responder hist todo = Some (hist', server, r) →
  ∀ lastErr s, discover_loop todo lastErr s hist =
    let s := record_result server r s in
    let '(n, hist'') := verdict s server r hist' in (Ok r, (set_natType n s, hist'')).
Proof.
  revert hist. induction todo as [|x todo IH]; intros hist Hf lastErr s; simpl in *; [done|].
  destruct (bindingRequest_returns hist x) as [(r' & Hr & _)|[e Hr] ]; rewrite Hr in *;
    [|by apply IH].
  injection Hf as <- <- <-. apply (detect_verdict (record_result x r' s)).
Qed.

Lemma first_responder_in hist todo hist' server r :
  first_responder hist todo = Some (hist', server, r) →
  server ∈ todo ∧ (∃ h, bindingRequest h server = Ok r).
Proof.
  revert hist. induction todo as [|x todo IH]; intros hist Hf; simpl in *; [done|].
  destruct (bindingRequest hist x) as [r'|e| |] eqn:Hr; [injection Hf as <- <- <-|..].
  - split; [by left|eauto].
  - apply IH in Hf as [? ?]. split; [by right|done].
  - apply IH in Hf as [? ?]. split; [by right|done].
  - apply IH in Hf as [? ?]. split; [by right|done].
Qed.
End lemmas.

(** ** Properties *)


(** The states the client goes through. *)
Definition client_inv (c : Config) (s : STUNClient) : Prop :=
  cfg s = c
  ∧ (∀ server r, results s !! server = Some r →
       Server r = server ∧ server ∈ stun_Servers (STUN c) ∧ addr_ok (MappedIP r, MappedPort r))
  ∧ (GetPublicEndpoint s = ([], 0%Z) ∧ results s = ∅
     ∨ ∃ server r, results s !! server = Some r
         ∧ GetPublicEndpoint s = (MappedIP r, MappedPort r))
  ∧ (length (stun_Servers (STUN c)) < 2 → GetNATType s = NATNone)
  ∧ GetNATType s ∈ [NATNone; NATFullCone; NATSymmetric; NATUnknown].

Section invariant.
Context `{UdpNetwork}.

Lemma verdict_inv c s server r hist :
  client_inv c s → cfg s = c →
  (length (stun_Servers (STUN c)) < 2 → (verdict s server r hist).1 = NATNone)
  ∧ (verdict s server r hist).1 ∈ [NATNone; NATFullCone; NATSymmetric; NATUnknown].
Proof.
  intros (_ & _ & _ & Hnone & Hin) <-. unfold verdict, GetNATType, servers in *.
  destruct (stun_Servers (STUN (cfg s))) as [|x [|y ?]]; simpl in *; [auto..|].
  split; [lia|]. repeat case_match; simpl; set_solver.
Qed.

Lemma Discover_inv c s hist : client_inv c s → client_inv c (Discover s hist).2.1.
Proof.
  intros Hinv. pose proof Hinv as (Hcfg & Hres & Hpub & _). unfold Discover.
  destruct (first_responder hist (servers s)) as [[[hist' server] r]|] eqn:Hf;
    [|by destruct (first_responder_None _ _ Hf None s) as [e ->]].
  pose proof (first_responder_in _ _ _ _ _ Hf) as [Hin [h Hr]].
  destruct (bindingRequest_returns h server) as [(r' & Hr' & Hsrv & _ & Hok)|[e Hr'] ];
    rewrite Hr in Hr'; inv_outcome.
  rewrite (first_responder_Some _ _ _ _ _ Hf None s). cbv zeta.
  set (s' := record_result (Server r') r' s).
  assert (client_inv (cfg s) s') as Hinv'.
  { destruct Hinv as (_ & _ & _ & ? & ?). split_and!; try done.
    - unfold s'. simpl. intros x y [[<- <-]|[_ Hy] ]%lookup_insert_Some; auto.
    - right. exists (Server r'), r'. split; [apply lookup_insert_eq|done]. }
  destruct (verdict_inv (cfg s) s' (Server r') r' hist' Hinv' eq_refl) as [Hn1 Hn2].
  destruct (verdict s' _ r' hist') as [n hist'']. simpl in *.
  destruct Hinv' as (? & ? & ? & _). split_and!; done.
Qed.
End invariant.

(** C27. Whatever the network does and however often discovery runs, the client
    keeps its configuration; every recorded result is stored under the server
    it came from, a configured one, with an address of 0, 4 or 16 bytes and a
    16-bit port; the public endpoint is nil or that of a recorded result; and
    the NAT type is one of the four the detection can produce.  With fewer than
    two servers it stays at the zero value, which prints as "No NAT", although
    no detection ever ran.  The loop panics exactly when the refresh interval is
    not positive. *)
Theorem RunPeriodicDiscovery_invariant `{UdpNetwork} c events hist :
  match RunPeriodicDiscovery events (NewSTUNClient c) hist with
  | Ok (s, _) => client_inv c s ∧ (0 < stun_RefreshInterval (STUN c))%Z
  | Panic => (stun_RefreshInterval (STUN c) ≤ 0)%Z
  | _ => False
  end.
Proof.
  assert (∀ s hist, client_inv c s → client_inv c (discovery_ticks events s hist).1) as Hrun.
  { induction events as [|[|] events IH]; intros s h Hs; simpl; [done| |done].
    pose proof (Discover_inv c s h Hs). destruct (Discover s h) as [o [s' h']]. by apply IH. }
  unfold RunPeriodicDiscovery. simpl. case_decide; [done|].
  assert (client_inv c (discovery_ticks events (NewSTUNClient c) hist).1) as Hinv.
  { apply Hrun. split_and!; try done; [left; done|set_solver]. }
  destruct (discovery_ticks _ _ _) as [s' h']. split; [exact Hinv|lia].
Qed.

(** The verdict after a discovery answered by the first of at least two
    servers: Full Cone exactly when the second server answers with the same
    mapping, Symmetric when it answers with another, Unknown when it does not
    answer. *)
Theorem Discover_verdict `{UdpNetwork} s hist first second rest r :
  servers s = first :: second :: rest →
  bindingRequest hist first = Ok r →
  GetNATType (Discover s hist).2.1 =
    match bindingRequest (hist ++ [first]) second with
    | Ok r' =>
      if decide (IP_canon (MappedIP r) = IP_canon (MappedIP r') ∧ MappedPort r = MappedPort r')
      then NATFullCone else NATSymmetric
    | _ => NATUnknown
    end.
Proof.
  intros Hs Hr. unfold Discover.
  assert (first_responder hist (servers s) = Some (hist ++ [first], first, r)) as Hf.
  { rewrite Hs. simpl. by rewrite Hr. }
  rewrite (first_responder_Some _ _ _ _ _ Hf). cbv zeta. unfold verdict.
  change (servers (record_result first r s)) with (servers s). rewrite Hs, decide_True by done.
  simpl. destruct (bindingRequest (hist ++ [first]) second) as [r'|e| |]; try done.
  unfold same_mapping. pose proof (IP_Equal_canon (MappedIP r) (MappedIP r')).
  destruct (IP_Equal (MappedIP r) (MappedIP r')); simpl; repeat case_decide; naive_solver.
Qed.

(** ** Witnesses *)
Definition witness_config : Config :=
  let c := applyDefaults zero_Config in
  mkConfig (NodeName c) (WireGuard c) (mkSTUNConf [str "a"; str "b"] [] 1) (Relay c) (MQTT c)
    (DNS c) (Dashboard c) (Crypto c) (Peers c).

(** Two servers that see different ports: a symmetric NAT. *)
Definition witness_net : UdpNetwork := λ hist server msg,
  Reply (encode_message 0x0101 (take 12 (drop 8 msg))
    [AttrXORMapped (z2b 192) (z2b 0) (z2b 2) (z2b 1)
       (if decide (server = str "a") then 40000 else 40001)]) 7.

Lemma Discover_verdict_witness :
  GetNATType (@Discover witness_net (NewSTUNClient witness_config) []).2.1 = NATSymmetric.
Proof.
  exact (@Discover_verdict witness_net (NewSTUNClient witness_config) [] (str "a") (str "b") []
    (mkSTUNResult [z2b 192; z2b 0; z2b 2; z2b 1] 40000 (str "a") 7 NATNone)
    eq_refl ltac:(vm_compute; reflexivity)).
Defined.
