(* ===== verification/Json.v ===== *)
(** * JSON text, as package encoding/json reads and writes it

    The scanner and the parser of [json.Unmarshal], whose stack of open arrays and
    objects is bounded; the unquoting of strings; and the quoting of
    [json.Marshal], which escapes for HTML.  Strings of a parsed value are kept as
    they are written, between their quotes. *)
From S2P Require Import Prelude Bytes NetParse GoOs Utf8.
From Stdlib Require Import Init.Byte DecimalPos DecimalN DecimalZ.

Inductive token :=
  | LBrace | RBrace | LBracket | RBracket | Colon | Comma
  | TString (raw : gostring) | TNumber (lit : gostring) | TTrue | TFalse | TNull.
#[export] Instance token_eq_dec : EqDecision token.
Proof. solve_decision. Defined.

Inductive json :=
  | JNull
  | JBool (b : bool)
  | JNumber (lit : gostring)
  | JString (raw : gostring)
  | JArray (elems : list json)
  | JObject (members : list (gostring * json)).

(** ** The scanner *)
Definition quotation : byte := x22.
Definition backslash : byte := x5c.
Definition is_space (c : byte) : bool := bool_decide (c ∈ [x20; x09; x0a; x0d]).
Definition is_hex (c : byte) : bool := bool_decide (is_Some (hex_digit c)).
(** What may follow a backslash, other than [u]. *)
Definition simple_escape (c : byte) : bool :=
  bool_decide (c ∈ [x22; x5c; x2f; x62; x66; x6e; x72; x74]).

(** A string up to its closing quote, and what follows. *)
Fixpoint scan_string (s : gostring) : option (gostring * gostring) :=
  match s with
  | [] => None
  | c :: t =>
    if decide (c = quotation) then Some ([], t)
    else if decide (c = backslash) then
      match t with
      | [] => None
      | e :: t =>
        if decide (e = x75) then
          match t with
          | h1 :: h2 :: h3 :: h4 :: t =>
            if is_hex h1 && is_hex h2 && is_hex h3 && is_hex h4
            then prod_map (app [c; e; h1; h2; h3; h4]) id <$> scan_string t else None
          | _ => None
          end
        else if simple_escape e then prod_map (app [c; e]) id <$> scan_string t else None
      end
    else if decide (b2z c < 32)%Z then None
    else prod_map (cons c) id <$> scan_string t
  end.

Definition is_digit (c : byte) : bool := in_range x30 x39 c.
Fixpoint take_digits (s : gostring) : gostring * gostring :=
  match s with
  | [] => ([], [])
  | c :: t => if is_digit c then prod_map (cons c) id (take_digits t) else ([], s)
  end.

(** A number: its sign, its digits, its fraction and its exponent. *)
Definition scan_exponent (s : gostring) : option (gostring * gostring) :=
  match s with
  | c :: t =>
    if decide (c ∈ [x65; x45]) then
      let '(sign, t) := match t with
                        | d :: t' => if decide (d ∈ [x2b; x2d]) then ([d], t') else ([], t)
                        | [] => ([], []) end in
      let (ds, t) := take_digits t in
      if decide (ds = []) then None else Some (c :: sign ++ ds, t)
    else Some ([], s)
  | [] => Some ([], [])
  end.
Definition scan_fraction (s : gostring) : option (gostring * gostring) :=
  match s with
  | x2e :: t =>
    let (ds, t) := take_digits t in if decide (ds = []) then None else Some (x2e :: ds, t)
  | _ => Some ([], s)
  end.
Definition scan_integer (s : gostring) : option (gostring * gostring) :=
  match s with
  | x30 :: t => Some ([x30], t)
  | _ => let (ds, t) := take_digits s in if decide (ds = []) then None else Some (ds, t)
  end.
Definition scan_number (s : gostring) : option (gostring * gostring) :=
  let '(sign, s) := match s with x2d :: t => ([x2d], t) | _ => ([], s) end in
  '(int, s) ← scan_integer s;
  '(frac, s) ← scan_fraction s;
  '(exp, s) ← scan_exponent s;
  Some (sign ++ int ++ frac ++ exp, s).

Definition punctuation (c : byte) : option token :=
  match c with
  | x7b => Some LBrace | x7d => Some RBrace | x5b => Some LBracket | x5d => Some RBracket
  | x3a => Some Colon | x2c => Some Comma | _ => None
  end.
Definition literals : list (gostring * token) :=
  [(str "true", TTrue); (str "false", TFalse); (str "null", TNull)].
Definition scan_literal (s : gostring) : option (gostring * token) :=
  list_find (λ p, take (length p.1) s = p.1) literals ≫= λ p, Some p.2.

(** The token at the start of a text, and how many bytes it takes. *)
Definition scan (s : gostring) : option (token * nat) :=
  match s with
  | [] => None
  | c :: t =>
    match punctuation c with
    | Some k => Some (k, 1)
    | None =>
      if decide (c = quotation) then
        '(raw, _) ← scan_string t; Some (TString raw, S (S (length raw)))
      else match scan_literal s with
           | Some (text, k) => Some (k, length text)
           | None => '(lit, _) ← scan_number s; Some (TNumber lit, length lit)
           end
    end
  end.

(** The tokens of a text, [skip] bytes of it already taken. *)
Fixpoint tokens_from (skip : nat) (s : gostring) : option (list token) :=
  match s with
  | [] => Some []
  | c :: t =>
    match skip with
    | S skip => tokens_from skip t
    | O =>
      if is_space c then tokens_from 0 t
      else '(k, n) ← scan s; cons k <$> tokens_from (pred n) t
    end
  end.
Definition tokens (s : gostring) : option (list token) := tokens_from 0 s.

(** ** The parser

    An open array with the elements before, or an open object with the members
    before and the key whose value is read. *)
Inductive frame :=
  | Elements (before : list json)
  | Members (before : list (gostring * json)) (key : gostring).

Inductive expecting :=
  | Value
  | FirstElement
  | FirstKey
  | NextKey (before : list (gostring * json))
  | KeyColon (before : list (gostring * json)) (key : gostring)
  | After (v : json).

Definition maxNestingDepth : Z := 10000.

Definition start_value (k : token) (stack : list frame) : option expecting :=
  match k with
  | TString raw => Some (After (JString raw))
  | TNumber lit => Some (After (JNumber lit))
  | TTrue => Some (After (JBool true))
  | TFalse => Some (After (JBool false))
  | TNull => Some (After JNull)
  | LBrace => if decide (Z.of_nat (length stack) < maxNestingDepth)%Z then Some FirstKey else None
  | LBracket => if decide (Z.of_nat (length stack) < maxNestingDepth)%Z then Some FirstElement else None
  | _ => None
  end.

Definition parse_token (k : token) (e : expecting) (stack : list frame) :
    option (expecting * list frame) :=
  match e, k with
  | FirstElement, RBracket => Some (After (JArray []), stack)
  | FirstElement, _ => e ← start_value k (Elements [] :: stack); Some (e, Elements [] :: stack)
  | Value, _ => e ← start_value k stack; Some (e, stack)
  | FirstKey, RBrace => Some (After (JObject []), stack)
  | FirstKey, TString key => Some (KeyColon [] key, stack)
  | NextKey before, TString key => Some (KeyColon before key, stack)
  | KeyColon before key, Colon => Some (Value, Members before key :: stack)
  | After v, _ =>
    match stack, k with
    | Elements before :: stack, Comma => Some (Value, Elements (before ++ [v]) :: stack)
    | Elements before :: stack, RBracket => Some (After (JArray (before ++ [v])), stack)
    | Members before key :: stack, Comma => Some (NextKey (before ++ [(key, v)]), stack)
    | Members before key :: stack, RBrace => Some (After (JObject (before ++ [(key, v)])), stack)
    | _, _ => None
    end
  | _, _ => None
  end.

Fixpoint parse_tokens (ks : list token) (e : expecting) (stack : list frame) : option json :=
  match ks with
  | [] => match e, stack with After v, [] => Some v | _, _ => None end
  | k :: ks => '(e, stack) ← parse_token k e stack; parse_tokens ks e stack
  end.

(** A text that is one JSON value. *)
Definition parse_json (s : gostring) : option json := ks ← tokens s; parse_tokens ks Value [].

(** ** Strings *)

(** [getu4]: the code unit of an escape [\uXXXX]. *)
Definition getu4 (s : gostring) : option Z :=
  match s with
  | x5c :: x75 :: h1 :: h2 :: h3 :: h4 :: _ =>
    a ← hex_digit h1; b ← hex_digit h2; c ← hex_digit h3; d ← hex_digit h4;
    Some (a * 4096 + b * 256 + c * 16 + d)%Z
  | _ => None
  end.
Definition unescape_byte (e : byte) : byte :=
  match e with x62 => x08 | x66 => x0c | x6e => x0a | x72 => x0d | x74 => x09 | _ => e end.

(** [unquote] of a string the scanner has accepted. *)
Fixpoint unquote_from (skip : nat) (s : gostring) : gostring :=
  match s with
  | [] => []
  | c :: t =>
    match skip with
    | S skip => unquote_from skip t
    | O =>
      if decide (c = backslash) then
        match getu4 s with
        | Some rr =>
          if decide (55296 ≤ rr < 57344)%Z then
            match getu4 (drop 6 s) with
            | Some rr1 =>
              if decide (rr < 56320 ∧ 56320 ≤ rr1 < 57344)%Z
              then encode_rune ((rr - 55296) * 1024 + (rr1 - 56320) + 65536)%Z ++ unquote_from 11 t
              else replacement ++ unquote_from 5 t
            | None => replacement ++ unquote_from 5 t
            end
          else encode_rune rr ++ unquote_from 5 t
        | None => match t with
                  | [] => []
                  | e :: _ => unescape_byte e :: unquote_from 1 t
                  end
        end
      else match rune_size s with
           | Some n => take n s ++ unquote_from (pred n) t
           | None => replacement ++ unquote_from 0 t
           end
    end
  end.
Definition unquote (s : gostring) : gostring := unquote_from 0 s.

(** What [json.Marshal] writes for one sequence of a string. *)
Definition hex_char (n : Z) : byte := z2b (if decide (n < 10)%Z then 48 + n else 87 + n)%Z.
Definition html_safe (b : byte) : bool :=
  in_range x20 x7f b && bool_decide (b ∉ [x22; x26; x3c; x3e; x5c]).
Definition escape_byte (b : byte) : gostring :=
  if html_safe b then [b] else
  match b with
  | x22 | x5c => [backslash; b]
  | x08 => str "\b" | x0c => str "\f" | x0a => str "\n" | x0d => str "\r" | x09 => str "\t"
  | _ => str "\u00" ++ [hex_char (b2z b / 16); hex_char (b2z b mod 16)]
  end.
Definition escape_rune (r : rune_text) : gostring :=
  match r with
  | Good bs =>
    if decide (bs = [xe2; x80; xa8]) then str "\u2028"
    else if decide (bs = [xe2; x80; xa9]) then str "\u2029"
    else match bs with [b] => escape_byte b | _ => bs end
  | Bad => str "\ufffd"
  end.
Definition quote_body (s : gostring) : gostring := concat (escape_rune <$> runes s).
Definition quote (s : gostring) : gostring := quotation :: quote_body s ++ [quotation].

(** ** Integers: [strconv.Itoa] and [strconv.ParseInt] *)
Fixpoint uint_text (d : Decimal.uint) : gostring :=
  match d with
  | Decimal.Nil => []
  | Decimal.D0 d => x30 :: uint_text d | Decimal.D1 d => x31 :: uint_text d
  | Decimal.D2 d => x32 :: uint_text d | Decimal.D3 d => x33 :: uint_text d
  | Decimal.D4 d => x34 :: uint_text d | Decimal.D5 d => x35 :: uint_text d
  | Decimal.D6 d => x36 :: uint_text d | Decimal.D7 d => x37 :: uint_text d
  | Decimal.D8 d => x38 :: uint_text d | Decimal.D9 d => x39 :: uint_text d
  end.
Definition Itoa (n : Z) : gostring :=
  match Z.to_int n with
  | Decimal.Pos d => uint_text d
  | Decimal.Neg d => x2d :: uint_text d
  end.

(** The value of a sequence of digits. *)
Fixpoint digits_value (acc : Z) (s : gostring) : option Z :=
  match s with
  | [] => Some acc
  | c :: s => d ← dec_digit c; digits_value (acc * 10 + d)%Z s
  end.
(** [strconv.ParseInt(s, 10, 64)] of a JSON number. *)
Definition ParseInt (s : gostring) : option Z :=
  let '(neg, ds) := match s with x2d :: ds => (true, ds) | _ => (false, s) end in
  n ← digits_value 0 ds;
  let n := if neg : bool then (- n)%Z else n in
  if decide (- 2 ^ 63 ≤ n < 2 ^ 63)%Z then Some n else None.

(** ** Lemmas: strings *)
Lemma tokens_from_skip x t : tokens_from (length x) (x ++ t) = tokens t.
Proof. induction x as [|b x IH]; [|exact IH]. by destruct t. Qed.
Lemma unquote_from_skip x t : unquote_from (length x) (x ++ t) = unquote t.
Proof. induction x as [|b x IH]; [|exact IH]. by destruct t. Qed.

Lemma quote_body_good bs s :
  rune_size (bs ++ s) = Some (length bs) → quote_body (bs ++ s) = escape_rune (Good bs) ++ quote_body s.
Proof. intros Hn. unfold quote_body. by rewrite (runes_good _ _ Hn). Qed.
Lemma quote_body_bad b s :
  rune_size (b :: s) = None → quote_body (b :: s) = escape_rune Bad ++ quote_body s.
Proof. intros Hn. unfold quote_body. by rewrite (runes_bad _ _ Hn). Qed.

(** A byte that the scanner takes as it is. *)
Definition plain_byte (b : byte) : Prop := b ≠ quotation ∧ b ≠ backslash ∧ (32 ≤ b2z b)%Z.
Lemma high_byte_plain b : in_range x80 xff b = true → plain_byte b.
Proof. intros Hb. unfold plain_byte. split_and!; [by intros ->|by intros ->|]. by destruct b. Qed.

Lemma scan_plain bs t :
  Forall plain_byte bs → scan_string (bs ++ t) = prod_map (app bs) id <$> scan_string t.
Proof.
  induction 1 as [|b bs (Hq & Hb & Hv) _ IH]; [simpl; by destruct (scan_string t) as [[]|]|].
  simpl. rewrite !decide_False by (done || lia). rewrite IH. by destruct (scan_string t) as [[]|].
Qed.

Lemma escape_byte_cases b :
  in_range x00 x7f b = true →
  (plain_byte b ∧ escape_byte b = [b])
  ∨ (∃ e, escape_byte b = [backslash; e] ∧ simple_escape e = true ∧ unescape_byte e = b)
  ∨ ∃ h1 h2 h3 h4, escape_byte b = [backslash; x75; h1; h2; h3; h4]
      ∧ is_hex h1 && is_hex h2 && is_hex h3 && is_hex h4 = true
      ∧ getu4 [backslash; x75; h1; h2; h3; h4] = Some (b2z b).
Proof.
  destruct b; try discriminate; intros _;
    first [ left; split; [split; [discriminate|split; [discriminate|vm_compute; discriminate]]|
                          vm_compute; reflexivity]
          | right; left; eexists; repeat split; vm_compute; reflexivity
          | right; right; do 4 eexists; split; [vm_compute; reflexivity|split; vm_compute; reflexivity]].
Qed.

Lemma scan_simple e t :
  simple_escape e = true →
  scan_string (backslash :: e :: t) = prod_map (app [backslash; e]) id <$> scan_string t.
Proof.
  intros He. cbn [scan_string]. rewrite decide_False, decide_True by done.
  rewrite decide_False, He by (by intros ->). done.
Qed.

Lemma scan_hex h1 h2 h3 h4 t :
  is_hex h1 && is_hex h2 && is_hex h3 && is_hex h4 = true →
  scan_string (backslash :: x75 :: h1 :: h2 :: h3 :: h4 :: t)
  = prod_map (app [backslash; x75; h1; h2; h3; h4]) id <$> scan_string t.
Proof. intros He. cbn [scan_string]. by rewrite decide_False, !decide_True, He by done. Qed.

Lemma scan_escape_byte b t :
  in_range x00 x7f b = true →
  scan_string (escape_byte b ++ t) = prod_map (app (escape_byte b)) id <$> scan_string t.
Proof.
  intros [[Hp ->]|[(e & -> & He & _)|(h1 & h2 & h3 & h4 & -> & He & _)]]%escape_byte_cases.
  - apply (scan_plain [b]). by apply Forall_singleton.
  - by apply scan_simple.
  - by apply scan_hex.
Qed.

(** The sequences that are escaped, and the others. *)
Lemma escape_rune_cases bs :
  (∃ b, bs = [b] ∧ escape_rune (Good bs) = escape_byte b)
  ∨ (bs = [xe2; x80; xa8] ∧ escape_rune (Good bs) = str "\u2028")
  ∨ (bs = [xe2; x80; xa9] ∧ escape_rune (Good bs) = str "\u2029")
  ∨ (length bs ≠ 1 ∧ escape_rune (Good bs) = bs).
Proof.
  unfold escape_rune. case_decide as H1; [by right; left|].
  case_decide as H2; [by right; right; left|]. destruct bs as [|b [|b' bs]].
  - by do 3 right.
  - left. by exists b.
  - by do 3 right.
Qed.

Lemma scan_escape bs s t :
  rune_size (bs ++ s) = Some (length bs) →
  scan_string (escape_rune (Good bs) ++ t)
  = prod_map (app (escape_rune (Good bs))) id <$> scan_string t.
Proof.
  intros Hn. destruct (rune_size_local _ _ Hn) as (Hpos & _ & _ & H1 & Hm).
  rewrite take_app_length in H1, Hm.
  destruct (escape_rune_cases bs) as [(b & -> & ->)|[[-> ->]|[[-> ->]|[Hl He]]]].
  - destruct H1 as (b' & [= ->] & Hb); [done|]. by apply scan_escape_byte.
  - by apply (scan_hex x32 x30 x32 x38).
  - by apply (scan_hex x32 x30 x32 x39).
  - rewrite He. apply scan_plain. eapply Forall_impl; [apply Hm; lia|]. apply high_byte_plain.
Qed.

(** The scanner finds the end of a quoted string. *)
Lemma scan_quote s t : scan_string (quote_body s ++ quotation :: t) = Some (quote_body s, t).
Proof.
  induction s as [|bs s Hn IH|b s Hn IH] using rune_ind; [done|..].
  - rewrite (quote_body_good _ _ Hn), <-app_assoc, (scan_escape bs s), IH by done. done.
  - rewrite (quote_body_bad _ _ Hn), <-app_assoc.
    etrans; [by apply (scan_hex x66 x66 x66 x64 (quote_body s ++ quotation :: t))|].
    by rewrite IH.
Qed.

Lemma unquote_rune bs s :
  rune_size (bs ++ s) = Some (length bs) → Forall plain_byte bs →
  unquote (bs ++ s) = bs ++ unquote s.
Proof.
  intros Hn Hp. destruct (rune_size_local _ _ Hn) as (Hpos & _ & _).
  destruct bs as [|b bs]; [done|]. unfold unquote at 1. cbn [app unquote_from].
  inversion_clear Hp as [|? ? (_ & Hb & _)]. rewrite decide_False by done.
  change (b :: bs ++ s) with ((b :: bs) ++ s). rewrite Hn, take_app_length.
  apply (f_equal (app (b :: bs))), unquote_from_skip.
Qed.

Lemma unquote_simple e t :
  simple_escape e = true → unquote (backslash :: e :: t) = unescape_byte e :: unquote t.
Proof.
  intros He. unfold unquote. cbn [unquote_from]. rewrite decide_True by done.
  assert (getu4 (backslash :: e :: t) = None) as ->; [|by destruct t].
  destruct e; try reflexivity. by vm_compute in He.
Qed.

Lemma unquote_hex h1 h2 h3 h4 rr t :
  getu4 [backslash; x75; h1; h2; h3; h4] = Some rr → (rr < 55296 ∨ 57344 ≤ rr)%Z →
  unquote (backslash :: x75 :: h1 :: h2 :: h3 :: h4 :: t) = encode_rune rr ++ unquote t.
Proof.
  intros Hr Hs. unfold unquote. cbn [unquote_from]. rewrite decide_True by done.
  change (getu4 (backslash :: x75 :: h1 :: h2 :: h3 :: h4 :: t)) with
    (getu4 [backslash; x75; h1; h2; h3; h4]).
  rewrite Hr, decide_False by lia. reflexivity.
Qed.

Lemma encode_rune_ascii b : in_range x00 x7f b = true → encode_rune (b2z b) = [b].
Proof. by destruct b. Qed.

Lemma unquote_escape_byte b t :
  in_range x00 x7f b = true → unquote (escape_byte b ++ t) = b :: unquote t.
Proof.
  intros Hb. destruct (escape_byte_cases b Hb)
    as [[Hp ->]|[(e & -> & He & <-)|(h1 & h2 & h3 & h4 & -> & _ & Hr)]].
  - apply (unquote_rune [b]); [simpl; by rewrite Hb|by apply Forall_singleton].
  - by apply unquote_simple.
  - etrans; [apply (unquote_hex h1 h2 h3 h4 (b2z b) t Hr)|by rewrite encode_rune_ascii].
    left. unfold in_range in Hb. apply bool_decide_eq_true in Hb as [_ Hb].
    change (b2z x7f) with 127%Z in Hb. lia.
Qed.

Lemma unquote_escape bs s t :
  rune_size (bs ++ s) = Some (length bs) →
  unquote (escape_rune (Good bs) ++ t) = bs ++ unquote t.
Proof.
  intros Hn. destruct (rune_size_local _ _ Hn) as (Hpos & _ & Hlocal & H1 & Hm).
  rewrite take_app_length in Hlocal, H1, Hm.
  destruct (escape_rune_cases bs) as [(b & -> & ->)|[[-> ->]|[[-> ->]|[Hl He]]]].
  - destruct H1 as (b' & [= ->] & Hb); [done|]. by apply unquote_escape_byte.
  - apply (unquote_hex x32 x30 x32 x38 8232); [vm_compute; reflexivity|lia].
  - apply (unquote_hex x32 x30 x32 x39 8233); [vm_compute; reflexivity|lia].
  - rewrite He. apply unquote_rune; [apply Hlocal|].
    eapply Forall_impl; [apply Hm; lia|]. apply high_byte_plain.
Qed.

(** A string comes back as it was, with what is not UTF-8 in it replaced. *)
Lemma unquote_quote_body s : unquote (quote_body s) = sanitize s.
Proof.
  unfold sanitize. induction s as [|bs s Hn IH|b s Hn IH] using rune_ind; [done|..].
  - by rewrite (quote_body_good _ _ Hn), (unquote_escape bs s), IH, (runes_good _ _ Hn).
  - rewrite (quote_body_bad _ _ Hn), (runes_bad _ _ Hn).
    etrans; [|apply (f_equal (app replacement)), IH].
    apply (unquote_hex x66 x66 x66 x64 65533); [vm_compute; reflexivity|lia].
Qed.

(** ** Lemmas: integers *)
Lemma digits_value_cons acc c n s :
  dec_digit c = Some n → digits_value acc (c :: s) = digits_value (acc * 10 + n)%Z s.
Proof. intros Hc. cbn [digits_value]. by rewrite Hc. Qed.

Lemma digits_value_pos d p :
  digits_value (Z.pos p) (uint_text d) = Some (Z.pos (Pos.of_uint_acc d p)).
Proof.
  revert p. induction d as [|d IH|d IH|d IH|d IH|d IH|d IH|d IH|d IH|d IH|d IH]; intros p; [done|..];
    cbn [uint_text Pos.of_uint_acc]; erewrite digits_value_cons by (vm_compute; reflexivity);
    rewrite <-IH; f_equal; lia.
Qed.

Lemma digits_value_uint d : digits_value 0 (uint_text d) = Some (Z.of_N (Pos.of_uint d)).
Proof.
  induction d as [|d IH|d IH|d IH|d IH|d IH|d IH|d IH|d IH|d IH|d IH]; [done|exact IH|..];
    apply digits_value_pos.
Qed.

Lemma digits_uint d : Forall (λ c, is_digit c = true) (uint_text d).
Proof. induction d; simpl; constructor; done. Qed.

Lemma to_uint_head p d : Pos.to_uint p ≠ Decimal.D0 d.
Proof.
  intros Hd. pose proof (DecimalN.Unsigned.to_of (Pos.to_uint p)) as Ht.
  assert (N.of_uint (Pos.to_uint p) = N.pos p) as Hp by exact (DecimalN.Unsigned.of_to (N.pos p)).
  rewrite Hp in Ht. change (N.to_uint (N.pos p)) with (Pos.to_uint p) in Ht.
  unfold Decimal.unorm in Ht. destruct (Decimal.nzhead (Pos.to_uint p)) as [|d'|d'|d'|d'|d'|d'|d'|d'|d'|d'] eqn:Hn;
    try congruence.
  - by apply DecimalPos.Unsigned.to_uint_nonzero in Ht.
  - by apply DecimalFacts.nzhead_nonzero in Hn.
Qed.

(** What may follow a number. *)
Definition number_end (t : gostring) : Prop :=
  match t with [] => True | c :: _ => c ∈ [x2c; x7d; x5d; x20; x0a] end.

Lemma take_digits_app ds t :
  Forall (λ c, is_digit c = true) ds → number_end t → take_digits (ds ++ t) = (ds, t).
Proof.
  intros Hds Ht. induction Hds as [|c ds Hc _ IH]; simpl.
  - destruct t as [|c t]; [done|]. simpl in *. replace (is_digit c) with false; [done|].
    set_unfold. naive_solver.
  - by rewrite Hc, IH.
Qed.

Lemma scan_number_end int t : 
  scan_integer (int ++ t) = Some (int, t) → head int ≠ Some x2d → int ≠ [] → number_end t →
  scan_number (int ++ t) = Some (int, t) ∧ scan_number (x2d :: int ++ t) = Some (x2d :: int, t).
Proof.
  intros Hi Hh Hne Ht.
  assert (scan_fraction t = Some ([], t)) as Hf.
  { destruct t as [|c t]; [done|]. simpl in Ht. set_unfold. naive_solver. }
  assert (scan_exponent t = Some ([], t)) as He.
  { destruct t as [|c t]; [done|]. simpl in Ht. unfold scan_exponent.
    rewrite decide_False; [done|]. set_unfold. naive_solver. }
  unfold scan_number. split.
  - destruct int as [|c int]; [done|].
    assert (∀ A (x y : A), match (c :: int) ++ t with x2d :: _ => x | _ => y end = y) as Hm
      by (intros; by destruct c).
    assert (match (c :: int) ++ t with x2d :: t => ([x2d], t) | _ => ([], (c :: int) ++ t) end
      = ([], (c :: int) ++ t)) as -> by by destruct c.
    rewrite Hi. simpl. rewrite Hf. simpl. rewrite He. simpl. by rewrite app_nil_r.
  - rewrite Hi. simpl. rewrite Hf. simpl. rewrite He. simpl. by rewrite app_nil_r.
Qed.

(** The digits of a positive number, and its first one. *)
Lemma uint_text_pos p :
  ∃ c ds, uint_text (Pos.to_uint p) = c :: ds ∧ is_digit c = true ∧ c ≠ x30.
Proof.
  pose proof (to_uint_head p) as H0. pose proof (DecimalPos.Unsigned.to_uint_nonnil p) as Hnil.
  destruct (Pos.to_uint p) as [|d|d|d|d|d|d|d|d|d|d]; simpl; try done; [by destruct (H0 d)|..];
    eexists _, _; by split_and!.
Qed.

Lemma scan_integer_pos p t :
  number_end t → scan_integer (uint_text (Pos.to_uint p) ++ t) = Some (uint_text (Pos.to_uint p), t).
Proof.
  intros Ht. pose proof (take_digits_app _ t (digits_uint (Pos.to_uint p)) Ht) as Hd.
  destruct (uint_text_pos p) as (c & ds & Hp & Hc & H0). rewrite Hp in *. unfold scan_integer.
  rewrite Hd. by destruct c.
Qed.

Lemma Itoa_cases n :
  (n = 0%Z ∧ Itoa n = [x30])
  ∨ (∃ p, n = Z.pos p ∧ Itoa n = uint_text (Pos.to_uint p))
  ∨ ∃ p, n = Z.neg p ∧ Itoa n = x2d :: uint_text (Pos.to_uint p).
Proof. destruct n as [|p|p]; [by left|right; left; by exists p|right; right; by exists p]. Qed.

Lemma scan_number_Itoa n t : number_end t → scan_number (Itoa n ++ t) = Some (Itoa n, t).
Proof.
  intros Ht. assert (∀ p, head (uint_text (Pos.to_uint p)) ≠ Some x2d ∧ uint_text (Pos.to_uint p) ≠ [])
    as Hhead.
  { intros p. destruct (uint_text_pos p) as (c & ds & -> & Hc & _). split; [|done].
    simpl. intros [= ->]. done. }
  destruct (Itoa_cases n) as [[-> ->]|[(p & -> & ->)|(p & -> & ->)]].
  - by apply (scan_number_end [x30] t).
  - destruct (Hhead p). by apply scan_number_end; [apply scan_integer_pos|..].
  - destruct (Hhead p). simpl. by apply scan_number_end; [apply scan_integer_pos|..].
Qed.

Lemma ParseInt_Itoa n : (- 2 ^ 63 ≤ n < 2 ^ 63)%Z → ParseInt (Itoa n) = Some n.
Proof.
  intros Hn. unfold ParseInt.
  assert (∀ p, digits_value 0 (uint_text (Pos.to_uint p)) = Some (Z.pos p)) as Hv.
  { intros p. rewrite digits_value_uint.
    assert (N.of_uint (Pos.to_uint p) = N.pos p) as Hp by exact (DecimalN.Unsigned.of_to (N.pos p)).
    unfold N.of_uint in Hp. by rewrite Hp. }
  destruct (Itoa_cases n) as [[-> ->]|[(p & -> & ->)|(p & -> & ->)]].
  - reflexivity.
  - destruct (uint_text_pos p) as (c & ds & Hp & Hc & _).
    assert (match uint_text (Pos.to_uint p) with x2d :: ds => (true, ds)
      | _ => (false, uint_text (Pos.to_uint p)) end = (false, uint_text (Pos.to_uint p))) as ->.
    { rewrite Hp. by destruct c. }
    rewrite Hv. simpl. by rewrite decide_True.
  - rewrite Hv. simpl. by rewrite decide_True.
Qed.

(** ** Lemmas: tokens *)
Lemma tokens_scan c t k n rest :
  is_space c = false → scan (c :: t) = Some (k, S n) → drop n t = rest → n ≤ length t →
  tokens (c :: t) = cons k <$> tokens rest.
Proof.
  intros Hs Hk <- Hn. unfold tokens at 1. cbn [tokens_from]. rewrite Hs, Hk. simpl. f_equal.
  rewrite <-(take_drop n t) at 1. rewrite <-(tokens_from_skip (take n t)). f_equal.
  rewrite length_take. lia.
Qed.

Lemma tokens_punctuation c k t :
  punctuation c = Some k → tokens (c :: t) = cons k <$> tokens t.
Proof.
  intros Hc. apply (tokens_scan c t k 0); [by destruct c| |done|lia].
  unfold scan. by rewrite Hc.
Qed.

Lemma tokens_quote s t : tokens (quote s ++ t) = cons (TString (quote_body s)) <$> tokens t.
Proof.
  unfold quote. rewrite <-app_comm_cons, <-app_assoc. cbn [app].
  eapply (tokens_scan _ _ _ (S (length (quote_body s)))); [done| | |].
  - unfold scan. cbn [punctuation]. rewrite decide_True, scan_quote by done. done.
  - rewrite <-Nat.add_1_r, <-drop_drop, drop_app_length. done.
  - rewrite length_app. simpl. lia.
Qed.

Lemma tokens_Itoa n t : number_end t → tokens (Itoa n ++ t) = cons (TNumber (Itoa n)) <$> tokens t.
Proof.
  intros Ht. pose proof (scan_number_Itoa n t Ht) as Hn.
  assert (∃ c ds, Itoa n = c :: ds ∧ (is_digit c = true ∨ c = x2d)) as (c & ds & HI & Hc).
  { destruct (Itoa_cases n) as [[_ ->]|[(p & _ & ->)|(p & _ & ->)]]; [by exists x30, []; auto| |by eauto].
    destruct (uint_text_pos p) as (c & ds & -> & Hc & _). by eauto. }
  rewrite HI in *. cbn [app].
  assert (is_space c = false ∧ punctuation c = None ∧ c ≠ quotation
    ∧ scan_literal (c :: ds ++ t) = None) as (H1 & H2 & H3 & H4).
  { assert (∀ p, p ∈ literals → head p.1 = Some c → False) as Hlit.
    { intros p Hp Hh. unfold literals in Hp.
      apply elem_of_cons in Hp as [->|[->|[->|[]%elem_of_nil]%elem_of_cons]%elem_of_cons];
        simpl in Hh; injection Hh as <-; by destruct Hc. }
    split_and!.
    - destruct Hc as [Hc| ->]; [by destruct c|done].
    - destruct Hc as [Hc| ->]; [by destruct c|done].
    - destruct Hc as [Hc| ->]; [by intros ->|done].
    - unfold scan_literal. destruct (list_find _ literals) as [[i p]|] eqn:Hf; [|done].
      apply list_find_Some in Hf as (Hp%list_elem_of_lookup_2 & Heq & _). exfalso.
      apply (Hlit p Hp). rewrite <-Heq. unfold literals in Hp.
      by apply elem_of_cons in Hp as [->|[->|[->|[]%elem_of_nil]%elem_of_cons]%elem_of_cons]. }
  eapply (tokens_scan _ _ _ (length ds)); [done| |apply drop_app_length|rewrite length_app; lia].
  unfold scan. rewrite H2, decide_False, H4 by done.
  change (c :: ds ++ t) with ((c :: ds) ++ t). by rewrite Hn.
Qed.

Lemma tokens_true t : tokens (str "true" ++ t) = cons TTrue <$> tokens t.
Proof. done. Qed.
