(* ===== verification/JsonStruct.v ===== *)
(** * JSON objects and Go structs

    What [json.Marshal] writes for a struct, and how [json.Unmarshal] finds and
    fills the fields of one. *)
From S2P Require Import Prelude Bytes GoOs Utf8 Json.
From Stdlib Require Import Init.Byte.
(** ** Objects

    [json.Marshal] of a struct whose members have the texts given. *)
Definition member_text (m : gostring * gostring) : gostring := quote m.1 ++ x3a :: m.2.
Fixpoint members_text (m : gostring * gostring) (ms : list (gostring * gostring)) : gostring :=
  member_text m ++ match ms with [] => [x7d] | m :: ms => x2c :: members_text m ms end.
Definition object_text (ms : list (gostring * gostring)) : gostring :=
  match ms with [] => str "{}" | m :: ms => x7b :: members_text m ms end.

(** How [json.Unmarshal] finds the field for a key: the field of that very name,
    else the first whose name differs in case only.  Two letters outside ASCII
    are of the case of an ASCII letter: the Kelvin sign and the long s. *)
Definition fold_rune (r : rune_text) : gostring :=
  match r with
  | Good [b] => [if in_range x61 x7a b then z2b (b2z b - 32) else b]
  | Good bs => if decide (bs = [xe2; x84; xaa]) then str "K"
               else if decide (bs = [xc5; xbf]) then str "S" else bs
  | Bad => replacement
  end.
Definition foldName (s : gostring) : gostring := concat (fold_rune <$> runes s).

Section decode.
Context {A : Type}.
(** A field: its name, and how a value is stored in it, if it can be. *)
Implicit Types (fields : list (gostring * (json → A → option A))).

Definition find_field fields (key : gostring) : option (json → A → option A) :=
  match list_find (λ f, f.1 = key) fields with
  | Some (_, f) => Some f.2
  | None => snd ∘ snd <$> list_find (λ f, foldName f.1 = foldName key) fields
  end.
Definition decode_member fields (a : A) (m : gostring * json) : option A :=
  match find_field fields (unquote m.1) with
  | Some set => set m.2 a
  | None => Some a
  end.
Definition decode_struct fields (j : json) (a : A) : option A :=
  match j with
  | JNull => Some a
  | JObject ms => foldl (λ o m, o ≫= λ a, decode_member fields a m) (Some a) ms
  | _ => None
  end.

Definition string_field (set : gostring → A → A) (j : json) (a : A) : option A :=
  match j with JNull => Some a | JString raw => Some (set (unquote raw) a) | _ => None end.
Definition int_field (set : Z → A → A) (j : json) (a : A) : option A :=
  match j with
  | JNull => Some a
  | JNumber lit => (λ n, set n a) <$> ParseInt lit
  | _ => None
  end.
Definition bool_field (set : bool → A → A) (j : json) (a : A) : option A :=
  match j with JNull => Some a | JBool b => Some (set b a) | _ => None end.

(** [json.Unmarshal(data, &a)] for a struct with these fields. *)
Definition Unmarshal fields (data : gostring) (a : A) : option A :=
  j ← parse_json data; decode_struct fields j a.
End decode.

(** ** Lemmas: objects *)

(** A text that is one token of a scalar value, before what ends a number. *)
Definition reads_as (text : gostring) (j : json) : Prop :=
  ∃ k, (∀ stack, start_value k stack = Some (After j))
    ∧ ∀ t, number_end t → tokens (text ++ t) = cons k <$> tokens t.

Lemma reads_quote s : reads_as (quote s) (JString (quote_body s)).
Proof. exists (TString (quote_body s)). split; [done|]. intros t _. apply tokens_quote. Qed.
Lemma reads_Itoa n : reads_as (Itoa n) (JNumber (Itoa n)).
Proof. exists (TNumber (Itoa n)). split; [done|]. intros t. apply tokens_Itoa. Qed.
Lemma reads_true : reads_as (str "true") (JBool true).
Proof. exists TTrue. split; [done|]. intros t _. apply tokens_true. Qed.

Definition parse_from (s : gostring) (e : expecting) (stack : list frame) : option json :=
  ks ← tokens s; parse_tokens ks e stack.

Lemma parse_from_token s k t e stack e' stack' :
  tokens s = cons k <$> tokens t → parse_token k e stack = Some (e', stack') →
  parse_from s e stack = parse_from t e' stack'.
Proof.
  intros Hs Hk. unfold parse_from. rewrite Hs. destruct (tokens t); [|done]. simpl. by rewrite Hk.
Qed.

Lemma parse_punctuation c k t e stack e' stack' :
  punctuation c = Some k → parse_token k e stack = Some (e', stack') →
  parse_from (c :: t) e stack = parse_from t e' stack'.
Proof. intros Hc. apply parse_from_token. by apply tokens_punctuation. Qed.

(** A member, up to what follows its value. *)
Lemma parse_member m v t before stack e :
  reads_as m.2 v → number_end t → (e = FirstKey ∧ before = [] ∨ e = NextKey before) →
  parse_from (member_text m ++ t) e stack
  = parse_from t (After v) (Members before (quote_body m.1) :: stack).
Proof.
  intros (k & Hk & Hread) Ht He. unfold member_text. rewrite <-app_assoc.
  erewrite parse_from_token; [|apply tokens_quote|].
  2:{ instantiate (1:=stack). instantiate (1:=KeyColon before (quote_body m.1)).
      by destruct He as [[-> ->]| ->]. }
  cbn [app]. erewrite parse_punctuation; [|reflexivity..].
  eapply parse_from_token; [by apply Hread|]. cbn [parse_token]. by rewrite Hk.
Qed.

Lemma parse_members_text m ms v vs t before stack e :
  Forall2 (λ m v, reads_as m.2 v) (m :: ms) (v :: vs) →
  (e = FirstKey ∧ before = [] ∨ e = NextKey before) →
  parse_from (members_text m ms ++ t) e stack
  = parse_from t (After (JObject (before ++ zip_with (λ m v, (quote_body m.1, v)) (m :: ms) (v :: vs))))
      stack.
Proof.
  revert m v vs before e. induction ms as [|m' ms IH]; intros m v vs before e [Hm Hall]%Forall2_cons He.
  all: cbn [members_text]; rewrite <-app_assoc, (parse_member m v _ before stack e Hm) by
    (first [exact He|simpl; set_solver]).
  - apply Forall2_nil_inv_l in Hall as ->. by apply (parse_punctuation _ RBrace).
  - destruct vs as [|v' vs]; [by apply Forall2_length in Hall|].
    cbn [app]. erewrite (parse_punctuation _ Comma); [|reflexivity..].
    rewrite (IH m' v' vs (before ++ [(quote_body m.1, v)])) by (done || by right).
    by rewrite <-app_assoc.
Qed.

(** An object is read back member by member. *)
Lemma parse_object_text ms vs :
  Forall2 (λ m v, reads_as m.2 v) ms vs →
  parse_json (object_text ms) = Some (JObject (zip_with (λ m v, (quote_body m.1, v)) ms vs)).
Proof.
  intros Hall. destruct Hall as [|m v ms vs Hm Hall]; [done|]. unfold object_text.
  change (parse_json ?s) with (parse_from s Value []).
  erewrite (parse_punctuation _ LBrace); [|reflexivity..].
  rewrite <-(app_nil_r (members_text m ms)).
  rewrite (parse_members_text m ms v vs [] [] []); [done|by constructor|by left].
Qed.
