(* ===== verification/Rfc3339.v ===== *)
(** * Times as text: package time in RFC 3339

    The civil date of a day and the day of a civil date, as package time computes
    them in the proleptic Gregorian calendar; [Time.MarshalJSON] with nanoseconds;
    and [Time.UnmarshalJSON].  A time is its nanoseconds since 1970; the offset of
    the zone it is printed in is an argument.  Days count from 1 January of the
    year 1. *)
From S2P Require Import Prelude Bytes NetParse GoOs.
From Stdlib Require Import Init.Byte.
Local Open Scope Z_scope.

(** ** The calendar *)
Definition daysPer400Years : Z := 365 * 400 + 97.
Definition daysPer100Years : Z := 365 * 100 + 24.
Definition daysPer4Years : Z := 365 * 4 + 1.

Definition isLeap (year : Z) : bool :=
  (year mod 4 =? 0) && (negb (year mod 100 =? 0) || (year mod 400 =? 0)).

(** The days of a year before its month [m], without a leap day. *)
Definition daysBefore (m : Z) : Z :=
  nth (Z.to_nat m) [0; 31; 59; 90; 120; 151; 181; 212; 243; 273; 304; 334; 365] 0.
Definition daysIn (m year : Z) : Z :=
  if decide (m = 2 ∧ isLeap year = true) then 29 else daysBefore m - daysBefore (m - 1).

Record date := mkDate { year : Z; month : Z; day : Z }.

(** The month and the day of a day of the year. *)
Definition month_day (leap : bool) (yday : Z) : Z * Z :=
  if leap && (yday =? 31 + 29 - 1) then (2, 29) else
  let day := if leap && (31 + 29 - 1 <? yday) then yday - 1 else yday in
  let month := day / 31 in
  let end_ := daysBefore (month + 1) in
  if end_ <=? day then (month + 2, day - end_ + 1) else (month + 1, day - daysBefore month + 1).

(** [absDate]: the cycles of 400, 100, 4 and 1 years; the last cycle of 100 and the
    last year of 4 are a day longer. *)
Definition absDate (d : Z) : date :=
  let n400 := d / daysPer400Years in
  let d := d mod daysPer400Years in
  let n := d / daysPer100Years in
  let n100 := n - Z.shiftr n 2 in
  let d := d - daysPer100Years * n100 in
  let n4 := d / daysPer4Years in
  let d := d - daysPer4Years * n4 in
  let n := d / 365 in
  let n1 := n - Z.shiftr n 2 in
  let yday := d - 365 * n1 in
  let year := 400 * n400 + 100 * n100 + 4 * n4 + n1 + 1 in
  let (m, dd) := month_day (isLeap year) yday in
  mkDate year m dd.

(** The days before a year, and the day of a date ([Date]). *)
Definition daysSinceEpoch (year : Z) : Z :=
  let y := year - 1 in
  let n400 := y / 400 in let y := y mod 400 in
  let n100 := y / 100 in let y := y mod 100 in
  let n4 := y / 4 in let y := y mod 4 in
  daysPer400Years * n400 + daysPer100Years * n100 + daysPer4Years * n4 + 365 * y.
Definition year_day (leap : bool) (m d : Z) : Z :=
  daysBefore (m - 1) + (if leap && (3 <=? m) then 1 else 0) + d - 1.
Definition day_of (t : date) : Z :=
  daysSinceEpoch (year t) + year_day (isLeap (year t)) (month t) (day t).

(** 1 January 1970. *)
Definition unix_day : Z := 719162.

(** ** Writing *)

(** [appendInt] to a width, for a number that fits it. *)
Definition digit (n : Z) : byte := z2b (48 + n).
Fixpoint digits (w : nat) (n : Z) : gostring :=
  match w with
  | O => []
  | S w => digits w (n / 10) ++ [digit (n mod 10)]
  end.

(** The nanoseconds of ".999999999": nine digits without the zeros at the end. *)
Fixpoint trim_zeros (s : gostring) : gostring :=
  match s with
  | [] => []
  | c :: s => match trim_zeros s with
              | [] => if decide (c = x30) then [] else [c]
              | s => c :: s
              end
  end.
Definition fraction_text (nsec : Z) : gostring :=
  match trim_zeros (digits 9 nsec) with [] => [] | ds => x2e :: ds end.

(** "Z07:00": the offset of the zone in seconds, cut to minutes. *)
Definition zone_text (offset : Z) : gostring :=
  if decide (offset = 0) then [x5a] else
  let zone := Z.quot offset 60 in
  (if decide (zone < 0) then x2d else x2b) ::
    digits 2 (Z.abs zone / 60) ++ x3a :: digits 2 (Z.abs zone mod 60).

Definition second : Z := 1000000000.
(** The date and the second of the day of a number of seconds since 1970. *)
Definition clock (secs : Z) : date * Z := (absDate (secs / 86400 + unix_day), secs mod 86400).

Definition date_text (t : date) : gostring :=
  digits 4 (year t) ++ x2d :: digits 2 (month t) ++ x2d :: digits 2 (day t).
Definition clock_text (s : Z) : gostring :=
  digits 2 (s / 3600) ++ x3a :: digits 2 (s mod 3600 / 60) ++ x3a :: digits 2 (s mod 60).

(** [Time.MarshalJSON], without the quotes; it fails for a year that is not of
    four digits and for a zone of a day or more. *)
Definition FormatTime (offset : Z) (t : Z) : option gostring :=
  let secs := t / second + offset in
  let (d, s) := clock secs in
  if decide (0 ≤ year d ≤ 9999 ∧ Z.abs (Z.quot offset 60) / 60 < 24) then
    Some (date_text d ++ x54 :: clock_text s ++ fraction_text (t mod second) ++ zone_text offset)
  else None.

(** ** Reading *)
Fixpoint parse_uint (acc : Z) (s : gostring) : option Z :=
  match s with
  | [] => Some acc
  | c :: s => d ← dec_digit c; parse_uint (acc * 10 + d) s
  end.
(** [parseUint] of a field, within a range. *)
Definition parse_field (s : gostring) (lo hi : Z) : option Z :=
  n ← parse_uint 0 s; if decide (lo ≤ n ≤ hi) then Some n else None.
Definition at_byte (s : gostring) (i : nat) (c : byte) : bool := bool_decide (s !! i = Some c).
Definition field (s : gostring) (i j : nat) : gostring := take (j - i) (drop i s).

(** The digits after a point: the nanoseconds of the first nine, and what follows
    the last one. *)
Fixpoint digit_prefix (s : gostring) : gostring * gostring :=
  match s with
  | [] => ([], [])
  | c :: t => match dec_digit c with
              | Some _ => prod_map (cons c) id (digit_prefix t)
              | None => ([], s)
              end
  end.
Definition parse_fraction (s : gostring) : Z * gostring :=
  match s with
  | x2e :: t =>
    match digit_prefix t with
    | ([], _) => (0, s)
    | (ds, rest) =>
      (default 0 (parse_uint 0 (take 9 ds)) * 10 ^ (9 - Z.of_nat (length (take 9 ds))), rest)
    end
  | _ => (0, s)
  end.

(** The offset of a zone, in seconds. *)
Definition parse_zone (s : gostring) : option Z :=
  if decide (s = [x5a]) then Some 0 else
  if decide (length s ≠ 6%nat) then None else
  hr ← parse_field (field s 1 3) 0 23;
  mm ← parse_field (field s 4 6) 0 59;
  if (at_byte s 0 x2d || at_byte s 0 x2b) && at_byte s 3 x3a then
    Some (if at_byte s 0 x2d then - ((hr * 60 + mm) * 60) else (hr * 60 + mm) * 60)
  else None.

(** [parseRFC3339]. *)
Definition parseRFC3339 (s : gostring) : option Z :=
  if decide (length s < 19)%nat then None else
  y ← parse_field (field s 0 4) 0 9999;
  mo ← parse_field (field s 5 7) 1 12;
  d ← parse_field (field s 8 10) 1 (daysIn mo y);
  h ← parse_field (field s 11 13) 0 23;
  mi ← parse_field (field s 14 16) 0 59;
  sec ← parse_field (field s 17 19) 0 59;
  if at_byte s 4 x2d && at_byte s 7 x2d && at_byte s 10 x54 && at_byte s 13 x3a && at_byte s 16 x3a then
    let (nsec, rest) := parse_fraction (drop 19 s) in
    offset ← parse_zone rest;
    Some (((day_of (mkDate y mo d) - unix_day) * 86400 + h * 3600 + mi * 60 + sec - offset) * second
          + nsec)
  else None.

(** ** The calendar: a day and its date *)
Definition month_length (leap : bool) (m : Z) : Z :=
  if decide (m = 2 ∧ leap = true) then 29 else daysBefore m - daysBefore (m - 1).
Definition year_length (leap : bool) : Z := if leap then 366 else 365.

Definition month_day_ok (leap : bool) (yday : Z) : bool :=
  let (m, d) := month_day leap yday in
  bool_decide (year_day leap m d = yday ∧ 1 ≤ m ≤ 12 ∧ 1 ≤ d ≤ month_length leap m).

Lemma month_days : forallb (month_day_ok false) (seqZ 0 365) && forallb (month_day_ok true) (seqZ 0 366) = true.
Proof. vm_compute. reflexivity. Qed.

Lemma month_day_spec leap yday m d :
  0 ≤ yday < year_length leap → month_day leap yday = (m, d) →
  year_day leap m d = yday ∧ 1 ≤ m ≤ 12 ∧ 1 ≤ d ≤ month_length leap m.
Proof.
  intros Hy Hm. destruct (andb_prop _ _ month_days) as [H0 H1]. rewrite !forallb_forall in H0, H1.
  assert (month_day_ok leap yday = true) as Hok.
  { destruct leap; [apply H1|apply H0]; apply list_elem_of_In, elem_of_seqZ; unfold year_length in Hy; lia. }
  unfold month_day_ok in Hok. rewrite Hm in Hok. by apply bool_decide_eq_true in Hok.
Qed.

(** [lia] with divisions by constants. *)
Ltac div_lia := Z.to_euclidean_division_equations; lia.

(** The years of a cycle of 400, by their places in the shorter cycles. *)
Lemma isLeap_cycle k a b c :
  0 ≤ a ≤ 3 → 0 ≤ b ≤ 24 → 0 ≤ c ≤ 3 →
  isLeap (400 * k + 100 * a + 4 * b + c + 1) = true ↔ c = 3 ∧ (b ≠ 24 ∨ a = 3).
Proof.
  intros Ha Hb Hc. unfold isLeap.
  set (y := 400 * k + 100 * a + 4 * b + c + 1).
  assert (y mod 4 = if decide (c = 3) then 0 else c + 1) as -> by (case_decide; subst y; div_lia).
  assert (y mod 100 = 0 ↔ b = 24 ∧ c = 3) as Hm100 by (subst y; div_lia).
  assert (y mod 400 = 0 ↔ b = 24 ∧ c = 3 ∧ a = 3) as Hm400 by (subst y; div_lia).
  rewrite andb_true_iff, orb_true_iff, negb_true_iff, !Z.eqb_eq, Z.eqb_neq, Hm100, Hm400.
  case_decide; div_lia.
Qed.

Lemma daysSinceEpoch_cycle k a b c :
  0 ≤ a ≤ 3 → 0 ≤ b ≤ 24 → 0 ≤ c ≤ 3 →
  daysSinceEpoch (400 * k + 100 * a + 4 * b + c + 1) = 146097 * k + 36524 * a + 1461 * b + 365 * c.
Proof.
  intros Ha Hb Hc. unfold daysSinceEpoch. cbv zeta.
  set (y := 400 * k + 100 * a + 4 * b + c + 1 - 1).
  assert (y / 400 = k ∧ y mod 400 = 100 * a + 4 * b + c) as [-> ->] by div_lia.
  assert ((100 * a + 4 * b + c) / 100 = a ∧ (100 * a + 4 * b + c) mod 100 = 4 * b + c) as [-> ->] by div_lia.
  assert ((4 * b + c) / 4 = b ∧ (4 * b + c) mod 4 = c) as [-> ->] by div_lia.
  unfold daysPer400Years, daysPer100Years, daysPer4Years. div_lia.
Qed.

(** The places of a day in the cycles. *)
Lemma cycles r :
  0 ≤ r < 146097 →
  let n := r / 36524 in let a := n - Z.shiftr n 2 in
  let r1 := r - 36524 * a in let b := r1 / 1461 in
  let r2 := r1 - 1461 * b in let n := r2 / 365 in let c := n - Z.shiftr n 2 in
  let yday := r2 - 365 * c in
  0 ≤ a ≤ 3 ∧ 0 ≤ b ≤ 24 ∧ 0 ≤ c ≤ 3
  ∧ 0 ≤ yday < (if decide (c = 3 ∧ (b ≠ 24 ∨ a = 3)) then 366 else 365)
  ∧ r = 36524 * a + 1461 * b + 365 * c + yday.
Proof.
  intros Hr n a r1 b r2 n' c yday.
  assert (n = r / 36524) as En by done. assert (a = n - n / 4) as Ea by (by unfold a; rewrite Z.shiftr_div_pow2).
  assert (r1 = r - 36524 * a) as Er1 by done. assert (b = r1 / 1461) as Eb by done.
  assert (r2 = r1 - 1461 * b) as Er2 by done. assert (n' = r2 / 365) as En' by done.
  assert (c = n' - n' / 4) as Ec by (by unfold c; rewrite Z.shiftr_div_pow2).
  assert (yday = r2 - 365 * c) as Ey by done. clearbody yday c n' r2 b r1 a n.
  assert (0 ≤ n ≤ 4 ∧ 0 ≤ r - 36524 * n < 36524 ∧ (n = 4 → r = 146096)) as (? & ? & ?) by div_lia.
  assert (0 ≤ a ≤ 3 ∧ 0 ≤ r1 < 36525 ∧ (a ≠ 3 → r1 < 36524)) as (? & ? & ?) by div_lia.
  clear En Ea. assert (0 ≤ b ≤ 24 ∧ 0 ≤ r2 < 1461 ∧ (b = 24 → a ≠ 3 → r2 < 1460)) as (? & ? & ?) by div_lia.
  clear Eb. assert (0 ≤ n' ≤ 4 ∧ 0 ≤ r2 - 365 * n' < 365) as (? & ?) by div_lia.
  assert (0 ≤ c ≤ 3 ∧ 0 ≤ yday < 366 ∧ (c ≠ 3 → yday < 365) ∧ (r2 < 1460 → yday < 365))
    as (? & ? & ? & ?) by div_lia.
  split_and!; try lia; case_decide; lia.
Qed.

(** A day has a date that exists, and is the day of that date. *)
Lemma day_of_absDate d :
  day_of (absDate d) = d ∧ 1 ≤ month (absDate d) ≤ 12
  ∧ 1 ≤ day (absDate d) ≤ daysIn (month (absDate d)) (year (absDate d)).
Proof.
  unfold absDate. change daysPer400Years with 146097. change daysPer100Years with 36524.
  change daysPer4Years with 1461. pose proof (cycles (d mod 146097) ltac:(div_lia)) as H. cbv zeta in *.
  set (n := d mod 146097 / 36524) in *. set (a := n - Z.shiftr n 2) in *.
  set (r1 := d mod 146097 - 36524 * a) in *. set (b := r1 / 1461) in *.
  set (r2 := r1 - 1461 * b) in *. set (n' := r2 / 365) in *. set (c := n' - Z.shiftr n' 2) in *.
  set (yday := r2 - 365 * c) in *. destruct H as (Ha & Hb & Hc & Hy & Hr).
  pose proof (isLeap_cycle (d / 146097) a b c Ha Hb Hc) as Hleap.
  pose proof (daysSinceEpoch_cycle (d / 146097) a b c Ha Hb Hc) as Hdays.
  set (y := 400 * (d / 146097) + 100 * a + 4 * b + c + 1) in *.
  destruct (month_day (isLeap y) yday) as [m dd] eqn:Hmd.
  destruct (month_day_spec (isLeap y) yday m dd) as (Hyd & Hm & Hdd); [|done|].
  { unfold year_length. destruct (decide (c = 3 ∧ (b ≠ 24 ∨ a = 3))) as [Hl|Hl].
    - apply Hleap in Hl. by rewrite Hl.
    - destruct (isLeap y); [by destruct Hl; apply Hleap|done]. }
  unfold day_of. cbn [year month day]. rewrite Hyd, Hdays.
  split; [|split; [done|]].
  - pose proof (Z.div_mod d 146097). div_lia.
  - exact Hdd.
Qed.

(** ** Writing and reading: fields of digits *)
Lemma length_digits w n : length (digits w n) = w.
Proof.
  revert n. induction w as [|w IH]; intros n; [done|]. cbn [digits]. rewrite length_app, IH. simpl. lia.
Qed.

Lemma dec_digit_digit n : 0 ≤ n ≤ 9 → dec_digit (digit n) = Some n.
Proof.
  intros Hn. unfold dec_digit, digit. rewrite b2z_z2b_small by lia.
  replace (48 + n - 48) with n by lia. by rewrite decide_True.
Qed.

Lemma parse_uint_app acc s1 s2 :
  parse_uint acc (s1 ++ s2) = parse_uint acc s1 ≫= λ acc, parse_uint acc s2.
Proof.
  revert acc. induction s1 as [|c s1 IH]; intros acc; [done|]. cbn [app parse_uint].
  destruct (dec_digit c); simpl; [apply IH|done].
Qed.

Lemma parse_uint_digits acc w n :
  0 ≤ n < 10 ^ Z.of_nat w → parse_uint acc (digits w n) = Some (acc * 10 ^ Z.of_nat w + n).
Proof.
  revert n. induction w as [|w IH]; intros n Hn.
  - simpl in *. f_equal. lia.
  - rewrite Nat2Z.inj_succ, Z.pow_succ_r in * by lia. cbn [digits].
    rewrite parse_uint_app, IH by div_lia. cbn [mbind option_bind parse_uint].
    rewrite dec_digit_digit by div_lia. simpl. f_equal. div_lia.
Qed.

Lemma parse_field_digits w n lo hi :
  0 ≤ n < 10 ^ Z.of_nat w → lo ≤ n ≤ hi → parse_field (digits w n) lo hi = Some n.
Proof.
  intros Hn Hr. unfold parse_field. rewrite parse_uint_digits by done. simpl. by rewrite decide_True.
Qed.

Lemma digits_are_digits w n : 0 ≤ n → Forall (λ c, is_Some (dec_digit c)) (digits w n).
Proof.
  revert n. induction w as [|w IH]; intros n Hn; [constructor|]. cbn [digits].
  apply Forall_app. split; [apply IH; div_lia|]. apply Forall_singleton.
  rewrite dec_digit_digit by div_lia. eauto.
Qed.

(** ** The fraction *)
Lemma trim_zeros_spec s : ∃ k, s = trim_zeros s ++ replicate k x30.
Proof.
  induction s as [|c s [k IH]]; [by exists 0%nat|]. cbn [trim_zeros].
  destruct (trim_zeros s) as [|c' s'].
  - case_decide as Hc.
    + exists (S k). simpl in *. congruence.
    + exists k. simpl in *. congruence.
  - exists k. simpl in *. congruence.
Qed.

Lemma parse_uint_zeros acc k : parse_uint acc (replicate k x30) = Some (acc * 10 ^ Z.of_nat k).
Proof.
  revert acc. induction k as [|k IH]; intros acc; [simpl; f_equal; lia|].
  cbn [replicate parse_uint]. change (dec_digit x30) with (Some 0). cbn [mbind option_bind].
  rewrite IH, Nat2Z.inj_succ, Z.pow_succ_r by lia. f_equal. lia.
Qed.

(** What is not a part of a fraction. *)
Definition fraction_end (s : gostring) : Prop :=
  match s with [] => True | c :: _ => dec_digit c = None ∧ c ≠ x2e end.

Lemma digit_prefix_app ds s :
  Forall (λ c, is_Some (dec_digit c)) ds → fraction_end s → digit_prefix (ds ++ s) = (ds, s).
Proof.
  intros Hds Hs. induction Hds as [|c ds [n Hn] _ IH].
  - destruct s as [|c s]; [done|]. simpl in *. destruct Hs as [-> _]. done.
  - simpl. by rewrite Hn, IH.
Qed.

Lemma parse_fraction_text nsec s :
  0 ≤ nsec < second → fraction_end s → parse_fraction (fraction_text nsec ++ s) = (nsec, s).
Proof.
  intros Hn Hs. change second with (10 ^ Z.of_nat 9) in Hn. unfold fraction_text.
  destruct (trim_zeros_spec (digits 9 nsec)) as [k Hk].
  pose proof (parse_uint_digits 0 9 nsec Hn) as Hv. pose proof (digits_are_digits 9 nsec ltac:(lia)) as Hd.
  pose proof (length_digits 9 nsec) as Hl. rewrite Hk in Hv, Hd, Hl.
  rewrite parse_uint_app in Hv. apply Forall_app in Hd as [Hd _].
  rewrite length_app, length_replicate in Hl.
  destruct (trim_zeros (digits 9 nsec)) as [|c ds].
  - cbn [parse_uint mbind option_bind] in Hv. rewrite parse_uint_zeros in Hv.
    assert (nsec = 0) as -> by (injection Hv as Hv; lia).
    destruct s as [|c s]; [done|]. simpl in *. by destruct Hs as [_ Hs], c.
  - cbn [app parse_fraction]. change (c :: ds ++ s) with ((c :: ds) ++ s).
    rewrite (digit_prefix_app (c :: ds) s Hd Hs).
    rewrite take_ge by lia. apply bind_Some in Hv as (v & Hv & Hz). rewrite Hv.
    rewrite parse_uint_zeros in Hz. injection Hz as Hz. cbn [default from_option id].
    replace (9 - Z.of_nat (length (c :: ds))) with (Z.of_nat k) by lia. f_equal. lia.
Qed.

(** ** The zone *)
Lemma zone_text_end offset : fraction_end (zone_text offset).
Proof. unfold zone_text. case_decide; [done|]. by case_decide. Qed.

Lemma two_digits n : ∃ a b, digits 2 n = [a; b].
Proof. by do 2 eexists. Qed.

Lemma parse_zone_text offset :
  offset mod 60 = 0 → Z.abs (Z.quot offset 60) / 60 < 24 → parse_zone (zone_text offset) = Some offset.
Proof.
  intros Hm Hh. unfold zone_text. case_decide as H0; [by subst|].
  set (zone := Z.quot offset 60) in *. assert (offset = zone * 60) as Ho by (unfold zone; div_lia).
  clearbody zone. assert (0 ≤ Z.abs zone / 60 < 24) by div_lia.
  assert (0 ≤ Z.abs zone mod 60 < 60) by div_lia.
  pose proof (parse_field_digits 2 (Z.abs zone / 60) 0 23 ltac:(simpl; lia) ltac:(lia)) as Ph.
  pose proof (parse_field_digits 2 (Z.abs zone mod 60) 0 59 ltac:(simpl; lia) ltac:(lia)) as Pm.
  destruct (two_digits (Z.abs zone / 60)) as (a & b & Hab), (two_digits (Z.abs zone mod 60)) as (c & d & Hcd).
  rewrite Hab, Hcd in *.
  unfold parse_zone. rewrite decide_False by done. rewrite decide_False by (simpl; lia).
  unfold field. cbn [drop take Nat.sub app]. rewrite Ph, Pm. cbn [mbind option_bind].
  unfold at_byte. cbn [lookup list_lookup].
  replace (Z.abs zone / 60 * 60 + Z.abs zone mod 60) with (Z.abs zone) by (clear; div_lia).
  case_decide; cbn.
  - change (bool_decide (Some x2d = Some x2d)) with true.
    change (bool_decide (Some x3a = Some x3a)) with true. cbn. f_equal. lia.
  - change (bool_decide (Some x2b = Some x2d)) with false. change (bool_decide (Some x2b = Some x2b)) with true.
    change (bool_decide (Some x3a = Some x3a)) with true. cbn. f_equal. lia.
Qed.

(** A text is read field by field. *)
Lemma parseRFC3339_fields Y M D h mi sc frac zone y m d hh mm ss nsec offset :
  length Y = 4%nat → length M = 2%nat → length D = 2%nat → length h = 2%nat → length mi = 2%nat →
  length sc = 2%nat →
  parse_field Y 0 9999 = Some y → parse_field M 1 12 = Some m →
  parse_field D 1 (daysIn m y) = Some d → parse_field h 0 23 = Some hh →
  parse_field mi 0 59 = Some mm → parse_field sc 0 59 = Some ss →
  parse_fraction (frac ++ zone) = (nsec, zone) → parse_zone zone = Some offset →
  parseRFC3339 ((Y ++ x2d :: M ++ x2d :: D) ++ x54 :: (h ++ x3a :: mi ++ x3a :: sc) ++ frac ++ zone)
  = Some (((day_of (mkDate y m d) - unix_day) * 86400 + hh * 3600 + mm * 60 + ss - offset) * second + nsec).
Proof.
  intros HY HM HD Hh Hmi Hs PY PM PD Ph Pmi Ps Pf Pz.
  destruct Y as [|y1 [|y2 [|y3 [|y4 []]]]]; try discriminate HY.
  destruct M as [|m1 [|m2 []]]; try discriminate HM. destruct D as [|d1 [|d2 []]]; try discriminate HD.
  destruct h as [|h1 [|h2 []]]; try discriminate Hh. destruct mi as [|i1 [|i2 []]]; try discriminate Hmi.
  destruct sc as [|s1 [|s2 []]]; try discriminate Hs.
  unfold parseRFC3339. rewrite decide_False by (simpl; lia).
  unfold field. cbn [drop take Nat.sub app]. rewrite PY. cbn [mbind option_bind]. rewrite PM.
  cbn [mbind option_bind]. rewrite PD, Ph, Pmi. rewrite take_0, Ps. cbn [mbind option_bind].
  unfold at_byte. cbn [lookup list_lookup]. rewrite !bool_decide_eq_true_2 by done. cbn [andb].
  by rewrite drop_0, Pf, Pz.
Qed.

(** ** A time that is written is read back *)
Lemma daysIn_le m y : 1 ≤ m ≤ 12 → daysIn m y ≤ 31.
Proof.
  intros Hm. unfold daysIn. case_decide; [lia|].
  assert (forallb (λ m, daysBefore m - daysBefore (m - 1) <=? 31) (seqZ 1 12) = true) as Hall
    by (vm_compute; reflexivity).
  rewrite forallb_forall in Hall. apply Z.leb_le, Hall, list_elem_of_In, elem_of_seqZ. lia.
Qed.

Lemma parseRFC3339_FormatTime offset t s :
  offset mod 60 = 0 → FormatTime offset t = Some s → parseRFC3339 s = Some t.
Proof.
  unfold FormatTime, clock. set (secs := t / second + offset). intros Hoff.
  pose proof (day_of_absDate (secs / 86400 + unix_day)) as (Hday & Hmon & Hd).
  destruct (absDate (secs / 86400 + unix_day)) as [y m d]. cbn [year month day] in *.
  case_decide as Hok; [|done]. destruct Hok as [Hy Hzone].
  intros Hs. apply (inj Some) in Hs as <-.
  set (sod := secs mod 86400). assert (0 ≤ sod < 86400) as Hsod by (unfold sod; div_lia).
  assert (d ≤ 31) as Hd31.
  { pose proof (daysIn_le m y Hmon). lia. }
  unfold date_text, clock_text. cbn [year month day].
  erewrite (parseRFC3339_fields _ _ _ _ _ _ _ _ y m d (sod / 3600) (sod mod 3600 / 60) (sod mod 60));
    [|apply length_digits..| | | | | | |apply parse_fraction_text|by apply parse_zone_text].
  - f_equal. rewrite Hday. unfold second in *. subst sod secs. div_lia.
  - apply (parse_field_digits 4); [simpl|]; lia.
  - apply (parse_field_digits 2); [simpl|]; lia.
  - apply (parse_field_digits 2); [simpl|]; lia.
  - apply (parse_field_digits 2); [simpl|]; div_lia.
  - apply (parse_field_digits 2); [simpl|]; div_lia.
  - apply (parse_field_digits 2); [simpl|]; div_lia.
  - unfold second. div_lia.
  - apply zone_text_end.
Qed.

Example rfc3339_vectors :
  FormatTime 0 (1136239445 * second + 123450000) = Some (str "2006-01-02T22:04:05.12345Z")
  ∧ FormatTime (- 25200) (1136239445 * second) = Some (str "2006-01-02T15:04:05-07:00")
  ∧ parseRFC3339 (str "2024-02-29T23:59:59.5+01:00") = Some (1709247599 * second + 500000000)
  ∧ parseRFC3339 (str "2023-02-29T00:00:00Z") = None.
Proof. vm_compute. done. Qed.
