(* ===== verification/DnsName.v ===== *)
(** * dns.go: domain names on the wire

    [parseDNSName], with its compression pointers, and [encodeDNSName].  The
    Go function is a loop over labels that calls itself on a pointer's target;
    [parse_name] is that loop, and its fuel counts loop iterations and calls
    together.  Nothing in the code bounds them: see [parseDNSName_fuel] for the
    fuel that decides whether the call ends, and [parseDNSName_pointer_loop]
    for inputs on which it does not. *)
From S2P Require Import Prelude Bytes GoStrings.
From Stdlib Require Import Init.Byte.

Inductive name_error :=
  | NameOffsetOutOfBounds
  | CompressionPointerOutOfBounds
  | NameLabelOutOfBounds.
#[export] Instance name_error_eq_dec : EqDecision name_error.
Proof. solve_decision. Defined.

(** The separator of [strings.Join(parts, ".")]. *)
Definition dot : byte := x2e.

Fixpoint parse_name (fuel : nat) (data : list byte) (offset : nat) (parts : list gostring) :
    outcome name_error (gostring * nat) :=
  match fuel with
  | O => OutOfFuel
  | S fuel =>
    if decide (length data ≤ offset) then Err NameOffsetOutOfBounds else
    length_byte ← index data offset;
    let len := Z.to_nat (b2z length_byte) in
    if decide (len = 0) then Ok (Join parts dot, offset + 1)
    else if decide (0xC0 ≤ len) then
      if decide (length data ≤ offset + 1) then Err CompressionPointerOutOfBounds else
      w ← slice data offset (offset + 2) ≫= Uint16;
      let pointer := Z.to_nat (Z.land w 0x3FFF) in
      '(name, _) ← parse_name fuel data pointer [];
      Ok (Join (parts ++ Split name dot) dot, offset + 2)
    else
      let offset := offset + 1 in
      if decide (length data < offset + len) then Err NameLabelOutOfBounds else
      label ← slice data offset (offset + len);
      parse_name fuel data (offset + len) (parts ++ [label])
  end.

(** One more than the number of offsets in the packet. *)
Definition name_fuel (data : list byte) : nat := S (length data).

Definition parseDNSName (data : list byte) (offset : nat) : outcome name_error (gostring * nat) :=
  parse_name (name_fuel data) data offset [].

Definition encodeDNSName (name : gostring) : list byte :=
  concat ((λ part, z2b (Z.of_nat (length part)) :: part) <$> Split name dot) ++ [x00].

(** ** One step of the parser

    The parser reads the label at an offset and either ends there or goes on at
    another offset, the end of the label or the target of a pointer. *)
Inductive name_step :=
  | StepEnd
  | StepError (e : name_error)
  | StepLabel (label : gostring) (next : nat)
  | StepPointer (target : nat).

Definition pointer_at (data : list byte) (offset : nat) : nat :=
  Z.to_nat (Z.land (be_value (take 2 (drop offset data))) 0x3FFF).

Definition step_at (data : list byte) (offset : nat) : name_step :=
  match data !! offset with
  | None => StepError NameOffsetOutOfBounds
  | Some b =>
    let len := Z.to_nat (b2z b) in
    if decide (len = 0) then StepEnd
    else if decide (0xC0 ≤ len) then
      if decide (length data ≤ offset + 1) then StepError CompressionPointerOutOfBounds
      else StepPointer (pointer_at data offset)
    else if decide (length data < offset + 1 + len) then StepError NameLabelOutOfBounds
    else StepLabel (take len (drop (offset + 1) data)) (offset + 1 + len)
  end.

Lemma parse_name_S fuel data offset parts :
  parse_name (S fuel) data offset parts =
    match step_at data offset with
    | StepEnd => Ok (Join parts dot, offset + 1)
    | StepError e => Err e
    | StepLabel label next => parse_name fuel data next (parts ++ [label])
    | StepPointer target =>
      '(name, _) ← parse_name fuel data target [];
      Ok (Join (parts ++ Split name dot) dot, offset + 2)
    end.
Proof.
  cbn [parse_name]. unfold step_at. case_decide as Hlen.
  { by rewrite lookup_ge_None_2. }
  unfold index. destruct (lookup_lt_is_Some_2 data offset) as [b ->]; [lia|].
  cbn [mbind outcome_bind]. case_decide; [done|]. case_decide.
  - case_decide as Hp; [done|]. rewrite slice_in by lia. unfold pointer_at.
    replace (offset + 2 - offset) with 2 by lia.
    assert (length (take 2 (drop offset data)) = 2) as Hw.
    { rewrite length_take, length_drop. lia. }
    destruct (take 2 (drop offset data)) as [|b0 [|b1 [|]]]; done.
  - case_decide; [done|]. rewrite slice_in by lia. cbn [mbind outcome_bind].
    by replace (offset + 1 + _ - _) with (Z.to_nat (b2z b)) by lia.
Qed.

Lemma parse_name_0 data offset parts : parse_name 0 data offset parts = OutOfFuel.
Proof. done. Qed.
#[global] Opaque parse_name.

(** The offset a step goes on to. *)
Definition next_at (data : list byte) (offset : nat) : option nat :=
  match step_at data offset with
  | StepLabel _ next => Some next
  | StepPointer target => Some target
  | StepEnd | StepError _ => None
  end.

Lemma step_at_bound data offset :
  data !! offset = None → step_at data offset = StepError NameOffsetOutOfBounds.
Proof. intros H. unfold step_at. by rewrite H. Qed.

Lemma next_at_bound data offset next :
  next_at data offset = Some next → offset < length data.
Proof.
  unfold next_at. destruct (data !! offset) eqn:Hb; [by apply lookup_lt_Some in Hb|].
  by rewrite step_at_bound.
Qed.

(** ** Fuel: a run uses up its fuel exactly when it can take that many steps *)
Lemma parse_name_OutOfFuel fuel data offset parts :
  parse_name fuel data offset parts = OutOfFuel
  ↔ is_Some (steps (next_at data) fuel offset).
Proof.
  revert offset parts. induction fuel as [|fuel IH]; intros offset parts.
  { rewrite parse_name_0. split; [intros _; by exists offset|done]. }
  rewrite parse_name_S. cbn [steps]. unfold next_at at 2.
  destruct (step_at data offset) as [|e|label next|target]; simpl.
  - split; [done|by intros [? ?] ].
  - split; [done|by intros [? ?] ].
  - apply IH.
  - rewrite <-(IH _ []). destruct (parse_name fuel data target []) as [[name n]|e| |]; done.
Qed.

Lemma parse_name_no_panic fuel data offset parts : parse_name fuel data offset parts ≠ Panic.
Proof.
  revert offset parts. induction fuel as [|fuel IH]; intros offset parts; [by rewrite parse_name_0|].
  rewrite parse_name_S. destruct (step_at data offset) as [|e|label next|target]; try done.
  specialize (IH target []). by destruct (parse_name fuel data target []) as [[name n]|e| |].
Qed.

(** More fuel does not change an answer. *)
Lemma parse_name_more fuel fuel' data offset parts :
  fuel ≤ fuel' → parse_name fuel data offset parts ≠ OutOfFuel →
  parse_name fuel' data offset parts = parse_name fuel data offset parts.
Proof.
  revert fuel' offset parts. induction fuel as [|fuel IH]; intros fuel' offset parts Hle Hne.
  { by rewrite parse_name_0 in Hne. }
  destruct fuel' as [|fuel']; [lia|]. rewrite !parse_name_S in *.
  destruct (step_at data offset) as [|e|label next|target]; try done.
  - apply IH; [lia|done].
  - rewrite (IH fuel' target []); [done|lia|]. intros Hf. by rewrite Hf in Hne.
Qed.

(** [name_fuel] is enough for every run that ends. *)
Lemma parse_name_fuel_enough fuel data offset parts :
  parse_name fuel data offset parts ≠ OutOfFuel →
  parse_name (name_fuel data) data offset parts = parse_name fuel data offset parts.
Proof.
  intros Hne. destruct (decide (fuel ≤ name_fuel data)); [by apply parse_name_more|].
  destruct (decide (parse_name (name_fuel data) data offset parts = OutOfFuel)) as [Hf|Hf].
  - apply parse_name_OutOfFuel in Hf.
    destruct (steps_pigeonhole (next_at data) (length data) offset) as (i & k & y & Hk & Hi & Hc);
      [apply next_at_bound|done|].
    destruct Hne. apply parse_name_OutOfFuel. by apply (steps_cycle _ i k offset y).
  - symmetry. apply parse_name_more; [lia|done].
Qed.

Lemma parse_name_bounds fuel data offset parts name next :
  parse_name fuel data offset parts = Ok (name, next) → offset < next ≤ length data.
Proof.
  revert offset parts. induction fuel as [|fuel IH]; intros offset parts.
  { by rewrite parse_name_0. }
  rewrite parse_name_S. unfold step_at.
  destruct (data !! offset) as [b|] eqn:Hb; [|done]. apply lookup_lt_Some in Hb.
  cbv zeta. case_decide; [|case_decide; case_decide]; try done.
  - intros [= _ <-]. lia.
  - intros ([name' n] & _ & [= _ <-])%bind_Ok. lia.
  - intros Hp%IH. lia.
Qed.

(** ** The encoder's view *)

(** A label that [encodeDNSName] and [parseDNSName] agree on: not empty, its
    length byte not taken for a pointer, and free of dots. *)
Definition label_ok (label : gostring) : Prop := 0 < length label < 0xC0 ∧ dot ∉ label.
#[export] Instance label_ok_dec label : Decision (label_ok label).
Proof. apply _. Defined.

Definition encode_labels (labels : list gostring) : list byte :=
  concat ((λ part, z2b (Z.of_nat (length part)) :: part) <$> labels).

(** A compression pointer (RFC 1035, 4.1.4). *)
Definition encode_pointer (target : nat) : list byte := PutUint16 (0xC000 + Z.of_nat target).

Lemma encodeDNSName_Join labels :
  labels ≠ [] → Forall label_ok labels →
  encodeDNSName (Join labels dot) = encode_labels labels ++ [x00].
Proof.
  intros Hne Hok. unfold encodeDNSName. rewrite Split_Join; [done|done|].
  eapply Forall_impl; [done|]. by intros ? [_ ?].
Qed.

Lemma step_at_label pre label post :
  0 < length label < 0xC0 →
  step_at (pre ++ (z2b (Z.of_nat (length label)) :: label) ++ post) (length pre)
  = StepLabel label (length pre + 1 + length label).
Proof.
  intros Hl. unfold step_at. rewrite <-app_comm_cons, list_lookup_middle by done.
  rewrite b2z_z2b_small, Nat2Z.id by lia.
  rewrite !decide_False by (rewrite ?length_app; simpl; rewrite ?length_app; lia).
  f_equal. rewrite (cons_middle _ pre), app_assoc, drop_app_at by (rewrite length_app; simpl; lia).
  by apply take_app_at.
Qed.

Lemma step_at_end pre post : step_at (pre ++ x00 :: post) (length pre) = StepEnd.
Proof. unfold step_at. by rewrite list_lookup_middle. Qed.

Lemma step_at_pointer pre target post :
  (Z.of_nat target < 0x4000)%Z →
  step_at (pre ++ encode_pointer target ++ post) (length pre) = StepPointer target.
Proof.
  intros Ht. unfold step_at.
  assert (encode_pointer target = [z2b (0xC0 + Z.of_nat target / 256); z2b (Z.of_nat target)]) as Hp.
  { unfold encode_pointer, PutUint16. simpl. rewrite Z.shiftr_div_pow2 by lia.
    change (2 ^ 8)%Z with 256%Z. f_equal; [f_equal|f_equal].
    - rewrite (Z.add_comm 0xC000), (Z.div_add _ 0xC0 256) by lia. lia.
    - apply b2z_inj. rewrite !b2z_z2b. by rewrite Z.add_comm, (Z.mod_add _ 0xC0 256) by lia. }
  rewrite Hp at 1. simpl app at 1. rewrite list_lookup_middle by done.
  assert (0 ≤ Z.of_nat target / 256 < 64)%Z by (split; [apply Z.div_pos|apply Z.div_lt_upper_bound]; lia).
  rewrite b2z_z2b_small by lia.
  rewrite decide_False, decide_True, decide_False
    by (rewrite ?length_app; unfold encode_pointer; rewrite ?length_PutUint16; lia).
  f_equal. unfold pointer_at. rewrite drop_app_length, take_app_at by done.
  unfold encode_pointer. rewrite (be_value_be_bytes_small 2) by lia.
  change 0x3FFF%Z with (Z.ones 14). rewrite Z.land_ones by lia.
  rewrite Z.add_comm. change (2 ^ 14)%Z with 0x4000%Z.
  rewrite (Z.mod_add _ 3 0x4000) by lia. rewrite Z.mod_small by lia. lia.
Qed.

Lemma parse_name_labels fuel pre labels post parts :
  Forall label_ok labels →
  parse_name (length labels + fuel) (pre ++ encode_labels labels ++ post) (length pre) parts
  = parse_name fuel (pre ++ encode_labels labels ++ post)
      (length (pre ++ encode_labels labels)) (parts ++ labels).
Proof.
  intros Hok. revert pre parts. induction Hok as [|label labels [Hl _] Hok IH]; intros pre parts.
  { by rewrite !app_nil_r. }
  unfold encode_labels. cbn [fmap list_fmap concat]. fold (encode_labels labels).
  set (enc := z2b (Z.of_nat (length label)) :: label).
  cbn [length Nat.add]. rewrite parse_name_S, <-app_assoc.
  unfold enc at 1. rewrite step_at_label by done.
  specialize (IH (pre ++ enc) (parts ++ [label])). rewrite <-!app_assoc in IH.
  replace (length pre + 1 + length label) with (length (pre ++ enc))
    by (unfold enc; rewrite length_app; simpl; lia).
  by rewrite IH.
Qed.

(** Parsing labels followed by their terminating zero. *)
Lemma parse_name_encoded pre labels post :
  Forall label_ok labels →
  parseDNSName (pre ++ encode_labels labels ++ x00 :: post) (length pre)
  = Ok (Join labels dot, length pre + length (encode_labels labels) + 1).
Proof.
  intros Hok. unfold parseDNSName.
  assert (parse_name (length labels + 1) (pre ++ encode_labels labels ++ x00 :: post) (length pre) []
    = Ok (Join labels dot, length pre + length (encode_labels labels) + 1)) as Hp.
  { rewrite parse_name_labels by done. rewrite parse_name_S, app_assoc, step_at_end.
    by rewrite length_app. }
  by rewrite (parse_name_fuel_enough (length labels + 1)) by (rewrite Hp; done).
Qed.

(** Parsing labels followed by a pointer to a name. *)
Lemma parse_name_compressed pre labels target post name next :
  Forall label_ok labels → (Z.of_nat target < 0x4000)%Z →
  let data := pre ++ encode_labels labels ++ encode_pointer target ++ post in
  parseDNSName data target = Ok (name, next) →
  parseDNSName data (length pre)
  = Ok (Join (labels ++ [name]) dot, length pre + length (encode_labels labels) + 2).
Proof.
  intros Hok Ht data Hname. unfold parseDNSName in *.
  assert (parse_name (length labels + S (name_fuel data)) data (length pre) []
    = Ok (Join (labels ++ [name]) dot, length pre + length (encode_labels labels) + 2)) as Hp.
  { unfold data at 2. rewrite parse_name_labels by done.
    rewrite parse_name_S, app_assoc, step_at_pointer by done.
    rewrite <-app_assoc. fold data. rewrite Hname. simpl. rewrite length_app.
    rewrite (Join_app dot labels (Split name dot)) by apply Split_ne. by rewrite Join_Split. }
  by rewrite (parse_name_fuel_enough (length labels + S (name_fuel data))) by (rewrite Hp; done).
Qed.

(** ** What a name at an offset is

    A name of RFC 1035, as a relation on the packet: the labels of the name at an
    offset and where the name ends there (4.1.4).  A length byte is below 64, the
    values from 64 to 191 being reserved; a pointer goes back; and the name, with
    its length bytes, has at most 255 bytes (2.3.4, 3.1).  The flag tells a name
    whose labels end at a pointer to the root.

    [reads_name] is the same without these limits: labels of up to 191 bytes,
    pointers to anywhere. *)
Inductive reads_name (strict : bool) (data : list byte) : nat → list gostring → bool → nat → Prop :=
  | reads_root o : data !! o = Some x00 → reads_name strict data o [] false (o + 1)
  | reads_label o b label ls root next :
      data !! o = Some b → (0 < b2z b < if strict then 0x40 else 0xC0)%Z →
      take (length label) (drop (o + 1) data) = label → Z.of_nat (length label) = b2z b →
      reads_name strict data (o + 1 + length label) ls root next →
      reads_name strict data o (label :: ls) root next
  | reads_pointer o b0 b1 target ls root next :
      data !! o = Some b0 → data !! (o + 1) = Some b1 → (0xC0 ≤ b2z b0)%Z →
      target = Z.to_nat ((b2z b0 - 0xC0) * 256 + b2z b1) → (strict = true → target < o) →
      reads_name strict data target ls root next →
      reads_name strict data o ls (root || bool_decide (ls = [])) (o + 2).

Definition name_octets (ls : list gostring) : nat := S (sum_list_with (λ l, S (length l)) ls).
Definition rfc_name (data : list byte) (o : nat) (ls : list gostring) (root : bool) (next : nat) : Prop :=
  reads_name true data o ls root next ∧ name_octets ls ≤ 255.

(** Every pointer on the way from an offset goes back. *)
Definition pointers_back (data : list byte) (offset : nat) : Prop :=
  ∀ n y target, steps (next_at data) n offset = Some y → step_at data y = StepPointer target → target < y.

(** The text of a name: its labels, and for the root at the end of a pointer an
    empty one. *)
Definition name_text (ls : list gostring) (root : bool) : gostring :=
  Join (ls ++ if root then [[]] else []) dot.

Lemma name_text_pointer parts ls root :
  Join (parts ++ Split (name_text ls root) dot) dot = name_text (parts ++ ls) (root || bool_decide (ls = [])).
Proof.
  unfold name_text. set (l := ls ++ if root then [[]] else []).
  destruct (decide (l = [])) as [Hl|Hl].
  - destruct ls; [|done]. destruct root; [done|]. simpl. by rewrite app_nil_r.
  - rewrite (Join_app dot parts (Split _ dot)) by apply Split_ne. rewrite Join_Split.
    rewrite <-(Join_app dot parts l) by done. unfold l. rewrite <-app_assoc.
    destruct root; [done|]. by destruct ls.
Qed.

Lemma pointer_at_bytes data o b0 b1 :
  data !! o = Some b0 → data !! (o + 1) = Some b1 → (0xC0 ≤ b2z b0)%Z →
  pointer_at data o = Z.to_nat ((b2z b0 - 0xC0) * 256 + b2z b1).
Proof.
  intros H0 H1 Hb. unfold pointer_at.
  assert (take 2 (drop o data) = [b0; b1]) as ->.
  { rewrite Nat.add_1_r in H1. by rewrite (drop_S data b0 o H0), (drop_S data b1 (S o) H1). }
  f_equal. change 0x3FFF%Z with (Z.ones 14). rewrite Z.land_ones by lia.
  assert (be_value [b0; b1] = b2z b0 * 256 + b2z b1)%Z as ->.
  { pose proof (be_value_snoc [b0] b1) as Hv. pose proof (be_value_snoc [] b0) as Hv0.
    cbn [app] in Hv, Hv0. rewrite Hv, Hv0. change (be_value []) with 0%Z. lia. }
  change (2 ^ 14)%Z with 16384%Z. pose proof (b2z_range b0). pose proof (b2z_range b1).
  symmetry. apply (Z.mod_unique _ _ 3); lia.
Qed.

Lemma parse_name_reads fuel data o parts name next :
  parse_name fuel data o parts = Ok (name, next) →
  ∃ ls root, reads_name false data o ls root next ∧ name = name_text (parts ++ ls) root.
Proof.
  revert o parts name next. induction fuel as [|fuel IH]; intros o parts name next; [by rewrite parse_name_0|].
  rewrite parse_name_S. unfold step_at. destruct (data !! o) as [b|] eqn:Hb; [|done]. cbv zeta.
  pose proof (b2z_range b). case_decide as Hz; [|case_decide as Hp; case_decide as Hl]; try done.
  - intros [= <- <-]. exists [], false. split; [|by unfold name_text; rewrite !app_nil_r].
    apply reads_root. rewrite Hb. f_equal. apply b2z_inj. change (b2z x00) with 0%Z. lia.
  - intros ([n m] & Hn & [= <- <-])%bind_Ok. apply IH in Hn as (ls & root & Hls & ->).
    exists ls, (root || bool_decide (ls = [])). split; [|apply name_text_pointer].
    destruct (lookup_lt_is_Some_2 data (o + 1)) as [b1 Hb1]; [lia|].
    eapply reads_pointer; [done..|lia|done|done|].
    rewrite <-(pointer_at_bytes data o b b1) by (done || lia). done.
  - intros (ls & root & Hls & ->)%IH. set (label := take (Z.to_nat (b2z b)) (drop (o + 1) data)) in *.
    assert (length label = Z.to_nat (b2z b)) as Hlen.
    { unfold label. rewrite length_take, length_drop. lia. }
    exists (label :: ls), root. split; [|by rewrite <-app_assoc].
    eapply reads_label; [done|lia|by rewrite Hlen|lia|]. by rewrite Hlen.
Qed.

(** The step of the parser at a name. *)
Lemma step_at_reads strict data o b :
  data !! o = Some b →
  (∀ label, (0 < b2z b < 0xC0)%Z → take (length label) (drop (o + 1) data) = label →
     Z.of_nat (length label) = b2z b → step_at data o = StepLabel label (o + 1 + length label))
  ∧ (∀ b1 target, (0xC0 ≤ b2z b)%Z → data !! (o + 1) = Some b1 →
     target = Z.to_nat ((b2z b - 0xC0) * 256 + b2z b1) → (strict = true → target < o) →
     step_at data o = StepPointer target).
Proof.
  intros Hb. unfold step_at. rewrite Hb. cbv zeta. split.
  - intros label Hr Hlabel Hlen. assert (Z.to_nat (b2z b) = length label) as -> by lia.
    assert (length label ≤ length (drop (o + 1) data)) as Hle.
    { rewrite <-Hlabel at 1. rewrite length_take. lia. }
    rewrite length_drop in Hle. rewrite !decide_False by lia. by rewrite Hlabel.
  - intros b1 target Hr Hb1 -> _. apply lookup_lt_Some in Hb1 as Hlt.
    rewrite decide_False, decide_True, decide_False by lia.
    by rewrite (pointer_at_bytes data o b b1).
Qed.

Lemma reads_lax strict data o ls root next :
  reads_name strict data o ls root next → reads_name false data o ls root next.
Proof.
  induction 1; [by constructor|eapply reads_label|eapply reads_pointer]; try done.
  by destruct strict; lia.
Qed.

Lemma reads_parse_name data o ls root next :
  reads_name false data o ls root next →
  ∃ fuel, ∀ parts, parse_name fuel data o parts = Ok (name_text (parts ++ ls) root, next).
Proof.
  induction 1 as [o Hb|o b label ls root next Hb Hr Hlabel Hlen _ [fuel IH]
    |o b0 b1 target ls root next H0 H1 Hr Ht Hback _ [fuel IH]].
  - exists 1. intros parts. rewrite parse_name_S. unfold step_at. rewrite Hb. cbv zeta.
    rewrite decide_True by done. unfold name_text. by rewrite !app_nil_r.
  - exists (S fuel). intros parts. rewrite parse_name_S.
    rewrite (proj1 (step_at_reads false data o b Hb) label) by done. by rewrite IH, <-app_assoc.
  - exists (S fuel). intros parts. rewrite parse_name_S.
    rewrite (proj2 (step_at_reads false data o b0 H0) b1 target) by done.
    rewrite IH. cbn [app mbind outcome_bind]. by rewrite name_text_pointer.
Qed.

(** ** Within and beyond the limits of RFC 1035 *)
Lemma pointers_back_next data o next :
  next_at data o = Some next → pointers_back data o → pointers_back data next.
Proof. intros Hn Hb n y target Hy. apply (Hb (S n)). simpl. by rewrite Hn. Qed.

Lemma reads_strict_back data o ls root next :
  reads_name true data o ls root next → pointers_back data o.
Proof.
  assert (∀ o next, next_at data o = Some next → (∀ t, step_at data o = StepPointer t → t < o) →
    pointers_back data next → pointers_back data o) as Hgo.
  { intros o1 next1 Hn Hs Hb [|n] y target; simpl; [intros [= <-]; apply Hs|].
    rewrite Hn. apply Hb. }
  induction 1 as [o Hb|o b label ls root next Hb Hr Hlabel Hlen _ IH
    |o b0 b1 target ls root next H0 H1 Hr Ht Hback _ IH].
  - assert (step_at data o = StepEnd) as Hs by (unfold step_at; by rewrite Hb).
    intros [|n] y target; simpl; [intros [= <-]; congruence|].
    assert (next_at data o = None) as -> by (unfold next_at; by rewrite Hs). done.
  - pose proof (proj1 (step_at_reads true data o b Hb) label ltac:(lia) Hlabel Hlen) as Hs.
    eapply Hgo, IH; [unfold next_at; by rewrite Hs|]. intros t. by rewrite Hs.
  - pose proof (proj2 (step_at_reads true data o b0 H0) b1 target Hr H1 Ht Hback) as Hs.
    eapply Hgo, IH; [unfold next_at; by rewrite Hs|].
    intros t Hs'. rewrite Hs in Hs'. injection Hs' as <-. by apply Hback.
Qed.

Lemma reads_strict data o ls root next :
  reads_name false data o ls root next →
  reads_name true data o ls root next ↔ Forall (λ l, length l ≤ 63) ls ∧ pointers_back data o.
Proof.
  intros Hlax. split.
  - intros Hs. split; [|by eapply reads_strict_back].
    clear Hlax. induction Hs; [done| |done]. constructor; [lia|done].
  - induction Hlax as [o Hb|o b label ls root next Hb Hr Hlabel Hlen _ IH
      |o b0 b1 target ls root next H0 H1 Hr Ht _ _ IH]; intros [Hls Hback].
    + by apply reads_root.
    + inversion_clear Hls as [|? ? Hl Hls'].
      pose proof (proj1 (step_at_reads false data o b Hb) label ltac:(lia) Hlabel Hlen) as Hs.
      eapply reads_label; [done|lia|done|done|]. apply IH. split; [done|].
      eapply pointers_back_next, Hback. unfold next_at. by rewrite Hs.
    + pose proof (proj2 (step_at_reads false data o b0 H0) b1 target Hr H1 Ht ltac:(done)) as Hs.
      eapply reads_pointer; [done..| |].
      * intros _. by apply (Hback 0 o).
      * apply IH. split; [done|]. eapply pointers_back_next, Hback. unfold next_at. by rewrite Hs.
Qed.

(** ** Properties *)

(** C30. The fuel decides the Go call: every run that ends, with any amount of
    fuel, gives the answer of [parseDNSName]; and [parseDNSName] runs out of
    fuel exactly when the chain of labels and pointers comes back to an offset
    it was at, in which case the Go function never returns. *)
Theorem parseDNSName_fuel data offset :
  (∀ fuel, parse_name fuel data offset [] ≠ OutOfFuel →
     parseDNSName data offset = parse_name fuel data offset [])
  ∧ (parseDNSName data offset = OutOfFuel ↔
       ∃ i k y, 0 < k ∧ steps (next_at data) i offset = Some y
         ∧ steps (next_at data) k y = Some y).
Proof.
  split; [intros fuel; apply parse_name_fuel_enough|].
  unfold parseDNSName. rewrite parse_name_OutOfFuel. split.
  - apply steps_pigeonhole, next_at_bound.
  - intros (i & k & y & Hk & Hi & Hc). by apply (steps_cycle _ i k offset y).
Qed.

(** On every packet and offset parseDNSName stays within the packet: no
    index or slice is out of range, and a name it returns ends after its start
    and inside the packet. *)
Theorem parseDNSName_safe data offset :
  match parseDNSName data offset with
  | Ok (_, next) => offset < next ≤ length data
  | Err _ | OutOfFuel => True
  | Panic => False
  end.
Proof.
  pose proof (parse_name_no_panic (name_fuel data) data offset []) as Hp.
  unfold parseDNSName. destruct (parse_name _ _ _ _) as [[name next]|e| |] eqn:Hn; try done.
  by apply parse_name_bounds in Hn.
Qed.

(** A packet without compression (no byte of 0xC0 or more) is always parsed
    to an end, at whatever offset. *)
Theorem parseDNSName_uncompressed data offset :
  Forall (λ b, (b2z b < 0xC0)%Z) data → returns (parseDNSName data offset).
Proof.
  intros Hb.
  assert (∀ y z, next_at data y = Some z → y < z) as Hnext.
  { intros y z. unfold next_at, step_at. destruct (data !! y) as [b|] eqn:Hy; [|done].
    rewrite Forall_lookup in Hb. specialize (Hb y b Hy). cbv zeta.
    case_decide; [done|]. rewrite decide_False by (pose proof (b2z_range b); lia).
    case_decide; [done|]. intros [= <-]. lia. }
  assert (∀ n y z, steps (next_at data) n y = Some z → y + n ≤ z) as Hsteps.
  { induction n as [|n IH]; intros y z; simpl; [intros [= ->]; lia|].
    destruct (next_at data y) as [y'|] eqn:Hy; [|done]. simpl. intros Hz%IH.
    apply Hnext in Hy. lia. }
  pose proof (parse_name_no_panic (name_fuel data) data offset []).
  unfold parseDNSName. destruct (parse_name _ _ _ _) as [| | |] eqn:Hf; try done.
  apply parse_name_OutOfFuel in Hf.
  destruct (steps_pigeonhole (next_at data) (length data) offset) as (i & k & y & Hk & _ & Hc);
    [apply next_at_bound|exact Hf|].
  apply Hsteps in Hc. lia.
Qed.

(** C24. Encoding a name and parsing it back, anywhere in a packet: for labels of
    1 to 191 bytes without dots the parser returns the same name and the offset
    just after it. *)
Theorem parseDNSName_encodeDNSName pre labels post :
  labels ≠ [] → Forall label_ok labels →
  let name := Join labels dot in
  parseDNSName (pre ++ encodeDNSName name ++ post) (length pre)
  = Ok (name, length pre + length (encodeDNSName name)).
Proof.
  intros Hne Hok name. unfold name. rewrite encodeDNSName_Join by done.
  rewrite <-app_assoc. change ([x00] ++ post) with (x00 :: post).
  rewrite parse_name_encoded by done. rewrite length_app. simpl. do 2 f_equal. lia.
Qed.

(** C9. The parser against RFC 1035: every name of the RFC at an offset is read to
    its labels between dots and to where it ends, with a dot at the end of the text
    when the name ends in a pointer to the root.  What the parser takes is more
    than that: it returns a text and an end exactly when there is such a name
    but for the limits, and of the names it takes those of the RFC are the ones
    whose labels have at most 63 bytes, whose pointers all go back and which have at
    most 255 bytes.  (The code checks none of the three.) *)
Theorem parseDNSName_names data offset name next :
  ((∃ ls root, rfc_name data offset ls root next ∧ name = name_text ls root) →
     parseDNSName data offset = Ok (name, next))
  ∧ (parseDNSName data offset = Ok (name, next)
     ↔ ∃ ls root, reads_name false data offset ls root next ∧ name = name_text ls root)
  ∧ (∀ ls root, reads_name false data offset ls root next →
     rfc_name data offset ls root next
     ↔ Forall (λ l, length l ≤ 63) ls ∧ pointers_back data offset ∧ name_octets ls ≤ 255).
Proof.
  assert (parseDNSName data offset = Ok (name, next)
    ↔ ∃ ls root, reads_name false data offset ls root next ∧ name = name_text ls root) as Hiff.
  { split; [apply (parse_name_reads _ _ _ [])|]. intros (ls & root & Hn & ->).
    destruct (reads_parse_name _ _ _ _ _ Hn) as [fuel Hp]. unfold parseDNSName.
    rewrite (parse_name_fuel_enough fuel) by (rewrite Hp; done). apply Hp. }
  split_and!; [|done|].
  - intros (ls & root & [Hn _] & ->). apply Hiff. exists ls, root. split; [|done]. by eapply reads_lax.
  - intros ls root Hn. unfold rfc_name. rewrite (reads_strict _ _ _ _ _ Hn). tauto.
Qed.

(** Compression: labels followed by a pointer stand for the labels followed
    by the name at the pointer's target, and end right after the pointer. *)
Theorem parseDNSName_compression pre labels target post name next :
  Forall label_ok labels → (Z.of_nat target < 0x4000)%Z →
  let data := pre ++ encode_labels labels ++ encode_pointer target ++ post in
  parseDNSName data target = Ok (name, next) →
  parseDNSName data (length pre)
  = Ok (Join (labels ++ [name]) dot, length pre + length (encode_labels labels) + 2).
Proof. apply parse_name_compressed. Qed.

(** ** Witnesses *)
(** "ab" at offset 0 and a pointer back to it at offset 4; and a label of 64
    bytes. *)
Definition ex_packet : list byte := [x02; x61; x62; x00; xc0; x00].
Definition ex_long : list byte := x40 :: replicate 64 x61 ++ [x00].

Lemma parseDNSName_names_witness :
  parseDNSName ex_packet 4 = Ok (str "ab", 6)
  ∧ (∃ name, parseDNSName ex_long 0 = Ok (name, 66))
  ∧ ¬ rfc_name ex_long 0 [replicate 64 x61] false 66.
Proof.
  split_and!.
  - destruct (parseDNSName_names ex_packet 4 (str "ab") 6) as (Hname & _). apply Hname.
    exists [str "ab"], false. split; [|done].
    split; [|apply (bool_decide_unpack _); vm_compute; exact I].
    apply (reads_pointer true ex_packet 4 xc0 x00 0 [str "ab"] false 4); try done; [lia|].
    apply (reads_label true ex_packet 0 x02 (str "ab") [] false 4); try done.
    by apply (reads_root true ex_packet 3).
  - eexists. vm_compute. reflexivity.
  - destruct (parseDNSName_names ex_long 0 (replicate 64 x61) 66) as (_ & _ & Hrfc).
    rewrite Hrfc; [intros [Hl _]; apply Forall_inv in Hl; revert Hl; vm_compute; lia|].
    apply (reads_label false ex_long 0 x40 (replicate 64 x61) [] false 66); try done.
    by apply (reads_root false ex_long 65).
Defined.

Definition witness_labels : list gostring := [str "brigid"; str "nexus"; str "local"].

Lemma parseDNSName_uncompressed_witness :
  returns (parseDNSName (x00 :: encodeDNSName (str "brigid.nexus.local")) 1).
Proof.
  apply parseDNSName_uncompressed, (bool_decide_unpack _). vm_compute. exact I.
Defined.

Lemma parseDNSName_encodeDNSName_witness :
  parseDNSName (replicate 12 x00 ++ encodeDNSName (Join witness_labels dot) ++ [x00; x01]) 12
  = Ok (str "brigid.nexus.local", 32).
Proof.
  exact (parseDNSName_encodeDNSName (replicate 12 x00) witness_labels [x00; x01]
    ltac:(done) (bool_decide_unpack (Forall label_ok witness_labels) I)).
Defined.

(** "nexus.local" at offset 12, then "brigid" and a pointer back to it. *)
Lemma parseDNSName_compression_witness :
  parseDNSName ((replicate 12 x00 ++ encodeDNSName (str "nexus.local"))
    ++ encode_labels [str "brigid"] ++ encode_pointer 12 ++ [x00; x01]) 25
  = Ok (str "brigid.nexus.local", 34).
Proof.
  exact (parseDNSName_compression (replicate 12 x00 ++ encodeDNSName (str "nexus.local"))
    [str "brigid"] 12 [x00; x01] (str "nexus.local") 25
    (bool_decide_unpack (Forall label_ok [str "brigid"]) I) eq_refl
    ltac:(vm_compute; reflexivity)).
Defined.
