(* ===== verification/DnsMessage.v ===== *)
(** * dns.go: the responses the server builds

    The three builders of response packets, and a specification of what a
    resolver reads in one: [decode_reply], written with the code's own name
    parser. *)
From stdpp Require Import pretty.
From S2P Require Import Prelude Bytes GoStrings NetIP DnsName.
From Stdlib Require Import Init.Byte.

Record dnsQuestion := mkQuestion { q_name : gostring; q_qtype : Z; q_qclass : Z }.
#[export] Instance dnsQuestion_eq_dec : EqDecision dnsQuestion.
Proof. solve_decision. Defined.

Definition dnsTypeName (qtype : Z) : gostring :=
  if decide (qtype = 1)%Z then str "A"
  else if decide (qtype = 28)%Z then str "AAAA"
  else if decide (qtype = 5)%Z then str "CNAME"
  else if decide (qtype = 15)%Z then str "MX"
  else if decide (qtype = 16)%Z then str "TXT"
  else if decide (qtype = 255)%Z then str "ANY"
  else str "TYPE" ++ str (pretty qtype).

(** The question section of a response. *)
Definition question_bytes (q : dnsQuestion) : list byte :=
  encodeDNSName (q_name q) ++ PutUint16 (q_qtype q) ++ PutUint16 (q_qclass q).

Definition buildResponse (queryID : Z) (q : dnsQuestion) (ip : IP) (ttl : Z) : list byte :=
  PutUint16 queryID
    ++ [x81; x80] ++ [x00; x01] ++ [x00; x01] ++ [x00; x00] ++ [x00; x00]
    ++ question_bytes q
    ++ [xc0; x0c] ++ [x00; x01] ++ [x00; x01] ++ PutUint32 ttl ++ [x00; x04] ++ To4 ip.

(** One iteration of the loop of [buildMultiResponse]. *)
Definition answer_bytes (ttl : Z) (ip : IP) : list byte :=
  [xc0; x0c] ++ [x00; x01] ++ [x00; x01] ++ PutUint32 ttl ++ [x00; x04] ++ To4 ip.

Definition buildMultiResponse (queryID : Z) (q : dnsQuestion) (ips : list IP) (ttl : Z) :
    list byte :=
  PutUint16 queryID
    ++ [x81; x80] ++ [x00; x01] ++ PutUint16 (Z.of_nat (length ips)) ++ [x00; x00] ++ [x00; x00]
    ++ question_bytes q
    ++ concat (answer_bytes ttl <$> ips).

Definition buildNXDOMAIN (queryID : Z) (q : dnsQuestion) : list byte :=
  PutUint16 queryID
    ++ [x81; x83] ++ [x00; x01] ++ [x00; x00] ++ [x00; x00] ++ [x00; x00]
    ++ question_bytes q.

(** ** Specification: a resolver reading a response *)
Record dns_answer := mkAnswer {
  an_name : gostring; an_type : Z; an_class : Z; an_ttl : Z; an_data : list byte }.
Record dns_reply := mkReply {
  r_id : Z; r_flags : Z; r_question : dnsQuestion; r_answers : list dns_answer }.

Definition read16 (data : list byte) (offset : nat) : outcome name_error Z :=
  slice data offset (offset + 2) ≫= Uint16.
Definition read32 (data : list byte) (offset : nat) : outcome name_error Z :=
  slice data offset (offset + 4) ≫= Uint32.

Fixpoint decode_answers (count : nat) (data : list byte) (offset : nat) :
    outcome name_error (list dns_answer) :=
  match count with
  | O => Ok []
  | S count =>
    '(name, o) ← parseDNSName data offset;
    ty ← read16 data o;
    class ← read16 data (o + 2);
    ttl ← read32 data (o + 4);
    len ← Z.to_nat <$> read16 data (o + 8);
    rdata ← slice data (o + 10) (o + 10 + len);
    rest ← decode_answers count data (o + 10 + len);
    Ok (mkAnswer name ty class ttl rdata :: rest)
  end.

Definition decode_reply (data : list byte) : outcome name_error dns_reply :=
  id ← read16 data 0;
  flags ← read16 data 2;
  count ← read16 data 6;
  '(name, o) ← parseDNSName data 12;
  ty ← read16 data o;
  class ← read16 data (o + 2);
  answers ← decode_answers (Z.to_nat count) data (o + 4);
  Ok (mkReply id flags (mkQuestion name ty class) answers).

(** ** Lemmas *)
Definition question_ok (q : dnsQuestion) : Prop :=
  (∃ labels, labels ≠ [] ∧ Forall label_ok labels ∧ q_name q = Join labels dot)
  ∧ (0 ≤ q_qtype q < 65536)%Z ∧ (0 ≤ q_qclass q < 65536)%Z.

Lemma read16_app pre v post offset :
  offset = length pre → (0 ≤ v < 65536)%Z →
  read16 (pre ++ PutUint16 v ++ post) offset = Ok v.
Proof. intros. by apply slice_Uint16_app. Qed.
Lemma read32_app pre v post offset :
  offset = length pre → (0 ≤ v < 2 ^ 32)%Z →
  read32 (pre ++ PutUint32 v ++ post) offset = Ok v.
Proof. intros. by apply slice_Uint32_app. Qed.

Lemma buildResponse_multi queryID q ip ttl :
  buildResponse queryID q ip ttl = buildMultiResponse queryID q [ip] ttl.
Proof. unfold buildResponse, buildMultiResponse. cbn [fmap list_fmap concat]. by rewrite app_nil_r. Qed.

(** One answer, in a packet whose name at offset 12 is [name], up to its data. *)
Lemma decode_answers_head pre ip ttl post count name next :
  (0 ≤ ttl < 2 ^ 32)%Z →
  let data := pre ++ answer_bytes ttl ip ++ post in
  parseDNSName data 12 = Ok (name, next) →
  decode_answers (S count) data (length pre) =
    (rdata ← slice data (length pre + 12) (length pre + 16);
     rest ← decode_answers count data (length pre + 16);
     Ok (mkAnswer name 1 1 ttl rdata :: rest)).
Proof.
  intros Httl data H12. cbn [decode_answers].
  assert (parseDNSName data (length pre) = Ok (name, length pre + 2)) as ->.
  { pose proof (parse_name_compressed pre [] 12
      ([x00; x01] ++ [x00; x01] ++ PutUint32 ttl ++ [x00; x04] ++ To4 ip ++ post) name next
      ltac:(constructor) ltac:(done)) as Hp.
    cbv zeta in Hp. change (encode_pointer 12) with [xc0; x0c] in Hp.
    unfold data, answer_bytes in *. rewrite <-!app_assoc in *. simpl in Hp |- *.
    rewrite Nat.add_0_r in Hp. by apply Hp. }
  cbn [mbind outcome_bind].
  set (p := pre ++ [xc0; x0c]). assert (length p = length pre + 2) as Hp by (unfold p; by rewrite length_app).
  assert (data = p ++ PutUint16 1 ++ PutUint16 1 ++ PutUint32 ttl ++ PutUint16 4 ++ To4 ip ++ post) as Hd.
  { unfold data, answer_bytes, p. by rewrite <-!app_assoc. }
  rewrite <-Hp.
  assert (read16 data (length p) = Ok 1%Z) as ->.
  { rewrite Hd. by apply read16_app. }
  assert (read16 data (length p + 2) = Ok 1%Z) as ->.
  { rewrite Hd, (app_assoc p). apply read16_app; [|done]. by rewrite length_app. }
  assert (read32 data (length p + 4) = Ok ttl) as ->.
  { rewrite Hd, 2!(app_assoc _ (PutUint16 1)). apply read32_app; [|done].
    rewrite !length_app, !length_PutUint16. lia. }
  assert (read16 data (length p + 8) = Ok 4%Z) as ->.
  { rewrite Hd, 2!(app_assoc _ (PutUint16 1)), (app_assoc _ (PutUint32 ttl)).
    apply read16_app; [|done]. rewrite !length_app, !length_PutUint16, length_PutUint32. lia. }
  cbn [mbind outcome_bind fmap outcome_fmap]. change (Z.to_nat 4) with 4.
  by replace (length p + 10 + 4) with (length pre + 16) by lia;
    replace (length p + 10) with (length pre + 12) by lia.
Qed.

Lemma decode_answers_one pre ip ttl post count name next :
  length (To4 ip) = 4 → (0 ≤ ttl < 2 ^ 32)%Z →
  let data := pre ++ answer_bytes ttl ip ++ post in
  parseDNSName data 12 = Ok (name, next) →
  decode_answers (S count) data (length pre) =
    (rest ← decode_answers count data (length (pre ++ answer_bytes ttl ip));
     Ok (mkAnswer name 1 1 ttl (To4 ip) :: rest)).
Proof.
  intros Hip Httl data H12. unfold data in *. rewrite (decode_answers_head _ _ _ _ _ name next) by done.
  set (fields := [xc0; x0c] ++ [x00; x01] ++ [x00; x01] ++ PutUint32 ttl ++ [x00; x04]).
  assert (answer_bytes ttl ip = fields ++ To4 ip) as Ha by (unfold answer_bytes, fields; by rewrite <-!app_assoc).
  assert (length fields = 12) as Hl by (unfold fields; rewrite !length_app, length_PutUint32; done).
  assert (slice (E:=name_error) (pre ++ answer_bytes ttl ip ++ post) (length pre + 12) (length pre + 16)
    = Ok (To4 ip)) as ->.
  { rewrite Ha, <-app_assoc, (app_assoc pre). apply slice_app; rewrite ?length_app; lia. }
  cbn [mbind outcome_bind]. rewrite (length_app pre), Ha, (length_app fields), Hl, Hip. done.
Qed.

Lemma decode_answers_all ips pre ttl name next :
  Forall (λ ip, length (To4 ip) = 4) ips → (0 ≤ ttl < 2 ^ 32)%Z →
  let data := pre ++ concat (answer_bytes ttl <$> ips) in
  parseDNSName data 12 = Ok (name, next) →
  decode_answers (length ips) data (length pre)
  = Ok ((λ ip, mkAnswer name 1 1 ttl (To4 ip)) <$> ips).
Proof.
  intros Hips Httl. revert pre. induction Hips as [|ip ips Hip Hips IH]; intros pre; [done|].
  cbn [fmap list_fmap concat length]. cbv zeta. intros H12.
  rewrite (decode_answers_one _ _ _ _ _ name next) by done.
  rewrite app_assoc in H12 |- *. by rewrite IH.
Qed.

(** A question section, read back wherever it stands in a packet. *)
Lemma read_question h q tail :
  question_ok q →
  let data := h ++ question_bytes q ++ tail in
  ∃ o, parseDNSName data (length h) = Ok (q_name q, o)
    ∧ read16 data o = Ok (q_qtype q) ∧ read16 data (o + 2) = Ok (q_qclass q)
    ∧ o + 4 = length (h ++ question_bytes q).
Proof.
  intros ((labels & Hne & Hok & Hname) & Hqt & Hqc) data.
  set (enc := encodeDNSName (q_name q)). exists (length h + length enc).
  assert (data = h ++ enc ++ PutUint16 (q_qtype q) ++ PutUint16 (q_qclass q) ++ tail) as Hdata.
  { unfold data, question_bytes. by rewrite <-!app_assoc. }
  rewrite Hdata. split_and!.
  - unfold enc. rewrite Hname, encodeDNSName_Join by done.
    rewrite <-app_assoc. change ([x00] ++ ?t) with (x00 :: t).
    rewrite parse_name_encoded by done. rewrite length_app. simpl. do 2 f_equal. lia.
  - rewrite app_assoc. apply read16_app; [by rewrite length_app|done].
  - rewrite app_assoc, (app_assoc (h ++ enc)). apply read16_app; [|done].
    rewrite !length_app, length_PutUint16. lia.
  - unfold question_bytes. fold enc. rewrite !length_app, !length_PutUint16. lia.
Qed.

(** The header of a response, read back. *)
Lemma decode_question id flags count q tail :
  question_ok q → (0 ≤ id < 65536)%Z → (0 ≤ count < 65536)%Z → (0 ≤ flags < 65536)%Z →
  let head := PutUint16 id ++ PutUint16 flags ++ PutUint16 1 ++ PutUint16 count
    ++ PutUint16 0 ++ PutUint16 0 ++ question_bytes q in
  (∃ next, parseDNSName (head ++ tail) 12 = Ok (q_name q, next))
  ∧ decode_reply (head ++ tail) =
      (answers ← decode_answers (Z.to_nat count) (head ++ tail) (length head);
       Ok (mkReply id flags q answers)).
Proof.
  intros Hq Hid Hcount Hflags head.
  set (h12 := PutUint16 id ++ PutUint16 flags ++ PutUint16 1 ++ PutUint16 count
    ++ PutUint16 0 ++ PutUint16 0).
  assert (head = h12 ++ question_bytes q) as Hhead by (unfold head, h12; by rewrite <-!app_assoc).
  destruct (read_question h12 q tail Hq) as (o & Hname & Hty & Hclass & Ho).
  rewrite app_assoc, <-Hhead in Hname, Hty, Hclass. rewrite <-Hhead in Ho.
  change (length h12) with 12 in Hname. split; [eauto|].
  unfold decode_reply. set (data := head ++ tail) in *.
  assert (read16 data 0 = Ok id) as ->.
  { unfold data, head. rewrite <-!app_assoc. by apply (read16_app []). }
  assert (read16 data 2 = Ok flags) as ->.
  { unfold data, head. rewrite <-!app_assoc. by apply (read16_app (PutUint16 id)). }
  assert (read16 data 6 = Ok count) as ->.
  { unfold data, head. rewrite <-!app_assoc, !(app_assoc (PutUint16 id)).
    rewrite (app_assoc (_ ++ _)). by apply read16_app. }
  cbn [mbind outcome_bind]. rewrite Hname. cbn [mbind outcome_bind].
  rewrite Hty, Hclass. cbn [mbind outcome_bind]. rewrite Ho. by destruct q.
Qed.

(** A builder's packet is a decodable header and question, then its tail. *)
Lemma decode_buildMultiResponse_aux queryID q ips ttl :
  question_ok q → (0 ≤ queryID < 65536)%Z → (0 ≤ ttl < 2 ^ 32)%Z →
  (Z.of_nat (length ips) < 65536)%Z → Forall (λ ip, length (To4 ip) = 4) ips →
  decode_reply (buildMultiResponse queryID q ips ttl) =
    Ok (mkReply queryID 0x8180 q ((λ ip, mkAnswer (q_name q) 1 1 ttl (To4 ip)) <$> ips)).
Proof.
  intros Hq Hid Httl Hn Hips. set (tail := concat (answer_bytes ttl <$> ips)).
  destruct (decode_question queryID 0x8180 (Z.of_nat (length ips)) q tail) as [[next H12] Hd];
    [done|done|lia|done|].
  set (head := PutUint16 queryID ++ _) in H12, Hd.
  assert (buildMultiResponse queryID q ips ttl = head ++ tail) as ->.
  { unfold buildMultiResponse, head. by rewrite <-!app_assoc. }
  rewrite Hd, Nat2Z.id. unfold tail in *.
  by rewrite (decode_answers_all ips head ttl (q_name q) next).
Qed.

(** ** Properties *)

(** C25. A resolver reads back what the server meant to say: the query's id and
    question, the response flags, and for a list of IPv4 addresses one A record
    of class IN per address, each under the question's name (through the
    compression pointer 0xC00C), with the TTL and the four bytes of the
    address.  The single-answer builder is the case of one address, and
    NXDOMAIN carries the question and no answer.  (The three other counts of the
    header are not read.) *)
Theorem responses_decode queryID q ips ttl :
  question_ok q → (0 ≤ queryID < 65536)%Z → (0 ≤ ttl < 2 ^ 32)%Z →
  (Z.of_nat (length ips) < 65536)%Z → Forall (λ ip, length (To4 ip) = 4) ips →
  decode_reply (buildMultiResponse queryID q ips ttl) =
    Ok (mkReply queryID 0x8180 q ((λ ip, mkAnswer (q_name q) 1 1 ttl (To4 ip)) <$> ips))
  ∧ (∀ ip, ip ∈ ips → decode_reply (buildResponse queryID q ip ttl) =
       Ok (mkReply queryID 0x8180 q [mkAnswer (q_name q) 1 1 ttl (To4 ip)]))
  ∧ decode_reply (buildNXDOMAIN queryID q) = Ok (mkReply queryID 0x8183 q []).
Proof.
  intros Hq Hid Httl Hn Hips. split_and!.
  - by apply decode_buildMultiResponse_aux.
  - intros ip Hip. rewrite buildResponse_multi. apply (decode_buildMultiResponse_aux _ _ [ip]); try done.
    constructor; [|done]. by eapply Forall_forall in Hips.
  - destruct (decode_question queryID 0x8183 0 q []) as [_ Hd]; [done..|].
    rewrite app_nil_r in Hd. exact Hd.
Qed.

(** An answer that ends where its data should be cannot be read. *)
Lemma decode_buildResponse_short queryID q ip ttl :
  question_ok q → (0 ≤ queryID < 65536)%Z → (0 ≤ ttl < 2 ^ 32)%Z → To4 ip = [] →
  decode_reply (buildResponse queryID q ip ttl) = Panic.
Proof.
  intros Hq Hid Httl Hip. rewrite buildResponse_multi. set (tail := answer_bytes ttl ip).
  destruct (decode_question queryID 0x8180 1 q tail) as [[next H12] Hd]; [done..|].
  set (head := PutUint16 queryID ++ _) in H12, Hd.
  assert (buildMultiResponse queryID q [ip] ttl = head ++ tail) as ->.
  { unfold buildMultiResponse, head, tail. cbn [fmap list_fmap concat].
    by rewrite <-!app_assoc, (app_nil_r (answer_bytes ttl ip)). }
  rewrite Hd. change (Z.to_nat 1) with 1. unfold tail in *.
  rewrite <-(app_nil_r (answer_bytes ttl ip)) in H12 |- *.
  rewrite (decode_answers_head _ _ _ _ _ (q_name q) next) by done.
  rewrite slice_out; [done|].
  rewrite !length_app. unfold answer_bytes. rewrite Hip, !length_app, length_PutUint32. simpl. lia.
Qed.

(** For an address that is not IPv4 the A record is cut short: the packet is that
    of an IPv4 answer with its last four bytes missing. *)
Lemma buildResponse_cut queryID q ip ttl rdata :
  To4 ip = [] → length rdata = 4 →
  buildResponse queryID q ip ttl ++ rdata = buildResponse queryID q rdata ttl.
Proof.
  intros Hip Hr. unfold buildResponse. rewrite Hip, (To4_short rdata Hr).
  by rewrite <-!app_assoc.
Qed.

(** ** Witnesses *)
Definition witness_question : dnsQuestion := mkQuestion (str "brigid.nexus.local") 1 1.

Lemma witness_question_ok : question_ok witness_question.
Proof.
  split; [|done]. exists witness_labels. split_and!; [done| |reflexivity].
  exact (bool_decide_unpack (Forall label_ok witness_labels) I).
Qed.

Lemma responses_decode_witness :
  decode_reply (buildMultiResponse 7 witness_question
    [[x64; x40; x00; x02]; IPv4 x64 x40 x00 x03] 300)
  = Ok (mkReply 7 0x8180 witness_question
      [mkAnswer (str "brigid.nexus.local") 1 1 300 [x64; x40; x00; x02];
       mkAnswer (str "brigid.nexus.local") 1 1 300 [x64; x40; x00; x03]]).
Proof.
  exact (proj1 (responses_decode 7 witness_question
    [[x64; x40; x00; x02]; IPv4 x64 x40 x00 x03] 300 witness_question_ok
    ltac:(done) ltac:(done) ltac:(done) ltac:(repeat constructor))).
Defined.
