(* ===== verification/DnsServer.v ===== *)
(** * dns.go: the server

    The peer records, the query handler, and the loop that reads datagrams.
    Two things outside the code are interfaces: the upstream resolvers
    ([Upstream]) and the order in which Go ranges over a map ([MapRange], any
    permutation of its values).  A handler answers with the datagram it writes to
    the client, if any, and the upstream servers contacted so far. *)
From S2P Require Import Prelude Bytes GoStrings NetIP NetParse Config DnsName DnsMessage.
From Stdlib Require Import Init.Byte.

Record dnsCacheEntry := mkCacheEntry { ce_ip : IP; ce_expiresAt : Z }.

(** The peer records and the cache; the connection is [DnsService]'s. *)
Record DNSServer := mkDNSServer {
  cfg : Config;
  peers : gmap gostring IP;
  cache : gmap gostring dnsCacheEntry
}.

Definition NewDNSServer (cfg : Config) : DNSServer := mkDNSServer cfg ∅ ∅.
Definition domain (d : DNSServer) : gostring := dns_Domain (DNS (cfg d)).

Definition AddPeer (hostname : gostring) (ip : IP) (d : DNSServer) : DNSServer :=
  mkDNSServer (cfg d) (<[hostname := ip]> (peers d)) (cache d).
Definition RemovePeer (hostname : gostring) (d : DNSServer) : DNSServer :=
  mkDNSServer (cfg d) (delete hostname (peers d)) (cache d).

(** [fmt.Sprintf("%s.%s", name, domain)] *)
Definition hostname_of (name domain : gostring) : gostring := name ++ dot :: domain.

(** The records Start installs, one per configured peer with an address. *)
Definition prepopulate (d : DNSServer) : DNSServer :=
  map_fold (λ name peer d,
    match peer_AllowedIPs peer with
    | [] => d
    | cidr :: _ =>
      match ParseCIDR cidr with
      | Some (_, ip) => AddPeer (hostname_of name (domain d)) ip d
      | None => d
      end
    end) d (Peers (cfg d)).

(** ** Upstream resolvers *)
Class Upstream := ask_upstream : list gostring → gostring → list byte → option (list byte).

(** The buffer a datagram is read into, here and in [serveLoop]. *)
Definition udp_buffer : nat := 4096.

Fixpoint forward_loop `{Upstream} (upstreams : list gostring) (data : list byte)
    (hist : list gostring) : option (list byte) * list gostring :=
  match upstreams with
  | [] => (None, hist)
  | upstream :: upstreams =>
    match ask_upstream hist upstream data with
    | None => forward_loop upstreams data (hist ++ [upstream])
    | Some reply => (Some (take udp_buffer reply), hist ++ [upstream])
    end
  end.
Definition forwardToUpstream `{Upstream} (d : DNSServer) (data : list byte) (hist : list gostring) :=
  forward_loop (dns_Upstream (DNS (cfg d))) data hist.

(** ** The handler *)

(** The values of a map in the order Go happens to range over it. *)
Class MapRange := {
  range_values : gmap gostring IP → list IP;
  range_values_perm m : range_values m ≡ₚ (map_to_list m).*2
}.

Definition ttl_of (d : DNSServer) : Z := (dns_CacheTTL (DNS (cfg d)) mod 2 ^ 32)%Z.

Definition handleNexusQuery `{MapRange} (d : DNSServer) (queryID : Z) (q : dnsQuestion) : list byte :=
  match peers d !! q_name q with
  | Some ip => buildResponse queryID q ip (ttl_of d)
  | None =>
    if decide (q_name q = domain d ∨ q_name q = [x2a; dot] ++ domain d) then
      let ips := range_values (peers d) in
      if decide (0 < length ips) then buildMultiResponse queryID q ips (ttl_of d)
      else buildNXDOMAIN queryID q
    else buildNXDOMAIN queryID q
  end.

(** The loop over the question section, [count] questions left; [None] is the
    early return on a malformed question. *)
Fixpoint parse_questions (count : nat) (data : list byte) (offset : nat)
    (questions : list dnsQuestion) : outcome name_error (option (list dnsQuestion)) :=
  match count with
  | O => Ok (Some questions)
  | S count =>
    if decide (offset < length data) then
      match parseDNSName data offset with
      | Ok (name, newOffset) =>
        if decide (length data < newOffset + 4) then Ok None else
        qtype ← slice data newOffset (newOffset + 2) ≫= Uint16;
        qclass ← slice data (newOffset + 2) (newOffset + 4) ≫= Uint16;
        parse_questions count data (newOffset + 4)
          (questions ++ [mkQuestion name qtype qclass])
      | Err _ => Ok None
      | Panic => Panic
      | OutOfFuel => OutOfFuel
      end
    else Ok (Some questions)
  end.

Definition is_nexus (d : DNSServer) (q : dnsQuestion) : bool :=
  HasSuffix (q_name q) ([dot] ++ domain d) && bool_decide (q_qtype q = 1%Z).

Definition handleQuery `{Upstream, MapRange} (d : DNSServer) (data : list byte)
    (hist : list gostring) : outcome name_error (option (list byte) * list gostring) :=
  if decide (length data < 12) then Ok (None, hist) else
  queryID ← slice data 0 2 ≫= Uint16;
  qdCount ← slice data 4 6 ≫= Uint16;
  if decide (qdCount = 0%Z) then Ok (None, hist) else
  questions ← parse_questions (Z.to_nat qdCount) data 12 [];
  match questions with
  | None | Some [] => Ok (None, hist)
  | Some (q :: _) =>
    if is_nexus d q then Ok (Some (handleNexusQuery d queryID q), hist)
    else Ok (forwardToUpstream d data hist)
  end.

(** ** Specification of a client's query: one question, anything after it *)
Definition encode_query (queryID flags : Z) (q : dnsQuestion) (tail : list byte) : list byte :=
  PutUint16 queryID ++ PutUint16 flags ++ PutUint16 1 ++ replicate 6 x00
    ++ question_bytes q ++ tail.

Section handler.
Context `{Upstream, MapRange}.
Implicit Types (d : DNSServer) (data : list byte) (hist : list gostring).

Lemma parse_questions_safe count data offset questions :
  match parse_questions count data offset questions with
  | Ok _ | OutOfFuel => True
  | Err _ | Panic => False
  end.
Proof.
  revert offset questions. induction count as [|count IH]; intros offset questions; simpl; [done|].
  split_decide; [|done].
  pose proof (parse_name_no_panic (name_fuel data) data offset []) as Hp. unfold parseDNSName.
  destruct (parse_name _ _ _ _) as [[name o]|e| |]; try done.
  split_decide; [done|].
  destruct (slice_Uint16 (E:=name_error) data o) as (ty & -> & _); [lia|].
  destruct (slice_Uint16 (E:=name_error) data (o + 2)) as (cl & Hcl & _); [lia|].
  rewrite <-Nat.add_assoc in Hcl. simpl in Hcl |- *. rewrite Hcl. apply IH.
Qed.

Lemma handleQuery_encoded d queryID flags q tail hist :
  question_ok q → (0 ≤ queryID < 65536)%Z → (0 ≤ flags < 65536)%Z →
  let data := encode_query queryID flags q tail in
  handleQuery d data hist =
    if is_nexus d q then Ok (Some (handleNexusQuery d queryID q), hist)
    else Ok (forwardToUpstream d data hist).
Proof.
  intros Hq Hid Hflags data. unfold handleQuery.
  set (h12 := PutUint16 queryID ++ PutUint16 flags ++ PutUint16 1 ++ replicate 6 x00).
  assert (data = h12 ++ question_bytes q ++ tail) as Hdata.
  { unfold data, h12, encode_query. by rewrite <-!app_assoc. }
  destruct (read_question h12 q tail Hq) as (o & Hname & Hty & Hclass & Ho).
  rewrite <-Hdata in Hname, Hty, Hclass. change (length h12) with 12 in Hname.
  assert (o + 4 + length tail = length data) as Hlen.
  { rewrite Hdata, app_assoc, length_app. lia. }
  pose proof (parse_name_bounds (name_fuel data) data 12 [] _ _ Hname) as Hb.
  rewrite decide_False by lia.
  assert (slice (E:=name_error) data 0 2 ≫= Uint16 = Ok queryID) as ->.
  { by apply (slice_Uint16_app []). }
  assert (slice (E:=name_error) data 4 6 ≫= Uint16 = Ok 1%Z) as Hqd.
  { rewrite Hdata. unfold h12. rewrite <-!app_assoc, (app_assoc (PutUint16 queryID)).
    by apply slice_Uint16_app. }
  cbn [mbind outcome_bind]. rewrite Hqd. cbn [mbind outcome_bind].
  rewrite decide_False by done. change (Z.to_nat 1) with 1. cbn [parse_questions].
  rewrite decide_True, Hname, decide_False by lia.
  unfold read16 in Hty, Hclass. rewrite <-Nat.add_assoc in Hclass. simpl in Hclass.
  rewrite Hty. cbn [mbind outcome_bind]. rewrite Hclass. cbn [mbind outcome_bind app].
  by destruct q.
Qed.

Lemma forward_loop_first upstreams data hist :
  (∃ pre upstream post reply, upstreams = pre ++ upstream :: post
     ∧ ask_upstream (hist ++ pre) upstream data = Some reply
     ∧ (∀ i u, pre !! i = Some u → ask_upstream (hist ++ take i pre) u data = None)
     ∧ forward_loop upstreams data hist = (Some (take udp_buffer reply), hist ++ pre ++ [upstream]))
  ∨ (∀ i u, upstreams !! i = Some u → ask_upstream (hist ++ take i upstreams) u data = None)
     ∧ forward_loop upstreams data hist = (None, hist ++ upstreams).
Proof.
  revert hist. induction upstreams as [|u upstreams IH]; intros hist.
  { right. split; [done|]. simpl. by rewrite app_nil_r. }
  simpl. destruct (ask_upstream hist u data) as [reply|] eqn:Hu.
  - left. exists [], u, upstreams, reply. rewrite app_nil_r. by split_and!.
  - destruct (IH (hist ++ [u])) as [(pre & up & post & reply & -> & Hr & Hpre & ->)|[Hnone ->]].
    + left. exists (u :: pre), up, post, reply. rewrite <-!app_assoc in *.
      split_and!; try done. intros [|i] v; simpl.
      * intros [= <-]. by rewrite app_nil_r.
      * intros Hv%Hpre. by rewrite <-app_assoc in Hv.
    + right. rewrite <-app_assoc. split; [|done]. intros [|i] v; simpl.
      * intros [= <-]. by rewrite app_nil_r.
      * intros Hv%Hnone. by rewrite <-app_assoc in Hv.
Qed.
End handler.

Lemma hostname_of_inj dom name1 name2 :
  hostname_of name1 dom = hostname_of name2 dom → name1 = name2.
Proof. unfold hostname_of. intros Heq. by eapply app_inv_tail. Qed.

(** The network address of a configured peer's first prefix, if it parses. *)
Definition first_ip (peer : PeerConf) : option IP :=
  match peer_AllowedIPs peer with [] => None | cidr :: _ => snd <$> ParseCIDR cidr end.

(** The records of a freshly started server are the first addresses of the
    configured peers, whatever order the map is ranged over. *)
Lemma prepopulate_spec c h ip :
  let d := prepopulate (NewDNSServer c) in
  cfg d = c
  ∧ (peers d !! h = Some ip ↔
       ∃ name peer, Peers c !! name = Some peer ∧ first_ip peer = Some ip
         ∧ h = hostname_of name (dns_Domain (DNS c))).
Proof.
  unfold prepopulate. change (cfg (NewDNSServer c)) with c. revert h ip.
  set (P := λ (d : DNSServer) (m : gmap gostring PeerConf), ∀ h ip,
    cfg d = c ∧ (peers d !! h = Some ip ↔
      ∃ name peer, m !! name = Some peer ∧ first_ip peer = Some ip
        ∧ h = hostname_of name (dns_Domain (DNS c)))).
  apply (map_fold_weak_ind P); unfold P; clear P.
  { intros h ip. split; [done|]. split; [done|]. intros (name & peer & Hm & _). set_solver. }
  intros name peer m d Hm IH h ip. destruct (IH h ip) as [Hcfg Hd].
  assert (∀ Q : gostring → PeerConf → Prop, (∃ n p, <[name:=peer]> m !! n = Some p ∧ Q n p)
    ↔ Q name peer ∨ ∃ n p, m !! n = Some p ∧ Q n p) as Hins.
  { intros Q. setoid_rewrite lookup_insert_Some. split; [naive_solver|].
    intros [HQ|(n & p & Hn & HQ)]; [by exists name, peer; auto|].
    exists n, p. split; [|done]. right. split; [congruence|done]. }
  rewrite Hins. unfold first_ip at 1. destruct (peer_AllowedIPs peer) as [|cidr ?].
  { split; [done|]. rewrite Hd. naive_solver. }
  destruct (ParseCIDR cidr) as [[host ip']|] eqn:Hip; simpl; [|split; [done|]; rewrite Hd; naive_solver].
  split; [done|]. unfold AddPeer, domain. rewrite Hcfg. simpl.
  rewrite lookup_insert_Some, Hd. split; [naive_solver|].
  intros [[[= ->] ->]|(n & p & Hn & Hp & ->)]; [by left|]. right. split; [|eauto 10].
  intros Heq%hostname_of_inj. congruence.
Qed.

Section answers.
Context `{Upstream, MapRange}.
Implicit Types (d : DNSServer) (q : dnsQuestion) (hist : list gostring).

Lemma ttl_of_range d : (0 ≤ ttl_of d < 2 ^ 32)%Z.
Proof. by apply Z.mod_pos_bound. Qed.

Lemma is_nexus_not_domain d q : is_nexus d q = true → q_name q ≠ domain d.
Proof.
  unfold is_nexus. intros [Hs _]%andb_prop Heq. apply HasSuffix_length in Hs.
  rewrite Heq, length_app in Hs. simpl in Hs. lia.
Qed.

(** The answer for a registered host. *)
Lemma handleNexusQuery_found d queryID q ip :
  question_ok q → (0 ≤ queryID < 65536)%Z → peers d !! q_name q = Some ip →
  length (To4 ip) = 4 →
  decode_reply (handleNexusQuery d queryID q) =
    Ok (mkReply queryID 0x8180 q [mkAnswer (q_name q) 1 1 (ttl_of d) (To4 ip)]).
Proof.
  intros Hq Hid Hp Hip. unfold handleNexusQuery. rewrite Hp, buildResponse_multi.
  apply (decode_buildMultiResponse_aux _ _ [ip]); try done; [apply ttl_of_range|].
  by constructor.
Qed.

(** The one for a host whose address is not IPv4. *)
Lemma handleNexusQuery_not_ipv4 d queryID q ip :
  question_ok q → (0 ≤ queryID < 65536)%Z → peers d !! q_name q = Some ip → To4 ip = [] →
  decode_reply (handleNexusQuery d queryID q) = Panic
  ∧ ∀ rdata, length rdata = 4 → decode_reply (handleNexusQuery d queryID q ++ rdata) =
      Ok (mkReply queryID 0x8180 q [mkAnswer (q_name q) 1 1 (ttl_of d) rdata]).
Proof.
  intros Hq Hid Hp Hip. unfold handleNexusQuery. rewrite Hp. split.
  - apply decode_buildResponse_short; [done..|apply ttl_of_range|done].
  - intros rdata Hr. rewrite buildResponse_cut, buildResponse_multi by done.
    rewrite (decode_buildMultiResponse_aux _ _ [rdata]); try done; [|apply ttl_of_range|].
    + cbn [fmap list_fmap]. by rewrite To4_short.
    + constructor; [|done]. by rewrite To4_short.
Qed.

Lemma decode_buildNXDOMAIN queryID q :
  question_ok q → (0 ≤ queryID < 65536)%Z →
  decode_reply (buildNXDOMAIN queryID q) = Ok (mkReply queryID 0x8183 q []).
Proof.
  intros Hq Hid. destruct (decode_question queryID 0x8183 0 q []) as [_ Hd]; [done..|].
  rewrite app_nil_r in Hd. exact Hd.
Qed.
End answers.

(** ** Properties *)

(** C1. The handler survives every datagram in the sense of memory: no index or
    slice is out of range, whatever the bytes.  It fails to come back only on
    a datagram in which the name parser, at some offset, does not. *)
Theorem handleQuery_safe `{Upstream, MapRange} d data hist :
  match handleQuery d data hist with
  | Ok _ => True
  | OutOfFuel => ∃ offset, parseDNSName data offset = OutOfFuel
  | Err _ | Panic => False
  end.
Proof.
  unfold handleQuery. split_decide; [done|].
  destruct (slice_Uint16 (E:=name_error) data 0) as (id & Hid & _); [lia|].
  destruct (slice_Uint16 (E:=name_error) data 4) as (qd & Hqd & _); [lia|].
  simpl in Hid, Hqd. rewrite Hid. cbn [mbind outcome_bind]. rewrite Hqd. cbn [mbind outcome_bind].
  split_decide; [done|].
  assert (∀ count offset questions, parse_questions count data offset questions = OutOfFuel →
    ∃ offset, parseDNSName data offset = OutOfFuel) as Hfuel.
  { induction count as [|count IH]; intros offset questions; simpl; [done|].
    split_decide; [|done]. destruct (parseDNSName data offset) as [[name o]|e| |] eqn:Hn; try done.
    - split_decide; [done|].
      destruct (slice_Uint16 (E:=name_error) data o) as (ty & -> & _); [lia|].
      destruct (slice_Uint16 (E:=name_error) data (o + 2)) as (cl & Hcl & _); [lia|].
      rewrite <-Nat.add_assoc in Hcl. simpl in Hcl |- *. rewrite Hcl. apply IH.
    - intros _. by exists offset. }
  pose proof (parse_questions_safe (Z.to_nat qd) data 12 []) as Hs.
  destruct (parse_questions _ _ _ _) as [[[|q qs]|]|e| |] eqn:Hq; simpl; try done; [|by eapply Hfuel].
  by destruct (is_nexus d q).
Qed.

(** C31. A fourteen-byte datagram makes the handler recurse without end: a
    question whose name is a compression pointer to itself, at offset 12.  The
    model runs out of fuel, and by the fuel theorem of the name parser so does
    a run with any fuel. *)
Theorem handleQuery_pointer_loop `{Upstream, MapRange} d hist queryID flags qdCount counts tail :
  (0 ≤ queryID < 65536)%Z → (0 < qdCount < 65536)%Z → length counts = 6 →
  let data := PutUint16 queryID ++ PutUint16 flags ++ PutUint16 qdCount ++ counts
    ++ encode_pointer 12 ++ tail in
  handleQuery d data hist = OutOfFuel
  ∧ ∀ fuel, parse_name fuel data 12 [] = OutOfFuel.
Proof.
  intros Hid Hqd Hc data.
  set (h12 := PutUint16 queryID ++ PutUint16 flags ++ PutUint16 qdCount ++ counts).
  assert (length h12 = 12) as Hh by (unfold h12; rewrite !length_app, !length_PutUint16; lia).
  assert (data = h12 ++ encode_pointer 12 ++ tail) as Hdata.
  { unfold data, h12. by rewrite <-!app_assoc. }
  assert (length data = 14 + length tail) as Hlen.
  { rewrite Hdata, !length_app. unfold encode_pointer. rewrite length_PutUint16. lia. }
  assert (next_at data 12 = Some 12) as Hnext.
  { pose proof (step_at_pointer h12 12 tail ltac:(done)) as Hs.
    rewrite Hh, <-Hdata in Hs. unfold next_at. by rewrite Hs. }
  assert (∀ fuel, parse_name fuel data 12 [] = OutOfFuel) as Hall.
  { intros fuel. apply parse_name_OutOfFuel, (steps_cycle _ 0 1 12 12); [lia|done|].
    simpl. by rewrite Hnext. }
  split; [|done]. unfold handleQuery. rewrite decide_False by lia.
  assert (slice (E:=name_error) data 0 2 ≫= Uint16 = Ok queryID) as ->.
  { by apply (slice_Uint16_app []). }
  assert (slice (E:=name_error) data 4 6 ≫= Uint16 = Ok qdCount) as Hq.
  { unfold data. rewrite (app_assoc (PutUint16 queryID)). apply slice_Uint16_app; [done..|lia]. }
  cbn [mbind outcome_bind]. rewrite Hq. cbn [mbind outcome_bind]. rewrite decide_False by lia.
  destruct (Z.to_nat qdCount) as [|n] eqn:Hn; [lia|]. cbn [parse_questions].
  rewrite decide_True by lia. unfold parseDNSName. by rewrite Hall.
Qed.

(** C29. An A query for a host under the domain, with any well-formed question
    and whatever follows it, is answered from the peer records and reaches no
    upstream: a host registered with an IPv4 address with that address and the
    configured TTL; one registered with another address with a packet that cannot
    be read, since its record announces four bytes of data and ends before them;
    the wildcard "*." domain with one record per peer, in some order, when there are
    peers, fewer than 65536 and all with IPv4 addresses; every other name, and the
    wildcard when there are no peers, with NXDOMAIN. *)
Theorem handleQuery_nexus `{Upstream, MapRange} d queryID flags q tail hist :
  question_ok q → (0 ≤ queryID < 65536)%Z → (0 ≤ flags < 65536)%Z →
  is_nexus d q = true →
  ∃ packet, handleQuery d (encode_query queryID flags q tail) hist = Ok (Some packet, hist)
  ∧ match peers d !! q_name q with
    | Some ip =>
      if decide (To4 ip = []) then
        decode_reply packet = Panic
        ∧ ∀ rdata, length rdata = 4 → decode_reply (packet ++ rdata) =
            Ok (mkReply queryID 0x8180 q [mkAnswer (q_name q) 1 1 (ttl_of d) rdata])
      else decode_reply packet =
        Ok (mkReply queryID 0x8180 q [mkAnswer (q_name q) 1 1 (ttl_of d) (To4 ip)])
    | None =>
      if decide (q_name q = [x2a; dot] ++ domain d ∧ peers d ≠ ∅) then
        map_Forall (λ _ ip, To4 ip ≠ []) (peers d) → (Z.of_nat (size (peers d)) < 65536)%Z →
        ∃ ips, ips ≡ₚ (map_to_list (peers d)).*2
          ∧ decode_reply packet = Ok (mkReply queryID 0x8180 q
              ((λ ip, mkAnswer (q_name q) 1 1 (ttl_of d) (To4 ip)) <$> ips))
      else decode_reply packet = Ok (mkReply queryID 0x8183 q [])
    end.
Proof.
  intros Hq Hid Hflags Hnexus. eexists. rewrite handleQuery_encoded, Hnexus by done.
  split; [done|]. destruct (peers d !! q_name q) as [ip|] eqn:Hp.
  { case_decide as Hip.
    - by apply (handleNexusQuery_not_ipv4 _ _ _ ip).
    - apply handleNexusQuery_found; [done..|]. by destruct (length_To4 ip). }
  unfold handleNexusQuery. rewrite Hp. pose proof (is_nexus_not_domain d q Hnexus) as Hdom.
  pose proof (range_values_perm (peers d)) as Hperm.
  assert (length (range_values (peers d)) = size (peers d)) as Hlen.
  { by rewrite Hperm, length_fmap, length_map_to_list. }
  destruct (decide (q_name q = [x2a; dot] ++ domain d)) as [Hw|Hw].
  - rewrite (decide_True (P:=q_name q = domain d ∨ _)) by auto. rewrite Hlen.
    destruct (decide (peers d = ∅)) as [He|He].
    + rewrite (decide_False (P:=0 < _)) by (rewrite He, map_size_empty; lia).
      rewrite decide_False by naive_solver. by apply decode_buildNXDOMAIN.
    + rewrite (decide_True (P:=0 < _)) by (apply map_size_non_empty_iff in He; lia).
      rewrite decide_True by done. intros Hv4 Hsize. eexists. split; [exact Hperm|].
      apply decode_buildMultiResponse_aux; [done..|apply ttl_of_range|by rewrite Hlen|].
      rewrite Hperm. apply Forall_fmap, Forall_forall. intros [h ip] Hin.
      apply elem_of_map_to_list in Hin. specialize (Hv4 h ip Hin). cbn in Hv4 |- *.
      by destruct (length_To4 ip).
  - rewrite !decide_False by naive_solver. by apply decode_buildNXDOMAIN.
Qed.

(** Every other query with a well-formed first question, the bare domain
    included whatever its type, is forwarded as it came: the client gets the
    first 4096 bytes of the reply of the first upstream, in configured order,
    that gives one, and nothing when none does. *)
Theorem handleQuery_forwards `{Upstream, MapRange} d queryID flags q tail hist :
  question_ok q → (0 ≤ queryID < 65536)%Z → (0 ≤ flags < 65536)%Z →
  is_nexus d q = false ∨ q_name q = domain d →
  let data := encode_query queryID flags q tail in
  let upstreams := dns_Upstream (DNS (cfg d)) in
  (∃ pre upstream post reply, upstreams = pre ++ upstream :: post
     ∧ ask_upstream (hist ++ pre) upstream data = Some reply
     ∧ (∀ i u, pre !! i = Some u → ask_upstream (hist ++ take i pre) u data = None)
     ∧ handleQuery d data hist = Ok (Some (take udp_buffer reply), hist ++ pre ++ [upstream]))
  ∨ (∀ i u, upstreams !! i = Some u → ask_upstream (hist ++ take i upstreams) u data = None)
     ∧ handleQuery d data hist = Ok (None, hist ++ upstreams).
Proof.
  intros Hq Hid Hflags Hn data upstreams.
  assert (is_nexus d q = false) as Hf.
  { destruct Hn as [Hn|Hn]; [done|]. destruct (is_nexus d q) eqn:Ht; [|done].
    by apply is_nexus_not_domain in Ht. }
  unfold data. rewrite handleQuery_encoded, Hf by done. fold data. unfold forwardToUpstream. fold upstreams.
  destruct (forward_loop_first upstreams data hist) as [(pre & u & post & r & ? & ? & ? & ->)|[? ->] ].
  - left. by exists pre, u, post, r.
  - by right.
Qed.

(** C8. MagicDNS: on a freshly started server, an A query for "<peer>.<domain>",
    for any configured peer whose first allowed prefix is an IPv4 one in dotted
    form, is answered with the network address of that prefix; for a /32, that is
    the address itself. *)
Theorem peer_query_resolves `{Upstream, MapRange} c name peer a1 a2 a3 a4 mask n rest
    queryID flags tail hist :
  let d := prepopulate (NewDNSServer c) in
  let q := mkQuestion (hostname_of name (dns_Domain (DNS c))) 1 1 in
  question_ok q → (0 ≤ queryID < 65536)%Z → (0 ≤ flags < 65536)%Z →
  Peers c !! name = Some peer →
  peer_AllowedIPs peer = (dotted a1 a2 a3 a4 ++ slash :: mask) :: rest →
  dtoi mask = Some n → (n ≤ 32)%Z →
  ∃ packet, handleQuery d (encode_query queryID flags q tail) hist = Ok (Some packet, hist)
  ∧ decode_reply packet =
      Ok (mkReply queryID 0x8180 q [mkAnswer (q_name q) 1 1 (ttl_of d) (network [a1; a2; a3; a4] n)])
  ∧ (n = 32%Z → network [a1; a2; a3; a4] n = [a1; a2; a3; a4]).
Proof.
  intros d q Hq Hid Hflags Hpeer Hips Hmask Hn. set (ip := network [a1; a2; a3; a4] n).
  destruct (prepopulate_spec c (q_name q) ip) as [Hcfg Hrec]. fold d in Hcfg, Hrec.
  assert (is_nexus d q = true) as Hnexus.
  { unfold is_nexus, domain. rewrite Hcfg. simpl. unfold hostname_of.
    apply andb_true_intro. split; [|done]. apply (HasSuffix_app name). }
  assert (To4 ip = ip) as Hv4 by by apply To4_short, length_network.
  eexists. rewrite handleQuery_encoded, Hnexus by done. split; [done|].
  split; [|intros ->; apply network_32]. rewrite <-Hv4.
  apply handleNexusQuery_found; [done|done| |].
  - apply Hrec. exists name, peer. split_and!; [done| |done].
    unfold first_ip. rewrite Hips, (ParseCIDR_dotted _ _ _ _ _ n) by done.
    by rewrite Mask_IPv4.
  - rewrite Hv4. apply length_network.
Qed.

(** ** The read loop

    [serveLoop] reads every datagram into one buffer and starts a goroutine on
    [buf[:n]], a slice of that buffer: the handler sees the buffer as it is when
    it runs, not as it was when its datagram arrived.  The state is the buffer
    and the handlers started and not yet run; a step receives a datagram or runs
    one of the handlers. *)
Section serveLoop.
Context {Addr : Type}.

Record serve_state := mkServe { buf : list byte; pending : list (nat * Addr) }.
Inductive serve_label :=
  | Receive (datagram : list byte) (from : Addr)
  | Handle (data : list byte) (from : Addr).

Definition serve_init : serve_state := mkServe (replicate udp_buffer x00) [].

(** [n, remoteAddr, err := d.conn.ReadFromUDP(buf)], then [go d.handleQuery(...)]. *)
Definition receive (datagram : list byte) (from : Addr) (s : serve_state) : serve_state :=
  let bs := take udp_buffer datagram in
  mkServe (splice 0 bs (buf s)) (pending s ++ [(length bs, from)]).

Inductive serve_step : serve_state → serve_label → serve_state → Prop :=
  | step_receive s datagram from :
      serve_step s (Receive datagram from) (receive datagram from s)
  | step_handle s pre n from post :
      pending s = pre ++ (n, from) :: post →
      serve_step s (Handle (take n (buf s)) from) (mkServe (buf s) (pre ++ post)).

Inductive serve_run : serve_state → list serve_label → serve_state → Prop :=
  | run_nil s : serve_run s [] s
  | run_cons s1 l s2 ls s3 :
      serve_step s1 l s2 → serve_run s2 ls s3 → serve_run s1 (l :: ls) s3.

(** The buffer keeps its size, and every handler's slice lies within it. *)
Definition serve_inv (s : serve_state) : Prop :=
  length (buf s) = udp_buffer ∧ Forall (λ p, p.1 ≤ udp_buffer) (pending s).

Lemma serve_step_inv s l s' : serve_inv s → serve_step s l s' → serve_inv s'.
Proof.
  intros [Hb Hp] Hstep. destruct Hstep as [s dg from|s pre n from post Hpend].
  - assert (length (take udp_buffer dg) ≤ udp_buffer) by (rewrite length_take; lia).
    split; simpl; [rewrite length_splice; lia|].
    apply Forall_app. split; [done|]. by constructor.
  - split; [done|]. simpl. rewrite Hpend in Hp.
    apply Forall_app in Hp as [? [_ ?]%Forall_cons]. by apply Forall_app.
Qed.

Lemma serve_run_inv s ls s' : serve_inv s → serve_run s ls s' → serve_inv s'.
Proof. intros Hs Hrun. induction Hrun; eauto using serve_step_inv. Qed.

Lemma serve_init_inv : serve_inv serve_init.
Proof. split; [apply length_replicate|constructor]. Qed.

Lemma take_splice_0 bs (b : list byte) n :
  n ≤ length bs → take n (splice 0 bs b) = take n bs.
Proof.
  intros Hn. unfold splice. rewrite take_0. simpl. by rewrite take_app_le.
Qed.
End serveLoop.

(** In every run of the read loop a handler's slice is within the buffer,
    so it sees exactly the number of bytes its datagram had (at most 4096); and
    a handler that runs before the next datagram arrives sees its own. *)
Theorem serveLoop_slices {Addr} ls (s : serve_state (Addr:=Addr)) :
  serve_run serve_init ls s →
  Forall (λ p, length (take p.1 (buf s)) = p.1 ∧ p.1 ≤ udp_buffer) (pending s)
  ∧ (∀ dg from, (pending (receive dg from s)) = pending s ++ [(length (take udp_buffer dg), from)]
       ∧ take (length (take udp_buffer dg)) (buf (receive dg from s)) = take udp_buffer dg).
Proof.
  intros Hrun. destruct (serve_run_inv _ _ _ serve_init_inv Hrun) as [Hb Hp]. split.
  - eapply Forall_impl; [exact Hp|]. intros p Hn. cbn beta in Hn. split; [|done]. rewrite length_take. lia.
  - intros dg from. split; [done|]. unfold receive. cbn [buf].
    rewrite take_splice_0 by done. apply take_ge. done.
Qed.

(** The buffer is shared: when two datagrams arrive before the handler of
    the first runs, that handler parses bytes of the second and answers them to
    the first sender. *)
Theorem serveLoop_shares_buffer {Addr} ls (s : serve_state (Addr:=Addr)) dg1 from1 dg2 from2 :
  serve_run serve_init ls s →
  length dg1 ≤ length dg2 → length dg2 ≤ udp_buffer →
  ∃ s', serve_run s [Receive dg1 from1; Receive dg2 from2; Handle (take (length dg1) dg2) from1] s'.
Proof.
  intros _ Hle H2. set (s2 := receive dg2 from2 (receive dg1 from1 s)).
  assert (take udp_buffer dg2 = dg2) as Ht2 by (apply take_ge; lia).
  assert (take udp_buffer dg1 = dg1) as Ht1 by (apply take_ge; lia).
  assert (take (length dg1) (buf s2) = take (length dg1) dg2) as Hbuf.
  { unfold s2. cbn [buf receive]. rewrite Ht2. by apply take_splice_0. }
  eexists. eapply run_cons; [apply step_receive|]. eapply run_cons; [apply step_receive|].
  eapply run_cons; [|apply run_nil]. fold s2.
  rewrite <-Hbuf. apply (step_handle _ (pending s) (length dg1) from1 [(length dg2, from2)]).
  unfold s2, receive. cbn [pending]. by rewrite Ht1, Ht2, <-app_assoc.
Qed.

(** ** Witnesses *)
#[local] Instance witness_range : MapRange := {
  range_values m := (map_to_list m).*2;
  range_values_perm m := reflexivity _
}.
(** The first upstream does not answer; the second answers two bytes. *)
#[local] Instance witness_upstream : Upstream :=
  λ hist server data, if decide (server = str "1.1.1.1:53") then None else Some [x01; x02].

(** Two peers; the addresses stand for the parsed "100.64.0.1/32" and
    "100.64.0.2/32". *)
Definition witness_config : Config :=
  let c := applyDefaults zero_Config in
  let peer ip := mkPeerConf [] [] [ip] [] [] 0 [] (mkHardwareConf false 0 []) false in
  mkConfig (NodeName c) (WireGuard c) (STUN c) (Relay c) (MQTT c)
    (mkDNSConf [] (dns_Domain (DNS c)) [str "1.1.1.1:53"; str "8.8.8.8:53"] 300)
    (Dashboard c) (Crypto c)
    {[ str "dagda" := peer (str "100.64.0.1/32"); str "brigid" := peer (str "100.64.0.2/32") ]}.
Definition witness_server : DNSServer := prepopulate (NewDNSServer witness_config).

Lemma handleQuery_pointer_loop_witness :
  handleQuery witness_server
    (PutUint16 1 ++ PutUint16 0x0100 ++ PutUint16 1 ++ replicate 6 x00 ++ encode_pointer 12) []
  = OutOfFuel.
Proof.
  pose proof (handleQuery_pointer_loop witness_server [] 1 0x0100 1 (replicate 6 x00) []
    ltac:(done) ltac:(done) eq_refl) as [H _].
  cbv zeta in H. rewrite app_nil_r in H. exact H.
Defined.

(** A host with an address in IPv6 besides. *)
Definition witness_server6 : DNSServer :=
  AddPeer (str "epona.nexus.local") (replicate 16 x20) witness_server.

Lemma handleQuery_nexus_witness :
  (∃ packet, handleQuery witness_server6 (encode_query 1 0x0100 witness_question []) []
    = Ok (Some packet, [])
  ∧ decode_reply packet = Ok (mkReply 1 0x8180 witness_question
      [mkAnswer (str "brigid.nexus.local") 1 1 300 [x64; x40; x00; x02]]))
  ∧ ∃ packet, handleQuery witness_server6
        (encode_query 1 0x0100 (mkQuestion (str "epona.nexus.local") 1 1) []) [] = Ok (Some packet, [])
      ∧ decode_reply packet = Panic.
Proof.
  assert (question_ok (mkQuestion (str "epona.nexus.local") 1 1)) as Hq.
  { split; [|done]. exists [str "epona"; str "nexus"; str "local"]. split_and!; [done| |reflexivity].
    apply (bool_decide_unpack _). vm_compute. exact I. }
  split.
  - destruct (handleQuery_nexus witness_server6 1 0x0100 witness_question [] []
      witness_question_ok ltac:(done) ltac:(done) ltac:(vm_compute; reflexivity)) as (packet & Hp & H).
    exists packet. split; [exact Hp|].
    replace (peers witness_server6 !! q_name witness_question)
      with (Some [x64; x40; x00; x02]) in H by (vm_compute; reflexivity).
    exact H.
  - destruct (handleQuery_nexus witness_server6 1 0x0100 (mkQuestion (str "epona.nexus.local") 1 1) [] []
      Hq ltac:(done) ltac:(done) ltac:(vm_compute; reflexivity)) as (packet & Hp & H).
    exists packet. split; [exact Hp|].
    replace (peers witness_server6 !! q_name (mkQuestion (str "epona.nexus.local") 1 1))
      with (Some (replicate 16 x20)) in H by (vm_compute; reflexivity).
    exact (proj1 H).
Defined.

Lemma handleQuery_forwards_witness :
  handleQuery witness_server (encode_query 1 0x0100 (mkQuestion (str "nexus.local") 1 1) []) []
  = Ok (Some [x01; x02], [str "1.1.1.1:53"; str "8.8.8.8:53"]).
Proof.
  assert (question_ok (mkQuestion (str "nexus.local") 1 1)) as Hq.
  { split; [|done]. exists [str "nexus"; str "local"]. split_and!; [done| |reflexivity].
    apply (bool_decide_unpack _). vm_compute. exact I. }
  destruct (handleQuery_forwards witness_server 1 0x0100 _ [] [] Hq ltac:(done) ltac:(done)
    ltac:(right; vm_compute; reflexivity)) as [_|_]; vm_compute; reflexivity.
Defined.

Lemma peer_query_resolves_witness :
  ∃ packet, handleQuery witness_server (encode_query 1 0x0100 witness_question []) []
    = Ok (Some packet, [])
  ∧ decode_reply packet = Ok (mkReply 1 0x8180 witness_question
      [mkAnswer (str "brigid.nexus.local") 1 1 300 [x64; x40; x00; x02]]).
Proof.
  destruct (peer_query_resolves witness_config (str "brigid")
    (mkPeerConf [] [] [str "100.64.0.2/32"] [] [] 0 [] (mkHardwareConf false 0 []) false)
    x64 x40 x00 x02 (str "32") 32 [] 1 0x0100 [] [] witness_question_ok ltac:(done) ltac:(done)
    ltac:(vm_compute; reflexivity) eq_refl eq_refl ltac:(done)) as (packet & H1 & H2 & _).
  exists packet. split; [exact H1|exact H2].
Defined.

Lemma serveLoop_slices_witness :
  let s := receive [x01] 5 serve_init in
  Forall (λ p, length (take p.1 (buf s)) = p.1 ∧ p.1 ≤ udp_buffer) (pending s).
Proof.
  intros s. apply (serveLoop_slices [Receive [x01] 5] s).
  eapply run_cons; [apply step_receive|apply run_nil].
Defined.

Lemma serveLoop_shares_buffer_witness :
  ∃ s', serve_run serve_init
    [Receive [x01; x02] 5; Receive [x03; x04; x05] 6; Handle [x03; x04] 5] s'.
Proof.
  apply (serveLoop_shares_buffer [] serve_init [x01; x02] 5 [x03; x04; x05] 6);
    [apply run_nil|simpl; lia|unfold udp_buffer; simpl; lia].
Defined.
