(* ===== verification/DnsService.v ===== *)
(** * dns.go: the running server

    [Start], the read loop with its deadlines and its errors, the handlers on
    their slices of its buffer, changes of the records meanwhile, the
    cancellation of the context and [Stop], as one system of steps.  What the
    loop and the handlers do is [DnsServer]'s [receive] and [handleQuery]; here
    they are put together with the socket.  A handler that never returns takes
    the process with it (its recursion exhausts the stack). *)
From S2P Require Import Prelude Bytes Config DnsName DnsMessage DnsServer.
From Stdlib Require Import Init.Byte.

Inductive conn_state := NoConn | ConnOpen | ConnClosed.
Inductive loop_state := LoopNotStarted | Serving | LoopReturned.
Inductive stop_state := NotStopping | Waiting | Stopped.
#[export] Instance conn_state_eq_dec : EqDecision conn_state.
Proof. solve_decision. Defined.
#[export] Instance loop_state_eq_dec : EqDecision loop_state.
Proof. solve_decision. Defined.
#[export] Instance stop_state_eq_dec : EqDecision stop_state.
Proof. solve_decision. Defined.

Inductive start_error := ErrResolvingAddr | ErrListening.

Section service.
Context {Addr : Type} `{Upstream, MapRange}.

(** [replies] is what has been sent, [asked] the upstream servers asked. *)
Record service := mkService {
  server : DNSServer;
  conn : conn_state;
  loop : loop_state;
  queries : serve_state (Addr:=Addr);
  replies : list (list byte * Addr);
  asked : list gostring;
  ctx_done : bool;
  stopping : stop_state;
  crashed : bool
}.
Definition new_service (c : Config) : service :=
  mkService (NewDNSServer c) NoConn LoopNotStarted serve_init [] [] false NotStopping false.

(** [Start]: [Resolve] is net.ResolveUDPAddr, [Listen] whether the address can be
    listened on. *)
Definition Start {A} (Resolve : gostring → option A) (Listen : A → bool) : stateful service start_error () := λ s,
  match Resolve (dns_ListenAddr (DNS (cfg (server s)))) with
  | None => (Err ErrResolvingAddr, s)
  | Some addr =>
    if Listen addr then
      (Ok (), mkService (prepopulate (server s)) ConnOpen Serving (queries s) (replies s) (asked s)
                (ctx_done s) (stopping s) (crashed s))
    else (Err ErrListening, s)
  end.

Inductive label :=
  | Datagram (data : list byte) (from : Addr)
  | ReadDeadline
  | ReadFails
  | Handler (i : nat)
  | Record_ (f : DNSServer → DNSServer)
  | CancelCtx
  | CallStop
  | StopReturns.

Definition set_server (d : DNSServer) (s : service) : service :=
  mkService d (conn s) (loop s) (queries s) (replies s) (asked s) (ctx_done s) (stopping s) (crashed s).
Definition set_loop (l : loop_state) (s : service) : service :=
  mkService (server s) (conn s) l (queries s) (replies s) (asked s) (ctx_done s) (stopping s) (crashed s).
Definition set_queries (q : serve_state) (s : service) : service :=
  mkService (server s) (conn s) (loop s) q (replies s) (asked s) (ctx_done s) (stopping s) (crashed s).
(** The context is looked at before each read. *)
Definition head_of_loop (s : service) : service :=
  set_loop (if ctx_done s then LoopReturned else Serving) s.
Definition crash (s : service) : service :=
  mkService (server s) (conn s) (loop s) (queries s) (replies s) (asked s) (ctx_done s) (stopping s) true.

(** A handler, from its start to its end; on a closed socket its answer is lost. *)
Definition run_handler (i : nat) (s : service) : option service :=
  '(n, from) ← pending (queries s) !! i;
  let left := mkServe (buf (queries s)) (take i (pending (queries s)) ++ drop (S i) (pending (queries s))) in
  match handleQuery (server s) (take n (buf (queries s))) (asked s) with
  | Ok (reply, asked') =>
    Some (mkService (server s) (conn s) (loop s) left
      (replies s ++ match reply with
                    | Some r => if decide (conn s = ConnOpen) then [(r, from)] else []
                    | None => []
                    end) asked' (ctx_done s) (stopping s) (crashed s))
  | _ => Some (crash s)
  end.

(** A datagram and a deadline that passes lead back to the head of the loop, and so
    does an error unless the context is done. *)
Definition service_step (l : label) (s : service) : option service :=
  if crashed s then None else
  match l with
  | Datagram data from =>
    if decide (loop s = Serving ∧ conn s = ConnOpen)
    then Some (head_of_loop (set_queries (receive data from (queries s)) s)) else None
  | ReadDeadline =>
    if decide (loop s = Serving ∧ conn s = ConnOpen)
    then Some (head_of_loop s) else None
  | ReadFails =>
    if decide (loop s = Serving)
    then Some (head_of_loop s) else None
  | Handler i => run_handler i s
  | Record_ f => Some (set_server (f (server s)) s)
  | CancelCtx =>
    Some (mkService (server s) (conn s) (loop s) (queries s) (replies s) (asked s) true (stopping s) (crashed s))
  | CallStop =>
    if decide (stopping s = NotStopping) then
      Some (mkService (server s) (if decide (conn s = ConnOpen) then ConnClosed else conn s) (loop s)
        (queries s) (replies s) (asked s) (ctx_done s) Waiting (crashed s))
    else None
  | StopReturns =>
    if decide (stopping s = Waiting ∧ loop s ≠ Serving) then
      Some (mkService (server s) (conn s) (loop s) (queries s) (replies s) (asked s) (ctx_done s) Stopped
        (crashed s))
    else None
  end.
Abbreviation service_run := (trace service_step).

(** A server that [Start] has started. *)
Definition started (c : Config) : service :=
  mkService (prepopulate (NewDNSServer c)) ConnOpen Serving serve_init [] [] false NotStopping false.

(** ** One query after the other

    The answers a server gives to datagrams one by one, and the upstream servers
    it asks; [None] when it does not return from one. *)
Fixpoint answers (d : DNSServer) (asked : list gostring) (dgs : list (list byte * Addr)) :
    option (list (list byte * Addr) * list gostring) :=
  match dgs with
  | [] => Some ([], asked)
  | (data, from) :: dgs =>
    match handleQuery d (take udp_buffer data) asked with
    | Ok (reply, asked) =>
      '(rs, asked) ← answers d asked dgs;
      Some (option_list ((., from) <$> reply) ++ rs, asked)
    | _ => None
    end
  end.

(** The datagrams received in a run. *)
Definition received (ls : list label) : list (list byte * Addr) :=
  omap (λ l, match l with Datagram data from => Some (data, from) | _ => None end) ls.

(** Each handler runs before the next datagram is read and before [Stop], and the
    records stay. *)
Definition quiet (s : service) (l : label) : Prop :=
  match l with
  | Datagram _ _ | CallStop => pending (queries s) = []
  | Record_ _ => False
  | _ => True
  end.

Lemma answers_snoc d asked dgs data from rs asked1 reply asked2 :
  answers d asked dgs = Some (rs, asked1) →
  handleQuery d (take udp_buffer data) asked1 = Ok (reply, asked2) →
  answers d asked (dgs ++ [(data, from)]) = Some (rs ++ option_list ((., from) <$> reply), asked2).
Proof.
  revert asked rs asked1. induction dgs as [|[data' from'] dgs IH]; intros asked rs asked1.
  - intros [= <- <-] Hq. simpl. rewrite Hq. simpl. by rewrite app_nil_r.
  - simpl. destruct (handleQuery d (take udp_buffer data') asked) as [[reply' asked']|e| |]; try done.
    intros ([rs' asked''] & Hrs & [= <- <-])%bind_Some Hq. rewrite (IH _ _ _ Hrs Hq). simpl.
    by rewrite app_assoc.
Qed.

(** The answers so far are those of the datagrams handled, all but the last one
    at most. *)
Definition in_turn (c : Config) (dgs : list (list byte * Addr)) (s : service) : Prop :=
  server s = prepopulate (NewDNSServer c)
  ∧ length (buf (queries s)) = udp_buffer
  ∧ (pending (queries s) = [] ∧ answers (server s) [] dgs = Some (replies s, asked s)
     ∨ ∃ dgs' data from, dgs = dgs' ++ [(data, from)] ∧ conn s = ConnOpen
         ∧ pending (queries s) = [(length (take udp_buffer data), from)]
         ∧ take (length (take udp_buffer data)) (buf (queries s)) = take udp_buffer data
         ∧ answers (server s) [] dgs' = Some (replies s, asked s)).

Lemma run_handler_in_turn c dgs i s s' :
  in_turn c dgs s → run_handler i s = Some s' → in_turn c dgs s'.
Proof.
  intros (Hd & Hb & Hs). unfold run_handler.
  destruct Hs as [[Hp Ha]|(dgs' & data & from & -> & Hc & Hp & Hbuf & Ha)]; rewrite Hp; [done|].
  destruct i as [|i]; [|done]. cbn [lookup list_lookup mbind option_bind take drop app].
  rewrite Hbuf.
  destruct (handleQuery (server s) (take udp_buffer data) (asked s)) as [[reply asked']|e| |] eqn:Hq;
    intros [= <-].
  - split; [done|]. split; [done|]. left. split; [done|]. cbn [server replies asked].
    rewrite (answers_snoc _ _ _ _ _ _ _ _ _ Ha Hq).
    destruct reply; [by rewrite decide_True|done].
  - split; [done|]. split; [done|]. right. by exists dgs', data, from.
  - split; [done|]. split; [done|]. right. by exists dgs', data, from.
  - split; [done|]. split; [done|]. right. by exists dgs', data, from.
Qed.

Lemma service_step_in_turn c ls l s s' :
  in_turn c (received ls) s → quiet s l → service_step l s = Some s' → in_turn c (received (ls ++ [l])) s'.
Proof.
  intros Hs Hq. unfold service_step. destruct (crashed s); [done|].
  unfold received. rewrite omap_app. fold (received ls).
  destruct l as [data from| | |i|f| | |]; cbn [omap list_omap]; rewrite ?app_nil_r.
  - case_decide as Hc; [|done]. intros [= <-]. simpl in Hq. destruct Hs as (Hd & Hb & Hs).
    destruct Hs as [[_ Ha]|(? & ? & ? & _ & _ & Hp & _)]; [|congruence].
    unfold receive. rewrite Hq. split; [done|].
    assert (length (take udp_buffer data) ≤ udp_buffer) by (rewrite length_take; lia).
    split; [cbn [buf queries set_queries set_loop head_of_loop]; rewrite length_splice; lia|]. right. exists (received ls), data, from.
    split_and!; try done; [by destruct Hc|]. cbn [buf queries set_queries set_loop head_of_loop].
    rewrite take_splice_0 by done. by apply take_ge.
  - case_decide; [|done]. by intros [= <-].
  - case_decide; [|done]. by intros [= <-].
  - by apply run_handler_in_turn.
  - by destruct Hq.
  - by intros [= <-].
  - case_decide; [|done]. intros [= <-]. simpl in Hq. destruct Hs as (Hd & Hb & Hs).
    destruct Hs as [[Hp Ha]|(? & ? & ? & _ & _ & Hp & _)]; [|congruence].
    split; [done|]. split; [done|]. by left.
  - case_decide; [|done]. by intros [= <-].
Qed.

Lemma service_run_in_turn c ls s :
  service_run quiet (started c) ls s → in_turn c (received ls) s.
Proof.
  induction 1 as [|ls s1 l s2 _ IH Hq Hl]; [|by eapply service_step_in_turn].
  split; [done|]. split; [apply length_replicate|]. by left.
Qed.

(** ** Stopping *)
Record stop_invariant (s : service) : Prop := mkStopInvariant {
  stop_conn : stopping s ≠ NotStopping → conn s = ConnClosed;
  stop_open : conn s ≠ NoConn;
  stop_loop : loop s = Serving ∨ (loop s = LoopReturned ∧ ctx_done s = true);
  stop_returned : stopping s = Stopped → loop s = LoopReturned
}.

Lemma open_head_of_loop s : stop_invariant s → conn s = ConnOpen → stop_invariant (head_of_loop s).
Proof.
  intros [Hc Ho Hl Hr] Hconn. split; cbn; try done; [destruct (ctx_done s); auto|].
  intros Hs. rewrite Hc in Hconn; [done|congruence].
Qed.

Lemma service_step_stop l s s' :
  stop_invariant s → service_step l s = Some s' →
  stop_invariant s' ∧ (conn s = ConnClosed → replies s' = replies s ∧ conn s' = ConnClosed)
  ∧ (stopping s = Stopped → stopping s' = Stopped).
Proof.
  intros Hinv. pose proof Hinv as [Hc Ho Hl Hr]. unfold service_step. destruct (crashed s); [done|].
  destruct l as [data from| | |i|f| | |].
  - case_decide as Hd; [|done]. intros [= <-]. destruct Hd as [_ Hconn]. split; [|done].
    by apply open_head_of_loop.
  - case_decide as Hd; [|done]. intros [= <-]. destruct Hd as [_ Hconn]. split; [|done].
    by apply open_head_of_loop.
  - case_decide as Hd; [|done]. intros [= <-]. split; [|done].
    split; cbn; try done; [destruct (ctx_done s); auto|]. intros Hs. apply Hr in Hs. congruence.
  - unfold run_handler. intros ([n from] & _ & Hrun)%bind_Some.
    destruct (handleQuery _ _ _) as [[reply asked']|e| |]; injection Hrun as <-; [|done..].
    split; [done|]. split; [|done]. intros Hcl. cbn [replies conn]. split; [|done].
    rewrite Hcl. destruct reply; [rewrite decide_False by done|]; apply app_nil_r.
  - by intros [= <-].
  - intros [= <-]. split; [|done]. split; cbn; try done. destruct Hl as [?|[? ?]]; auto.
  - case_decide as Hd; [|done]. intros [= <-]. split; [|split; [|by rewrite Hd]].
    + split; cbn; try done.
      * intros _. destruct (conn s); [done|by rewrite decide_True|by rewrite decide_False].
      * destruct (conn s); [done|by rewrite decide_True|by rewrite decide_False].
    + cbn [replies conn]. intros ->. split; [done|]. by rewrite decide_False.
  - case_decide as Hd; [|done]. intros [= <-]. destruct Hd as [Hw Hs]. split; [|done].
    split; cbn; try done; [intros _; apply Hc; congruence|]. intros _. by destruct Hl as [?|[? _]].
Qed.

Lemma service_run_stop c ls s : service_run any_step (started c) ls s → stop_invariant s.
Proof.
  apply trace_invariant; [split; try done; by left|]. intros s1 l s2 Hs _ Hl.
  by destruct (service_step_stop l s1 s2 Hs Hl).
Qed.

(** ** Properties *)

(** C10. When every handler runs before the next datagram is read, the server is a
    function of what it receives: what it has sent, and the upstream servers it
    has asked, are those of answering the datagrams one by one, in order, from
    the configured records, the last one perhaps not answered yet. *)
Theorem service_in_turn c ls s :
  service_run quiet (started c) ls s →
  ∃ dgs rest, received ls = dgs ++ rest ∧ length rest ≤ 1
    ∧ (pending (queries s) = [] → rest = [])
    ∧ answers (prepopulate (NewDNSServer c)) [] dgs = Some (replies s, asked s).
Proof.
  intros (Hd & _ & Hs)%service_run_in_turn. rewrite Hd in Hs.
  destruct Hs as [[Hp Ha]|(dgs' & data & from & Hr & _ & Hp & _ & Ha)].
  - exists (received ls), []. rewrite app_nil_r. split_and!; [done|simpl; lia|done..].
  - exists dgs', [(data, from)]. rewrite Hp. by split_and!.
Qed.
(** When [Stop] has returned, the context was cancelled, the socket is closed
    and the loop has returned; handlers may be left, for [Stop] does not wait for
    them, but nothing more is ever sent.  While the context is not cancelled the
    loop does not end: after [Stop] closes the socket it spins on the error of
    its read and [Stop] waits; with the context cancelled, the next error of a
    read and then the return of [Stop] are possible at once. *)
Theorem service_stopped c ls s :
  service_run any_step (started c) ls s →
  (stopping s = Stopped →
     ctx_done s = true ∧ conn s = ConnClosed ∧ loop s = LoopReturned
     ∧ ∀ ls' s', service_run any_step s ls' s' → replies s' = replies s ∧ stopping s' = Stopped)
  ∧ (ctx_done s = false → loop s = Serving ∧ stopping s ≠ Stopped
     ∧ (crashed s = false → service_step ReadFails s = Some s))
  ∧ (ctx_done s = true → stopping s = Waiting → crashed s = false →
     ∃ s', (exec service_step [StopReturns] s = Some s'
            ∨ exec service_step [ReadFails; StopReturns] s = Some s') ∧ stopping s' = Stopped).
Proof.
  intros Hrun%service_run_stop. pose proof Hrun as [Hc Ho Hl Hr]. split_and!.
  - intros Hs. specialize (Hr Hs). destruct Hl as [Hl|[_ Hctx]]; [congruence|].
    assert (conn s = ConnClosed) as Hconn by (apply Hc; congruence). split_and!; [done..|].
    intros ls' s' Hrun'.
    assert (stop_invariant s' ∧ conn s' = ConnClosed ∧ replies s' = replies s ∧ stopping s' = Stopped)
      as (_ & _ & ? & ?); [|done].
    eapply (trace_invariant service_step _ (λ s', stop_invariant s' ∧ conn s' = ConnClosed
      ∧ replies s' = replies s ∧ stopping s' = Stopped)), Hrun'; [done|].
    intros s1 l s2 (H1 & H2 & H3 & H4) _ Hstep.
    destruct (service_step_stop l s1 s2 H1 Hstep) as (? & Hsent & Hst).
    destruct (Hsent H2) as [-> ?]. auto.
  - intros Hctx. destruct Hl as [Hl|[_ ?]]; [|congruence]. split_and!; [done| |].
    + intros Hs%Hr. congruence.
    + intros Hcr. unfold service_step. rewrite Hcr, decide_True by done.
      unfold head_of_loop. rewrite Hctx. unfold set_loop. rewrite <-Hl. by destruct s.
  - intros Hctx Hw Hcr. destruct Hl as [Hl|[Hl _]].
    + eexists. split; [right|].
      * unfold exec. cbn [foldl mbind option_bind]. unfold service_step at 2.
        rewrite Hcr, decide_True by done. cbn [mbind option_bind]. unfold service_step.
        cbn [crashed head_of_loop set_loop stopping loop]. rewrite Hcr, Hctx, decide_True by done. reflexivity.
      * done.
    + eexists. split; [left|].
      * unfold exec. cbn [foldl mbind option_bind]. unfold service_step.
        rewrite Hcr, decide_True by (split; congruence). reflexivity.
      * done.
Qed.

(** One datagram is enough: if the handler does not return from it (a name
    that is a pointer to itself will do), then once it is read and its handler
    runs, the server does nothing any more, whoever asks. *)
Theorem service_crash s data from :
  loop s = Serving → conn s = ConnOpen → crashed s = false →
  pending (queries s) = [] → length (buf (queries s)) = udp_buffer →
  handleQuery (server s) (take udp_buffer data) (asked s) = OutOfFuel →
  ∃ s', exec service_step [Datagram data from; Handler 0] s = Some s'
    ∧ ∀ l, service_step l s' = None.
Proof.
  intros Hl Hc Hcr Hp Hb Hq. set (s1 := head_of_loop (set_queries (receive data from (queries s)) s)).
  assert (service_step (Datagram data from) s = Some s1) as Hread.
  { unfold service_step. by rewrite Hcr, decide_True. }
  assert (length (take udp_buffer data) ≤ udp_buffer) by (rewrite length_take; lia).
  assert (take (length (take udp_buffer data)) (buf (receive data from (queries s))) = take udp_buffer data)
    as Hbuf.
  { unfold receive. cbn [buf]. rewrite take_splice_0 by lia. by apply take_ge. }
  assert (service_step (Handler 0) s1 = Some (crash s1)) as Hcrash.
  { unfold service_step. cbn [crashed set_queries set_loop head_of_loop s1]. rewrite Hcr. unfold run_handler.
    cbn [queries set_queries set_loop head_of_loop server asked s1].
    assert (pending (receive data from (queries s)) = [(length (take udp_buffer data), from)]) as ->.
    { unfold receive. cbn [pending]. by rewrite Hp. }
    cbn [lookup list_lookup mbind option_bind]. by rewrite Hbuf, Hq. }
  exists (crash s1). split; [|done]. unfold exec. cbn [foldl mbind option_bind]. by rewrite Hread.
Qed.
End service.

(** ** Witnesses

    Two peers; a query for one of them, and one whose name points to itself. *)
#[local] Instance ex_range : MapRange := {
  range_values m := (map_to_list m).*2;
  range_values_perm m := reflexivity _
}.
#[local] Instance ex_upstream : Upstream := λ hist server data, None.
Definition ex_query : list byte := encode_query 1 0x0100 (mkQuestion (str "brigid.nexus.local") 1 1) [].
Definition ex_loop : list byte :=
  PutUint16 1 ++ PutUint16 0x0100 ++ PutUint16 1 ++ replicate 6 x00 ++ encode_pointer 12.
Definition ex_started : service (Addr:=nat) := started witness_config.
Definition ex_labels : list (label (Addr:=nat)) := [Datagram ex_query 7; Handler 0].

#[local] Instance quiet_dec (s : service (Addr:=nat)) l : Decision (quiet s l).
Proof. destruct l; simpl; apply _. Defined.

Lemma service_in_turn_witness :
  ∃ s, trace service_step quiet ex_started ex_labels s ∧ length (replies s) = 1
    ∧ answers (prepopulate (NewDNSServer witness_config)) [] [(ex_query, 7)] = Some (replies s, asked s).
Proof.
  destruct (exec_ok service_step quiet ex_labels ex_started) as [s|] eqn:Hs; [|vm_compute in Hs; discriminate Hs].
  pose proof (exec_ok_trace _ quiet _ _ _ Hs) as Hrun. exists s.
  destruct (service_in_turn witness_config ex_labels s Hrun) as (dgs & rest & Hr & _ & Hp & Ha).
  vm_compute in Hs. injection Hs as Hs. rewrite Hp, app_nil_r in Hr by (rewrite <-Hs; reflexivity).
  change (received ex_labels) with [(ex_query, 7)] in Hr. rewrite <-Hr in Ha.
  split_and!; [exact Hrun|rewrite <-Hs; reflexivity|exact Ha].
Defined.

Definition ex_calls : list (label (Addr:=nat)) := [Datagram ex_query 7; CallStop; CancelCtx; ReadFails; StopReturns].
Lemma service_stopped_witness :
  ∃ s, trace service_step any_step ex_started ex_calls s ∧ stopping s = Stopped
    ∧ length (pending (queries s)) = 1 ∧ conn s = ConnClosed.
Proof.
  destruct (exec service_step ex_calls ex_started) as [s|] eqn:Hs; [|vm_compute in Hs; discriminate Hs].
  pose proof (exec_trace _ _ _ _ Hs) as Hrun. exists s.
  destruct (service_stopped witness_config ex_calls s Hrun) as [Hst _].
  vm_compute in Hs. injection Hs as Hs.
  split_and!; [exact Hrun|rewrite <-Hs; reflexivity|rewrite <-Hs; reflexivity|].
  apply Hst. rewrite <-Hs. reflexivity.
Defined.

Lemma service_crash_witness :
  ∃ s', exec service_step [Datagram ex_loop 7; Handler 0] ex_started = Some s'
    ∧ service_step (Datagram ex_query 8) s' = None.
Proof.
  destruct (service_crash ex_started ex_loop 7) as (s' & Hs & Hn).
  1-4: reflexivity.
  - apply length_replicate.
  - vm_compute. reflexivity.
  - exists s'. split; [exact Hs|apply Hn].
Defined.
