(* ===== verification/Base64.v ===== *)
(** * base64.StdEncoding

    The standard library's [EncodeToString] and [DecodeString] of
    [encoding/base64]: padded, and line breaks are skipped when decoding. *)
From S2P Require Import Prelude Bytes.
From Stdlib Require Import Init.Byte.
Local Open Scope Z_scope.

Definition encode6 (n : Z) : byte :=
  if decide (n < 26) then z2b (65 + n)
  else if decide (n < 52) then z2b (97 + (n - 26))
  else if decide (n < 62) then z2b (48 + (n - 52))
  else if decide (n = 62) then x2b else x2f.
Definition decode6 (c : byte) : option Z :=
  let n := b2z c in
  if decide (65 ≤ n ≤ 90) then Some (n - 65)
  else if decide (97 ≤ n ≤ 122) then Some (n - 97 + 26)
  else if decide (48 ≤ n ≤ 57) then Some (n - 48 + 52)
  else if decide (n = 43) then Some 62
  else if decide (n = 47) then Some 63
  else None.
Definition pad : byte := x3d.

(** Three bytes as four digits, and back. *)
Definition quantum (a b c : byte) : Z := b2z a * 65536 + b2z b * 256 + b2z c.
Definition sextet (v : Z) (i : Z) : Z := v / 64 ^ i mod 64.
Definition octet (v : Z) (i : Z) : byte := z2b (v / 256 ^ i).

Fixpoint EncodeToString (bs : list byte) : gostring :=
  match bs with
  | [] => []
  | [a] => let v := quantum a x00 x00 in [encode6 (sextet v 3); encode6 (sextet v 2); pad; pad]
  | [a; b] =>
    let v := quantum a b x00 in
    [encode6 (sextet v 3); encode6 (sextet v 2); encode6 (sextet v 1); pad]
  | a :: b :: c :: bs =>
    let v := quantum a b c in
    encode6 (sextet v 3) :: encode6 (sextet v 2) :: encode6 (sextet v 1) :: encode6 (sextet v 0)
      :: EncodeToString bs
  end.

Definition last_quantum (a b c d : byte) : option (list byte) :=
  n3 ← decode6 a; n2 ← decode6 b;
  if decide (c = pad) then
    if decide (d = pad) then Some [octet (n3 * 64 ^ 3 + n2 * 64 ^ 2) 2] else None
  else
    n1 ← decode6 c;
    let v := n3 * 64 ^ 3 + n2 * 64 ^ 2 + n1 * 64 in
    if decide (d = pad) then Some [octet v 2; octet v 1]
    else n0 ← decode6 d; Some [octet (v + n0) 2; octet (v + n0) 1; octet (v + n0) 0].
Definition inner_quantum (a b c d : byte) : option (list byte) :=
  n3 ← decode6 a; n2 ← decode6 b; n1 ← decode6 c; n0 ← decode6 d;
  let v := n3 * 64 ^ 3 + n2 * 64 ^ 2 + n1 * 64 + n0 in
  Some [octet v 2; octet v 1; octet v 0].

Fixpoint decode_quanta (s : gostring) : option (list byte) :=
  match s with
  | [] => Some []
  | [a; b; c; d] => last_quantum a b c d
  | a :: b :: c :: d :: s => q ← inner_quantum a b c d; bs ← decode_quanta s; Some (q ++ bs)
  | _ => None
  end.

Definition line_break (c : byte) : bool := bool_decide (c = x0a ∨ c = x0d).
Definition DecodeString (s : gostring) : option (list byte) :=
  decode_quanta (filter (λ c, line_break c = false) s).

Example encode_vectors :
  ((λ s, EncodeToString (str s)) <$> [""; "f"; "fo"; "foo"; "foob"; "fooba"; "foobar"]%string)
  = (str <$> [""; "Zg=="; "Zm8="; "Zm9v"; "Zm9vYg=="; "Zm9vYmE="; "Zm9vYmFy"]%string).
Proof. vm_compute. reflexivity. Qed.
Example decode_bad :
  ((λ s, DecodeString (str s)) <$> ["Zg="; "Zg"; "Z==="; "Zg==Zg=="; "Zm9*"; "=="]%string)
  = replicate 6 None.
Proof. vm_compute. reflexivity. Qed.

(** ** Decoding undoes encoding *)
Lemma decode6_encode6 n : 0 ≤ n < 64 → decode6 (encode6 n) = Some n.
Proof.
  intros Hn. assert (Forall (λ n, decode6 (encode6 (Z.of_nat n)) = Some (Z.of_nat n)) (seq 0 64))
    as Hall by (apply (bool_decide_unpack _); vm_compute; exact I).
  rewrite Forall_forall in Hall. specialize (Hall (Z.to_nat n)).
  rewrite Z2Nat.id in Hall by lia. apply Hall. apply elem_of_seq. lia.
Qed.

Lemma encode6_clean n : 0 ≤ n < 64 → encode6 n ≠ pad ∧ line_break (encode6 n) = false.
Proof.
  intros Hn.
  assert (Forall (λ n, encode6 (Z.of_nat n) ≠ pad ∧ line_break (encode6 (Z.of_nat n)) = false)
    (seq 0 64)) as Hall by (apply (bool_decide_unpack _); vm_compute; exact I).
  rewrite Forall_forall in Hall. specialize (Hall (Z.to_nat n)).
  rewrite Z2Nat.id in Hall by lia. apply Hall. apply elem_of_seq. lia.
Qed.

Lemma sextet_range v i : 0 ≤ sextet v i < 64.
Proof. apply Z.mod_pos_bound. lia. Qed.

Lemma quantum_sextets a b c :
  let v := quantum a b c in
  sextet v 3 * 64 ^ 3 + sextet v 2 * 64 ^ 2 + sextet v 1 * 64 + sextet v 0 = v.
Proof.
  pose proof (b2z_range a). pose proof (b2z_range b). pose proof (b2z_range c).
  unfold sextet, quantum. cbv zeta. change (64 ^ 0) with 1. change (64 ^ 1) with 64.
  change (64 ^ 2) with 4096. change (64 ^ 3) with 262144.
  Z.to_euclidean_division_equations. lia.
Qed.

Lemma quantum_octets a b c :
  let v := quantum a b c in octet v 2 = a ∧ octet v 1 = b ∧ octet v 0 = c.
Proof.
  pose proof (b2z_range a). pose proof (b2z_range b). pose proof (b2z_range c).
  unfold octet, quantum. cbv zeta. change (256 ^ 0) with 1. change (256 ^ 1) with 256.
  change (256 ^ 2) with 65536.
  split_and!; apply b2z_inj; rewrite b2z_z2b; Z.to_euclidean_division_equations; lia.
Qed.

Lemma byte_triples (P : list byte → Prop) :
  P [] → (∀ a, P [a]) → (∀ a b, P [a; b]) → (∀ a b c bs, P bs → P (a :: b :: c :: bs)) →
  ∀ bs, P bs.
Proof.
  intros H0 H1 H2 H3 bs. assert (∀ n bs, (length bs ≤ n)%nat → P bs) as H; [|by eapply H].
  clear bs. intros n. induction n as [|n IH]; intros [|a [|b [|c bs]]]; simpl; intros Hl;
    auto with lia.
Qed.

Ltac decode_digits :=
  rewrite ?decode6_encode6 by apply sextet_range; simpl;
  repeat match goal with
  | |- context [decide (encode6 ?n = pad)] =>
    rewrite (decide_False (P:=encode6 n = pad)) by apply encode6_clean, sextet_range
  end.

Lemma sextet_low_0 a b : sextet (quantum a b x00) 0 = 0.
Proof.
  pose proof (b2z_range a). pose proof (b2z_range b). unfold sextet, quantum.
  change (64 ^ 0) with 1. change (b2z x00) with 0. Z.to_euclidean_division_equations. lia.
Qed.
Lemma sextet_low_1 a : sextet (quantum a x00 x00) 1 = 0.
Proof.
  pose proof (b2z_range a). unfold sextet, quantum.
  change (64 ^ 1) with 64. change (b2z x00) with 0. Z.to_euclidean_division_equations. lia.
Qed.

Lemma decode_quanta_cons a b c d e s :
  decode_quanta (a :: b :: c :: d :: e :: s)
  = (q ← inner_quantum a b c d; bs ← decode_quanta (e :: s); Some (q ++ bs)).
Proof. done. Qed.

Lemma inner_quantum_encode a b c :
  let v := quantum a b c in
  inner_quantum (encode6 (sextet v 3)) (encode6 (sextet v 2)) (encode6 (sextet v 1))
    (encode6 (sextet v 0)) = Some [a; b; c].
Proof.
  intros v. pose proof (quantum_sextets a b c) as Hv. cbv zeta in Hv. fold v in Hv.
  pose proof (quantum_octets a b c) as (H2 & H1 & H0). fold v in H0, H1, H2.
  unfold inner_quantum. decode_digits. by rewrite Hv, H2, H1, H0.
Qed.

Lemma decode_quanta_encode bs : decode_quanta (EncodeToString bs) = Some bs.
Proof.
  induction bs as [|a|a b|a b c bs IH] using byte_triples; cbn [EncodeToString]; cbv zeta.
  - done.
  - pose proof (quantum_sextets a x00 x00) as Hv. cbv zeta in Hv.
    rewrite sextet_low_0, sextet_low_1 in Hv.
    simpl. unfold last_quantum. decode_digits.
    replace (_ + _) with (quantum a x00 x00) by lia. by destruct (quantum_octets a x00 x00) as [-> _].
  - pose proof (quantum_sextets a b x00) as Hv. cbv zeta in Hv. rewrite sextet_low_0 in Hv.
    simpl. unfold last_quantum. decode_digits.
    replace (_ + _) with (quantum a b x00) by lia.
    by destruct (quantum_octets a b x00) as (-> & -> & _).
  - pose proof (quantum_sextets a b c) as Hv. cbv zeta in Hv.
    pose proof (quantum_octets a b c) as (H2 & H1 & H0).
    destruct (EncodeToString bs) as [|e es] eqn:He.
    + simpl in IH. injection IH as <-. simpl. unfold last_quantum. decode_digits.
      rewrite Hv, H2, H1, H0. done.
    + rewrite decode_quanta_cons, inner_quantum_encode, IH. done.
Qed.

Lemma EncodeToString_clean bs : Forall (λ c, line_break c = false) (EncodeToString bs).
Proof.
  induction bs as [|a|a b|a b c bs IH] using byte_triples; cbn [EncodeToString]; cbv zeta;
    repeat constructor; try done; apply encode6_clean, sextet_range.
Qed.

Lemma DecodeString_EncodeToString bs : DecodeString (EncodeToString bs) = Some bs.
Proof.
  unfold DecodeString. rewrite filter_all; [apply decode_quanta_encode|].
  apply EncodeToString_clean.
Qed.

Lemma length_EncodeToString bs :
  Z.of_nat (length (EncodeToString bs)) = (Z.of_nat (length bs) + 2) / 3 * 4.
Proof.
  induction bs as [|a|a b|a b c bs IH] using byte_triples; cbn [EncodeToString]; cbv zeta;
    try reflexivity. cbn [length]. rewrite !Nat2Z.inj_succ, IH.
  Z.to_euclidean_division_equations. lia.
Qed.

(** What decodes to [n] bytes has four digits for every three of them. *)
Lemma byte_quads (P : list byte → Prop) :
  P [] → (∀ a, P [a]) → (∀ a b, P [a; b]) → (∀ a b c, P [a; b; c]) → (∀ a b c d, P [a; b; c; d]) →
  (∀ a b c d e s, P (e :: s) → P (a :: b :: c :: d :: e :: s)) → ∀ s, P s.
Proof.
  intros H0 H1 H2 H3 H4 H5 s. assert (∀ n s, (length s ≤ n)%nat → P s) as H; [|by eapply H].
  clear s. intros n. induction n as [|n IH]; intros [|a [|b [|c [|d [|e s]]]]]; simpl; intros Hl;
    auto; [lia..|]. apply H5, IH. simpl. lia.
Qed.

Lemma decode_quanta_length s bs :
  decode_quanta s = Some bs → Z.of_nat (length s) = (Z.of_nat (length bs) + 2) / 3 * 4.
Proof.
  revert bs. induction s as [|a|a b|a b c|a b c d|a b c d e s IH] using byte_quads; intros bs.
  - by intros [= <-].
  - done.
  - done.
  - done.
  - cbn [decode_quanta]. unfold last_quantum. intros H.
    do 2 (apply bind_Some in H as (? & _ & H)). case_decide.
    + case_decide; [|done]. by injection H as <-.
    + apply bind_Some in H as (? & _ & H). case_decide; [by injection H as <-|].
      apply bind_Some in H as (? & _ & H). by injection H as <-.
  - rewrite decode_quanta_cons. unfold inner_quantum. intros H.
    apply bind_Some in H as (q & Hq & H). apply bind_Some in H as (bs' & Hbs & [= <-]).
    specialize (IH _ Hbs). assert (length q = 3%nat) as Hl.
    { repeat (apply bind_Some in Hq as (? & _ & Hq)). by injection Hq as <-. }
    rewrite length_app, Hl. cbn [length] in *. Z.to_euclidean_division_equations. lia.
Qed.
