(* ===== verification/FilePath.v ===== *)
(** * path/filepath on Unix

    [filepath.Clean] ([path.Clean] is the same) and [filepath.Join] of two elements. *)
From S2P Require Import Prelude Bytes GoStrings.
From Stdlib Require Import Init.Byte.

Definition separator : byte := x2f.

(** The elements kept so far, latest first, after one more. *)
Definition clean_step (rooted : bool) (out : list gostring) (elem : gostring) : list gostring :=
  if decide (elem = [] ∨ elem = str ".") then out
  else if decide (elem = str "..") then
    match out with
    | [] => if rooted then [] else [str ".."]
    | last :: out' => if decide (last = str "..") then str ".." :: out else out'
    end
  else elem :: out.

Definition clean_elems (rooted : bool) (path : gostring) : list gostring :=
  foldl (clean_step rooted) [] (Split path separator).
Definition render (rooted : bool) (out : list gostring) : gostring :=
  let body := Join (rev out) separator in
  if rooted then separator :: body else if decide (body = []) then str "." else body.
Definition is_rooted (path : gostring) : bool := bool_decide (head path = Some separator).
Definition Clean (path : gostring) : gostring :=
  if decide (path = []) then str "."
  else render (is_rooted path) (clean_elems (is_rooted path) path).

Definition FilepathJoin (dir base : gostring) : gostring :=
  if decide (dir ≠ []) then Clean (dir ++ separator :: base)
  else if decide (base ≠ []) then Clean base else [].

Example clean_vectors :
  ((λ s, Clean (str s)) <$> ["a/b/../c"; "/../a//b/./"; "../../a"; "a/.."; "/"; ""; "./x"; "a/../../b"]%string)
  = (str <$> ["a/c"; "/a/b"; "../../a"; "."; "/"; "."; "x"; "../b"]%string).
Proof. vm_compute. reflexivity. Qed.

(** A name that is one element, and not a special one. *)
Definition plain_name (base : gostring) : Prop :=
  base ≠ [] ∧ (separator ∉ base) ∧ base ≠ str "." ∧ base ≠ str "..".
#[export] Instance plain_name_dec base : Decision (plain_name base).
Proof. unfold plain_name. apply _. Defined.

Lemma clean_step_plain rooted out base :
  plain_name base → clean_step rooted out base = base :: out.
Proof.
  intros (H1 & _ & H2 & H3). unfold clean_step.
  rewrite decide_False by (by intros [|]). by rewrite decide_False.
Qed.

Lemma Join_snoc parts sep : ∃ prefix, ∀ base, Join (parts ++ [base]) sep = prefix ++ base.
Proof.
  induction parts as [|part parts [prefix IH]]; [by exists []|].
  exists (part ++ sep :: prefix). intros base. rewrite <-app_comm_cons, Join_cons.
  - by rewrite IH, <-app_assoc.
  - by intros [_ ?]%app_eq_nil.
Qed.

(** Joining a directory with a plain name puts a prefix before the name that
    depends on the directory only. *)
Lemma FilepathJoin_plain dir :
  ∃ prefix, ∀ base, plain_name base → FilepathJoin dir base = prefix ++ base.
Proof.
  unfold FilepathJoin. destruct (decide (dir ≠ [])) as [Hdir|Hdir].
  - set (rooted := is_rooted dir). set (out := clean_elems rooted dir).
    destruct (Join_snoc (rev out) separator) as [prefix Hp].
    exists (if rooted then separator :: prefix else prefix). intros base Hb.
    assert (is_rooted (dir ++ separator :: base) = rooted) as Hr by by destruct dir.
    unfold Clean. rewrite decide_False by (by intros [? _]%app_eq_nil).
    rewrite Hr. unfold clean_elems. rewrite Split_app_sep, foldl_app.
    fold (clean_elems rooted dir). fold out. destruct Hb as (H1 & H2 & H3 & H4).
    rewrite (Split_part _ base) by done. simpl. rewrite clean_step_plain by done.
    unfold render. simpl. rewrite Hp.
    destruct rooted; [done|]. rewrite decide_False; [done|]. by intros [_ ?]%app_eq_nil.
  - exists []. intros base Hb. rewrite decide_True by apply Hb. unfold Clean.
    rewrite decide_False by apply Hb. destruct Hb as (H1 & H2 & H3 & H4).
    unfold is_rooted. rewrite bool_decide_eq_false_2.
    + unfold clean_elems. rewrite Split_part by done. simpl. rewrite clean_step_plain by done.
      unfold render. simpl. by rewrite decide_False.
    + destruct base; [done|]. simpl. intros [= ->]. set_solver.
Qed.

(** ** Rooted paths

    [Clean] leaves a rooted path of plain names as it is, and makes one of any
    other rooted path. *)
Definition rooted_path (names : list gostring) : gostring := separator :: Join names separator.

Lemma clean_elems_names names out :
  Forall plain_name names → foldl (clean_step true) out names = rev names ++ out.
Proof.
  intros Hn. revert out. induction Hn as [|name names Hname _ IH]; intros out; [done|].
  simpl. rewrite clean_step_plain, IH by done. by rewrite <-app_assoc.
Qed.

Lemma clean_step_names out elem :
  (separator ∉ elem) → Forall plain_name out → Forall plain_name (clean_step true out elem).
Proof.
  intros Hs Hout. unfold clean_step. case_decide as H1; [done|]. case_decide as H2.
  - destruct Hout as [|last out' Hlast Hout']; [constructor|]. case_decide as H3; [|done].
    by destruct Hlast as (_ & _ & _ & ?).
  - constructor; [|done]. unfold plain_name. naive_solver.
Qed.

Lemma clean_elems_plain path : Forall plain_name (clean_elems true path).
Proof.
  unfold clean_elems. assert (Forall plain_name []) as H by constructor. revert H.
  generalize (@nil gostring). generalize (Split_Forall separator path).
  generalize (Split path separator). induction 1 as [|elem elems He _ IH]; intros out Hout; [done|].
  by apply IH, clean_step_names.
Qed.

Lemma Clean_rooted path :
  is_rooted path = true → ∃ names, Forall plain_name names ∧ Clean path = rooted_path names.
Proof.
  intros Hr. exists (rev (clean_elems true path)). split.
  - apply List.Forall_rev, clean_elems_plain.
  - unfold Clean. rewrite decide_False by (by intros ->). by rewrite Hr.
Qed.

Lemma Split_names names :
  Forall plain_name names → names ≠ [] → Split (Join names separator) separator = names.
Proof.
  intros Hn Hne. apply Split_Join; [done|]. eapply Forall_impl; [exact Hn|]. by intros ? (_ & ? & _).
Qed.

(** With or without a separator at its end. *)
Lemma Clean_names names tail :
  Forall plain_name names → tail = [] ∨ tail = [separator] →
  Clean (rooted_path names ++ tail) = rooted_path names.
Proof.
  intros Hn Ht. unfold Clean. rewrite decide_False by done. cbn [rooted_path app].
  unfold is_rooted. cbn [head]. rewrite bool_decide_eq_true_2 by done. unfold render, clean_elems.
  f_equal. f_equal. cbn [Split]. rewrite decide_True by done. cbn [foldl].
  change (clean_step true [] []) with (@nil gostring).
  destruct (decide (names = [])) as [->|Hne].
  - by destruct Ht as [->| ->].
  - destruct Ht as [->| ->].
    + rewrite app_nil_r, Split_names, clean_elems_names by done.
      by rewrite app_nil_r, rev_involutive.
    + rewrite Split_app_sep, Split_names by done. rewrite foldl_app, (clean_elems_names names) by done.
      rewrite app_nil_r. cbn [Split foldl]. unfold clean_step. rewrite decide_True by (by left).
      by rewrite rev_involutive.
Qed.
