(* ===== verification/RelayWire.v ===== *)
(** * relay.go: the wire format of the relay

    Frames are [type:1][srcLen:1][src][dstLen:1][dst][payloadLen:4][payload];
    PING and PONG are the type byte alone and only DATA has a payload.  A
    connection is the sequence of what its reads meet: bytes, and read
    deadlines that pass before the next byte; its end is the end of the stream.
    A reader consumes a prefix of it even when it fails. *)
From S2P Require Import Prelude Bytes.
From Stdlib Require Import Init.Byte.

Inductive event := Recv (b : byte) | Deadline.
Abbreviation stream := (list event).
Abbreviation recv := (fmap (M:=list) Recv).

Inductive relay_error :=
  | ErrEOF
  | ErrUnexpectedEOF
  | ErrTimeout
  | ErrPayloadTooLarge (n : Z).
#[export] Instance event_eq_dec : EqDecision event.
Proof. solve_decision. Defined.
#[export] Instance relay_error_eq_dec : EqDecision relay_error.
Proof. solve_decision. Defined.

(** ** Readers *)
Abbreviation reader := (stateful stream relay_error).

(** [io.ReadFull] into a buffer of [n] bytes, [got] already read. *)
Fixpoint ReadFull_from (n : nat) (got : list byte) : reader (list byte) := λ s,
  match n with
  | O => (Ok got, s)
  | S n =>
    match s with
    | [] => (Err (if decide (got = []) then ErrEOF else ErrUnexpectedEOF), [])
    | Deadline :: s => (Err ErrTimeout, s)
    | Recv b :: s => ReadFull_from n (got ++ [b]) s
    end
  end.
Definition ReadFull (n : nat) : reader (list byte) := ReadFull_from n [].

(** ** Messages *)
Definition RelayMsgData : byte := x01.
Definition RelayMsgRegister : byte := x02.
Definition RelayMsgPing : byte := x03.
Definition RelayMsgPong : byte := x04.
Definition RelayMsgDisconnect : byte := x05.

Record RelayMessage := mkRelayMessage {
  Type_ : byte; SrcNode : gostring; DstNode : gostring; Payload : list byte }.
#[export] Instance RelayMessage_eq_dec : EqDecision RelayMessage.
Proof. solve_decision. Defined.

(** [readString] and [writeString]: a length byte and the bytes. *)
Definition readString : reader gostring :=
  lenBuf ← ReadFull 1;
  ReadFull (Z.to_nat (be_value lenBuf)).
Definition writeString (s : gostring) : list byte := z2b (Z.of_nat (length s)) :: s.

Definition readPayload : reader (list byte) :=
  lenBuf ← ReadFull 4;
  let payloadLen := be_value lenBuf in
  if decide (payloadLen > 65535)%Z then fail (ErrPayloadTooLarge payloadLen)
  else ReadFull (Z.to_nat payloadLen).

Definition readMessage : reader RelayMessage :=
  header ← ReadFull 1;
  let msgType := nth 0 header x00 in
  if decide (msgType = RelayMsgPing ∨ msgType = RelayMsgPong)
  then mret (mkRelayMessage msgType [] [] []) else
  src ← readString;
  dst ← readString;
  payload ← (if decide (msgType = RelayMsgData) then readPayload else mret []);
  mret (mkRelayMessage msgType src dst payload).

(** The bytes [sendMessage] hands to one [conn.Write]. *)
Definition message_bytes (msgType : byte) (src dst : gostring) (payload : list byte) : list byte :=
  if decide (msgType = RelayMsgPing ∨ msgType = RelayMsgPong) then [msgType] else
  [msgType] ++ writeString src ++ writeString dst ++
    (if decide (msgType = RelayMsgData)
     then PutUint32 (Z.of_nat (length payload) mod 2 ^ 32) ++ payload else []).
Definition frame (m : RelayMessage) : list byte :=
  message_bytes (Type_ m) (SrcNode m) (DstNode m) (Payload m).

(** ** Well-behaved readers

    What a reader makes of a stream depends on the bytes it consumes only, it
    never panics, and a deadline that passes where the bytes end is reported as
    such. *)
Class StreamReader {A} (rd : reader A) : Prop := stream_reader : ∀ s,
  match rd s with
  | (Ok a, r) => ∃ c, s = recv c ++ r ∧ ∀ t, rd (recv c ++ t) = (Ok a, t)
  | (Err (ErrEOF | ErrUnexpectedEOF), r) =>
    ∃ c, s = recv c ∧ r = [] ∧ ∀ t, rd (recv c ++ Deadline :: t) = (Err ErrTimeout, t)
  | (Err ErrTimeout, r) =>
    ∃ c, s = recv c ++ Deadline :: r
      ∧ ∀ t, rd (recv c ++ Deadline :: t) = (Err ErrTimeout, t)
  | (Err (ErrPayloadTooLarge n), r) =>
    ∃ c, s = recv c ++ r ∧ ∀ t, rd (recv c ++ t) = (Err (ErrPayloadTooLarge n), t)
  | (Panic, _) | (OutOfFuel, _) => False
  end.

#[export] Instance StreamReader_ret {A} (a : A) : StreamReader (mret a).
Proof. intros s. by exists []. Qed.

Lemma StreamReader_fail {A} n : StreamReader (fail (S:=stream) (A:=A) (ErrPayloadTooLarge n)).
Proof. intros s. by exists []. Qed.

#[export] Instance StreamReader_bind {A B} (rd : reader A) (f : A → reader B) :
  StreamReader rd → (∀ a, StreamReader (f a)) → StreamReader (rd ≫= f).
Proof.
  intros Hrd Hf s. specialize (Hrd s). cbn [mbind stateful_bind]. unfold mbind, stateful_bind.
  destruct (rd s) as [[a|[| | |n]| |] r]; try done.
  - destruct Hrd as (c & -> & Hc). specialize (Hf a r).
    destruct (f a r) as [[b|[| | |n]| |] r']; try done.
    + destruct Hf as (c' & -> & Hc'). exists (c ++ c'). rewrite fmap_app, app_assoc.
      split; [done|]. intros t. by rewrite <-app_assoc, Hc, Hc'.
    + destruct Hf as (c' & -> & -> & Hc'). exists (c ++ c'). rewrite fmap_app.
      split_and!; [done..|]. intros t. by rewrite <-app_assoc, Hc, Hc'.
    + destruct Hf as (c' & -> & -> & Hc'). exists (c ++ c'). rewrite fmap_app.
      split_and!; [done..|]. intros t. by rewrite <-app_assoc, Hc, Hc'.
    + destruct Hf as (c' & -> & Hc'). exists (c ++ c'). rewrite fmap_app, app_assoc.
      split; [done|]. intros t. by rewrite <-app_assoc, Hc, Hc'.
    + destruct Hf as (c' & -> & Hc'). exists (c ++ c'). rewrite fmap_app, app_assoc.
      split; [done|]. intros t. by rewrite <-app_assoc, Hc, Hc'.
  - destruct Hrd as (c & -> & -> & Hc). exists c. split_and!; [done..|]. intros t. by rewrite Hc.
  - destruct Hrd as (c & -> & -> & Hc). exists c. split_and!; [done..|]. intros t. by rewrite Hc.
  - destruct Hrd as (c & -> & Hc). exists c. split; [done|]. intros t. by rewrite Hc.
  - destruct Hrd as (c & -> & Hc). exists c. split; [done|]. intros t. by rewrite Hc.
Qed.

#[export] Instance StreamReader_ReadFull_from n got : StreamReader (ReadFull_from n got).
Proof.
  revert got. induction n as [|n IH]; intros got s; simpl.
  { by exists []. }
  destruct s as [|[b|] s].
  - destruct (decide (got = [])); by exists [].
  - specialize (IH (got ++ [b]) s).
    destruct (ReadFull_from n (got ++ [b]) s) as [[a|[| | |k]| |] r]; try done.
    + destruct IH as (c & -> & Hc). by exists (b :: c).
    + destruct IH as (c & -> & -> & Hc). by exists (b :: c).
    + destruct IH as (c & -> & -> & Hc). by exists (b :: c).
    + destruct IH as (c & -> & Hc). by exists (b :: c).
    + destruct IH as (c & -> & Hc). by exists (b :: c).
  - by exists [].
Qed.
#[export] Instance StreamReader_ReadFull n : StreamReader (ReadFull n).
Proof. apply _. Qed.
#[export] Instance StreamReader_if {A} (P : Prop) `{Decision P} (rd1 rd2 : reader A) :
  StreamReader rd1 → StreamReader rd2 → StreamReader (if decide P then rd1 else rd2).
Proof. by case_decide. Qed.
#[export] Hint Resolve StreamReader_fail : typeclass_instances.

#[export] Instance StreamReader_readString : StreamReader readString.
Proof. apply _. Qed.
#[export] Instance StreamReader_readPayload : StreamReader readPayload.
Proof. apply _. Qed.
#[export] Instance StreamReader_readMessage : StreamReader readMessage.
Proof. apply _. Qed.

(** ** Inversion of successful reads *)
Lemma ReadFull_from_Ok n got s c r :
  ReadFull_from n got s = (Ok c, r) ↔ ∃ c', c = got ++ c' ∧ length c' = n ∧ s = recv c' ++ r.
Proof.
  revert got s. induction n as [|n IH]; intros got s; simpl.
  { split; [intros [= -> ->]; exists []; by rewrite app_nil_r|].
    intros (c' & -> & Hc%nil_length_inv & ->). subst c'. by rewrite app_nil_r. }
  destruct s as [|[b|] s].
  - split; [by case_decide|]. by intros ([|b c'] & -> & Hc & Hs).
  - rewrite IH. split.
    + intros (c' & -> & <- & ->). exists (b :: c'). by rewrite <-app_assoc.
    + intros ([|b' c'] & -> & [= <-] & [= <- ->]). exists c'. by rewrite <-app_assoc.
  - split; [done|]. by intros ([|b c'] & -> & Hc & Hs).
Qed.

Lemma ReadFull_Ok n s c r :
  ReadFull n s = (Ok c, r) ↔ length c = n ∧ s = recv c ++ r.
Proof.
  unfold ReadFull. rewrite ReadFull_from_Ok. simpl. naive_solver.
Qed.

Lemma readString_Ok s x r :
  readString s = (Ok x, r) ↔ (Z.of_nat (length x) < 256)%Z ∧ s = recv (writeString x) ++ r.
Proof.
  unfold readString. rewrite stateful_bind_Ok. setoid_rewrite ReadFull_Ok. split.
  - intros (lenBuf & s' & [Hl ->] & Hx & ->).
    destruct lenBuf as [|b [|]]; try done.
    change (be_value [b]) with (b2z b) in Hx. pose proof (b2z_range b). split; [lia|].
    unfold writeString. by rewrite Hx, Z2Nat.id, z2b_b2z by lia.
  - intros [Hx ->]. exists [z2b (Z.of_nat (length x))], (recv x ++ r). split; [done|].
    change (be_value [?b]) with (b2z b). rewrite b2z_z2b_small by lia. by rewrite Nat2Z.id.
Qed.

Lemma readPayload_Ok s p r :
  readPayload s = (Ok p, r) ↔
    (Z.of_nat (length p) ≤ 65535)%Z ∧ s = recv (PutUint32 (Z.of_nat (length p)) ++ p) ++ r.
Proof.
  unfold readPayload. rewrite stateful_bind_Ok. split.
  - intros (lenBuf & s' & [Hl ->]%ReadFull_Ok & Hp). cbv zeta in Hp.
    destruct (decide (be_value lenBuf > 65535)%Z); [done|].
    apply ReadFull_Ok in Hp as [Hp ->]. pose proof (be_value_range lenBuf).
    split; [lia|]. rewrite Hp, Z2Nat.id by lia. unfold PutUint32.
    rewrite <-Hl, be_bytes_be_value. by rewrite fmap_app, app_assoc.
  - intros [Hp ->]. exists (PutUint32 (Z.of_nat (length p))), (recv p ++ r).
    rewrite fmap_app, <-app_assoc. split; [by apply ReadFull_Ok|]. cbv zeta.
    assert (be_value (PutUint32 (Z.of_nat (length p))) = Z.of_nat (length p)) as ->.
    { apply (be_value_be_bytes_small 4). lia. }
    rewrite decide_False by lia. apply ReadFull_Ok. by rewrite Nat2Z.id.
Qed.

(** A message the wire format can carry. *)
Definition message_ok (m : RelayMessage) : Prop :=
  if decide (Type_ m = RelayMsgPing ∨ Type_ m = RelayMsgPong)
  then SrcNode m = [] ∧ DstNode m = [] ∧ Payload m = []
  else (Z.of_nat (length (SrcNode m)) < 256)%Z ∧ (Z.of_nat (length (DstNode m)) < 256)%Z
    ∧ (if decide (Type_ m = RelayMsgData) then (Z.of_nat (length (Payload m)) ≤ 65535)%Z
       else Payload m = []).
#[export] Instance message_ok_dec m : Decision (message_ok m).
Proof. unfold message_ok. repeat case_decide; apply _. Defined.

Lemma readMessage_Ok s m r :
  readMessage s = (Ok m, r) ↔ message_ok m ∧ s = recv (frame m) ++ r.
Proof.
  unfold readMessage. rewrite stateful_bind_Ok. setoid_rewrite ReadFull_Ok. split.
  - intros (header & s' & [Hl ->] & Hm). destruct header as [|ty [|]]; try done.
    cbv zeta in Hm. cbn [nth] in Hm.
    destruct (decide (ty = RelayMsgPing ∨ ty = RelayMsgPong)) as [Hty|Hty].
    { injection Hm as <- <-. unfold message_ok, frame, message_bytes. simpl.
      by rewrite !decide_True. }
    apply stateful_bind_Ok in Hm as (src & s1 & [Hsrc ->]%readString_Ok & Hm).
    apply stateful_bind_Ok in Hm as (dst & s2 & [Hdst ->]%readString_Ok & Hm).
    apply stateful_bind_Ok in Hm as (p & s3 & Hp & [= <- <-]).
    unfold message_ok, frame, message_bytes. cbn [Type_ SrcNode DstNode Payload].
    rewrite !(decide_False (P:=ty = RelayMsgPing ∨ _)) by done.
    destruct (decide (ty = RelayMsgData)) as [Hd|Hd].
    + apply readPayload_Ok in Hp as [Hp ->]. split; [done|].
      rewrite Z.mod_small by lia. by rewrite !fmap_app, <-!app_assoc.
    + injection Hp as <- <-. split; [done|]. by rewrite !fmap_app, <-!app_assoc.
  - intros [Hok ->]. destruct m as [ty src dst p]. unfold message_ok, frame, message_bytes in *.
    cbn [Type_ SrcNode DstNode Payload] in *.
    destruct (decide (ty = RelayMsgPing ∨ ty = RelayMsgPong)) as [Hty|Hty].
    { destruct Hok as (-> & -> & ->). exists [ty], r. split; [done|]. cbn [nth].
      by rewrite decide_True. }
    destruct Hok as (Hsrc & Hdst & Hp). rewrite !fmap_app, <-!app_assoc.
    exists [ty], (recv (writeString src) ++ recv (writeString dst) ++
      recv (if decide (ty = RelayMsgData)
            then PutUint32 (Z.of_nat (length p) mod 2 ^ 32) ++ p else []) ++ r).
    split; [done|]. cbv zeta. cbn [nth]. rewrite decide_False by done.
    apply stateful_bind_Ok. exists src. eexists. split; [by apply readString_Ok|].
    apply stateful_bind_Ok. exists dst. eexists. split; [by apply readString_Ok|].
    apply stateful_bind_Ok. exists p, r. split; [|done].
    destruct (decide (ty = RelayMsgData)); [|by subst p].
    apply readPayload_Ok. split; [done|]. rewrite Z.mod_small by lia. done.
Qed.

(** ** Codecs

    An encoder and a reader that agree: the reader succeeds exactly on the
    encoding of a value the format can carry, and leaves the rest unread. *)
Class Codec {A} (enc : A → list byte) (dec : reader A) (ok : A → Prop) : Prop :=
  codec_Ok : ∀ s a r, dec s = (Ok a, r) ↔ ok a ∧ s = recv (enc a) ++ r.

#[export] Instance string_codec :
  Codec writeString readString (λ x, (Z.of_nat (length x) < 256)%Z).
Proof. intros s x r. apply readString_Ok. Qed.
#[export] Instance message_codec : Codec frame readMessage message_ok.
Proof. intros s m r. apply readMessage_Ok. Qed.

Section codec.
Context `{Codec A enc dec ok}.

(** Reading [n] values in a row. *)
Fixpoint read_many (n : nat) : reader (list A) :=
  match n with
  | O => mret []
  | S n => a ← dec; l ← read_many n; mret (a :: l)
  end.

Lemma read_many_Ok n s l r :
  read_many n s = (Ok l, r) ↔
    length l = n ∧ Forall ok l ∧ s = recv (concat (enc <$> l)) ++ r.
Proof.
  revert s l r. induction n as [|n IH]; intros s l r; simpl.
  - split; [by intros [= <- <-]|]. by intros (->%nil_length_inv & _ & ->).
  - rewrite stateful_bind_Ok. split.
    + intros (a & s1 & [Ha ->]%codec_Ok & Hl).
      apply stateful_bind_Ok in Hl as (l' & s2 & (<- & Hl & ->)%IH & [= <- <-]).
      split_and!; [done|by constructor|]. by rewrite fmap_cons, concat_cons, fmap_app, <-app_assoc.
    + intros (Hlen & Hl & ->). destruct Hl as [|a l Ha Hl]; [done|]. injection Hlen as Hlen.
      rewrite fmap_cons, concat_cons, fmap_app, <-app_assoc.
      exists a. eexists. split; [by apply codec_Ok|].
      apply stateful_bind_Ok. exists l, r. split; [|done]. by apply IH.
Qed.

(** A sequence of encodings determines the values. *)
Lemma concat_enc_inj l1 l2 :
  Forall ok l1 → Forall ok l2 → length l1 = length l2 →
  concat (enc <$> l1) = concat (enc <$> l2) → l1 = l2.
Proof.
  intros H1 H2 Hl Heq.
  assert (∀ l, Forall ok l → read_many (length l) (recv (concat (enc <$> l)) ++ [])
    = (Ok l, [])) as Hr by (intros l Hok; by apply read_many_Ok).
  pose proof (Hr l1 H1) as Hr1. pose proof (Hr l2 H2) as Hr2.
  rewrite Hl, Heq, Hr2 in Hr1. by injection Hr1.
Qed.
End codec.

(** ** Properties *)

(** C26. The reader and the frames agree exactly, on every stream: readMessage
    returns a message if and only if the stream starts with that message's
    frame and the message is one the format can carry, and it leaves the rest
    of the stream unread. *)
Theorem readMessage_frame s m r :
  readMessage s = (Ok m, r) ↔ message_ok m ∧ s = recv (frame m) ++ r.
Proof. apply readMessage_Ok. Qed.

(** A stream of frames is read back as the messages that were sent, in
    order, and determines them: two sequences of as many messages with the same
    bytes are the same. *)
Theorem frames_stream ms ms' t :
  Forall message_ok ms →
  read_many (dec:=readMessage) (length ms) (recv (concat (frame <$> ms)) ++ t) = (Ok ms, t)
  ∧ (Forall message_ok ms' → length ms = length ms' →
     concat (frame <$> ms) = concat (frame <$> ms') → ms = ms').
Proof.
  intros Hms. split; [by apply (read_many_Ok (enc:=frame))|].
  intros Hms'. by apply (concat_enc_inj (dec:=readMessage) (ok:=message_ok)).
Qed.

(** On every stream the reader comes back without a panic; when a read
    deadline passes inside a frame it reports the timeout and the bytes of the
    frame read so far are gone: the next read starts in the middle of it. *)
Theorem readMessage_interrupted m c1 c2 t s :
  message_ok m → frame m = c1 ++ c2 → c2 ≠ [] →
  readMessage (recv c1 ++ Deadline :: t) = (Err ErrTimeout, t)
  ∧ returns (readMessage s).1.
Proof.
  intros Hm Hf Hc2. split.
  - assert (readMessage (recv (frame m) ++ []) = (Ok m, [])) as Hfull by by apply readMessage_Ok.
    rewrite Hf, fmap_app, <-app_assoc in Hfull.
    pose proof (StreamReader_readMessage (recv c1)) as Hr.
    destruct (readMessage (recv c1)) as [[m'|[| | |n]| |] r] eqn:Hc1; try done.
    + destruct Hr as (c & Hc & Hext). rewrite Hc, <-app_assoc, Hext in Hfull.
      injection Hfull as _ Hnil. apply app_eq_nil in Hnil as [_ Hnil].
      rewrite app_nil_r in Hnil. by apply fmap_nil_inv in Hnil.
    + destruct Hr as (c & Hc & _ & Hext). by rewrite Hc, Hext.
    + destruct Hr as (c & Hc & _ & Hext). by rewrite Hc, Hext.
    + destruct Hr as (c & Hc & _). exfalso.
      assert (Deadline ∈ recv c1) as (b & Hb & _)%list_elem_of_fmap by (rewrite Hc; set_solver).
      done.
    + destruct Hr as (c & Hc & Hext). by rewrite Hc, <-app_assoc, Hext in Hfull.
  - pose proof (StreamReader_readMessage s) as Hr.
    by destruct (readMessage s) as [[| | |] ?].
Qed.

(** Sending checks no length.  A payload of more than 65535 bytes (and less
    than 4 GiB) is written, and the reader at the other end rejects the frame
    with the payload still unread; a node name of 256 bytes or more is written
    with its length cut to one byte, and whatever the reader makes of the frame
    is not a message with that name. *)
Theorem sendMessage_unchecked src dst payload msgType t :
  (Z.of_nat (length src) < 256)%Z → (Z.of_nat (length dst) < 256)%Z →
  (65535 < Z.of_nat (length payload) < 2 ^ 32)%Z →
  readMessage (recv (message_bytes RelayMsgData src dst payload) ++ t)
    = (Err (ErrPayloadTooLarge (Z.of_nat (length payload))), recv payload ++ t)
  ∧ (∀ name m r, (256 ≤ Z.of_nat (length name))%Z →
       readMessage (recv (message_bytes msgType name dst payload) ++ t) = (Ok m, r) →
       SrcNode m ≠ name).
Proof.
  intros Hsrc Hdst Hp. split.
  - unfold message_bytes. rewrite decide_False, decide_True by (done || by intros [|]).
    rewrite Z.mod_small, !fmap_app, <-!app_assoc by lia.
    set (rest := recv (PutUint32 _) ++ _).
    assert (readPayload rest = (Err (ErrPayloadTooLarge (Z.of_nat (length payload))),
      recv payload ++ t)) as Hpay.
    { unfold readPayload, mbind, stateful_bind, rest.
      rewrite (proj2 (ReadFull_Ok 4 _ (PutUint32 (Z.of_nat (length payload))) _)) by done.
      cbv zeta. rewrite (be_value_be_bytes_small 4) by lia. by rewrite decide_True by lia. }
    assert (readString (recv (writeString src) ++ recv (writeString dst) ++ rest)
      = (Ok src, recv (writeString dst) ++ rest)) as Hs by by apply readString_Ok.
    assert (readString (recv (writeString dst) ++ rest) = (Ok dst, rest)) as Hd
      by by apply readString_Ok.
    unfold readMessage, mbind, stateful_bind.
    rewrite (proj2 (ReadFull_Ok 1 _ [RelayMsgData] _)) by done. cbv zeta.
    rewrite decide_False by by intros [|]. rewrite Hs, Hd, decide_True by done. by rewrite Hpay.
  - intros name m r Hname [Hok _]%readMessage_Ok Heq. subst name. unfold message_ok in Hok.
    case_decide; [|lia]. destruct Hok as (Hn & _). rewrite Hn in Hname. simpl in Hname. lia.
Qed.

(** ** Witnesses *)
Definition witness_register : RelayMessage := mkRelayMessage RelayMsgRegister (str "dagda") [] [].
Definition witness_data : RelayMessage :=
  mkRelayMessage RelayMsgData (str "dagda") (str "brigid") [x0a; x0b; x0c].

Lemma frames_stream_witness :
  read_many (dec:=readMessage) 2
    (recv (concat (frame <$> [witness_register; witness_data])) ++ [Deadline])
  = (Ok [witness_register; witness_data], [Deadline]).
Proof.
  exact (proj1 (frames_stream [witness_register; witness_data] [] [Deadline]
    (bool_decide_unpack (Forall message_ok [witness_register; witness_data]) I))).
Defined.

Lemma readMessage_interrupted_witness :
  readMessage (recv (take 9 (frame witness_data)) ++ Deadline :: recv (drop 9 (frame witness_data)))
  = (Err ErrTimeout, recv (drop 9 (frame witness_data))).
Proof.
  exact (proj1 (readMessage_interrupted witness_data (take 9 (frame witness_data))
    (drop 9 (frame witness_data)) (recv (drop 9 (frame witness_data))) []
    (bool_decide_unpack (message_ok witness_data) I) eq_refl ltac:(vm_compute; discriminate))).
Defined.

Lemma sendMessage_unchecked_witness :
  let payload := replicate (Z.to_nat 65536) x00 in
  readMessage (recv (message_bytes RelayMsgData (str "a") (str "b") payload))
  = (Err (ErrPayloadTooLarge 65536), recv payload).
Proof.
  intros payload. assert (Z.of_nat (length payload) = 65536)%Z as Hl.
  { unfold payload. rewrite length_replicate. apply Z2Nat.id. discriminate. }
  assert (65535 < Z.of_nat (length payload) < 2 ^ 32)%Z as Hr by (rewrite Hl; split; reflexivity).
  pose proof (proj1 (sendMessage_unchecked (str "a") (str "b") payload x01 []
    eq_refl eq_refl Hr)) as H.
  rewrite Hl, !app_nil_r in H. exact H.
Defined.
