(* ===== verification/RelayServer.v ===== *)
(** * relay.go: the relay server

    The server runs one goroutine per connection ([handleClient]) and the
    goroutines share the table of registered clients.  A connection is a number;
    [sessions] holds those accepted so far, each with its [RelayClient], the point
    its goroutine is at and the stream it has still to read, and a step is what a
    goroutine does between two points where another goroutine can interleave with
    it.  What a goroutine reads is its own, so a read is fused with what the
    goroutine does with the message up to its first access to shared state.

    A write sets no deadline.  It returns when the network has taken the whole
    frame, or fails, with part of the frame gone, when the connection is lost or
    closed meanwhile; until then its goroutine has no step.  How much the network
    takes is an argument of the step. *)
From S2P Require Import Prelude Bytes Config RelayWire.
From Stdlib Require Import Init.Byte.

(** A connected relay client; its [Conn] is the key of its session, and so the
    pointer the table holds. *)
Record RelayClient := mkRelayClient { Name : gostring; PublicKey : gostring; LastSeen : Z }.

Record RelayServer := mkRelayServer { cfg : Config; clients : gmap gostring nat }.
Definition NewRelayServer (cfg : Config) : RelayServer := mkRelayServer cfg ∅.

(** The points of [handleClient]: before the registration is read, at the head
    of the message loop, past the check of the context, in the write of a frame to
    a connection, before and after the deferred removal of
    its name, and returned, with the connection closed. *)
Inductive location :=
  | Accepted
  | Looping
  | Reading
  | Writing (dst : nat) (bs : list byte)
  | Leaving
  | Closing
  | Closed.
#[export] Instance location_eq_dec : EqDecision location.
Proof. solve_decision. Defined.

(** [input] is what is left of the stream [whole] the connection delivers. *)
Record session := mkSession {
  client : RelayClient; at_ : location; whole : stream; input : stream }.

(** A write of goroutine [by_] that has returned: the frame it was [asked] to write
    to connection [to_], and the [bytes_] of it that were taken. *)
Record sending := mkSending { by_ : nat; to_ : nat; asked : list byte; bytes_ : list byte }.

(** The server, the connections it has accepted, the writes that have returned
    (latest last), the connections [broken] by a write that failed, on which every
    later write fails, and whether the context is done. *)
Record world := mkWorld {
  server : RelayServer;
  sessions : gmap nat session;
  sent : list sending;
  broken : gset nat;
  ctx_done : bool
}.
Definition init (cfg : Config) : world := mkWorld (NewRelayServer cfg) ∅ [] ∅ false.
Definition table (w : world) : gmap gostring nat := clients (server w).

Definition set_clients (f : gmap gostring nat → gmap gostring nat) (w : world) : world :=
  mkWorld (mkRelayServer (cfg (server w)) (f (table w))) (sessions w) (sent w) (broken w) (ctx_done w).
Definition set_session (c : nat) (ses : session) (w : world) : world :=
  mkWorld (server w) (<[c := ses]> (sessions w)) (sent w) (broken w) (ctx_done w).
Definition move (l : location) (ses : session) : session :=
  mkSession (client ses) l (whole ses) (input ses).
Definition is_open (c : nat) (w : world) : bool :=
  match sessions w !! c with
  | Some ses => bool_decide (at_ ses ≠ Closed)
  | None => false
  end.
(** How much of a frame is taken when the network takes at most [room] bytes:
    nothing after a failure, and never the whole when the connection is closed (a
    write that was under way may have left a part). *)
Definition taken (to_ : nat) (bs : list byte) (room : nat) (w : world) : nat :=
  if decide (to_ ∈ broken w) then 0
  else if is_open to_ w then room else Nat.min room (pred (length bs)).
(** The return of a write; the error of one that fails is only logged. *)
Definition conn_write (by_ to_ : nat) (bs : list byte) (room : nat) (w : world) : world :=
  let n := taken to_ bs room w in
  mkWorld (server w) (sessions w) (sent w ++ [mkSending by_ to_ bs (take n bs)])
    (if decide (length bs ≤ n) then broken w else {[to_]} ∪ broken w) (ctx_done w).

(** [forwardToPeer] up to its write: the lookup of the destination, and the
    frame for it. *)
Definition forwardToPeer (r : RelayServer) (msg : RelayMessage) : location :=
  match clients r !! DstNode msg with
  | None => Looping
  | Some dst =>
    Writing dst (message_bytes RelayMsgData (SrcNode msg) (DstNode msg) (Payload msg))
  end.

(** A read that failed: a timeout only restarts the loop. *)
Definition after_error {A} (e : outcome relay_error A) : location :=
  match e with Err ErrTimeout => Looping | _ => Leaving end.

(** The body of the message loop on a message read, [s] left to read. *)
Definition handle_message (c : nat) (ses : session) (msg : RelayMessage) (now : Z)
    (s : stream) (w : world) : world :=
  let cl := mkRelayClient (Name (client ses)) (PublicKey (client ses)) now in
  let ses := mkSession cl Looping (whole ses) s in
  if decide (Type_ msg = RelayMsgData)
  then set_session c (move (forwardToPeer (server w) msg) ses) w
  else if decide (Type_ msg = RelayMsgPing)
  then set_session c (move (Writing c (message_bytes RelayMsgPong [] (SrcNode msg) [])) ses) w
  else set_session c ses w.

(** [handleClient], one step of it; [room] is for a write that returns. *)
Definition handleClient (c : nat) (now : Z) (room : nat) (w : world) : option world :=
  ses ← sessions w !! c;
  let cl := client ses in
  match at_ ses with
  | Accepted =>
    match readMessage (input ses) with
    | (Ok msg, s) =>
      if decide (Type_ msg = RelayMsgRegister) then
        Some (set_session c
          (mkSession (mkRelayClient (SrcNode msg) [] now) Looping (whole ses) s)
          (set_clients <[SrcNode msg := c]> w))
      else Some (set_session c (mkSession cl Closed (whole ses) s) w)
    | (_, s) => Some (set_session c (mkSession cl Closed (whole ses) s) w)
    end
  | Looping => Some (set_session c (move (if ctx_done w then Leaving else Reading) ses) w)
  | Reading =>
    match readMessage (input ses) with
    | (Ok msg, s) => Some (handle_message c ses msg now s w)
    | (e, s) => Some (set_session c (mkSession cl (after_error e) (whole ses) s) w)
    end
  | Writing dst bs => Some (conn_write c dst bs room (set_session c (move Looping ses) w))
  | Leaving =>
    Some (set_session c (move Closing ses) (set_clients (delete (Name cl)) w))
  | Closing => Some (set_session c (move Closed ses) w)
  | Closed => None
  end.

(** ** Interleavings

    A connection is accepted with the stream it will deliver, a goroutine takes a
    step, or the context is cancelled. *)
Inductive label :=
  | Accept (c : nat) (s : stream)
  | Run (c : nat) (now : Z) (room : nat)
  | Cancel.

Definition relay_step (l : label) (w : world) : option world :=
  match l with
  | Accept c s =>
    match sessions w !! c with
    | Some _ => None
    | None => Some (set_session c (mkSession (mkRelayClient [] [] 0) Accepted s s) w)
    end
  | Run c now room => handleClient c now room w
  | Cancel => Some (mkWorld (server w) (sessions w) (sent w) (broken w) true)
  end.

Abbreviation relay_run := (trace relay_step).

(** [n] steps of one goroutine in a row. *)
Definition run_alone (c : nat) (now : Z) (room : nat) (n : nat) (w : world) : option world :=
  steps (handleClient c now room) n w.

(** What has been taken of the writes to a connection. *)
Definition received (c : nat) (w : world) : list byte :=
  concat (bytes_ <$> filter (λ p, to_ p = c) (sent w)).

(** ** What a step does to the table *)

(** The points at which a goroutine's name is its to remove. *)
Definition registered (l : location) : bool :=
  match l with Accepted | Closing | Closed => false | _ => true end.

Variant table_effect (c : nat) (ses ses' : session) (t t' : gmap gostring nat) : Prop :=
  | effect_none :
      t' = t → Name (client ses') = Name (client ses) →
      registered (at_ ses') = registered (at_ ses) → table_effect c ses ses' t t'
  | effect_register :
      t' = <[Name (client ses') := c]> t → at_ ses = Accepted →
      registered (at_ ses') = true → table_effect c ses ses' t t'
  | effect_leave :
      t' = delete (Name (client ses)) t → registered (at_ ses) = true →
      registered (at_ ses') = false → table_effect c ses ses' t t'.

Lemma forwardToPeer_registered r msg : registered (forwardToPeer r msg) = true.
Proof. unfold forwardToPeer. by case_match. Qed.

Lemma handleClient_effect c now room w w' :
  handleClient c now room w = Some w' →
  ∃ ses ses', sessions w !! c = Some ses ∧ sessions w' = <[c := ses']> (sessions w)
    ∧ whole ses' = whole ses ∧ table_effect c ses ses' (table w) (table w').
Proof.
  unfold handleClient. intros ([cl loc ws s] & Hses & Hstep)%bind_Some.
  exists (mkSession cl loc ws s). cbn [client at_ whole input] in Hstep.
  destruct loc as [| | |dst bs| | |].
  - destruct (readMessage s) as [[msg|e| |] s1].
    { case_decide; injection Hstep as <-; eexists; (split_and!; [done..|]).
      - by apply effect_register.
      - by apply effect_none. }
    all: injection Hstep as <-; eexists; (split_and!; [done..|]); by apply effect_none.
  - injection Hstep as <-. eexists. split_and!; [done..|]. apply effect_none; [done..|].
    simpl. by case_match.
  - destruct (readMessage s) as [[msg|e| |] s1]; injection Hstep as <-.
    2-4: eexists; (split_and!; [done..|]); apply effect_none; try done; simpl; by case_match.
    unfold handle_message. repeat case_decide; eexists; (split_and!; [done..|]); apply effect_none; try done.
    apply forwardToPeer_registered.
  - injection Hstep as <-. eexists. split_and!; [done..|]. by apply effect_none.
  - injection Hstep as <-. eexists. split_and!; [done..|]. by apply effect_leave.
  - injection Hstep as <-. eexists. split_and!; [done..|]. by apply effect_none.
  - done.
Qed.

(** ** The table and the goroutines *)

(** Connection [c] is registered under [n]. *)
Definition registered_as (w : world) (c : nat) (n : gostring) : Prop :=
  ∃ ses, sessions w !! c = Some ses ∧ Name (client ses) = n ∧ registered (at_ ses) = true.

(** Every entry of the table is a registered connection. *)
Definition table_live (w : world) : Prop :=
  ∀ n c, table w !! n = Some c → registered_as w c n.
(** Every registered connection is in the table. *)
Definition table_complete (w : world) : Prop :=
  ∀ n c, registered_as w c n → table w !! n = Some c.

Lemma registered_as_insert w c ses n c' :
  (∃ ses', <[c := ses]> (sessions w) !! c' = Some ses' ∧ Name (client ses') = n
     ∧ registered (at_ ses') = true)
  ↔ (c' = c ∧ Name (client ses) = n ∧ registered (at_ ses) = true)
    ∨ (c' ≠ c ∧ registered_as w c' n).
Proof.
  unfold registered_as. destruct (decide (c' = c)) as [->|Hc].
  - setoid_rewrite lookup_insert_eq. naive_solver.
  - setoid_rewrite lookup_insert_ne; [|done]. naive_solver.
Qed.

Lemma handleClient_live c now room w w' :
  table_live w → handleClient c now room w = Some w' → table_live w'.
Proof.
  intros Hw (ses & ses' & Hses & Hw' & _ & Heff)%handleClient_effect n c'.
  unfold registered_as. rewrite Hw', registered_as_insert.
  assert (∀ n', table w !! n' = Some c → n' = Name (client ses) ∧ registered (at_ ses) = true)
    as Hown.
  { intros n' (ses1 & Hs1 & <- & Hreg)%Hw. rewrite Hses in Hs1. by injection Hs1 as <-. }
  destruct Heff as [-> HN Hreg| -> Hacc Hreg| -> Hreg Hreg'].
  - intros Hn. destruct (decide (c' = c)) as [->|]; [|naive_solver].
    apply Hown in Hn as [-> Hr]. left. split_and!; congruence.
  - intros [[-> ->]|[Hne Hn]]%lookup_insert_Some; [naive_solver|].
    right. split; [|by apply Hw]. intros ->. apply Hown in Hn as [_ Hr]. by rewrite Hacc in Hr.
  - intros [Hne Hn]%lookup_delete_Some. right. split; [|by apply Hw].
    intros ->. apply Hown in Hn as [-> _]. done.
Qed.

Lemma accept_registered w c s w' :
  relay_step (Accept c s) w = Some w' →
  table w' = table w ∧ ∀ c' n, registered_as w' c' n ↔ registered_as w c' n.
Proof.
  simpl. destruct (sessions w !! c) eqn:Hc; intros [= <-]. split; [done|]. intros c' n.
  unfold registered_as at 1. simpl. rewrite registered_as_insert. simpl.
  split; [intros [?|?]; naive_solver|]. intros Hr. right. split; [|done]. intros ->.
  destruct Hr as (ses & Hs & _). congruence.
Qed.

Lemma relay_step_live l w w' : table_live w → relay_step l w = Some w' → table_live w'.
Proof.
  intros Hw. destruct l as [c s|c now room|].
  - intros [Ht Hr]%accept_registered n c'. rewrite Ht, Hr. apply Hw.
  - by apply handleClient_live.
  - intros [= <-]. exact Hw.
Qed.

Lemma relay_run_live cfg ls w : relay_run any_step (init cfg) ls w → table_live w.
Proof.
  apply trace_invariant; [by intros ? ?|]. intros w1 l w2 Hw _. by apply relay_step_live.
Qed.

(** A step that does not register a name somebody has. *)
Definition fresh_name (w : world) (l : label) : Prop :=
  match l with
  | Run c _ _ => ∀ ses msg s, sessions w !! c = Some ses → at_ ses = Accepted →
      readMessage (input ses) = (Ok msg, s) → Type_ msg = RelayMsgRegister →
      table w !! SrcNode msg = None
  | _ => True
  end.

Lemma register_step c now room w w' ses ses' :
  handleClient c now room w = Some w' → sessions w !! c = Some ses → at_ ses = Accepted →
  sessions w' = <[c := ses']> (sessions w) → registered (at_ ses') = true →
  ∃ msg s, readMessage (input ses) = (Ok msg, s) ∧ Type_ msg = RelayMsgRegister
    ∧ Name (client ses') = SrcNode msg.
Proof.
  unfold handleClient. intros Hstep Hses Hacc Hw' Hreg. rewrite Hses in Hstep. simpl in Hstep.
  rewrite Hacc in Hstep.
  assert (sessions w' !! c = Some ses') as Hc by (rewrite Hw'; apply lookup_insert_eq).
  destruct (readMessage (input ses)) as [[msg|e| |] s]; [case_decide|..]; injection Hstep as <-;
    simpl in Hc; rewrite lookup_insert_eq in Hc; injection Hc as <-; naive_solver.
Qed.

Lemma relay_step_complete l w w' :
  table_complete w → fresh_name w l → relay_step l w = Some w' → table_complete w'.
Proof.
  intros Hw Hfresh. destruct l as [c s|c now room|].
  - intros [Ht Hr]%accept_registered n c'. rewrite Ht, Hr. apply Hw.
  - simpl. intros Hstep n c'.
    destruct (handleClient_effect _ _ _ _ _ Hstep) as (ses & ses' & Hses & Hw' & _ & Heff).
    unfold registered_as. rewrite Hw', registered_as_insert.
    destruct Heff as [-> HN Hreg| -> Hacc Hreg| -> Hreg Hreg'].
    + intros [(-> & <- & Hr)|[_ Hr]]; [|by apply Hw].
      apply Hw. exists ses. split_and!; congruence.
    + intros [(-> & <- & Hr)|[Hne Hr]]; [apply lookup_insert_eq|].
      destruct (register_step _ _ _ _ _ _ _ Hstep Hses Hacc Hw' Hreg) as (msg & s & Hm & Hty & HN).
      specialize (Hfresh ses msg s Hses Hacc Hm Hty). rewrite <-HN in Hfresh.
      apply Hw in Hr. rewrite lookup_insert_ne; [done|]. congruence.
    + intros [(_ & _ & Hr)|[Hne Hr]]; [congruence|]. apply lookup_delete_Some.
      split; [|by apply Hw]. intros <-. apply Hw in Hr.
      assert (table w !! Name (client ses) = Some c) as Hs by (apply Hw; by exists ses). congruence.
  - intros [= <-]. exact Hw.
Qed.

(** ** What a goroutine writes *)

(** The messages read one after another from the start of [s], failed reads
    skipped, and what is left. *)
Inductive reads (s : stream) : list RelayMessage → stream → Prop :=
  | reads_start : reads s [] s
  | reads_message ms s1 m s2 :
      reads s ms s1 → readMessage s1 = (Ok m, s2) → reads s (ms ++ [m]) s2
  | reads_error ms s1 e s2 :
      reads s ms s1 → readMessage s1 = (e, s2) → is_ok e = false → reads s ms s2.

(** The frame a message makes the server write, if any. *)
Definition reply (m : RelayMessage) : option RelayMessage :=
  if decide (Type_ m = RelayMsgData) then Some m
  else if decide (Type_ m = RelayMsgPing) then Some (mkRelayMessage RelayMsgPong [] [] [])
  else None.

Lemma reads_ok s ms s' : reads s ms s' → Forall message_ok ms.
Proof.
  induction 1 as [|ms s1 m s2 _ IH Hm|]; [done| |done].
  apply Forall_app. split; [done|]. apply readMessage_Ok in Hm as [Hm _]. by repeat constructor.
Qed.

(** The frames the goroutine of [c] has written or failed to write, and the one it
    is writing. *)
Definition written (c : nat) (w : world) : list (list byte) :=
  asked <$> filter (λ p, by_ p = c) (sent w).
Definition pending (ses : session) : list (list byte) :=
  match at_ ses with Writing _ bs => [bs] | _ => [] end.

Definition replies_in_order (c : nat) (ses : session) (out : list (list byte)) : Prop :=
  ∃ ms, reads (whole ses) ms (input ses)
    ∧ out ++ pending ses `sublist_of` frame <$> omap reply ms.

Definition in_order (w : world) : Prop :=
  (∀ c ses, sessions w !! c = Some ses → replies_in_order c ses (written c w))
  ∧ ∀ p, p ∈ sent w → is_Some (sessions w !! by_ p).

Lemma written_conn_write c by_ to_ bs room w :
  written c (conn_write by_ to_ bs room w) = written c w ++ (if decide (by_ = c) then [bs] else []).
Proof.
  unfold conn_write, written. cbn [sent]. rewrite filter_app, fmap_app. f_equal.
  destruct (decide (by_ = c)) as [->|Hne].
  - by rewrite (filter_cons_True _ _ []).
  - by rewrite (filter_cons_False _ _ []).
Qed.

Lemma replies_same c cl cl' loc loc' ws s out new :
  replies_in_order c (mkSession cl loc ws s) out →
  new ++ pending (mkSession cl' loc' ws s) `sublist_of` pending (mkSession cl loc ws s) →
  replies_in_order c (mkSession cl' loc' ws s) (out ++ new).
Proof.
  intros (ms & Hr & Hsub) Hout. exists ms. split; [done|]. rewrite <-app_assoc.
  etrans; [|exact Hsub]. by apply sublist_app.
Qed.

Lemma replies_error c cl loc loc' ws s1 s2 e out :
  replies_in_order c (mkSession cl loc ws s1) out → readMessage s1 = (e, s2) → is_ok e = false →
  pending (mkSession cl loc' ws s2) = [] →
  ∀ cl', replies_in_order c (mkSession cl' loc' ws s2) out.
Proof.
  intros (ms & Hr & Hsub) He Hok Hp cl'. exists ms. cbn [whole input] in *.
  split; [by eapply reads_error|]. change (pending (mkSession cl' loc' ws s2)) with
    (pending (mkSession cl loc' ws s2)). rewrite Hp, app_nil_r.
  etrans; [|exact Hsub]. by apply sublist_inserts_r.
Qed.

Lemma replies_message c cl loc loc' ws s1 s2 m out new :
  replies_in_order c (mkSession cl loc ws s1) out → readMessage s1 = (Ok m, s2) →
  new ++ pending (mkSession cl loc' ws s2) `sublist_of` frame <$> option_list (reply m) →
  ∀ cl', replies_in_order c (mkSession cl' loc' ws s2) (out ++ new).
Proof.
  intros (ms & Hr & Hsub) Hm Hnew cl'. exists (ms ++ [m]). cbn [whole input] in *.
  split; [by eapply reads_message|]. rewrite omap_app, fmap_app, <-app_assoc.
  apply sublist_app; [etrans; [|exact Hsub]; by apply sublist_inserts_r|].
  simpl. by destruct (reply m).
Qed.

Lemma written_set_session c c' ses w : written c (set_session c' ses w) = written c w.
Proof. done. Qed.

Lemma handleClient_replies c now room w w' ses :
  handleClient c now room w = Some w' → sessions w !! c = Some ses →
  replies_in_order c ses (written c w) →
  ∃ ses', sessions w' !! c = Some ses' ∧ replies_in_order c ses' (written c w').
Proof.
  unfold handleClient. intros Hstep Hses Hin. rewrite Hses in Hstep. simpl in Hstep.
  destruct ses as [cl loc ws s].
  cbn [client at_ whole input] in Hstep. destruct loc as [| | |dst bs| | |].
  - destruct (readMessage s) as [[msg|e| |] s1] eqn:Hm.
    { case_decide; injection Hstep as <-; eexists; (split; [apply lookup_insert_eq|]);
        rewrite <-(app_nil_r (written _ _)); (eapply replies_message; [done..|]);
        apply sublist_nil_l. }
    all: injection Hstep as <-; eexists; (split; [apply lookup_insert_eq|]); by eapply replies_error.
  - injection Hstep as <-. eexists. split; [apply lookup_insert_eq|].
    rewrite <-(app_nil_r (written _ _)). eapply replies_same; [done|]. by case_match.
  - destruct (readMessage s) as [[msg|e| |] s1] eqn:Hm; injection Hstep as <-.
    2-4: eexists; (split; [apply lookup_insert_eq|]); eapply replies_error;
      [done..|unfold pending; simpl; by repeat case_match].
    unfold handle_message. cbn [client whole]. repeat case_decide; eexists;
      (split; [apply lookup_insert_eq|]); rewrite <-(app_nil_r (written _ _));
      (eapply replies_message; [done..|]); unfold reply, pending; cbn [at_ move app].
    + rewrite decide_True by done. unfold forwardToPeer.
      destruct (clients (server w) !! DstNode msg); [|apply sublist_nil_l].
      unfold frame. cbn. by match goal with Hd : Type_ msg = _ |- _ => rewrite Hd end.
    + by rewrite decide_False, decide_True.
    + apply sublist_nil_l.
  - injection Hstep as <-. eexists. split; [apply lookup_insert_eq|].
    rewrite written_conn_write, decide_True by done. by eapply replies_same.
  - injection Hstep as <-. eexists. split; [apply lookup_insert_eq|].
    rewrite <-(app_nil_r (written _ _)). by eapply replies_same.
  - injection Hstep as <-. eexists. split; [apply lookup_insert_eq|].
    rewrite <-(app_nil_r (written _ _)). by eapply replies_same.
  - done.
Qed.

(** A step either writes nothing, or is the return of a write. *)
Lemma handleClient_sent c now room w w' :
  handleClient c now room w = Some w' →
  (sent w' = sent w ∧ broken w' = broken w)
  ∨ ∃ ses to_ bs n, sessions w !! c = Some ses ∧ at_ ses = Writing to_ bs
      ∧ sent w' = sent w ++ [mkSending c to_ bs (take n bs)]
      ∧ (to_ ∈ broken w → n = 0)
      ∧ broken w' = (if decide (length bs ≤ n) then broken w else {[to_]} ∪ broken w).
Proof.
  unfold handleClient. intros ([cl loc ws s] & Hses & Hstep)%bind_Some.
  cbn [client at_ whole input] in Hstep. destruct loc as [| | |dst bs| | |].
  - destruct (readMessage s) as [[msg|e| |] s1]; [case_decide|..]; injection Hstep as <-; by left.
  - injection Hstep as <-. by left.
  - destruct (readMessage s) as [[msg|e| |] s1]; injection Hstep as <-; [|by left..].
    unfold handle_message. repeat case_decide; by left.
  - injection Hstep as <-. right.
    eexists _, dst, bs, (taken dst bs room (set_session c (move Looping (mkSession cl (Writing dst bs) ws s)) w)).
    split_and!; [done..| |done]. intros Hb. unfold taken. by rewrite decide_True.
  - injection Hstep as <-. by left.
  - injection Hstep as <-. by left.
  - done.
Qed.

Lemma relay_step_in_order l w w' : in_order w → relay_step l w = Some w' → in_order w'.
Proof.
  intros [Hin Hby]. destruct l as [c s|c now room|].
  - simpl. destruct (sessions w !! c) eqn:Hc; intros [= <-]. split.
    + intros c' ses. simpl. rewrite written_set_session.
      intros [[<- <-]|[Hne Hses]]%lookup_insert_Some; [|by apply Hin].
      exists []. split; [constructor|].
      assert (written c w = []) as ->; [|done].
      unfold written. rewrite filter_none; [done|]. intros p Hp <-. apply Hby in Hp as [? ?]. congruence.
    + intros p Hp. apply lookup_insert_is_Some'. right. by apply Hby.
  - simpl. intros Hstep.
    destruct (handleClient_effect _ _ _ _ _ Hstep) as (ses & ses' & Hses & Hw' & _).
    assert (sent w' = sent w ∨ ∃ to_ bs b, sent w' = sent w ++ [mkSending c to_ bs b]) as Hsent.
    { destruct (handleClient_sent _ _ _ _ _ Hstep) as [[? _]|(? & to_ & bs & n & _ & _ & ? & _)]; [by left|].
      right. by eexists _, _, _. }
    split.
    + intros c' ses1 Hs1. destruct (decide (c' = c)) as [->|Hne].
      * destruct (handleClient_replies _ _ _ _ _ _ Hstep Hses (Hin _ _ Hses)) as (ses2 & Hs2 & ?).
        by simplify_eq.
      * rewrite Hw', lookup_insert_ne in Hs1 by done. apply Hin in Hs1.
        assert (written c' w' = written c' w) as ->; [|done].
        unfold written. destruct Hsent as [->|(to_ & bs & b & ->)]; [done|].
        rewrite filter_app, (filter_cons_False _ _ []) by (simpl; congruence).
        by rewrite app_nil_r.
    + intros p Hp. rewrite Hw'. apply lookup_insert_is_Some'.
      destruct Hsent as [Hs|(to_ & bs & b & Hs)]; rewrite Hs in Hp; [right; by apply Hby|].
      apply elem_of_app in Hp as [Hp| ->%list_elem_of_singleton]; [right; by apply Hby|by left].
  - intros [= <-]. by split.
Qed.

Lemma relay_run_in_order cfg ls w : relay_run any_step (init cfg) ls w → in_order w.
Proof.
  apply trace_invariant.
  - split; [done|]. intros p Hp. by apply elem_of_nil in Hp.
  - intros w1 l w2 Hw _. by apply relay_step_in_order.
Qed.

Lemma in_order_sending w p :
  in_order w → p ∈ sent w →
  ∃ ses ms m, sessions w !! by_ p = Some ses ∧ reads (whole ses) ms (input ses)
    ∧ m ∈ omap reply ms ∧ asked p = frame m.
Proof.
  intros [Hin Hby] Hp. destruct (Hby p Hp) as [ses Hses].
  destruct (Hin _ _ Hses) as (ms & Hr & Hsub).
  assert (asked p ∈ frame <$> omap reply ms) as (m & Hm & Hin')%list_elem_of_fmap.
  { eapply elem_of_sublist; [|exact Hsub].
    apply elem_of_app. left. unfold written. apply list_elem_of_fmap. exists p. split; [done|].
    by apply list_elem_of_filter. }
  by exists ses, ms, m.
Qed.

Lemma reply_ok m m' : message_ok m → reply m = Some m' → message_ok m'.
Proof. intros Hm. unfold reply. repeat case_decide; intros [= <-]; done. Qed.

Lemma reply_type m m' : reply m = Some m' → Type_ m' = RelayMsgData ∨ Type_ m' = RelayMsgPong.
Proof. unfold reply. repeat case_decide; intros [= <-]; [by left|by right]. Qed.

(** ** What a connection is sent *)

(** A frame the server may write: of a DATA or a PONG the format can carry. *)
Definition output_ok (m : RelayMessage) : Prop :=
  message_ok m ∧ (Type_ m = RelayMsgData ∨ Type_ m = RelayMsgPong).
(** [part] is a frame cut short, or nothing. *)
Definition cut_frame (part : list byte) : Prop :=
  ∃ m rest, output_ok m ∧ frame m = part ++ rest ∧ rest ≠ [].

(** Whole frames, and after a write that failed a part of one more. *)
Definition framed (d : nat) (w : world) : Prop :=
  ∃ ms part, received d w = concat (frame <$> ms) ++ part ∧ Forall output_ok ms
    ∧ (d ∉ broken w → part = []) ∧ cut_frame part.

Lemma cut_frame_nil : cut_frame [].
Proof.
  exists (mkRelayMessage RelayMsgPong [] [] []), [RelayMsgPong].
  split_and!; [split; [done|by right]|done..].
Qed.

Lemma cut_frame_unread part : cut_frame part → is_ok (readMessage (recv part)).1 = false.
Proof.
  intros (m & rest & [Hm _] & Hf & Hne). destruct (readMessage (recv part)) as [o r] eqn:Hr.
  destruct o as [m'|e| |]; try done. exfalso. apply Hne.
  apply readMessage_Ok in Hr as [Hm' Hp].
  assert (readMessage (recv (frame m)) = (Ok m, [])) as Hw.
  { apply readMessage_Ok. split; [done|]. by rewrite app_nil_r. }
  assert (readMessage (recv (frame m)) = (Ok m', r ++ recv rest)) as Hw'.
  { apply readMessage_Ok. split; [done|]. rewrite Hf, fmap_app, Hp. by rewrite <-app_assoc. }
  rewrite Hw in Hw'. injection Hw' as _ Hnil. symmetry in Hnil.
  apply app_nil in Hnil as [_ Hnil]. by apply fmap_nil_inv in Hnil.
Qed.

Lemma received_snoc d w p :
  concat (bytes_ <$> filter (λ p, to_ p = d) (sent w ++ [p]))
  = received d w ++ (if decide (to_ p = d) then bytes_ p else []).
Proof.
  unfold received. rewrite filter_app, fmap_app, concat_app. f_equal. destruct (decide _).
  - rewrite (filter_cons_True _ _ []) by done. simpl. by rewrite app_nil_r.
  - by rewrite (filter_cons_False _ _ []) by done.
Qed.

Lemma framed_same d w w' :
  received d w' = received d w → (d ∈ broken w' ↔ d ∈ broken w) → framed d w → framed d w'.
Proof.
  intros Hr Hb (ms & part & Hrec & Hok & Hpart & Hcut). exists ms, part.
  split_and!; [congruence|done| |done]. by rewrite Hb.
Qed.

Lemma framed_write d w w' c m n :
  framed d w → output_ok m → sent w' = sent w ++ [mkSending c d (frame m) (take n (frame m))] →
  (d ∈ broken w → n = 0) →
  broken w' = (if decide (length (frame m) ≤ n) then broken w else {[d]} ∪ broken w) →
  framed d w'.
Proof.
  intros (ms & part & Hrec & Hok & Hpart & Hcut) Hm Hsent Hn Hb. unfold framed, received at 1.
  rewrite Hsent, received_snoc, decide_True by done. cbn [bytes_]. rewrite Hrec.
  destruct (decide (d ∈ broken w)) as [Hd|Hd].
  - rewrite (Hn Hd). exists ms, part. rewrite take_0, app_nil_r. split_and!; [done..| |done].
    intros Hd'. exfalso. apply Hd'. rewrite Hb. case_decide; set_solver.
  - rewrite (Hpart Hd), app_nil_r. rewrite Hb. case_decide.
    + exists (ms ++ [m]), []. rewrite take_ge, fmap_app, concat_app, app_nil_r by done. simpl.
      rewrite app_nil_r. split_and!; [done| |done|apply cut_frame_nil].
      apply Forall_app. by split; [|constructor].
    + exists ms, (take n (frame m)). split_and!; [done..|set_solver|].
      exists m, (drop n (frame m)). rewrite take_drop. split_and!; [done..|].
      intros Hnil%(f_equal length). rewrite length_drop in Hnil. simpl in Hnil. lia.
Qed.

Lemma in_order_output w p :
  in_order w → p ∈ sent w → ∃ m, output_ok m ∧ asked p = frame m.
Proof.
  intros Hw (ses & ms & m & _ & Hr & Hm & Hb)%(in_order_sending _ _ Hw).
  exists m. split; [|done]. apply list_elem_of_omap in Hm as (m0 & Hm0 & Hm).
  split; [|by eapply reply_type]. eapply reply_ok, Hm. eapply Forall_forall, Hm0. by eapply reads_ok.
Qed.

Lemma relay_step_framed l w w' d :
  in_order w' → framed d w → relay_step l w = Some w' → framed d w'.
Proof.
  intros Hin Hw. destruct l as [c s|c now room|].
  - simpl. destruct (sessions w !! c); intros [= <-]. by eapply framed_same, Hw.
  - intros [[Hs Hb]|(_ & to_ & bs & n & _ & _ & Hs & Hn & Hb)]%handleClient_sent.
    { eapply framed_same, Hw; [by unfold received; rewrite Hs|by rewrite Hb]. }
    destruct (in_order_output w' (mkSending c to_ bs (take n bs)) Hin) as (m & Hm & Hbs).
    { rewrite Hs. apply elem_of_app. right. by apply list_elem_of_singleton. }
    cbn [asked] in Hbs. subst bs. destruct (decide (to_ = d)) as [->|Hne].
    + by eapply framed_write.
    + eapply framed_same, Hw.
      * unfold received at 1. rewrite Hs, received_snoc, decide_False by done. apply app_nil_r.
      * rewrite Hb. case_decide; set_solver.
  - intros [= <-]. by eapply framed_same, Hw.
Qed.

Lemma relay_run_framed cfg ls w d : relay_run any_step (init cfg) ls w → framed d w.
Proof.
  intros Hrun. assert (in_order w ∧ framed d w) as [_ ?]; [|done]. revert Hrun.
  apply (trace_invariant relay_step any_step (λ w, in_order w ∧ framed d w)).
  - split; [by apply (relay_run_in_order cfg []); constructor|]. exists [], [].
    split_and!; [done..|apply cut_frame_nil].
  - intros w1 l w2 [Hin Hf] _ Hstep. assert (in_order w2) by by eapply relay_step_in_order.
    split; [done|]. by eapply relay_step_framed.
Qed.

(** ** Termination *)

(** Bounds the steps a goroutine has still to take. *)
Definition potential (ses : session) : nat :=
  match at_ ses with
  | Accepted => 3 * length (input ses) + 2
  | Looping => 3 * length (input ses) + 4
  | Reading => 3 * length (input ses) + 3
  | Writing _ _ => 3 * length (input ses) + 5
  | Leaving => 2
  | Closing => 1
  | Closed => 0
  end.

Lemma readMessage_shorter s o s' :
  readMessage s = (o, s') → is_ok o = true ∨ o = Err ErrTimeout → length s' < length s.
Proof.
  intros Hr Ho. pose proof (StreamReader_readMessage s) as Hs. rewrite Hr in Hs.
  destruct o as [m|[| | |n]| |]; try naive_solver.
  - apply readMessage_Ok in Hr as [_ ->]. rewrite length_app, length_fmap.
    unfold frame, message_bytes. case_decide; simpl; lia.
  - destruct Hs as (c & -> & _). rewrite length_app. simpl. lia.
Qed.

Lemma handleClient_potential c now room w w' ses :
  handleClient c now room w = Some w' → sessions w !! c = Some ses →
  ∃ ses', sessions w' !! c = Some ses' ∧ potential ses' < potential ses.
Proof.
  unfold handleClient. intros Hstep Hses. rewrite Hses in Hstep. simpl in Hstep.
  destruct ses as [cl loc ws s]. cbn [client at_ whole input] in Hstep.
  destruct loc as [| | |dst bs| | |]; unfold potential at 2; cbn [at_ input].
  - destruct (readMessage s) as [[msg|e| |] s1] eqn:Hm; [case_decide|..]; injection Hstep as <-;
      eexists; (split; [apply lookup_insert_eq|]); cbn; try lia.
    apply readMessage_shorter in Hm; [lia|by left].
  - injection Hstep as <-. eexists. split; [apply lookup_insert_eq|].
    destruct (ctx_done w); cbn; lia.
  - destruct (readMessage s) as [[msg|e| |] s1] eqn:Hm; injection Hstep as <-.
    + apply readMessage_shorter in Hm; [|by left]. unfold handle_message.
      repeat case_decide; eexists; (split; [apply lookup_insert_eq|]); unfold potential, forwardToPeer;
        cbn; try lia. destruct (clients _ !! _); lia.
    + eexists. split; [apply lookup_insert_eq|]. destruct e; cbn; try lia.
      apply readMessage_shorter in Hm; [lia|by right].
    + eexists. split; [apply lookup_insert_eq|]. cbn. lia.
    + eexists. split; [apply lookup_insert_eq|]. cbn. lia.
  - injection Hstep as <-. eexists. split; [apply lookup_insert_eq|]. cbn. lia.
  - injection Hstep as <-. eexists. split; [apply lookup_insert_eq|]. cbn. lia.
  - injection Hstep as <-. eexists. split; [apply lookup_insert_eq|]. cbn. lia.
  - done.
Qed.

(** The steps of goroutine [c] in a run. *)
Definition is_run (c : nat) (l : label) : bool :=
  match l with Run c' _ _ => bool_decide (c' = c) | _ => false end.
Definition runs_of (c : nat) (ls : list label) : nat := length (filter (λ l, is_run c l) ls).

Lemma runs_of_snoc c ls l :
  runs_of c (ls ++ [l]) = runs_of c ls + (if is_run c l then 1 else 0).
Proof.
  unfold runs_of. rewrite filter_app, length_app. f_equal.
  destruct (is_run c l) eqn:Hl.
  - rewrite filter_cons_True by (cbn beta; rewrite Hl; exact I). reflexivity.
  - rewrite filter_cons_False by (cbn beta; rewrite Hl; exact id). reflexivity.
Qed.

Lemma relay_step_session l w w' c ses :
  relay_step l w = Some w' → sessions w !! c = Some ses → is_run c l = false →
  sessions w' !! c = Some ses.
Proof.
  intros Hstep Hses Hl. destruct l as [c' s|c' now room|].
  - simpl in Hstep. destruct (sessions w !! c') eqn:Hc; [done|]. injection Hstep as <-. simpl.
    rewrite lookup_insert_ne; congruence.
  - apply bool_decide_eq_false in Hl. simpl in Hstep.
    apply handleClient_effect in Hstep as (s1 & s2 & _ & -> & _). by rewrite lookup_insert_ne.
  - by injection Hstep as <-.
Qed.

Lemma relay_run_potential ok w ls w' c ses :
  relay_run ok w ls w' → sessions w !! c = Some ses →
  ∃ ses', sessions w' !! c = Some ses' ∧ runs_of c ls + potential ses' ≤ potential ses.
Proof.
  intros Hrun Hses. induction Hrun as [|ls w1 l w2 _ IH _ Hstep]; [by exists ses|].
  destruct IH as (ses1 & Hs1 & Hle). rewrite runs_of_snoc. destruct (is_run c l) eqn:Hl.
  - destruct l as [|c' now room|]; try done. apply bool_decide_eq_true in Hl as ->.
    destruct (handleClient_potential _ _ _ _ _ _ Hstep Hs1) as (ses2 & Hs2 & Hlt).
    exists ses2. split; [done|lia].
  - exists ses1. split; [by eapply relay_step_session|lia].
Qed.

Lemma handleClient_enabled c now room w ses :
  sessions w !! c = Some ses → at_ ses ≠ Closed → is_Some (handleClient c now room w).
Proof.
  intros Hses Hl. unfold handleClient. rewrite Hses. simpl. destruct (at_ ses); try done.
  - by repeat case_match.
  - by repeat case_match.
Qed.

(** ** Properties *)

(** Whatever connections are accepted, whatever they send and however their
    goroutines interleave, an entry of the table of clients is always an open
    connection that registered under that very name: a message is never
    forwarded to a connection of another node, nor to one that has left, when
    the lookup is made. *)
Theorem relay_table_live cfg ls w n c :
  relay_run any_step (init cfg) ls w → table w !! n = Some c →
  registered_as w c n ∧ is_open c w = true.
Proof.
  intros Hrun Hn. assert (registered_as w c n) as Hr by by eapply relay_run_live.
  split; [done|]. destruct Hr as (ses & Hses & _ & Hreg). unfold is_open. rewrite Hses.
  apply bool_decide_eq_true. intros Hc. by rewrite Hc in Hreg.
Qed.

(** C7. As long as no connection registers a name that is in the table, the
    table is exactly the registered connections: whoever has registered and not
    left is found under its name, and only there. *)
Theorem relay_table_exact cfg ls w n c :
  relay_run fresh_name (init cfg) ls w → table w !! n = Some c ↔ registered_as w c n.
Proof.
  intros Hrun. split.
  - intros Hn. eapply relay_run_live; [|exact Hn]. by eapply trace_mono.
  - revert n c. change (table_complete w). eapply trace_invariant, Hrun.
    + by intros n c (ses & Hses & _).
    + intros w1 l w2. apply relay_step_complete.
Qed.

(** Without that condition it is not: the deferred removal of a client goes
    by its name, so when a node has connected again before its old connection is
    given up, the end of the old connection takes the new one out of the table.
    The new connection stays registered, and what is sent to the node from then
    on is dropped. *)
Theorem relay_stale_leave w c1 c2 now room ses1 n msg :
  sessions w !! c1 = Some ses1 → at_ ses1 = Leaving → Name (client ses1) = n →
  c1 ≠ c2 → registered_as w c2 n → DstNode msg = n →
  ∃ w', handleClient c1 now room w = Some w' ∧ table w' !! n = None ∧ registered_as w' c2 n
    ∧ forwardToPeer (server w') msg = Looping.
Proof.
  intros Hses Hat Hn Hne Hreg Hdst. unfold handleClient. rewrite Hses. simpl. rewrite Hat.
  eexists. split; [done|]. subst n.
  assert (delete (Name (client ses1)) (table w) !! Name (client ses1) = None) as Hdel
    by apply lookup_delete_eq.
  split_and!; [done| |].
  - apply registered_as_insert. right. by split.
  - unfold forwardToPeer. simpl. by rewrite Hdst, Hdel.
Qed.

(** C12. First in, first out, and nothing made up: at every moment the frames a
    connection's goroutine has asked to be written, with the one it is writing, are
    in order frames of answers to messages read whole from that connection, a
    DATA message answered with itself and a PING with a PONG.  (Messages to
    names that are not registered are left out.) *)
Theorem relay_in_order cfg ls w c ses :
  relay_run any_step (init cfg) ls w → sessions w !! c = Some ses →
  ∃ ms, reads (whole ses) ms (input ses)
    ∧ written c w ++ pending ses `sublist_of` frame <$> omap reply ms.
Proof. intros Hrun%relay_run_in_order Hses. by apply Hrun. Qed.

(** C13. Framing, over every interleaving and with writes that fail part of the
    way: what the network has taken of the goroutines' writes to a connection is a
    sequence of whole frames, each of a DATA or a PONG the wire format can carry,
    and then, only if a write to it has failed, a frame cut short.  The reader at
    the other end reads back the messages of the whole frames, and reads no message
    from the part when the connection ends there. *)
Theorem relay_output_framed cfg ls w d t :
  relay_run any_step (init cfg) ls w →
  ∃ ms part, received d w = concat (frame <$> ms) ++ part
    ∧ Forall message_ok ms ∧ Forall (λ m, Type_ m = RelayMsgData ∨ Type_ m = RelayMsgPong) ms
    ∧ (d ∉ broken w → part = [])
    ∧ (∃ m rest, message_ok m ∧ frame m = part ++ rest ∧ rest ≠ [])
    ∧ read_many (dec:=readMessage) (length ms) (recv (received d w) ++ t) = (Ok ms, recv part ++ t)
    ∧ is_ok (readMessage (recv part)).1 = false.
Proof.
  intros (ms & part & Hrec & Hok & Hpart & Hcut)%(relay_run_framed _ _ _ d). exists ms, part.
  assert (Forall message_ok ms ∧ Forall (λ m, Type_ m = RelayMsgData ∨ Type_ m = RelayMsgPong) ms)
    as [Hok1 Hok2] by by apply Forall_and.
  split_and!; [done..| | |by apply cut_frame_unread].
  - destruct Hcut as (m & rest & [Hm _] & ?). by exists m, rest.
  - apply (read_many_Ok (enc:=frame)). split_and!; [done..|].
    by rewrite Hrec, fmap_app, <-app_assoc.
Qed.

(** C15. On a connection whose stream ends, the goroutine ends as long as its
    reads and its writes return: in any run, whatever the others do, it takes at
    most 3 * (length of its input) + 2 steps from the moment it is accepted,
    however much of each frame its writes get through, and has a step to take until
    its connection is closed.  When it is, the connection is in the table under no
    name.  (The model lets every read and write return here.  A peer that is silent
    or does not read keeps its goroutine waiting for ever; those are the
    subject of RelayLifecycle.) *)
Theorem handleClient_terminates cfg w ls w' c ses :
  relay_run any_step w ls w' → sessions w !! c = Some ses →
  ∃ ses', sessions w' !! c = Some ses' ∧ runs_of c ls + potential ses' ≤ potential ses
    ∧ (at_ ses' ≠ Closed → ∀ now room, is_Some (handleClient c now room w'))
    ∧ (at_ ses = Accepted → runs_of c ls ≤ 3 * length (input ses) + 2)
    ∧ ∀ ls0 n, relay_run any_step (init cfg) ls0 w' → at_ ses' = Closed →
        table w' !! n ≠ Some c.
Proof.
  intros Hrun Hses.
  destruct (relay_run_potential _ _ _ _ _ _ Hrun Hses) as (ses' & Hses' & Hle).
  exists ses'. split_and!; [done..| | |].
  - intros Hl now room. by eapply handleClient_enabled.
  - intros Hacc. unfold potential at 2 in Hle. rewrite Hacc in Hle. lia.
  - intros ls0 n Hinit Hc (ses1 & Hs1 & _ & Hreg)%(relay_run_live _ _ _ Hinit).
    simplify_eq. by rewrite Hc in Hreg.
Qed.

(** ** Witnesses

    Node [b] registers on connection 2; node [a] registers on connection 1, sends
    [b] a packet and a PING, and is cut off.  Both are run by turns. *)
Definition reg (n : gostring) : RelayMessage := mkRelayMessage RelayMsgRegister n [] [].
Definition ex_data : RelayMessage :=
  mkRelayMessage RelayMsgData (str "a") (str "b") [x01; x02].
Definition ex_ping : RelayMessage := mkRelayMessage RelayMsgPing [] [] [].
Definition ex_a : stream := recv (concat (frame <$> [reg (str "a"); ex_data; ex_ping])).
Definition ex_b : stream := recv (frame (reg (str "b"))) ++ [Deadline].
Definition ex_labels : list label :=
  [Accept 1 ex_a; Accept 2 ex_b; Run 1 0 100; Run 2 0 100; Run 1 1 100; Run 2 1 100; Run 1 2 100; Run 1 2 100; Run 1 3 100;
   Run 1 4 100]%Z.
Definition ex_start : world := init zero_Config.
Definition ex_world : world := default ex_start (exec relay_step ex_labels ex_start).

Lemma ex_run : relay_run any_step ex_start ex_labels ex_world.
Proof. apply exec_trace. vm_compute. reflexivity. Qed.

Lemma relay_table_live_witness :
  table ex_world !! str "b" = Some 2 ∧ registered_as ex_world 2 (str "b") ∧ is_open 2 ex_world = true.
Proof.
  split; [vm_compute; reflexivity|].
  apply (relay_table_live zero_Config ex_labels ex_world (str "b") 2 ex_run). vm_compute. reflexivity.
Defined.

Lemma ex_fresh_run : relay_run fresh_name ex_start (take 4 ex_labels)
  (default ex_start (exec relay_step (take 4 ex_labels) ex_start)).
Proof.
  change (take 4 ex_labels) with ((([] ++ [Accept 1 ex_a]) ++ [Accept 2 ex_b]) ++ [Run 1 0 100]
    ++ [Run 2 0 100])%Z.
  rewrite app_assoc.
  eapply trace_step; [eapply trace_step; [eapply trace_step; [eapply trace_step; [apply trace_start|..]|..]|..]|..];
    try exact I; try (vm_compute; reflexivity).
  all: intros ses msg s Hs _ Hm _; vm_compute in Hs; injection Hs as <-; vm_compute in Hm;
    injection Hm as <- <-; vm_compute; reflexivity.
Qed.

Lemma relay_table_exact_witness :
  registered_as (default ex_start (exec relay_step (take 4 ex_labels) ex_start)) 1 (str "a").
Proof.
  apply (relay_table_exact zero_Config _ _ (str "a") 1 ex_fresh_run). vm_compute. reflexivity.
Defined.

Lemma relay_in_order_witness :
  is_Some (sessions ex_world !! 1) ∧
  ∃ ses ms, sessions ex_world !! 1 = Some ses ∧ reads (whole ses) ms (input ses)
    ∧ [frame ex_data; [RelayMsgPong]] `sublist_of` frame <$> omap reply ms.
Proof.
  split; [vm_compute; by eexists|].
  destruct (sessions ex_world !! 1) as [ses|] eqn:Hses; [|vm_compute in Hses; discriminate Hses].
  destruct (relay_in_order zero_Config ex_labels ex_world 1 ses ex_run Hses) as (ms & Hr & Hsub).
  exists ses, ms. split_and!; [done..|]. vm_compute in Hses. injection Hses as <-.
  exact Hsub.
Defined.

(** The write to [b] is cut short after two bytes. *)
Definition ex_cut_labels : list label :=
  ([Accept 1 ex_a; Accept 2 ex_b; Run 1 0 100; Run 2 0 100; Run 1 1 100; Run 1 2 100; Run 1 2 2])%Z.
Definition ex_cut_world : world := default ex_start (exec relay_step ex_cut_labels ex_start).

Lemma relay_output_framed_witness :
  received 2 ex_cut_world = take 2 (frame ex_data) ∧
  ∃ ms part, received 2 ex_cut_world = concat (frame <$> ms) ++ part
    ∧ read_many (dec:=readMessage) (length ms) (recv (received 2 ex_cut_world) ++ [])
      = (Ok ms, recv part ++ []).
Proof.
  split; [vm_compute; reflexivity|].
  destruct (relay_output_framed zero_Config ex_cut_labels ex_cut_world 2 [])
    as (ms & part & H & _ & _ & _ & _ & Hr & _).
  - apply exec_trace. vm_compute. reflexivity.
  - by exists ms, part.
Defined.

(** The same node on two connections, the first one given up. *)
Definition ex_again : list label :=
  [Accept 1 (recv (frame (reg (str "b")))); Run 1 0 100; Accept 2 ex_b; Run 2 1 100; Run 1 2 100; Run 1 2 100]%Z.
Definition ex_twice : world := default ex_start (exec relay_step ex_again ex_start).

Lemma relay_stale_leave_witness :
  relay_run any_step ex_start ex_again ex_twice ∧ table ex_twice !! str "b" = Some 2 ∧
  ∃ w', handleClient 1 3 100 ex_twice = Some w' ∧ table w' !! str "b" = None
    ∧ registered_as w' 2 (str "b") ∧ forwardToPeer (server w') ex_data = Looping.
Proof.
  split_and!; [apply exec_trace; vm_compute; reflexivity|vm_compute; reflexivity|].
  destruct (sessions ex_twice !! 1) as [ses|] eqn:Hses; [|vm_compute in Hses; discriminate Hses].
  apply (relay_stale_leave ex_twice 1 2 3 100 ses (str "b") ex_data Hses).
  - vm_compute in Hses. injection Hses as <-. reflexivity.
  - vm_compute in Hses. injection Hses as <-. reflexivity.
  - discriminate.
  - vm_compute. eexists. split_and!; reflexivity.
  - reflexivity.
Defined.

Lemma handleClient_terminates_witness :
  ∃ ses', sessions ex_world !! 1 = Some ses'
    ∧ runs_of 1 (drop 2 ex_labels) + potential ses' ≤ 3 * length ex_a + 2.
Proof.
  destruct (handleClient_terminates zero_Config
    (default ex_start (exec relay_step (take 2 ex_labels) ex_start)) (drop 2 ex_labels) ex_world 1
    (mkSession (mkRelayClient [] [] 0) Accepted ex_a ex_a)) as (ses' & Hs & Hle & _).
  - apply exec_trace. vm_compute. reflexivity.
  - vm_compute. reflexivity.
  - by exists ses'.
Defined.
