(* ===== verification/RelayLifecycle.v ===== *)
(** * relay.go: starting and stopping the relay server

    [buildTLSConfig] and [Start], and the life of a started server: the accept
    loop, the goroutines of [RelayServer] fed by connections whose bytes arrive
    over time and whose peers may stay silent or stop reading, the cancellation of
    the context, and [Stop].  The certificates are third-party to the program: [TLSLibrary]
    holds the calls on crypto/tls and crypto/x509. *)
From S2P Require Import Prelude Bytes Config RelayWire RelayServer.
From Stdlib Require Import Init.Byte.

(** ** The TLS configuration *)
Class TLSLibrary := {
  Certificate : Type;
  CertPool : Type;
  LoadX509KeyPair : gostring → gostring → option Certificate;
  NewCertPool : CertPool;
  (** Whether a certificate was found in a text, and the pool with those found. *)
  AppendCertsFromPEM : list byte → CertPool → bool * CertPool
}.

Inductive client_auth := NoClientCert | RequireAndVerifyClientCert.
Inductive tls_error := ErrNotConfigured | ErrLoadingCert | ErrReadingCA.
Inductive start_error := ErrListen.

(** [tls.VersionTLS13] *)
Definition VersionTLS13 : Z := 772.

Section tls.
Context `{TLSLibrary}.
(** [os.ReadFile], and whether an address can be listened on. *)
Variables (ReadFile : gostring → option (list byte)) (Listen : gostring → bool).

Record tls_config := mkTlsConfig {
  Certificates : list Certificate;
  MinVersion : Z;
  ClientCAs : option CertPool;
  ClientAuth : client_auth
}.

Definition buildTLSConfig (c : Config) : outcome tls_error tls_config :=
  let tls := relay_TLS (Relay c) in
  if decide (tls_CertFile tls = [] ∨ tls_KeyFile tls = []) then Err ErrNotConfigured else
  cert ← or_fail ErrLoadingCert (LoadX509KeyPair (tls_CertFile tls) (tls_KeyFile tls));
  if decide (tls_CAFile tls = []) then Ok (mkTlsConfig [cert] VersionTLS13 None NoClientCert) else
  caCert ← or_fail ErrReadingCA (ReadFile (tls_CAFile tls));
  Ok (mkTlsConfig [cert] VersionTLS13 (Some (snd (AppendCertsFromPEM caCert NewCertPool)))
    RequireAndVerifyClientCert).

(** What the server listens with, and what it says in its log of TLS. *)
Inductive listen_mode := Plain | Tls (c : tls_config).
Record listening := mkListening { mode : listen_mode; logged_tls : bool }.

(** [tls.Listen] refuses a configuration without certificates. *)
Definition tls_Listen (addr : gostring) (c : tls_config) : bool :=
  bool_decide (Certificates c ≠ []) && Listen addr.

Definition open_listener (c : Config) : outcome start_error listening :=
  let addr := relay_ListenAddr (Relay c) in
  let logged := bool_decide (tls_CertFile (relay_TLS (Relay c)) ≠ []) in
  match buildTLSConfig c with
  | Ok t => if tls_Listen addr t then Ok (mkListening (Tls t) logged) else Err ErrListen
  | _ => if Listen addr then Ok (mkListening Plain logged) else Err ErrListen
  end.
End tls.
Arguments mkListening {_} _ _.

(** ** The life of a server *)
Inductive listener_state := NoListener | Listening | ListenerClosed.
(** The accept loop: not started, in [Accept], returned. *)
Inductive acceptor_state := NotStarted | Accepting | AcceptReturned.
(** [Stop]: not called, waiting for the goroutines, returned. *)
Inductive stop_state := NotStopping | Waiting | Stopped.
#[export] Instance acceptor_state_eq_dec : EqDecision acceptor_state.
Proof. solve_decision. Defined.
#[export] Instance listener_state_eq_dec : EqDecision listener_state.
Proof. solve_decision. Defined.
#[export] Instance stop_state_eq_dec : EqDecision stop_state.
Proof. solve_decision. Defined.

(** [held] are the connections whose peers keep their end open, [stalled] those
    whose peers have stopped reading until the buffers were full. *)
Record lifecycle := mkLifecycle {
  relay : world;
  listener : listener_state;
  acceptor : acceptor_state;
  stopping : stop_state;
  held : gset nat;
  stalled : gset nat
}.
Definition new_lifecycle (cfg : Config) : lifecycle :=
  mkLifecycle (RelayServer.init cfg) NoListener NotStarted NotStopping ∅ ∅.

Definition Start `{TLSLibrary} (ReadFile : gostring → option (list byte))
    (Listen : gostring → bool) : stateful lifecycle start_error listening := λ L,
  match open_listener ReadFile Listen (cfg (server (relay L))) with
  | Ok l => (Ok l, mkLifecycle (relay L) Listening Accepting (stopping L) (held L) (stalled L))
  | Err e => (Err e, L)
  | Panic => (Panic, L)
  | OutOfFuel => (OutOfFuel, L)
  end.

(** More of a connection's stream: [f c] comes after what connection [c] has
    delivered so far. *)
Definition extend_session (t : stream) (ses : session) : session :=
  mkSession (client ses) (at_ ses) (whole ses ++ t) (input ses ++ t).
Definition extend (f : nat → stream) (w : world) : world :=
  mkWorld (server w) (map_imap (λ c ses, Some (extend_session (f c) ses)) (sessions w))
    (sent w) (broken w) (ctx_done w).
Definition only (c : nat) (t : stream) : nat → stream := λ c', if decide (c' = c) then t else [].

(** The bytes that have arrived end inside the message that is being read. *)
Definition runs_out (ses : session) : bool :=
  match fst (readMessage (input ses)) with Err (ErrEOF | ErrUnexpectedEOF) => true | _ => false end.

(** What happens to a server: a connection is accepted, [Accept] fails, bytes
    arrive, a peer closes its end, stops reading or reads again (or is gone), a
    goroutine takes a step, the context is cancelled, [Stop] is called, and [Stop]
    returns. *)
Inductive life_label :=
  | Connect (c : nat)
  | AcceptFails
  | Deliver (c : nat) (bs : list byte)
  | Hangup (c : nat)
  | Stall (c : nat)
  | Unstall (c : nat)
  | Work (c : nat) (now : Z) (room : nat)
  | CancelCtx
  | CallStop
  | StopReturns.

(** A write to [d] does not return: its peer does not read, and the connection is
    neither closed nor lost. *)
Definition stuck (d : nat) (L : lifecycle) : Prop :=
  d ∈ stalled L ∧ is_open d (relay L) = true ∧ d ∉ broken (relay L).
#[export] Instance stuck_dec d L : Decision (stuck d L).
Proof. unfold stuck. apply _. Defined.

(** A goroutine that finds no more bytes on a connection that is still open
    waits: for ever before the registration, where no deadline is set, and until
    the deadline passes in the message loop.  A write has no deadline either. *)
Definition work (c : nat) (now : Z) (room : nat) (L : lifecycle) : option world :=
  ses ← sessions (relay L) !! c;
  let waits := bool_decide (c ∈ held L) && runs_out ses in
  match at_ ses with
  | Accepted => if waits then None else handleClient c now room (relay L)
  | Reading =>
    handleClient c now room (if waits then extend (only c [Deadline]) (relay L) else relay L)
  | Writing d _ => if decide (stuck d L) then None else handleClient c now room (relay L)
  | _ => handleClient c now room (relay L)
  end.

Definition set_relay (w : world) (L : lifecycle) : lifecycle :=
  mkLifecycle w (listener L) (acceptor L) (stopping L) (held L) (stalled L).
Definition set_stalled (X : gset nat) (L : lifecycle) : lifecycle :=
  mkLifecycle (relay L) (listener L) (acceptor L) (stopping L) (held L) X.

Definition all_closed (w : world) : Prop := map_Forall (λ _ ses, at_ ses = Closed) (sessions w).
#[export] Instance all_closed_dec w : Decision (all_closed w).
Proof. unfold all_closed. apply _. Defined.

Definition life_step (l : life_label) (L : lifecycle) : option lifecycle :=
  match l with
  | Connect c =>
    if decide (acceptor L = Accepting ∧ listener L = Listening) then
      w ← relay_step (Accept c []) (relay L);
      Some (mkLifecycle w (listener L) (acceptor L) (stopping L) ({[c]} ∪ held L) (stalled L))
    else None
  | AcceptFails =>
    if decide (acceptor L = Accepting) then
      Some (mkLifecycle (relay L) (listener L)
        (if ctx_done (relay L) then AcceptReturned else Accepting) (stopping L) (held L) (stalled L))
    else None
  | Deliver c bs =>
    if decide (c ∈ held L) then Some (set_relay (extend (only c (recv bs)) (relay L)) L) else None
  | Hangup c =>
    if decide (c ∈ held L) then
      Some (mkLifecycle (relay L) (listener L) (acceptor L) (stopping L) (held L ∖ {[c]}) (stalled L))
    else None
  | Stall c => Some (set_stalled ({[c]} ∪ stalled L) L)
  | Unstall c => Some (set_stalled (stalled L ∖ {[c]}) L)
  | Work c now room => w ← work c now room L; Some (set_relay w L)
  | CancelCtx => w ← relay_step Cancel (relay L); Some (set_relay w L)
  | CallStop =>
    if decide (stopping L = NotStopping) then
      Some (mkLifecycle (relay L)
        (if decide (listener L = Listening) then ListenerClosed else listener L)
        (acceptor L) Waiting (held L) (stalled L))
    else None
  | StopReturns =>
    if decide (stopping L = Waiting ∧ acceptor L ≠ Accepting ∧ all_closed (relay L)) then
      Some (mkLifecycle (relay L) (listener L) (acceptor L) Stopped (held L) (stalled L))
    else None
  end.

Abbreviation life_run := (trace life_step).
(** A server that [Start] has started. *)
Definition started (cfg : Config) : lifecycle :=
  mkLifecycle (RelayServer.init cfg) Listening Accepting NotStopping ∅ ∅.

(** ** Bytes that arrive later *)
Lemma extend_lookup f w c :
  sessions (extend f w) !! c = extend_session (f c) <$> sessions w !! c.
Proof. simpl. rewrite map_lookup_imap. by destruct (sessions w !! c). Qed.

Lemma extend_session_nil ses : extend_session [] ses = ses.
Proof. destruct ses. unfold extend_session. simpl. by rewrite !app_nil_r. Qed.

Lemma world_eq w1 w2 :
  server w1 = server w2 → sessions w1 = sessions w2 → sent w1 = sent w2 →
  broken w1 = broken w2 → ctx_done w1 = ctx_done w2 → w1 = w2.
Proof. destruct w1, w2. simpl. by intros -> -> -> -> ->. Qed.

(** Two extensions that agree on the connections there are. *)
Lemma extend_ext f g w :
  (∀ c, is_Some (sessions w !! c) → f c = g c) → extend f w = extend g w.
Proof.
  intros Hfg. apply world_eq; try done. apply map_eq. intros c. rewrite !extend_lookup.
  destruct (sessions w !! c) eqn:Hc; [|done]. simpl. by rewrite Hfg by (by rewrite Hc).
Qed.

Lemma extend_nil f w : (∀ c, is_Some (sessions w !! c) → f c = []) → extend f w = w.
Proof.
  intros Hf. apply world_eq; try done. apply map_eq. intros c. rewrite extend_lookup.
  destruct (sessions w !! c) eqn:Hc; [|done]. simpl.
  by rewrite Hf, extend_session_nil by (by rewrite Hc).
Qed.

Lemma extend_extend f g w : extend f (extend g w) = extend (λ c, g c ++ f c) w.
Proof.
  apply world_eq; try done. apply map_eq. intros c. rewrite !extend_lookup.
  destruct (sessions w !! c) as [[]|]; [|done]. unfold extend_session. simpl.
  by rewrite !app_assoc.
Qed.

Lemma extend_set_session f c ses w :
  extend f (set_session c ses w) = set_session c (extend_session (f c) ses) (extend f w).
Proof.
  apply world_eq; try done. simpl. apply map_eq. intros c'.
  rewrite map_lookup_imap. destruct (decide (c' = c)) as [->|Hne].
  - by rewrite !lookup_insert_eq.
  - by rewrite !lookup_insert_ne, map_lookup_imap by done.
Qed.

Lemma extend_set_clients f g w : extend f (set_clients g w) = set_clients g (extend f w).
Proof. done. Qed.

Lemma is_open_extend f d w : is_open d (extend f w) = is_open d w.
Proof. unfold is_open. rewrite extend_lookup. by destruct (sessions w !! d). Qed.

Lemma extend_conn_write f by_ to_ bs room w :
  extend f (conn_write by_ to_ bs room w) = conn_write by_ to_ bs room (extend f w).
Proof.
  unfold conn_write. assert (taken to_ bs room (extend f w) = taken to_ bs room w) as ->; [|done].
  unfold taken. by rewrite is_open_extend.
Qed.

Lemma readMessage_extend ses o s' t :
  readMessage (input ses) = (o, s') → runs_out ses = false →
  readMessage (input ses ++ t) = (o, s' ++ t).
Proof.
  unfold runs_out. intros Hr. rewrite Hr. pose proof (StreamReader_readMessage (input ses)) as Hs.
  rewrite Hr in Hs. destruct o as [m|[| | |n]| |]; try done; intros _.
  - destruct Hs as (c & -> & Hs). by rewrite <-app_assoc, Hs.
  - destruct Hs as (c & -> & Hs). by rewrite <-app_assoc, <-app_comm_cons, Hs.
  - destruct Hs as (c & -> & Hs). by rewrite <-app_assoc, Hs.
Qed.

(** What a goroutine does with the bytes it has, it does when more follow. *)
Lemma handleClient_extend f c now room w w' :
  handleClient c now room w = Some w' →
  (∀ ses, sessions w !! c = Some ses → at_ ses = Accepted ∨ at_ ses = Reading →
     runs_out ses = true → f c = []) →
  handleClient c now room (extend f w) = Some (extend f w').
Proof.
  unfold handleClient. intros (ses & Hses & Hstep)%bind_Some Hout. rewrite extend_lookup, Hses.
  cbn [fmap option_fmap option_map mbind option_bind].
  specialize (Hout ses Hses). destruct ses as [cl loc ws s].
  unfold extend_session. cbn [client at_ whole input] in *.
  assert (loc = Accepted ∨ loc = Reading → ∀ o s', readMessage s = (o, s') →
    readMessage (s ++ f c) = (o, s' ++ f c)) as Hread.
  { intros Hloc o s' Hr. destruct (runs_out (mkSession cl loc ws s)) eqn:Ho.
    - rewrite (Hout Hloc) by done. by rewrite !app_nil_r.
    - exact (readMessage_extend (mkSession cl loc ws s) o s' (f c) Hr Ho). }
  destruct loc as [| | |dst bs| | |].
  - destruct (readMessage s) as [o s1]. rewrite (Hread ltac:(by left) o s1) by done.
    destruct o as [msg|e| |]; [case_decide|..]; injection Hstep as <-;
      rewrite extend_set_session; done.
  - injection Hstep as <-. by rewrite extend_set_session.
  - destruct (readMessage s) as [o s1]. rewrite (Hread ltac:(by right) o s1) by done.
    destruct o as [msg|e| |]; injection Hstep as <-.
    2-4: by rewrite extend_set_session.
    unfold handle_message. f_equal. cbn [client whole].
    repeat case_decide; by rewrite extend_set_session.
  - injection Hstep as <-. by rewrite extend_conn_write, extend_set_session.
  - injection Hstep as <-. by rewrite extend_set_session.
  - injection Hstep as <-. by rewrite extend_set_session.
  - done.
Qed.

(** A deadline that passes ends the wait. *)
Lemma runs_out_deadline ses t : runs_out (extend_session (Deadline :: t) ses) = true → runs_out ses = false.
Proof.
  destruct ses as [cl loc ws s]. unfold runs_out, extend_session. cbn [input].
  pose proof (StreamReader_readMessage s) as Hs.
  destruct (readMessage s) as [[m|[| | |n]| |] s']; try done; cbn [fst]; intros H;
    exfalso; destruct Hs as (c & -> & -> & Hs); by rewrite Hs in H.
Qed.

(** ** The server seen as [RelayServer] sees it

    There a connection is accepted with everything it will ever deliver. *)
Definition relay_reaches (cfg : Config) (w : world) : Prop :=
  ∃ ls, relay_run any_step (RelayServer.init cfg) ls w.

Lemma relay_reaches_step cfg w l w' :
  relay_reaches cfg w → relay_step l w = Some w' → relay_reaches cfg w'.
Proof. intros [ls Hls] Hl. exists (ls ++ [l]). by econstructor. Qed.

Definition foreseen (cfg : Config) (L : lifecycle) : Prop :=
  ∀ f, (∀ c, c ∉ held L → f c = []) → relay_reaches cfg (extend f (relay L)).

Lemma foreseen_connect cfg L c w' :
  foreseen cfg L → relay_step (Accept c []) (relay L) = Some w' →
  ∀ f, (∀ c', c' ∉ {[c]} ∪ held L → f c' = []) → relay_reaches cfg (extend f w').
Proof.
  intros HL Hstep f Hf. simpl in Hstep. destruct (sessions (relay L) !! c) eqn:Hc; [done|].
  injection Hstep as <-. rewrite extend_set_session.
  pose (g := λ c', if decide (c' = c) then [] else f c').
  assert (extend f (relay L) = extend g (relay L)) as Hfg.
  { apply extend_ext. intros c' [ses Hses]. unfold g. rewrite decide_False by congruence. done. }
  eapply (relay_reaches_step _ (extend g (relay L)) (Accept c (f c))).
  - apply HL. intros c' Hc'. unfold g. case_decide; [done|]. apply Hf. set_solver.
  - simpl. change (map_imap _ _) with (sessions (extend g (relay L))).
    rewrite extend_lookup, Hc. simpl. by rewrite Hfg.
Qed.

(** What a goroutine does in a lifecycle is a step of [handleClient], after the
    deadline has passed if it waits for one. *)
Lemma work_handleClient c now room L w' :
  work c now room L = Some w' →
  ∃ t, handleClient c now room (extend (only c t) (relay L)) = Some w'
    ∧ (t ≠ [] → c ∈ held L)
    ∧ (∀ ses, sessions (relay L) !! c = Some ses → at_ ses = Accepted ∨ at_ ses = Reading →
         runs_out (extend_session t ses) = true → c ∉ held L).
Proof.
  unfold work. intros (ses & Hses & Hstep)%bind_Some.
  assert (∀ g, g = only c [] → extend g (relay L) = relay L) as Hnil.
  { intros g ->. apply extend_nil. intros c' _. unfold only. by destruct (decide (c' = c)). }
  assert (∀ t, at_ ses = Accepted ∨ at_ ses = Reading →
    (c ∈ held L → runs_out (extend_session t ses) = true → False) →
    ∀ ses1, sessions (relay L) !! c = Some ses1 → at_ ses1 = Accepted ∨ at_ ses1 = Reading →
    runs_out (extend_session t ses1) = true → c ∉ held L) as Hout.
  { intros t Hat Hr ses1 Hs1 _. rewrite Hses in Hs1. injection Hs1 as <-. naive_solver. }
  destruct (at_ ses) as [| | |d bs| | |] eqn:Hat.
  2,4-7: exists []; rewrite Hnil by done; (split_and!; [|done|]);
    [by try case_decide|
     intros ses1 Hs1; rewrite Hses in Hs1; injection Hs1 as <-; rewrite Hat; by intros []].
  - destruct (bool_decide _ && _) eqn:Hw; [done|]. exists []. rewrite Hnil by done.
    split_and!; [done..|]. apply Hout; [by left|]. rewrite extend_session_nil.
    intros Hh Hr. by rewrite bool_decide_true, Hr in Hw.
  - destruct (bool_decide _ && _) eqn:Hw.
    + apply andb_prop in Hw as [Hh%bool_decide_eq_true Hr]. exists [Deadline].
      split_and!; [done..|]. apply Hout; [by right|].
      intros _ Hr'%runs_out_deadline. congruence.
    + exists []. rewrite Hnil by done. split_and!; [done..|]. apply Hout; [by right|].
      rewrite extend_session_nil. intros Hh Hr. by rewrite bool_decide_true, Hr in Hw.
Qed.

Lemma foreseen_work cfg L c now room w' :
  foreseen cfg L → work c now room L = Some w' →
  ∀ f, (∀ c', c' ∉ held L → f c' = []) → relay_reaches cfg (extend f w').
Proof.
  intros HL (t & Hstep & Ht & Hout)%work_handleClient f Hf.
  eapply (relay_reaches_step _ (extend f (extend (only c t) (relay L))) (Run c now room)).
  - rewrite extend_extend. apply HL. intros c' Hc'. rewrite (Hf c' Hc'), app_nil_r.
    unfold only. case_decide; [|done]. subst c'.
    destruct t; [done|]. by destruct Hc'; apply Ht.
  - apply handleClient_extend; [done|]. intros ses1.
    rewrite extend_lookup. intros (ses & Hses & ->)%fmap_Some Hat Hr. apply Hf.
    unfold only in *. rewrite decide_True in * by done. by eapply Hout.
Qed.

Lemma life_step_foreseen cfg l L L' :
  foreseen cfg L → life_step l L = Some L' → foreseen cfg L'.
Proof.
  intros HL. destruct l as [c| |c bs|c|c|c|c now room| | |]; cbn [life_step].
  - case_decide; [|done]. intros (w' & Hw & [= <-])%bind_Some f. simpl.
    by eapply foreseen_connect.
  - case_decide; [|done]. by intros [= <-].
  - case_decide as Hc; [|done]. intros [= <-] f Hf. simpl. rewrite extend_extend.
    apply HL. intros c' Hc'. unfold only. rewrite decide_False by (by intros ->). by apply Hf.
  - case_decide; [|done]. intros [= <-] f Hf. apply HL. intros c' Hc'. apply Hf. set_solver.
  - by intros [= <-].
  - by intros [= <-].
  - intros (w' & Hw & [= <-])%bind_Some f Hf. by apply (foreseen_work _ _ _ _ _ _ HL Hw).
  - intros [= <-] f Hf. eapply (relay_reaches_step _ (extend f (relay L)) Cancel); [by apply HL|done].
  - case_decide; [|done]. by intros [= <-].
  - case_decide; [|done]. by intros [= <-].
Qed.

Lemma life_run_foreseen cfg ls L : life_run any_step (started cfg) ls L → foreseen cfg L.
Proof.
  apply trace_invariant.
  - intros f _. exists []. rewrite extend_nil; [constructor|]. by intros c [ses ?].
  - intros L1 l L2 HL _. by apply life_step_foreseen.
Qed.

Lemma life_run_reaches cfg ls L :
  life_run any_step (started cfg) ls L → relay_reaches cfg (relay L).
Proof.
  intros HL%life_run_foreseen. rewrite <-(extend_nil (λ _, []) (relay L)) by done. by apply HL.
Qed.

(** ** Shutting down

    Once the context is done, a goroutine reads at most one more message: [rank]
    bounds its steps. *)
Definition rank (l : location) : nat :=
  match l with
  | Accepted => 4
  | Reading => 5
  | Writing _ _ => 4
  | Looping => 3
  | Leaving => 2
  | Closing => 1
  | Closed => 0
  end.
Definition total_rank (m : gmap nat location) : nat := map_fold (λ _ l n, rank l + n) 0 m.
Definition locations (w : world) : gmap nat location := at_ <$> sessions w.

Lemma total_rank_insert m c l l' :
  m !! c = Some l → total_rank (<[c := l']> m) + rank l = total_rank m + rank l'.
Proof.
  intros Hc. rewrite <-(insert_delete_id m c l) at 2 by done.
  rewrite <-(insert_delete_eq m c l'). unfold total_rank.
  rewrite !map_fold_insert_L by (try apply lookup_delete_eq; intros; lia). lia.
Qed.

Lemma locations_extend f w : locations (extend f w) = locations w.
Proof.
  apply map_eq. intros c. unfold locations. rewrite !lookup_fmap, extend_lookup.
  by destruct (sessions w !! c).
Qed.

(** The session a step has left, from its lookup. *)
Ltac session_of H := simpl in H; rewrite lookup_insert_eq in H; injection H as <-; cbn.

Lemma handleClient_rank c now room w w' ses ses' :
  ctx_done w = true → handleClient c now room w = Some w' →
  sessions w !! c = Some ses → sessions w' !! c = Some ses' →
  rank (at_ ses') < rank (at_ ses) ∧ ctx_done w' = true.
Proof.
  unfold handleClient. intros Hctx Hstep Hses Hses'. rewrite Hses in Hstep.
  destruct ses as [cl loc ws s].
  cbn [mbind option_bind client at_ whole input] in *. destruct loc as [| | |dst bs| | |].
  - destruct (readMessage s) as [[msg|e| |] s1]; [case_decide|..]; injection Hstep as <-;
      session_of Hses'; (split; [lia|done]).
  - rewrite Hctx in Hstep. injection Hstep as <-. session_of Hses'. split; [lia|done].
  - destruct (readMessage s) as [[msg|e| |] s1]; injection Hstep as <-.
    2: session_of Hses'; (split; [destruct e; cbn; lia|done]).
    2-3: session_of Hses'; (split; [lia|done]).
    unfold handle_message in *. cbn [client whole] in *.
    repeat case_decide; session_of Hses'; (split; [|done]); unfold forwardToPeer;
      try lia. destruct (clients _ !! _); cbn; lia.
  - injection Hstep as <-. session_of Hses'. split; [lia|done].
  - injection Hstep as <-. session_of Hses'. split; [lia|done].
  - injection Hstep as <-. session_of Hses'. split; [lia|done].
  - done.
Qed.

Lemma handleClient_total_rank c now room w w' :
  ctx_done w = true → handleClient c now room w = Some w' →
  total_rank (locations w') < total_rank (locations w) ∧ ctx_done w' = true.
Proof.
  intros Hctx Hstep. destruct (handleClient_effect _ _ _ _ _ Hstep) as (ses & ses' & Hses & Hw' & _).
  destruct (handleClient_rank c now room w w' ses ses') as [Hlt ?]; [done..| |].
  { rewrite Hw'. apply lookup_insert_eq. }
  split; [|done]. unfold locations. rewrite Hw', fmap_insert.
  pose proof (total_rank_insert (at_ <$> sessions w) c (at_ ses) (at_ ses')) as Ht.
  rewrite lookup_fmap, Hses in Ht. specialize (Ht eq_refl). lia.
Qed.

(** The steps that are the program's to take; the others are the world's. *)
Definition own (l : life_label) : bool :=
  match l with Work _ _ _ | AcceptFails | StopReturns => true | _ => false end.
Definition own_steps (ls : list life_label) : nat := length (filter own ls).
Definition life_potential (L : lifecycle) : nat :=
  total_rank (locations (relay L))
  + (if decide (acceptor L = Accepting) then 1 else 0)
  + (if decide (stopping L = Waiting) then 1 else 0).

Lemma own_steps_snoc ls l : own_steps (ls ++ [l]) = own_steps ls + (if own l then 1 else 0).
Proof.
  unfold own_steps. rewrite filter_app, length_app. by destruct l.
Qed.

(** What [Stop] can count on. *)
Record stop_invariant (L : lifecycle) : Prop := mkStopInvariant {
  stop_listener : stopping L ≠ NotStopping → listener L = ListenerClosed;
  stop_started : acceptor L ≠ NotStarted;
  stop_acceptor : acceptor L = AcceptReturned → ctx_done (relay L) = true;
  stop_returned : stopping L = Stopped → acceptor L = AcceptReturned ∧ all_closed (relay L);
  stop_open : listener L ≠ NoListener
}.

Lemma handleClient_ctx c now room w w' :
  handleClient c now room w = Some w' → ctx_done w' = ctx_done w.
Proof.
  unfold handleClient. intros (ses & _ & Hstep)%bind_Some. destruct (at_ ses).
  1,3: destruct (readMessage (input ses)) as [[msg|e| |] s1]; try (by injection Hstep as <-).
  - case_decide; by injection Hstep as <-.
  - injection Hstep as <-. unfold handle_message. by repeat case_decide.
  - by injection Hstep as <-.
  - by injection Hstep as <-.
  - by injection Hstep as <-.
  - by injection Hstep as <-.
  - done.
Qed.

Lemma work_locations c now room L w' :
  work c now room L = Some w' →
  ∃ w, handleClient c now room w = Some w' ∧ locations w = locations (relay L)
    ∧ ctx_done w = ctx_done (relay L).
Proof.
  intros (t & Hstep & _)%work_handleClient.
  eexists. split_and!; [exact Hstep|apply locations_extend|done].
Qed.

Lemma all_closed_locations w : all_closed w ↔ map_Forall (λ _ l, l = Closed) (locations w).
Proof. unfold all_closed, locations. by rewrite map_Forall_fmap. Qed.

Lemma handleClient_not_closed c now room w w' :
  handleClient c now room w = Some w' → ¬ all_closed w.
Proof.
  unfold handleClient. intros (ses & Hses & Hstep)%bind_Some Hall.
  apply (map_Forall_lookup_1 _ _ _ _ Hall) in Hses. by rewrite Hses in Hstep.
Qed.

Lemma life_step_stop l L L' : stop_invariant L → life_step l L = Some L' → stop_invariant L'.
Proof.
  intros [HL Hst Hacc Hret Hop]. destruct l as [c| |c bs|c|c|c|c now room| | |]; cbn [life_step].
  - case_decide as Hc; [|done]. intros (w' & Hw & [= <-])%bind_Some.
    destruct Hc as [Ha _]. split; cbn; try done; [by rewrite Ha|].
    intros Hs. apply Hret in Hs as [Hr _]. congruence.
  - case_decide as Hc; [|done]. intros [= <-]. split; cbn; try done.
    + by destruct (ctx_done (relay L)).
    + by destruct (ctx_done (relay L)).
    + intros Hs. apply Hret in Hs as [Ha _]. congruence.
  - case_decide as Hc; [|done]. intros [= <-]. split; try done. intros Hs. split; [by apply Hret|].
    apply all_closed_locations. cbn [relay set_relay]. rewrite locations_extend.
    apply all_closed_locations. by apply Hret.
  - case_decide as Hc; [|done]. by intros [= <-].
  - by intros [= <-].
  - by intros [= <-].
  - intros (w' & (w & Hw & Hloc & Hctx)%work_locations & [= <-])%bind_Some. split; cbn; try done.
    + intros Ha. rewrite (handleClient_ctx _ _ _ _ _ Hw), Hctx. by apply Hacc.
    + intros Hs. apply Hret in Hs as [_ Hall%all_closed_locations]. exfalso.
      eapply handleClient_not_closed; [exact Hw|]. apply all_closed_locations. by rewrite Hloc.
  - intros [= <-]. by split.
  - case_decide as Hc; [|done]. intros [= <-]. split; cbn; try done.
    + intros _. destruct (listener L); [done|by rewrite decide_True by done|done].
    + destruct (listener L); [done| |]; by case_decide.
  - case_decide as Hc; [|done]. intros [= <-]. destruct Hc as (Hw & Ha & Hall).
    split; cbn; try done.
    + intros _. apply HL. congruence.
    + intros _. split; [|done]. by destruct (acceptor L).
Qed.

Lemma life_run_stop cfg ls L : life_run any_step (started cfg) ls L → stop_invariant L.
Proof.
  apply trace_invariant; [by split|]. intros L1 l L2 HL _. by apply life_step_stop.
Qed.

Lemma life_step_potential l L L' :
  stop_invariant L → ctx_done (relay L) = true → stopping L ≠ NotStopping →
  life_step l L = Some L' →
  ctx_done (relay L') = true ∧ stopping L' ≠ NotStopping
  ∧ (if own l then 1 else 0) + life_potential L' ≤ life_potential L.
Proof.
  intros HL Hctx Hstop. pose proof (stop_listener L HL Hstop) as Hlist. unfold life_potential.
  destruct l as [c| |c bs|c|c|c|c now room| | |]; cbn [life_step own].
  - rewrite decide_False by (rewrite Hlist; naive_solver). done.
  - case_decide as Ha; [|done]. intros [= <-]. cbn [relay acceptor stopping].
    rewrite Hctx, (decide_False (P:=AcceptReturned = Accepting)) by done.
    split_and!; [done..|]. lia.
  - case_decide; [|done]. intros [= <-]. cbn [relay set_relay acceptor stopping].
    rewrite locations_extend. done.
  - case_decide; [|done]. by intros [= <-].
  - by intros [= <-].
  - by intros [= <-].
  - intros (w' & (w & Hw & Hloc & Hctx')%work_locations & [= <-])%bind_Some.
    cbn [relay set_relay acceptor stopping]. rewrite Hctx in Hctx'.
    destruct (handleClient_total_rank c now room w w' Hctx' Hw) as [Hlt ?].
    rewrite Hloc in Hlt. split_and!; [done..|lia].
  - intros [= <-]. cbn. done.
  - rewrite decide_False by done. done.
  - case_decide as Hc; [|done]. intros [= <-]. cbn [relay acceptor stopping].
    rewrite (decide_True _ _ (proj1 Hc)), (decide_False (P:=Stopped = Waiting)) by done.
    split_and!; [done..|]. lia.
Qed.

Lemma total_rank_bound m : total_rank m ≤ 5 * size m.
Proof.
  induction m as [|c l m Hc IH] using map_ind; [done|]. unfold total_rank in *.
  rewrite map_fold_insert_L by (try done; intros; lia). rewrite map_size_insert_None by done.
  destruct l; simpl; lia.
Qed.

Lemma life_potential_bound L : life_potential L ≤ 5 * size (sessions (relay L)) + 2.
Proof.
  unfold life_potential. pose proof (total_rank_bound (locations (relay L))) as Hb.
  unfold locations at 2 in Hb. rewrite map_size_fmap in Hb. repeat case_decide; lia.
Qed.

(** A connection whose peer has not sent a registration and does not hang up. *)
Definition silent (c : nat) (L : lifecycle) : Prop :=
  ∃ ses, sessions (relay L) !! c = Some ses ∧ at_ ses = Accepted ∧ c ∈ held L
    ∧ runs_out ses = true.

(** A goroutine in a write that does not return. *)
Definition blocked (c : nat) (L : lifecycle) : Prop :=
  ∃ ses d bs, sessions (relay L) !! c = Some ses ∧ at_ ses = Writing d bs ∧ stuck d L.
#[export] Instance blocked_dec c L : Decision (blocked c L).
Proof.
  destruct (sessions (relay L) !! c) as [ses|] eqn:Hses.
  2:{ right. intros (? & ? & ? & ? & _). congruence. }
  destruct (at_ ses) as [| | |d bs| | |] eqn:Hat.
  4:{ destruct (decide (stuck d L)) as [Hd|Hd]; [left; by exists ses, d, bs|].
      right. intros (ses' & d' & bs' & Hs & Ha & Hst). simplify_eq. by rewrite Hat in Ha; simplify_eq. }
  all: right; intros (ses' & d' & bs' & Hs & Ha & _); congruence.
Defined.
(** Connections each of whose goroutines is in a write to one of them, and whose
    peers have all stopped reading; the smallest is a connection that is written
    to by its own goroutine. *)
Definition deadlocked (X : gset nat) (L : lifecycle) : Prop :=
  X ≠ ∅ ∧ ∀ c, c ∈ X → ∃ ses d bs, sessions (relay L) !! c = Some ses
    ∧ at_ ses = Writing d bs ∧ d ∈ X ∧ d ∈ stalled L ∧ d ∉ broken (relay L).

Lemma work_enabled c now room L ses :
  sessions (relay L) !! c = Some ses → at_ ses ≠ Closed → ¬ silent c L → ¬ blocked c L →
  is_Some (life_step (Work c now room) L).
Proof.
  intros Hses Hcl Hsil Hblk. cbn [life_step]. apply fmap_is_Some. unfold work. rewrite Hses.
  cbn [mbind option_bind].
  assert (∀ f, is_Some (handleClient c now room (extend f (relay L)))) as Hext.
  { intros f. eapply handleClient_enabled; [rewrite extend_lookup, Hses; reflexivity|done]. }
  pose proof (handleClient_enabled c now room (relay L) ses Hses Hcl) as Hen.
  destruct (at_ ses) as [| | |d bs| | |] eqn:Hat; try done.
  - destruct (bool_decide _ && _) eqn:Hw; [|done]. destruct Hsil.
    apply andb_prop in Hw as [Hh%bool_decide_eq_true Hr]. by exists ses.
  - by case_match.
  - case_decide; [|done]. destruct Hblk. by exists ses, d, bs.
Qed.

Lemma closed_table cfg ls w :
  relay_run any_step (RelayServer.init cfg) ls w → all_closed w → table w = ∅.
Proof.
  intros Hrun Hall. apply map_empty. intros n. apply eq_None_not_Some. intros [c Hc].
  destruct (relay_run_live _ _ _ Hrun n c Hc) as (ses & Hses & _ & Hreg).
  apply (map_Forall_lookup_1 _ _ _ _ Hall) in Hses. by rewrite Hses in Hreg.
Qed.

(** A connection that is closed, or whose peer has nobody waiting for it. *)
Definition talking (L : lifecycle) (c : nat) (ses : session) : Prop :=
  ¬ (at_ ses = Accepted ∧ c ∈ held L ∧ runs_out ses = true).
#[export] Instance talking_dec L c ses : Decision (talking L c ses).
Proof. unfold talking. apply _. Defined.

Definition open_connections (w : world) : gset nat :=
  dom (filter (λ p : nat * session, at_ p.2 ≠ Closed) (sessions w)).

Lemma elem_of_open_connections w c :
  c ∈ open_connections w ↔ ∃ ses, sessions w !! c = Some ses ∧ at_ ses ≠ Closed.
Proof.
  unfold open_connections. rewrite elem_of_dom. unfold is_Some.
  setoid_rewrite map_lookup_filter_Some. done.
Qed.

Lemma settled L :
  stop_invariant L → ctx_done (relay L) = true → stopping L ≠ NotStopping →
  (∀ l, own l = true → life_step l L = None) →
  stopping L = Stopped ∨ (∃ c, silent c L) ∨ ∃ X, deadlocked X L.
Proof.
  intros HL Hctx Hstop Hnone.
  assert (acceptor L ≠ Accepting) as Hacc.
  { intros Ha. specialize (Hnone AcceptFails eq_refl). cbn in Hnone. by rewrite decide_True in Hnone. }
  destruct (decide (all_closed (relay L))) as [Hall|Hall].
  { left. specialize (Hnone StopReturns eq_refl). cbn in Hnone.
    destruct (stopping L) eqn:Hs; [done| |done]. rewrite decide_True in Hnone by done. done. }
  right. apply map_not_Forall in Hall as (c0 & ses0 & Hses0 & Hat0); [|apply _].
  destruct (decide (map_Forall (talking L) (sessions (relay L)))) as [Htalk|Hsil].
  - right. exists (open_connections (relay L)). split.
    { intros He. apply (not_elem_of_empty (C:=gset nat) c0). rewrite <-He.
      apply elem_of_open_connections. by exists ses0. }
    intros c (ses & Hses & Hat)%elem_of_open_connections.
    pose proof (map_Forall_lookup_1 _ _ _ _ Htalk Hses) as Ht. unfold talking in Ht.
    destruct (decide (blocked c L)) as [(ses' & d & bs & Hs & Hw & Hd & Ho & Hb)|Hn].
    + exists ses', d, bs. split_and!; try done. apply elem_of_open_connections.
      unfold is_open in Ho. destruct (sessions (relay L) !! d) as [ses1|]; [|done].
      exists ses1. split; [done|]. by apply bool_decide_eq_true in Ho.
    + exfalso. destruct (work_enabled c 0 0 L ses Hses Hat) as [L' HL'].
      * intros (ses1 & Hs1 & ? & ? & ?). rewrite Hses in Hs1. injection Hs1 as <-. naive_solver.
      * done.
      * by rewrite (Hnone (Work c 0 0) eq_refl) in HL'.
  - left. apply map_not_Forall in Hsil as (c & ses & Hses & Ht%dec_stable); [|apply _].
    exists c, ses. naive_solver.
Qed.

(** The other sessions are where they were after a step of the program. *)
Lemma work_session c c' now room L w' ses :
  work c' now room L = Some w' → c ≠ c' → sessions (relay L) !! c = Some ses →
  sessions w' !! c = Some ses.
Proof.
  intros (t & Hstep & _)%work_handleClient Hne Hses.
  destruct (handleClient_effect _ _ _ _ _ Hstep) as (s1 & s2 & _ & -> & _).
  rewrite lookup_insert_ne, extend_lookup, Hses by done. unfold only.
  rewrite decide_False by done. simpl. by rewrite extend_session_nil.
Qed.

(** A silent connection stays so until its peer does something. *)
Lemma silent_step c l L L' :
  silent c L → (∀ bs, l ≠ Deliver c bs) → l ≠ Hangup c → life_step l L = Some L' → silent c L'.
Proof.
  intros (ses & Hses & Hat & Hheld & Hrun) Hd Hh. destruct l as [c'| |c' bs|c'|c'|c'|c' now room| | |];
    cbn [life_step].
  - case_decide; [|done]. intros (w' & Hw & [= <-])%bind_Some. exists ses. cbn.
    simpl in Hw. destruct (sessions (relay L) !! c') eqn:Hc'; [done|]. injection Hw as <-.
    split_and!; try done; [|set_solver]. simpl. rewrite lookup_insert_ne by congruence. done.
  - case_decide; [|done]. intros [= <-]. by exists ses.
  - case_decide; [|done]. intros [= <-]. exists ses. cbn [relay set_relay held].
    split_and!; try done. rewrite extend_lookup, Hses. unfold only.
    rewrite decide_False by (intros ->; by apply (Hd bs)). simpl. by rewrite extend_session_nil.
  - case_decide; [|done]. intros [= <-]. exists ses. split_and!; try done. cbn.
    apply elem_of_difference. split; [done|]. rewrite elem_of_singleton. congruence.
  - intros [= <-]. by exists ses.
  - intros [= <-]. by exists ses.
  - intros (w' & Hw & [= <-])%bind_Some. exists ses. cbn. split_and!; try done.
    eapply work_session; [exact Hw| |done]. intros ->. unfold work in Hw. rewrite Hses in Hw.
    cbn [mbind option_bind] in Hw. by rewrite Hat, Hrun, bool_decide_true in Hw.
  - intros [= <-]. by exists ses.
  - case_decide; [|done]. intros [= <-]. by exists ses.
  - case_decide; [|done]. intros [= <-]. by exists ses.
Qed.

(** A write that returns was not stuck, so it breaks no connection that is. *)
Lemma work_broken c now room L w' d :
  work c now room L = Some w' → d ∈ broken w' → d ∉ broken (relay L) → ¬ stuck d L.
Proof.
  intros Hw Hd Hd' Hst. destruct (work_handleClient c now room L w' Hw) as (t & Hstep & _).
  destruct (handleClient_sent _ _ _ _ _ Hstep) as
    [[_ Hb]|(ses & to_ & bs & n & Hses & Hat & _ & _ & Hb)]; rewrite Hb in Hd; [done|].
  case_decide; [done|]. apply elem_of_union in Hd as [->%elem_of_singleton|]; [|done].
  rewrite extend_lookup in Hses. apply fmap_Some in Hses as (ses0 & Hses & ->).
  unfold work in Hw. rewrite Hses in Hw. cbn in Hat, Hw. by rewrite Hat, decide_True in Hw.
Qed.

Lemma deadlocked_stuck X c L :
  deadlocked X L → c ∈ X → ∃ ses d bs, sessions (relay L) !! c = Some ses
    ∧ at_ ses = Writing d bs ∧ stuck d L.
Proof.
  intros [_ HX] (ses & d & bs & Hses & Hat & Hd & Hst & Hb)%HX. exists ses, d, bs.
  split_and!; [done..|]. split_and!; [done| |done].
  destruct (HX d Hd) as (ses1 & d1 & bs1 & Hs1 & Hat1 & _). unfold is_open. rewrite Hs1.
  apply bool_decide_eq_true. congruence.
Qed.

Lemma deadlocked_work X c now room L :
  deadlocked X L → c ∈ X → work c now room L = None.
Proof.
  intros HX (ses & d & bs & Hses & Hat & Hst)%(deadlocked_stuck X c L HX).
  unfold work. rewrite Hses. cbn [mbind option_bind]. by rewrite Hat, decide_True.
Qed.

(** The state a step leaves to the connections of a set. *)
Lemma deadlocked_same X L L' :
  deadlocked X L →
  (∀ c ses, c ∈ X → sessions (relay L) !! c = Some ses →
     ∃ ses', sessions (relay L') !! c = Some ses' ∧ at_ ses' = at_ ses) →
  (∀ d, d ∈ X → d ∈ stalled L → d ∈ stalled L') →
  (∀ d, d ∈ X → stuck d L → d ∈ broken (relay L') → d ∈ broken (relay L)) →
  deadlocked X L'.
Proof.
  intros HX Hses Hst Hbr. split; [apply HX|]. intros c Hc.
  destruct (deadlocked_stuck X c L HX Hc) as (_ & d0 & _ & _ & _ & _).
  destruct HX as [Hne HX]. destruct (HX c Hc) as (ses & d & bs & Hs & Hat & Hd & Hdst & Hb).
  destruct (Hses c ses Hc Hs) as (ses' & Hs' & Hat'). exists ses', d, bs.
  split_and!; [done|congruence|done|by apply Hst|]. intros Hb'. apply Hb, Hbr; [done| |done].
  split_and!; [done| |done]. destruct (HX d Hd) as (ses1 & d1 & bs1 & Hs1 & Hat1 & _).
  unfold is_open. rewrite Hs1. apply bool_decide_eq_true. congruence.
Qed.

(** Only a peer that reads again ends the wait. *)
Lemma deadlocked_step X l L L' :
  deadlocked X L → (∀ d, d ∈ X → l ≠ Unstall d) → life_step l L = Some L' → deadlocked X L'.
Proof.
  intros HX Hl. destruct l as [c'| |c' bs|c'|c'|c'|c' now room| | |]; cbn [life_step].
  - case_decide; [|done]. intros (w' & Hw & [= <-])%bind_Some. simpl in Hw.
    destruct (sessions (relay L) !! c') eqn:Hc'; [done|]. injection Hw as <-.
    apply (deadlocked_same X L); try done. intros c ses _ Hs. exists ses. simpl.
    by rewrite lookup_insert_ne by congruence.
  - case_decide; [|done]. intros [= <-]. by eapply deadlocked_same; [exact HX|eauto..].
  - case_decide; [|done]. intros [= <-]. apply (deadlocked_same X L); try done. intros c ses _ Hs.
    cbn [relay set_relay]. rewrite extend_lookup, Hs. by eexists.
  - case_decide; [|done]. intros [= <-]. by eapply deadlocked_same; [exact HX|eauto..].
  - intros [= <-]. eapply deadlocked_same; [exact HX|eauto| |done]. set_solver.
  - intros [= <-]. eapply deadlocked_same; [exact HX|eauto| |done]. intros d Hd ?. cbn.
    apply elem_of_difference. split; [done|]. intros ->%elem_of_singleton. by apply (Hl c').
  - intros (w' & Hw & [= <-])%bind_Some. apply (deadlocked_same X L); [done| |done|].
    + intros c ses Hc Hs. exists ses. split; [|done]. eapply work_session; [exact Hw| |done].
      intros ->. by rewrite (deadlocked_work X) in Hw.
    + intros d _ Hd Hb. destruct (decide (d ∈ broken (relay L))); [done|].
      by destruct (work_broken c' now room L w' d).
  - intros [= <-]. by eapply deadlocked_same; [exact HX|eauto..].
  - case_decide; [|done]. intros [= <-]. by eapply deadlocked_same; [exact HX|eauto..].
  - case_decide; [|done]. intros [= <-]. by eapply deadlocked_same; [exact HX|eauto..].
Qed.

(** ** Properties *)

(** C3. How a shutdown ends: once the context is cancelled and [Stop] called, every
    run, whatever the peers do meanwhile, has a bounded number of steps of the
    program left, at most five for an open connection; and when none is possible,
    either [Stop] has returned, the accept loop too, every connection is closed and
    the table empty; or [Stop] waits, because there is a connection whose peer has
    not sent a whole registration and keeps it open, or because there are
    connections whose peers do not read and whose goroutines all wait in a write to
    one of them.  (No write has a deadline.) *)
Theorem Stop_completes cfg ls0 L ls L' :
  life_run any_step (started cfg) ls0 L → ctx_done (relay L) = true →
  stopping L ≠ NotStopping → life_run any_step L ls L' →
  own_steps ls + life_potential L' ≤ life_potential L
  ∧ life_potential L ≤ 5 * size (sessions (relay L)) + 2
  ∧ ((∀ l, own l = true → life_step l L' = None) →
     (stopping L' = Stopped ∧ acceptor L' = AcceptReturned ∧ all_closed (relay L')
      ∧ table (relay L') = ∅)
     ∨ (stopping L' = Waiting ∧ ((∃ c, silent c L') ∨ ∃ X, deadlocked X L'))).
Proof.
  intros Hrun0 Hctx Hstop Hrun. pose proof (life_run_stop _ _ _ Hrun0) as HL.
  assert (stop_invariant L' ∧ ctx_done (relay L') = true ∧ stopping L' ≠ NotStopping
    ∧ own_steps ls + life_potential L' ≤ life_potential L) as (HL' & Hctx' & Hstop' & Hle).
  { clear Hrun0. induction Hrun as [|ls L1 l L2 _ IH _ Hl]; [done|].
    destruct IH as (HL1 & Hc1 & Hs1 & Hle1).
    destruct (life_step_potential _ _ _ HL1 Hc1 Hs1 Hl) as (? & ? & ?).
    split_and!; [by eapply life_step_stop|done..|]. rewrite own_steps_snoc. lia. }
  split_and!; [done|apply life_potential_bound|]. intros Hnone.
  destruct (decide (stopping L' = Stopped)) as [Hs|Hs].
  2:{ right. split; [by destruct (stopping L')|].
      by destruct (settled L' HL' Hctx' Hstop' Hnone). }
  left. destruct (stop_returned L' HL' Hs). split_and!; [done..|].
  destruct (life_run_reaches cfg (ls0 ++ ls) L') as [ls' Hls']; [by eapply trace_app|].
  by eapply closed_table.
Qed.

(** When [Stop] has returned nothing is left: the context was cancelled, the
    listener is closed, the accept loop has returned, every connection is closed
    and the table is empty.  So [Stop] waits for the cancellation, which is not
    its own to make; until then the accept loop does not end, and on a closed
    listener it spins, as every failure of [Accept] leads back to it. *)
Theorem Stop_returned cfg ls L :
  life_run any_step (started cfg) ls L →
  (stopping L = Stopped →
     ctx_done (relay L) = true ∧ listener L = ListenerClosed ∧ acceptor L = AcceptReturned
     ∧ all_closed (relay L) ∧ table (relay L) = ∅)
  ∧ (ctx_done (relay L) = false →
     stopping L ≠ Stopped ∧ acceptor L = Accepting ∧ life_step AcceptFails L = Some L).
Proof.
  intros Hrun. pose proof (life_run_stop _ _ _ Hrun) as HL.
  destruct (life_run_reaches _ _ _ Hrun) as [ls' Hls']. split.
  - intros Hs. destruct (stop_returned L HL Hs) as [Ha Hall].
    split_and!; [by apply stop_acceptor|apply stop_listener; [done|congruence]|done..|].
    by eapply closed_table.
  - intros Hctx. assert (acceptor L = Accepting) as Ha.
    { destruct (acceptor L) eqn:Ha; [by destruct (stop_started L HL)|done|].
      by rewrite (stop_acceptor L HL Ha) in Hctx. }
    split_and!; [|done|].
    + intros Hs. destruct (stop_returned L HL Hs). congruence.
    + cbn. rewrite decide_True, Hctx by done. destruct L. simpl in *. by rewrite Ha.
Qed.

(** C38. A peer that connects and says nothing keeps [Stop] from returning: no
    deadline is set for the registration, and nothing the server does, the
    cancellation included, ends the read; only the peer can. *)
Theorem Stop_silent_peer cfg ls0 c L ls L' :
  life_run any_step (started cfg) ls0 L → silent c L →
  life_run (λ _ l, (∀ bs, l ≠ Deliver c bs) ∧ l ≠ Hangup c) L ls L' →
  silent c L' ∧ stopping L' ≠ Stopped ∧ ∀ now room, life_step (Work c now room) L' = None.
Proof.
  intros Hrun0 Hs Hrun.
  assert (stop_invariant L' ∧ silent c L') as [HL' (ses & Hses & Hat & Hheld & Hout)].
  { eapply (trace_invariant life_step _ (λ L, stop_invariant L ∧ silent c L)), Hrun.
    - split; [by eapply life_run_stop|done].
    - intros L1 l L2 [HL1 Hs1] [Hd Hh] Hl.
      split; [by eapply life_step_stop|by eapply silent_step]. }
  split_and!; [by exists ses| |].
  - intros Hst. destruct (stop_returned L' HL' Hst) as [_ Hall].
    apply (map_Forall_lookup_1 _ _ _ _ Hall) in Hses. congruence.
  - intros now room. cbn [life_step]. unfold work. rewrite Hses. cbn [mbind option_bind].
    by rewrite Hat, Hout, bool_decide_true.
Qed.

(** C4. Peers that register and then do not read keep [Stop] from returning too,
    and their goroutines from ever ending: [conn.Write] has no deadline, and once
    each goroutine of a set of connections is in a write to one of them (a peer that
    sends packets to itself is enough), nothing the server does, the cancellation
    included, ends the wait; only one of the peers can, by reading again or going
    away. *)
Theorem Stop_deadlock cfg ls0 X L ls L' :
  life_run any_step (started cfg) ls0 L → deadlocked X L →
  life_run (λ _ l, ∀ d, d ∈ X → l ≠ Unstall d) L ls L' →
  deadlocked X L' ∧ stopping L' ≠ Stopped
  ∧ ∀ c, c ∈ X → ∀ now room, life_step (Work c now room) L' = None.
Proof.
  intros Hrun0 HX Hrun. assert (stop_invariant L' ∧ deadlocked X L') as [HL' HX'].
  { eapply (trace_invariant life_step _ (λ L, stop_invariant L ∧ deadlocked X L)), Hrun.
    - split; [by eapply life_run_stop|done].
    - intros L1 l L2 [HL1 HX1] Hl Hstep.
      split; [by eapply life_step_stop|by eapply deadlocked_step]. }
  split_and!; [done| |].
  - intros Hst. destruct (stop_returned L' HL' Hst) as [_ Hall].
    destruct HX' as [[c Hc]%set_choose_L HX']. destruct (HX' c Hc) as (ses & d & bs & Hses & Hat & _).
    apply (map_Forall_lookup_1 _ _ _ _ Hall) in Hses. congruence.
  - intros c Hc now room. cbn [life_step]. by rewrite (deadlocked_work X).
Qed.

Section start.
Context `{TLSLibrary}.
Variables (ReadFile : gostring → option (list byte)) (Listen : gostring → bool).

(** C37. [Start] listens with TLS 1.3 exactly when the certificate and its key are
    configured and load and, if a CA file is configured, that file can be read;
    it then asks the clients for certificates of that CA, and only then.  In
    every other case it does not fail: it listens on the same address without
    TLS, for anybody, and where a certificate is configured its log says
    [tls=true]. *)
Theorem Start_spec cfg :
  let tls := relay_TLS (Relay cfg) in
  let started_with m := Start ReadFile Listen (new_lifecycle cfg)
    = (Ok (mkListening m (bool_decide (tls_CertFile tls ≠ []))), started cfg) in
  (Listen (relay_ListenAddr (Relay cfg)) = false →
     Start ReadFile Listen (new_lifecycle cfg) = (Err ErrListen, new_lifecycle cfg))
  ∧ (Listen (relay_ListenAddr (Relay cfg)) = true →
     (∀ cert, tls_CertFile tls ≠ [] → tls_KeyFile tls ≠ [] →
        LoadX509KeyPair (tls_CertFile tls) (tls_KeyFile tls) = Some cert →
        (tls_CAFile tls = [] →
           started_with (Tls (mkTlsConfig [cert] VersionTLS13 None NoClientCert)))
        ∧ (∀ pem, tls_CAFile tls ≠ [] → ReadFile (tls_CAFile tls) = Some pem →
           started_with (Tls (mkTlsConfig [cert] VersionTLS13
             (Some (snd (AppendCertsFromPEM pem NewCertPool))) RequireAndVerifyClientCert)))
        ∧ (tls_CAFile tls ≠ [] → ReadFile (tls_CAFile tls) = None → started_with Plain))
     ∧ (tls_CertFile tls = [] ∨ tls_KeyFile tls = []
          ∨ LoadX509KeyPair (tls_CertFile tls) (tls_KeyFile tls) = None → started_with Plain)).
Proof.
  cbv zeta. unfold Start, open_listener, tls_Listen. cbn [new_lifecycle relay].
  change (RelayServer.cfg (server (RelayServer.init cfg))) with cfg. set (tls := relay_TLS (Relay cfg)).
  set (addr := relay_ListenAddr (Relay cfg)). split.
  - intros Hl. rewrite Hl.
    destruct (buildTLSConfig ReadFile cfg) as [t|e| |]; [by rewrite andb_false_r|done..].
  - intros Hl. rewrite Hl. unfold buildTLSConfig. fold tls. split.
    + intros cert Hc Hk Hload. rewrite decide_False by naive_solver. rewrite Hload. cbn.
      split_and!.
      * intros Hca. by rewrite decide_True.
      * intros pem Hca Hpem. by rewrite decide_False, Hpem.
      * intros Hca Hpem. by rewrite decide_False, Hpem.
    + intros Hno. case_decide as Hd; [done|]. destruct Hno as [?|[?|Hload]]; [naive_solver..|].
      by rewrite Hload.
Qed.
End start.

(** ** Witnesses

    Node [a] connects, registers, sends a packet to a name nobody has, and stays;
    on connection 2 nobody says anything. *)
Definition ex_calls : list life_label :=
  [Connect 1; Deliver 1 (frame (reg (str "a"))); Work 1 0 100; Connect 2; Work 1 1 100; Deliver 1 (frame ex_data);
   CallStop; AcceptFails; CancelCtx]%Z.
Definition ex_life : lifecycle :=
  default (started zero_Config) (exec life_step ex_calls (started zero_Config)).
(** The packet is dropped, the loop ends, the peer of connection 2 hangs up. *)
Definition ex_shutdown : list life_label :=
  [Work 1 2 100; Work 1 3 100; AcceptFails; Work 1 4 100; Hangup 2; Work 2 5 100; Work 1 6 100; StopReturns]%Z.
Definition ex_stopped : lifecycle :=
  default ex_life (exec life_step ex_shutdown ex_life).

Lemma ex_life_run : life_run any_step (started zero_Config) ex_calls ex_life.
Proof. apply exec_trace. vm_compute. reflexivity. Qed.
Lemma ex_shutdown_run : life_run any_step ex_life ex_shutdown ex_stopped.
Proof. apply exec_trace. vm_compute. reflexivity. Qed.

Lemma Stop_completes_witness :
  stopping ex_stopped = Stopped ∧ table (relay ex_stopped) = ∅ ∧
  own_steps ex_shutdown + life_potential ex_stopped ≤ life_potential ex_life.
Proof.
  split_and!; [vm_compute; reflexivity..|].
  refine (proj1 (Stop_completes zero_Config ex_calls ex_life ex_shutdown ex_stopped
    ex_life_run _ _ ex_shutdown_run)); vm_compute; congruence.
Defined.

(** [Stop] called before the cancellation. *)
Definition ex_waiting : lifecycle :=
  default (started zero_Config) (exec life_step (take 7 ex_calls) (started zero_Config)).
Lemma ex_waiting_run : life_run any_step (started zero_Config) (take 7 ex_calls) ex_waiting.
Proof. apply exec_trace. vm_compute. reflexivity. Qed.

Lemma Stop_returned_witness :
  all_closed (relay ex_stopped) ∧ life_step AcceptFails ex_waiting = Some ex_waiting.
Proof.
  destruct (Stop_returned zero_Config (ex_calls ++ ex_shutdown) ex_stopped
    (trace_app _ _ _ _ _ _ _ ex_life_run ex_shutdown_run)) as [Hstopped _].
  destruct (Stop_returned zero_Config (take 7 ex_calls) ex_waiting ex_waiting_run) as [_ Hwaiting].
  split.
  - apply Hstopped. vm_compute. reflexivity.
  - apply Hwaiting. vm_compute. reflexivity.
Defined.

Lemma ex_silent : silent 2 ex_life.
Proof.
  exists (mkSession (mkRelayClient [] [] 0) Accepted [] []).
  split_and!; [vm_compute; reflexivity|done| |done]. apply (bool_decide_unpack _). vm_compute. exact I.
Qed.

Lemma Stop_silent_peer_witness :
  stopping ex_life = Waiting ∧ ctx_done (relay ex_life) = true
  ∧ silent 2 ex_life ∧ stopping ex_life ≠ Stopped.
Proof.
  destruct (Stop_silent_peer zero_Config ex_calls 2 ex_life [] ex_life ex_life_run ex_silent
    (trace_start _ _ _)) as (Hs & Hst & _).
  split_and!; [vm_compute; reflexivity..|exact Hs|exact Hst].
Defined.

(** Node [a] sends itself a packet and does not read. *)
Definition ex_self : list life_label :=
  [Connect 1; Stall 1; Deliver 1 (frame (reg (str "a")));
   Deliver 1 (frame (mkRelayMessage RelayMsgData (str "a") (str "a") [x01]));
   Work 1 0 100; Work 1 1 100; Work 1 2 100; CancelCtx; CallStop; AcceptFails]%Z.
Definition ex_stuck : lifecycle :=
  default (started zero_Config) (exec life_step ex_self (started zero_Config)).

Lemma Stop_deadlock_witness :
  stopping ex_stuck = Waiting ∧ ctx_done (relay ex_stuck) = true ∧ table (relay ex_stuck) = {[str "a" := 1]}
  ∧ deadlocked {[1]} ex_stuck ∧ life_step (Work 1 3 100) ex_stuck = None.
Proof.
  do 3 (split; [vm_compute; reflexivity|]).
  destruct (Stop_deadlock zero_Config ex_self {[1]} ex_stuck [] ex_stuck) as (HX & _ & Hw).
  - apply exec_trace. vm_compute. reflexivity.
  - split; [apply (bool_decide_unpack _); vm_compute; exact I|].
    intros c ->%elem_of_singleton. eexists _, _, _.
    split_and!; [vm_compute; reflexivity..|by apply elem_of_singleton| |];
      apply (bool_decide_unpack _); vm_compute; exact I.
  - apply trace_start.
  - split; [exact HX|]. apply Hw. by apply elem_of_singleton.
Defined.
