(* ===== verification/RelayClient.v ===== *)
(** * relay.go: the client of the relay, and the relay from end to end

    [RelayClientConn] with [Connect], [Send] and [Close], and what becomes of the
    packets a node sends when the server reads the bytes the client wrote. *)
From S2P Require Import Prelude Bytes Config RelayWire RelayServer.
From Stdlib Require Import Init.Byte.

Inductive conn_error := ErrDialingRelay | ErrRegistering | ErrWrite.

(** A TCP connection, from its client: what has been written to it. *)
Record conn := mkConn { conn_written : list byte; conn_closed : bool }.
Record RelayClientConn := mkRelayClientConn { rc_cfg : Config; rc_conn : option conn }.
Definition NewRelayClientConn (cfg : Config) : RelayClientConn := mkRelayClientConn cfg None.
Definition set_conn (cn : conn) (rc : RelayClientConn) : RelayClientConn :=
  mkRelayClientConn (rc_cfg rc) (Some cn).

Abbreviation client_op := (stateful RelayClientConn conn_error).

(** One [conn.Write]; the network takes at most [room] bytes, and the write fails
    when that is not all of them. *)
Definition Write (room : nat) (bs : list byte) (cn : conn) : outcome conn_error unit * conn :=
  if conn_closed cn then (Err ErrWrite, cn)
  else if decide (length bs ≤ room) then (Ok (), mkConn (conn_written cn ++ bs) false)
  else (Err ErrWrite, mkConn (conn_written cn ++ take room bs) false).

(** A method call on a nil connection panics. *)
Definition sendMsg (room : nat) (msg : RelayMessage) : client_op unit := λ rc,
  match rc_conn rc with
  | None => (Panic, rc)
  | Some cn =>
    let (res, cn) := Write room
      (message_bytes (Type_ msg) (SrcNode msg) (DstNode msg) (Payload msg)) cn in
    (res, set_conn cn rc)
  end.

Definition CloseConn (rc : RelayClientConn) : RelayClientConn :=
  match rc_conn rc with
  | None => rc
  | Some cn => set_conn (mkConn (conn_written cn) true) rc
  end.

(** [dial] tells whether the dialer reaches the relay. *)
Definition Connect (dial : bool) (room : nat) : client_op unit := λ rc,
  if dial then
    match sendMsg room (mkRelayMessage RelayMsgRegister (NodeName (rc_cfg rc)) [] [])
      (set_conn (mkConn [] false) rc) with
    | (Err _, rc) => (Err ErrRegistering, CloseConn rc)
    | (o, rc) => (o, rc)
    end
  else (Err ErrDialingRelay, rc).

Definition Send (room : nat) (dstNode : gostring) (payload : list byte) : client_op unit := λ rc,
  sendMsg room (mkRelayMessage RelayMsgData (NodeName (rc_cfg rc)) dstNode payload) rc.

(** A node's session with the relay: connect, then send packets. *)
Fixpoint send_all (room : nat) (packets : list (gostring * list byte)) : client_op unit :=
  match packets with
  | [] => mret ()
  | (dst, payload) :: packets => _ ← Send room dst payload; send_all room packets
  end.
Definition client_session (room : nat) (packets : list (gostring * list byte)) : client_op unit :=
  _ ← Connect true room; send_all room packets.

(** The bytes on the wire. *)
Definition wire_bytes (rc : RelayClientConn) : list byte :=
  match rc_conn rc with Some cn => conn_written cn | None => [] end.

(** The messages of a session. *)
Definition packet_message (name : gostring) (packet : gostring * list byte) : RelayMessage :=
  mkRelayMessage RelayMsgData name packet.1 packet.2.
Definition session_messages (name : gostring) (packets : list (gostring * list byte)) :
    list RelayMessage :=
  mkRelayMessage RelayMsgRegister name [] [] :: (packet_message name <$> packets).

Lemma sendMsg_room room msg rc cn :
  rc_conn rc = Some cn → conn_closed cn = false → length (frame msg) ≤ room →
  sendMsg room msg rc = (Ok (), set_conn (mkConn (conn_written cn ++ frame msg) false) rc).
Proof.
  intros Hc Hcl Hroom. unfold sendMsg, Write. rewrite Hc, Hcl.
  unfold frame in *. by rewrite decide_True by done.
Qed.

Lemma send_all_written room packets rc cn :
  rc_conn rc = Some cn → conn_closed cn = false →
  Forall (λ m, length (frame m) ≤ room) (packet_message (NodeName (rc_cfg rc)) <$> packets) →
  send_all room packets rc = (Ok (), set_conn (mkConn (conn_written cn ++
    concat (frame <$> (packet_message (NodeName (rc_cfg rc)) <$> packets))) false) rc).
Proof.
  revert rc cn. induction packets as [|[dst payload] packets IH]; intros rc cn Hc Hcl Hroom.
  { simpl. rewrite app_nil_r. destruct rc as [cfg o], cn as [bs closed]. simpl in *. by subst. }
  inversion_clear Hroom as [|? ? Hm Hroom']. cbn [send_all].
  rewrite (stateful_bind_eq _ _ _ () (set_conn (mkConn (conn_written cn ++
    frame (packet_message (NodeName (rc_cfg rc)) (dst, payload))) false) rc)).
  - erewrite IH; [|done..]. rewrite !fmap_cons, concat_cons. simpl. by rewrite <-app_assoc.
  - by apply sendMsg_room.
Qed.

Lemma client_session_written room packets cfg :
  Forall (λ m, length (frame m) ≤ room) (session_messages (NodeName cfg) packets) →
  client_session room packets (NewRelayClientConn cfg)
  = (Ok (), mkRelayClientConn cfg (Some (mkConn
      (concat (frame <$> session_messages (NodeName cfg) packets)) false))).
Proof.
  intros Hroom. inversion_clear Hroom as [|? ? Hm Hroom']. unfold client_session.
  rewrite (stateful_bind_eq _ _ _ () (mkRelayClientConn cfg
    (Some (mkConn (frame (mkRelayMessage RelayMsgRegister (NodeName cfg) [] [])) false)))).
  - by erewrite send_all_written by done.
  - unfold Connect. by erewrite sendMsg_room by done.
Qed.

(** ** A goroutine that runs alone *)
Lemma run_alone_1 c now room w w1 n w2 :
  handleClient c now room w = Some w1 → run_alone c now room n w1 = Some w2 →
  run_alone c now room (S n) w = Some w2.
Proof. intros Hw. unfold run_alone. simpl. by rewrite Hw. Qed.

Lemma run_alone_app c now room m w w1 n w2 :
  run_alone c now room m w = Some w1 → run_alone c now room n w1 = Some w2 →
  run_alone c now room (m + n) w = Some w2.
Proof. unfold run_alone. intros Hw Hn. by rewrite steps_add, Hw. Qed.

(** What the server does with a DATA message, given the table and the connections
    that are lost: it writes its frame to its destination, in vain if that is one
    of them. *)
Definition deliver (c : nat) (t : gmap gostring nat) (lost : gset nat) (m : RelayMessage) :
    option sending :=
  d ← t !! DstNode m;
  Some (mkSending c d (frame m) (if decide (d ∈ lost) then [] else frame m)).

Definition all_open (w : world) : Prop := ∀ n d, table w !! n = Some d → is_open d w = true.

Lemma is_open_insert c ses w d :
  at_ ses ≠ Closed → is_open d w = true → is_open d (set_session c ses w) = true.
Proof.
  intros Hat. unfold is_open. simpl. destruct (decide (d = c)) as [->|Hne].
  - rewrite lookup_insert_eq. intros _. by apply bool_decide_eq_true.
  - by rewrite lookup_insert_ne.
Qed.

(** The write of a frame to an open connection, with room for it. *)
Lemma conn_write_open c d bs room w :
  is_open d w = true → bs ≠ [] → length bs ≤ room →
  conn_write c d bs room w
  = mkWorld (server w) (sessions w)
      (sent w ++ [mkSending c d bs (if decide (d ∈ broken w) then [] else bs)]) (broken w) (ctx_done w).
Proof.
  intros Ho Hne Hroom. unfold conn_write, taken. rewrite Ho. case_decide as Hd.
  - rewrite take_0, decide_False.
    + f_equal. apply leibniz_equiv. set_solver.
    + destruct bs; [done|]. simpl. lia.
  - by rewrite take_ge, decide_True.
Qed.

Lemma frame_not_nil m : frame m ≠ [].
Proof. unfold frame, message_bytes. by case_decide. Qed.

Lemma forward_message c now room cl ws m s w :
  sessions w !! c = Some (mkSession cl Looping ws (recv (frame m) ++ s)) →
  ctx_done w = false → message_ok m → Type_ m = RelayMsgData → all_open w →
  length (frame m) ≤ room →
  ∃ n w' cl', run_alone c now room n w = Some w' ∧ Name cl' = Name cl
    ∧ sessions w' !! c = Some (mkSession cl' Looping ws s)
    ∧ ctx_done w' = false ∧ table w' = table w ∧ all_open w' ∧ broken w' = broken w
    ∧ sent w' = sent w ++ option_list (deliver c (table w) (broken w) m).
Proof.
  intros Hses Hctx Hok Hty Hopen Hroom.
  assert (readMessage (recv (frame m) ++ s) = (Ok m, s)) as Hm by by apply readMessage_Ok.
  revert Hses Hm. generalize (recv (frame m) ++ s). intros s0 Hses Hm.
  set (w1 := set_session c (mkSession cl Reading ws s0) w).
  assert (handleClient c now room w = Some w1) as Hw1.
  { unfold handleClient. rewrite Hses. simpl. by rewrite Hctx. }
  set (cl' := mkRelayClient (Name cl) (PublicKey cl) now).
  set (w2 := set_session c (mkSession cl' (forwardToPeer (server w) m) ws s) w1).
  assert (handleClient c now room w1 = Some w2) as Hw2.
  { unfold handleClient, w1. simpl. rewrite lookup_insert_eq. simpl. rewrite Hm.
    unfold handle_message. by rewrite decide_True by done. }
  assert (all_open w2) as Hopen2.
  { intros n d Hn. apply is_open_insert; [unfold forwardToPeer; simpl; by case_match|].
    by eapply is_open_insert, Hopen. }
  unfold deliver, forwardToPeer in *. change (clients (server w)) with (table w) in *.
  destruct (table w !! DstNode m) as [d|] eqn:Hd; simpl.
  - set (w3 := set_session c (mkSession cl' Looping ws s) w2).
    assert (is_open d w3 = true) as Ho by by eapply is_open_insert, Hopen2.
    pose proof (conn_write_open c d (frame m) room w3 Ho (frame_not_nil m) Hroom) as Hwr.
    eexists 3, _, cl'. split_and!; [|done|..].
    + eapply run_alone_1, run_alone_1, run_alone_1; [exact Hw1|exact Hw2| |done].
      unfold handleClient, w2. simpl. rewrite lookup_insert_eq. simpl. fold w2.
      etrans; [|apply f_equal, Hwr]. unfold w3, frame. by rewrite Hty.
    + apply lookup_insert_eq.
    + done.
    + done.
    + intros n d' Hn. exact (is_open_insert c (mkSession cl' Looping ws s) w2 d' ltac:(done) (Hopen2 n d' Hn)).
    + done.
    + done.
  - exists 2, w2, cl'. split_and!; try done.
    + eapply run_alone_1, run_alone_1; [exact Hw1|exact Hw2|done].
    + apply lookup_insert_eq.
    + simpl. by rewrite app_nil_r.
Qed.

Lemma forward_messages c now room cl ws ms w :
  sessions w !! c = Some (mkSession cl Looping ws (recv (concat (frame <$> ms)))) →
  ctx_done w = false → Forall message_ok ms → Forall (λ m, Type_ m = RelayMsgData) ms →
  all_open w → Forall (λ m, length (frame m) ≤ room) ms →
  ∃ n w' ses, run_alone c now room n w = Some w'
    ∧ sessions w' !! c = Some ses ∧ at_ ses = Closed
    ∧ table w' = delete (Name cl) (table w)
    ∧ sent w' = sent w ++ omap (deliver c (table w) (broken w)) ms.
Proof.
  revert cl w. induction ms as [|m ms IH]; intros cl w Hses Hctx Hok Hty Hopen Hroom.
  - eexists 4, _, _. split_and!.
    + unfold run_alone, handleClient. simpl. rewrite Hses. simpl. rewrite Hctx. simpl.
      do 3 (rewrite lookup_insert_eq; simpl). reflexivity.
    + apply lookup_insert_eq.
    + done.
    + done.
    + simpl. by rewrite app_nil_r.
  - inversion_clear Hok. inversion_clear Hty. inversion_clear Hroom.
    rewrite fmap_cons, concat_cons, fmap_app in Hses.
    destruct (forward_message c now room cl ws m _ w Hses) as
      (n1 & w1 & cl1 & Hrun1 & HN & Hs1 & Hc1 & Ht1 & Ho1 & Hb1 & Hsent1); [done..|].
    destruct (IH cl1 w1) as (n2 & w2 & ses & Hrun2 & Hs2 & Hat & Ht2 & Hsent2); [done..|].
    exists (n1 + n2), w2, ses. split_and!; [by eapply run_alone_app|done..| |].
    + by rewrite Ht2, HN, Ht1.
    + rewrite Hsent2, Hsent1, Ht1, Hb1, <-app_assoc. f_equal. simpl.
      by destruct (deliver c (table w) (broken w) m).
Qed.

(** The registration read, and the name entered. *)
Lemma register_alone c now room name s w w1 :
  (Z.of_nat (length name) < 256)%Z →
  relay_step (Accept c (recv (frame (mkRelayMessage RelayMsgRegister name [] [])) ++ s)) w = Some w1 →
  all_open w → ctx_done w = false →
  ∃ w2 ws, run_alone c now room 1 w1 = Some w2
    ∧ sessions w2 !! c = Some (mkSession (mkRelayClient name [] now) Looping ws s)
    ∧ ctx_done w2 = false ∧ table w2 = <[name := c]> (table w) ∧ all_open w2
    ∧ broken w2 = broken w ∧ sent w2 = sent w.
Proof.
  intros Hname Hacc Hopen Hctx. set (m := mkRelayMessage RelayMsgRegister name [] []) in *.
  assert (readMessage (recv (frame m) ++ s) = (Ok m, s)) as Hm by by apply readMessage_Ok.
  revert Hacc Hm. generalize (recv (frame m) ++ s). intros s0 Hacc Hm. simpl in Hacc.
  destruct (sessions w !! c) eqn:Hc; [done|]. injection Hacc as <-.
  eexists _, _. split_and!.
  - unfold run_alone, handleClient. simpl. rewrite lookup_insert_eq. simpl. rewrite Hm. simpl.
    reflexivity.
  - apply lookup_insert_eq.
  - done.
  - done.
  - intros n d Hn. change (<[name := c]> (table w) !! n = Some d) in Hn.
    apply lookup_insert_Some in Hn as [[_ <-]|[_ Hn]].
    + unfold is_open. simpl. rewrite lookup_insert_eq. by apply bool_decide_eq_true.
    + apply is_open_insert; [done|].
      assert (is_open d (set_session c (mkSession (mkRelayClient [] [] 0) Accepted s0 s0) w) = true)
        as Ho by by eapply is_open_insert, Hopen.
      exact Ho.
  - done.
  - done.
Qed.

Lemma reachable_all_open cfg ls w : relay_run any_step (init cfg) ls w → all_open w.
Proof.
  intros Hrun n c (ses & Hses & _ & Hreg)%(relay_run_live _ _ _ Hrun).
  unfold is_open. rewrite Hses. apply bool_decide_eq_true. intros Hc. by rewrite Hc in Hreg.
Qed.

(** ** Properties *)

(** C2. From end to end: a node connects to the relay, sends packets and hangs up
    (names of at most 255 bytes, payloads of at most 65535, and every write, its own
    and the server's, given room for the whole frame); whatever the server has
    served before, its goroutine, run on the bytes the client wrote, writes each
    packet whose destination is registered, in order and unchanged and with the
    node's name as its source, to the connection registered under that name (its own
    if it sent the packet to itself), where it is taken whole unless an earlier
    write to that connection has failed; it writes nothing else, and ends with its
    connection closed and its name out of the table. *)
Theorem client_session_relayed cfg0 ls w c w1 now cfg room packets :
  relay_run any_step (init cfg0) ls w → ctx_done w = false →
  (Z.of_nat (length (NodeName cfg)) < 256)%Z →
  Forall (λ p, (Z.of_nat (length p.1) < 256 ∧ Z.of_nat (length p.2) ≤ 65535)%Z) packets →
  Forall (λ m, length (frame m) ≤ room) (session_messages (NodeName cfg) packets) →
  relay_step (Accept c (recv (wire_bytes
    (client_session room packets (NewRelayClientConn cfg)).2))) w = Some w1 →
  ∃ n w2 ses, run_alone c now room n w1 = Some w2 ∧ sessions w2 !! c = Some ses ∧ at_ ses = Closed
    ∧ table w2 = delete (NodeName cfg) (table w)
    ∧ sent w2 = sent w ++ omap (λ p, d ← <[NodeName cfg := c]> (table w) !! p.1;
        let bs := frame (packet_message (NodeName cfg) p) in
        Some (mkSending c d bs (if decide (d ∈ broken w) then [] else bs))) packets.
Proof.
  intros Hrun Hctx Hname Hp Hroom Hacc. apply reachable_all_open in Hrun as Hopen.
  rewrite client_session_written in Hacc by done.
  cbn [snd wire_bytes rc_conn conn_written] in Hacc.
  unfold session_messages in Hacc, Hroom. rewrite fmap_cons, concat_cons, fmap_app in Hacc.
  destruct (register_alone c now room _ _ w w1 Hname Hacc Hopen Hctx)
    as (w2 & ws & Hrun2 & Hs2 & Hc2 & Ht2 & Ho2 & Hb2 & Hsent2).
  destruct (forward_messages c now room _ _ _ w2 Hs2 Hc2) as (n & w3 & ses & Hrun3 & Hs3 & Hat & Ht3 & Hsent3).
  - apply Forall_fmap. eapply Forall_impl; [exact Hp|]. intros p [Hd Hl].
    unfold message_ok. simpl. split_and!; done.
  - apply Forall_fmap, Forall_true. done.
  - done.
  - by inversion_clear Hroom.
  - exists (1 + n), w3, ses. split_and!; [by eapply run_alone_app|done..| |].
    + rewrite Ht3, Ht2. simpl. apply delete_insert_eq.
    + rewrite Hsent3, Hsent2, Ht2, Hb2. f_equal. by rewrite omap_fmap.
Qed.

(** Connect in full.  When the relay is not reached it changes nothing; when
    the registration is written whole the connection carries exactly that frame;
    when it is not, Connect fails and leaves the client with the connection it
    has just closed, so that every later Send fails with a write error. *)
Theorem Connect_spec dial room rc dst payload room' :
  let registration := frame (mkRelayMessage RelayMsgRegister (NodeName (rc_cfg rc)) [] []) in
  (Connect dial room rc =
    if dial then
      if decide (length registration ≤ room) then (Ok (), set_conn (mkConn registration false) rc)
      else (Err ErrRegistering, set_conn (mkConn (take room registration) true) rc)
    else (Err ErrDialingRelay, rc))
  ∧ (dial = true → room < length registration →
     Send room' dst payload (Connect dial room rc).2 = (Err ErrWrite, (Connect dial room rc).2)).
Proof.
  intros registration.
  assert (Connect dial room rc =
    if dial then
      if decide (length registration ≤ room) then (Ok (), set_conn (mkConn registration false) rc)
      else (Err ErrRegistering, set_conn (mkConn (take room registration) true) rc)
    else (Err ErrDialingRelay, rc)) as H.
  { unfold Connect, sendMsg, Write. destruct dial; [|done]. cbn [rc_conn set_conn conn_closed].
    change (message_bytes _ _ _ _) with registration. by case_decide. }
  split; [done|]. intros -> Hr. rewrite H, decide_False by lia. done.
Qed.

(** A Send on a client that has not connected is a method call on a nil
    connection: a panic, not an error. *)
Theorem Send_unconnected room dst payload cfg :
  Send room dst payload (NewRelayClientConn cfg) = (Panic, NewRelayClientConn cfg)
  ∧ (Send room dst payload (Connect false room (NewRelayClientConn cfg)).2).1 = Panic.
Proof. done. Qed.

(** ** Witnesses

    Node [b] is connected; a node without a name connects and sends two packets,
    one to [b] and one to nobody. *)
Definition ex_packets : list (gostring * list byte) := [(str "b", [x01; x02]); (str "c", [x03])].
Definition ex_bytes : stream := recv (concat (frame <$> session_messages [] ex_packets)).

Lemma client_session_relayed_witness :
  ∃ n w1 w2, relay_step (Accept 3 ex_bytes) ex_world = Some w1 ∧ run_alone 3 0 100 n w1 = Some w2
    ∧ let bs := frame (mkRelayMessage RelayMsgData [] (str "b") [x01; x02]) in
      sent w2 = sent ex_world ++ [mkSending 3 2 bs bs].
Proof.
  destruct (relay_step (Accept 3 ex_bytes) ex_world) as [w1|] eqn:Hacc;
    [|vm_compute in Hacc; discriminate Hacc].
  destruct (client_session_relayed zero_Config ex_labels ex_world 3 w1 0 zero_Config 100 ex_packets)
    as (n & w2 & ses & Hrun & _ & _ & _ & Hsent).
  - exact ex_run.
  - vm_compute. reflexivity.
  - reflexivity.
  - apply (bool_decide_unpack _). vm_compute. exact I.
  - apply (bool_decide_unpack _). vm_compute. exact I.
  - rewrite <-Hacc. vm_compute. reflexivity.
  - exists n, w1, w2. split_and!; [done..|]. rewrite Hsent. vm_compute. reflexivity.
Defined.

Lemma Connect_spec_witness :
  (Send 10 (str "b") [] (Connect true 1 (NewRelayClientConn zero_Config)).2).1 = Err ErrWrite.
Proof.
  assert (Send 10 (str "b") [] (Connect true 1 (NewRelayClientConn zero_Config)).2
    = (Err ErrWrite, (Connect true 1 (NewRelayClientConn zero_Config)).2)) as ->; [|reflexivity].
  apply (Connect_spec true 1 (NewRelayClientConn zero_Config) (str "b") [] 10).
  - reflexivity.
  - vm_compute. lia.
Defined.
