(* ===== verification/Sha256.v ===== *)
(** * SHA-256 as crypto/sha256 computes it

    The standard library's [sha256.Sum256], and [sha256.New] with its [Write]s
    and [Sum] over the concatenation of what was written.  Words are integers in
    [0, 2^32). *)
From S2P Require Import Prelude Bytes.
From Stdlib Require Import Init.Byte.
Local Open Scope Z_scope.

Definition w32 (x : Z) : Z := Z.land x 4294967295.
Definition add32 (l : list Z) : Z := w32 (foldr Z.add 0 l).
Definition rotr (n x : Z) : Z := Z.lor (Z.shiftr x n) (w32 (Z.shiftl x (32 - n))).
Definition Ch (x y z : Z) : Z := Z.lxor (Z.land x y) (Z.land (Z.lxor x 4294967295) z).
Definition Maj (x y z : Z) : Z := Z.lxor (Z.land x y) (Z.lxor (Z.land x z) (Z.land y z)).
Definition bsig0 (x : Z) : Z := Z.lxor (rotr 2 x) (Z.lxor (rotr 13 x) (rotr 22 x)).
Definition bsig1 (x : Z) : Z := Z.lxor (rotr 6 x) (Z.lxor (rotr 11 x) (rotr 25 x)).
Definition ssig0 (x : Z) : Z := Z.lxor (rotr 7 x) (Z.lxor (rotr 18 x) (Z.shiftr x 3)).
Definition ssig1 (x : Z) : Z := Z.lxor (rotr 17 x) (Z.lxor (rotr 19 x) (Z.shiftr x 10)).

(** The constants are the first 32 bits of the fractional parts of roots of the
    first primes: cube roots for the rounds, square roots for the start. *)
Definition is_prime (n : nat) : bool :=
  forallb (λ d, negb (Nat.eqb (n mod d) 0)) (seq 2 (n - 2)).
Definition primes : list Z :=
  Eval vm_compute in Z.of_nat <$> filter (λ n, is_prime n = true) (seq 2 310).
(** The integer part of the cube root, bit by bit from the highest. *)
Fixpoint cube_root (bits : nat) (r n : Z) : Z :=
  match bits with
  | O => r
  | S bits =>
    let r' := r + 2 ^ Z.of_nat bits in
    cube_root bits (if decide (r' ^ 3 ≤ n) then r' else r) n
  end.
Definition round_constants : list Z :=
  Eval vm_compute in (λ p, cube_root 40 0 (p * 2 ^ 96) mod 2 ^ 32) <$> primes.
Definition start_constants : list Z :=
  Eval vm_compute in (λ p, Z.sqrt (p * 2 ^ 64) mod 2 ^ 32) <$> take 8 primes.

Record digest := mkDigest { da : Z; db : Z; dc : Z; dd : Z; de : Z; df : Z; dg : Z; dh : Z }.
Definition digest_init : digest :=
  let c i := nth i start_constants 0 in
  mkDigest (c 0%nat) (c 1%nat) (c 2%nat) (c 3%nat) (c 4%nat) (c 5%nat) (c 6%nat) (c 7%nat).

(** The message schedule, latest word first. *)
Fixpoint schedule (n : nat) (ws : list Z) : list Z :=
  match n with
  | O => ws
  | S n =>
    let w i := nth i ws 0 in
    schedule n (add32 [ssig1 (w 1%nat); w 6%nat; ssig0 (w 14%nat); w 15%nat] :: ws)
  end.

Definition sha_round (d : digest) (kw : Z * Z) : digest :=
  let t1 := add32 [dh d; bsig1 (de d); Ch (de d) (df d) (dg d); kw.1; kw.2] in
  let t2 := add32 [bsig0 (da d); Maj (da d) (db d) (dc d)] in
  mkDigest (add32 [t1; t2]) (da d) (db d) (dc d) (add32 [dd d; t1]) (de d) (df d) (dg d).

(** One block of 64 bytes. *)
Fixpoint block_words (n : nat) (block : list byte) : list Z :=
  match n with
  | O => []
  | S n => be_value (take 4 block) :: block_words n (drop 4 block)
  end.
Definition sha_block (d : digest) (block : list byte) : digest :=
  let ws := rev (schedule 48 (rev (block_words 16 block))) in
  let d' := foldl sha_round d (zip round_constants ws) in
  mkDigest (add32 [da d; da d']) (add32 [db d; db d']) (add32 [dc d; dc d']) (add32 [dd d; dd d'])
    (add32 [de d; de d']) (add32 [df d; df d']) (add32 [dg d; dg d']) (add32 [dh d; dh d']).

Fixpoint sha_blocks (n : nat) (d : digest) (msg : list byte) : digest :=
  match n with
  | O => d
  | S n => sha_blocks n (sha_block d (take 64 msg)) (drop 64 msg)
  end.

Definition sha_pad (msg : list byte) : list byte :=
  let n := Z.of_nat (length msg) in
  msg ++ [x80] ++ replicate (Z.to_nat ((55 - n) mod 64)) x00 ++ be_bytes 8 (8 * n).

Definition digest_bytes (d : digest) : list byte :=
  concat (PutUint32 <$> [da d; db d; dc d; dd d; de d; df d; dg d; dh d]).

Definition sha256 (msg : list byte) : list byte :=
  digest_bytes (sha_blocks (length (sha_pad msg) / 64) digest_init (sha_pad msg)).

Lemma length_sha256 msg : length (sha256 msg) = 32%nat.
Proof. done. Qed.

(** The test vectors of FIPS 180-2. *)
Example sha256_abc : be_value (sha256 (str "abc"))
  = 0xba7816bf8f01cfea414140de5dae2223b00361a396177a9cb410ff61f20015ad.
Proof. vm_compute. reflexivity. Qed.
Example sha256_two_blocks :
  be_value (sha256 (str "abcdbcdecdefdefgefghfghighijhijkijkljklmklmnlmnomnopnopq"))
  = 0x248d6a61d20638b8e5c026930c3e6039a33ce45964ff2167f6ecedd419db06c1.
Proof. vm_compute. reflexivity. Qed.
