(* ===== verification/Noise.v ===== *)
(** * crypto.go: the Noise handshake and the session cipher

    The curve and the AEAD come from golang.org/x/crypto: they are the operations
    of the class [Crypto], with what their documentation promises in
    [CryptoLaws].  SHA-256 is the one of Sha256.v.  The bytes a call to
    [rand.Read] delivers are an argument; when they are fewer than asked for, the
    read failed.  Arrays [[32]byte] are lists of bytes, of length 32 by
    [well_formed]. *)
From S2P Require Import Prelude Bytes Sha256.
From Stdlib Require Import Init.Byte.

(** [Open] appends to a nil slice: it returns the plaintext and the bytes of its
    array past the plaintext. *)
Class Crypto := {
  Cipher : Type;
  chacha_New : list byte → option Cipher;
  Seal : Cipher → list byte → list byte → list byte;
  Open : Cipher → list byte → list byte → option (list byte * list byte);
  ScalarBaseMult : list byte → list byte;
  X25519 : list byte → list byte → option (list byte)
}.

(** A key of 32 bytes is accepted, opening undoes sealing and appends a tag of 16
    bytes, public keys have 32 bytes, and Diffie-Hellman agrees. *)
Class CryptoLaws `{Crypto} : Prop := {
  New_key key : length key = 32 → is_Some (chacha_New key);
  Open_Seal c nonce pt : ∃ spare, Open c nonce (Seal c nonce pt) = Some (pt, spare);
  length_Seal c nonce pt : length (Seal c nonce pt) = length pt + 16;
  length_ScalarBaseMult k : length (ScalarBaseMult k) = 32;
  X25519_comm a b : X25519 a (ScalarBaseMult b) = X25519 b (ScalarBaseMult a)
}.

Inductive noise_error :=
  | ErrNotInitialized
  | ErrEphemeral
  | ErrTooShort
  | ErrEE
  | ErrCipher
  | ErrES
  | ErrDecrypting
  | ErrNonce.
#[export] Instance noise_error_eq_dec : EqDecision noise_error.
Proof. solve_decision. Defined.

Record NoiseHandshake := mkNoiseHandshake {
  staticKey : list byte;
  ephemeralKey : list byte;
  remoteStatic : list byte;
  remoteEphemeral : list byte;
  handshakeHash : list byte;
  initialized : bool
}.

Definition zeros (n : nat) : list byte := replicate n x00.
(** [copy(dst, src)]. *)
Definition copy (dst src : list byte) : list byte := splice 0 (take (length dst) src) dst.
#[global] Arguments copy : simpl never.

Definition set_ephemeralKey (k : list byte) (h : NoiseHandshake) : NoiseHandshake :=
  mkNoiseHandshake (staticKey h) k (remoteStatic h) (remoteEphemeral h) (handshakeHash h)
    (initialized h).
Definition set_remoteStatic (k : list byte) (h : NoiseHandshake) : NoiseHandshake :=
  mkNoiseHandshake (staticKey h) (ephemeralKey h) k (remoteEphemeral h) (handshakeHash h)
    (initialized h).
Definition set_remoteEphemeral (k : list byte) (h : NoiseHandshake) : NoiseHandshake :=
  mkNoiseHandshake (staticKey h) (ephemeralKey h) (remoteStatic h) k (handshakeHash h)
    (initialized h).
Definition set_handshakeHash (k : list byte) (h : NoiseHandshake) : NoiseHandshake :=
  mkNoiseHandshake (staticKey h) (ephemeralKey h) (remoteStatic h) (remoteEphemeral h) k
    (initialized h).

Definition NewNoiseHandshake (staticKey : list byte) : NoiseHandshake :=
  mkNoiseHandshake staticKey (zeros 32) (zeros 32) (zeros 32)
    (sha256 (str "Noise_XX_25519_ChaChaPoly_SHA256")) true.

Abbreviation handshake := (stateful NoiseHandshake noise_error).

Definition mixHash (data : list byte) : handshake () :=
  modify (λ h, set_handshakeHash (copy (handshakeHash h) (sha256 (handshakeHash h ++ data))) h).
Definition mixKey (input : list byte) : handshake () :=
  modify (λ h, set_handshakeHash (copy (handshakeHash h) (sha256 (handshakeHash h ++ input))) h).

Definition byte_and (b : byte) (m : Z) : byte := z2b (Z.land (b2z b) m).
Definition byte_or (b : byte) (m : Z) : byte := z2b (Z.lor (b2z b) m).
Definition clamp (k : list byte) : list byte :=
  alter (λ b, byte_or (byte_and b 127) 64) 31 (alter (λ b, byte_and b 248) 0 k).

(** [rand.Read(h.ephemeralKey[:])] and the clamping. *)
Definition generate_ephemeral (rand : list byte) : handshake () :=
  _ ← modify (λ h, set_ephemeralKey (copy (ephemeralKey h) rand) h);
  if decide (length rand < 32) then fail ErrEphemeral
  else modify (λ h, set_ephemeralKey (clamp (ephemeralKey h)) h).

Section handshake.
Context `{Crypto}.

Definition WriteMessageA (rand : list byte) : handshake (list byte) :=
  h ← get;
  if negb (initialized h) then fail ErrNotInitialized else
  _ ← generate_ephemeral rand;
  h ← get;
  let ephemeralPublic := ScalarBaseMult (ephemeralKey h) in
  _ ← mixHash ephemeralPublic;
  mret (copy (zeros 32) ephemeralPublic).

Definition ReadMessageA (rand msg : list byte) : handshake (list byte) :=
  if decide (length msg < 32) then fail ErrTooShort else
  _ ← modify (λ h, set_remoteEphemeral (copy (remoteEphemeral h) (take 32 msg)) h);
  h ← get;
  _ ← mixHash (remoteEphemeral h);
  _ ← generate_ephemeral rand;
  h ← get;
  let ephemeralPublic := ScalarBaseMult (ephemeralKey h) in
  sharedEE ← lift (or_fail ErrEE (X25519 (ephemeralKey h) (remoteEphemeral h)));
  _ ← mixKey sharedEE;
  h ← get;
  cipher ← lift (or_fail ErrCipher (chacha_New (handshakeHash h)));
  let staticPublic := ScalarBaseMult (staticKey h) in
  let encryptedStatic := Seal cipher (zeros 12) staticPublic in
  _ ← mixHash encryptedStatic;
  sharedES ← lift (or_fail ErrES (X25519 (staticKey h) (remoteEphemeral h)));
  _ ← mixKey sharedES;
  mret (ephemeralPublic ++ encryptedStatic).

Definition ReadMessageB (msg : list byte) : handshake () :=
  if decide (length msg < 64) then fail ErrTooShort else
  _ ← modify (λ h, set_remoteEphemeral (copy (remoteEphemeral h) (take 32 msg)) h);
  h ← get;
  _ ← mixHash (remoteEphemeral h);
  sharedEE ← lift (or_fail ErrEE (X25519 (ephemeralKey h) (remoteEphemeral h)));
  _ ← mixKey sharedEE;
  h ← get;
  cipher ← lift (or_fail ErrCipher (chacha_New (handshakeHash h)));
  let encryptedStatic := drop 32 msg in
  opened ← lift (or_fail ErrDecrypting (Open cipher (zeros 12) encryptedStatic));
  _ ← mixHash encryptedStatic;
  (** [staticBytes[:32]], which may reach into the spare capacity. *)
  staticBytes ← lift (slice (opened.1 ++ opened.2) 0 32);
  _ ← modify (λ h, set_remoteStatic (copy (remoteStatic h) staticBytes) h);
  h ← get;
  sharedES ← lift (or_fail ErrES (X25519 (ephemeralKey h) (remoteStatic h)));
  mixKey sharedES.

Definition GetRemoteStatic (h : NoiseHandshake) : list byte := remoteStatic h.
Definition GetSessionKey (h : NoiseHandshake) : list byte := handshakeHash h.

(** ** The session cipher *)
Definition Encrypt (rand key plaintext : list byte) : outcome noise_error (list byte) :=
  cipher ← or_fail ErrCipher (chacha_New key);
  let nonce := copy (zeros 12) rand in
  if decide (length rand < 12) then Err ErrNonce
  else Ok (nonce ++ Seal cipher nonce plaintext).

Definition Decrypt (key ciphertext : list byte) : outcome noise_error (list byte) :=
  if decide (length ciphertext < 12) then Err ErrTooShort else
  cipher ← or_fail ErrCipher (chacha_New key);
  let nonce := take 12 ciphertext in
  opened ← or_fail ErrDecrypting (Open cipher nonce (drop 12 ciphertext));
  Ok opened.1.

End handshake.

(** ** Arrays keep their length *)
Definition well_formed (h : NoiseHandshake) : Prop :=
  length (staticKey h) = 32 ∧ length (ephemeralKey h) = 32 ∧ length (remoteStatic h) = 32
  ∧ length (remoteEphemeral h) = 32 ∧ length (handshakeHash h) = 32.

Lemma copy_all dst src : length src = length dst → copy dst src = src.
Proof.
  intros Hl. unfold copy, splice. rewrite (take_ge src) by lia. simpl.
  rewrite drop_ge by lia. apply app_nil_r.
Qed.

Lemma length_copy dst src : length (copy dst src) = length dst.
Proof. unfold copy. apply length_splice. rewrite length_take. lia. Qed.

Lemma length_clamp k : length (clamp k) = length k.
Proof. unfold clamp. by rewrite !length_alter. Qed.

(** A call that keeps a property of the state, however it ends. *)
Definition preserves {S E A} (I : S → Prop) (m : stateful S E A) : Prop :=
  ∀ s, I s → I (m s).2.

Lemma preserves_bind {S E A B} (I : S → Prop) (m : stateful S E A) (f : A → stateful S E B) :
  preserves I m → (∀ a, preserves I (f a)) → preserves I (m ≫= f).
Proof.
  intros Hm Hf s Hs. specialize (Hm s Hs). unfold mbind, stateful_bind.
  destruct (m s) as [[a|e| |] s1]; [by apply Hf|done..].
Qed.
Lemma preserves_get {S E} (I : S → Prop) : preserves (E:=E) I get.
Proof. by intros s. Qed.
Lemma preserves_ret {S E A} (I : S → Prop) (a : A) : preserves (E:=E) I (mret a).
Proof. by intros s. Qed.
Lemma preserves_fail {S E A} (I : S → Prop) e : preserves (E:=E) (A:=A) I (fail e).
Proof. by intros s. Qed.
Lemma preserves_lift {S E A} (I : S → Prop) (o : outcome E A) : preserves I (lift o).
Proof. by intros s. Qed.
Lemma preserves_modify {S E} (I : S → Prop) f :
  (∀ s, I s → I (f s)) → preserves (E:=E) I (modify f).
Proof. intros Hf s. apply Hf. Qed.
Lemma preserves_if {S E A} (I : S → Prop) P `{Decision P} (m1 m2 : stateful S E A) :
  preserves I m1 → preserves I m2 → preserves I (if decide P then m1 else m2).
Proof. by case_decide. Qed.
Lemma preserves_ifb {S E A} (I : S → Prop) (b : bool) (m1 m2 : stateful S E A) :
  preserves I m1 → preserves I m2 → preserves I (if b then m1 else m2).
Proof. by destruct b. Qed.
Create HintDb preserves.
#[export] Hint Resolve preserves_bind preserves_get preserves_ret preserves_fail preserves_lift
  preserves_if preserves_ifb : preserves.

Ltac solve_well_formed :=
  apply preserves_modify; intros h (Hs & He & Hrs & Hre & Hh); repeat split;
  cbn [staticKey ephemeralKey remoteStatic remoteEphemeral handshakeHash set_handshakeHash
    set_ephemeralKey set_remoteEphemeral set_remoteStatic];
  rewrite ?length_copy, ?length_clamp; done.

Lemma mixHash_well_formed data : preserves well_formed (mixHash data).
Proof. solve_well_formed. Qed.
Lemma mixKey_well_formed data : preserves well_formed (mixKey data).
Proof. solve_well_formed. Qed.
Lemma set_remoteEphemeral_well_formed msg : preserves (E:=noise_error) well_formed
  (modify (λ h, set_remoteEphemeral (copy (remoteEphemeral h) msg) h)).
Proof. solve_well_formed. Qed.
Lemma set_remoteStatic_well_formed msg : preserves (E:=noise_error) well_formed
  (modify (λ h, set_remoteStatic (copy (remoteStatic h) msg) h)).
Proof. solve_well_formed. Qed.
Lemma generate_ephemeral_well_formed rand : preserves well_formed (generate_ephemeral rand).
Proof.
  apply preserves_bind; [solve_well_formed|]. intros _. apply preserves_if.
  - apply preserves_fail.
  - solve_well_formed.
Qed.
#[export] Hint Resolve mixHash_well_formed mixKey_well_formed set_remoteEphemeral_well_formed
  set_remoteStatic_well_formed generate_ephemeral_well_formed : preserves.

Lemma handshake_well_formed `{Crypto} rand msg :
  preserves well_formed (WriteMessageA rand) ∧ preserves well_formed (ReadMessageA rand msg)
  ∧ preserves well_formed (ReadMessageB msg).
Proof.
  unfold WriteMessageA, ReadMessageA, ReadMessageB. cbv zeta.
  split_and!; repeat (intros; solve [eauto with preserves] || apply preserves_bind
    || apply preserves_if || apply preserves_ifb).
Qed.

(** ** What the steps compute *)
Definition clamped (k : list byte) : Prop :=
  ∃ b b', k !! 0 = Some b ∧ k !! 31 = Some b' ∧ (b2z b mod 8 = 0 ∧ 64 ≤ b2z b' < 128)%Z.

Lemma clamp_clamped k : length k = 32 → clamped (clamp k).
Proof.
  intros Hk. unfold clamp.
  destruct (lookup_lt_is_Some_2 k 0 ltac:(lia)) as [b Hb].
  destruct (lookup_lt_is_Some_2 k 31 ltac:(lia)) as [b' Hb'].
  exists (byte_and b 248), (byte_or (byte_and b' 127) 64). split_and!.
  - rewrite list_lookup_alter_ne, list_lookup_alter_eq, Hb by done. done.
  - rewrite list_lookup_alter_eq, list_lookup_alter_ne, Hb' by done. done.
  - clear. by destruct b.
  - clear. by destruct b'.
  - clear. by destruct b'.
Qed.

Definition set_staticKey (k : list byte) (h : NoiseHandshake) : NoiseHandshake :=
  mkNoiseHandshake k (ephemeralKey h) (remoteStatic h) (remoteEphemeral h) (handshakeHash h)
    (initialized h).

Section facts.
Context `{CryptoLaws}.

Lemma generate_ephemeral_eq rand h :
  length (ephemeralKey h) = 32 → length rand = 32 →
  generate_ephemeral rand h = (Ok (), set_ephemeralKey (clamp rand) h).
Proof.
  intros He Hr. unfold generate_ephemeral, mbind, stateful_bind, modify.
  rewrite decide_False by lia. simpl. rewrite copy_all by lia. done.
Qed.

Lemma WriteMessageA_eq rand h :
  well_formed h → initialized h = true → length rand = 32 →
  let pub := ScalarBaseMult (clamp rand) in
  WriteMessageA rand h
  = (Ok pub, set_handshakeHash (sha256 (handshakeHash h ++ pub)) (set_ephemeralKey (clamp rand) h)).
Proof.
  intros (_ & He & _ & _ & Hh) Hi Hr pub. unfold WriteMessageA.
  rewrite (stateful_bind_eq _ _ h h h) by done. rewrite Hi. cbn [negb].
  rewrite (stateful_bind_eq _ _ h () _ (generate_ephemeral_eq rand h He Hr)).
  unfold mbind, stateful_bind, get, mixHash, modify, mret, stateful_ret.
  cbn [ephemeralKey set_ephemeralKey handshakeHash].
  rewrite !copy_all; [done| |]; rewrite ?length_sha256, ?length_ScalarBaseMult; done.
Qed.

(** The responder's state and answer, from the hash [h1] after message A. *)
Lemma ReadMessageA_eq rand msg h ee es c :
  well_formed h → length msg = 32 → length rand = 32 →
  let e := clamp rand in
  let key := sha256 (sha256 (handshakeHash h ++ msg) ++ ee) in
  let sealed := Seal c (zeros 12) (ScalarBaseMult (staticKey h)) in
  X25519 e msg = Some ee → X25519 (staticKey h) msg = Some es → chacha_New key = Some c →
  ReadMessageA rand msg h
  = (Ok (ScalarBaseMult e ++ sealed),
     set_handshakeHash (sha256 (sha256 (key ++ sealed) ++ es))
       (set_ephemeralKey e (set_remoteEphemeral msg h))).
Proof.
  intros (_ & He & _ & Hre & Hh) Hm Hr e key sealed Hee Hes Hc. unfold ReadMessageA.
  rewrite decide_False by lia.
  unfold mixHash, mixKey, modify, mbind, stateful_bind, get, lift.
  cbn [remoteEphemeral set_remoteEphemeral handshakeHash].
  rewrite !(take_ge msg), (copy_all (remoteEphemeral h)) by lia.
  rewrite generate_ephemeral_eq by done.
  cbn [remoteEphemeral set_remoteEphemeral handshakeHash set_handshakeHash set_ephemeralKey
    ephemeralKey staticKey].
  rewrite (copy_all (handshakeHash h)) by by rewrite length_sha256.
  fold e. rewrite Hee. cbn [or_fail].
  rewrite (copy_all (sha256 _)) by done. fold key. rewrite Hc. cbn [or_fail]. rewrite Hes.
  cbn [or_fail]. by rewrite !copy_all by done.
Qed.

(** Inversions: what a message that was produced says of the call. *)
Lemma generate_ephemeral_Ok rand h u h' :
  length (ephemeralKey h) = 32 → generate_ephemeral rand h = (Ok u, h') →
  32 ≤ length rand ∧ h' = set_ephemeralKey (clamp (take 32 rand)) h.
Proof.
  intros He. unfold generate_ephemeral, mbind, stateful_bind, modify. case_decide; [done|].
  intros [= _ <-]. split; [lia|]. cbn [ephemeralKey set_ephemeralKey].
  unfold set_ephemeralKey at 1. cbn. f_equal. f_equal. unfold copy, splice. rewrite He.
  rewrite take_0. cbn [app]. rewrite drop_ge, app_nil_r; [done|]. rewrite length_take. lia.
Qed.

Lemma WriteMessageA_Ok rand h out h' :
  well_formed h → WriteMessageA rand h = (Ok out, h') →
  initialized h = true ∧ 32 ≤ length rand ∧ out = ScalarBaseMult (ephemeralKey h')
  ∧ ephemeralKey h' = clamp (take 32 rand).
Proof.
  intros (_ & He & _). unfold WriteMessageA.
  intros (h0 & h1 & [= <- <-] & Hm)%stateful_bind_Ok.
  destruct (initialized h); [|done]. cbn [negb] in Hm.
  apply stateful_bind_Ok in Hm as (u & h2 & [Hr ->]%generate_ephemeral_Ok & Hm); [|done].
  apply stateful_bind_Ok in Hm as (h3 & h4 & [= <- <-] & Hm).
  apply stateful_bind_Ok in Hm as (u' & h5 & [= _ <-] & [= <- <-]).
  split_and!; [done..| |done]. cbn [ephemeralKey set_handshakeHash set_ephemeralKey].
  apply copy_all. by rewrite length_ScalarBaseMult.
Qed.

Lemma ReadMessageA_Ok rand msg h out h' :
  well_formed h → ReadMessageA rand msg h = (Ok out, h') →
  ∃ ee c, 32 ≤ length msg ∧ 32 ≤ length rand
    ∧ X25519 (clamp (take 32 rand)) (take 32 msg) = Some ee
    ∧ chacha_New (sha256 (sha256 (handshakeHash h ++ take 32 msg) ++ ee)) = Some c
    ∧ out = ScalarBaseMult (clamp (take 32 rand)) ++ Seal c (zeros 12) (ScalarBaseMult (staticKey h))
    ∧ ephemeralKey h' = clamp (take 32 rand).
Proof.
  intros (_ & He & _ & Hre & Hh). unfold ReadMessageA. case_decide as Hl; [done|].
  intros (u0 & h0 & [= _ <-] & Hm)%stateful_bind_Ok.
  apply stateful_bind_Ok in Hm as (h1 & h1' & [= <- <-] & Hm).
  apply stateful_bind_Ok in Hm as (u1 & h2 & [= _ <-] & Hm).
  cbn [remoteEphemeral set_remoteEphemeral handshakeHash set_handshakeHash] in Hm.
  rewrite (copy_all (remoteEphemeral h)) in Hm by (rewrite length_take; lia).
  rewrite (copy_all (handshakeHash h)) in Hm by by rewrite length_sha256.
  apply stateful_bind_Ok in Hm as (u & h3 & [Hr ->]%generate_ephemeral_Ok & Hm); [|done].
  apply stateful_bind_Ok in Hm as (h4 & h5 & [= <- <-] & Hm). cbv zeta in Hm.
  cbn [ephemeralKey remoteEphemeral set_ephemeralKey set_handshakeHash set_remoteEphemeral staticKey] in Hm.
  unfold lift, mixHash, mixKey, modify, get, mbind, stateful_bind in Hm.
  destruct (X25519 _ (take 32 msg)) as [ee|] eqn:Hee; [|done]. cbn [or_fail] in Hm.
  cbn [handshakeHash set_handshakeHash set_ephemeralKey] in Hm.
  rewrite (copy_all (sha256 _)) in Hm by done.
  destruct (chacha_New _) as [c|] eqn:Hc; [|done]. cbn [or_fail] in Hm.
  cbn [staticKey remoteEphemeral set_handshakeHash set_ephemeralKey set_remoteEphemeral] in Hm.
  destruct (X25519 (staticKey h) _) as [es|]; [|done]. unfold mret, stateful_ret in Hm.
  apply pair_equal_spec in Hm as [Hout <-].
  assert (∀ x y : list byte, Ok (E:=noise_error) x = Ok y → x = y) as Hinj by (by intros ? ? [= ->]).
  apply Hinj in Hout as <-. exists ee, c. split; [lia|]. split; [exact Hr|]. split; [reflexivity|].
  split; [exact Hc|]. split; reflexivity.
Qed.

Lemma ReadMessageB_ephemeral msg h : ephemeralKey (ReadMessageB msg h).2 = ephemeralKey h.
Proof.
  assert (preserves (λ h', ephemeralKey h' = ephemeralKey h) (ReadMessageB msg)) as Hp; [|by apply Hp].
  unfold ReadMessageB, mixHash, mixKey.
  repeat (intros; apply preserves_bind || apply preserves_if
    || (apply preserves_modify; by intros ? <-) || eauto with preserves).
Qed.

(** The initiator up to the decryption, from its hash [h1]. *)
Lemma ReadMessageB_open pub sealed h ee c :
  well_formed h → length pub = 32 → 32 ≤ length sealed →
  X25519 (ephemeralKey h) pub = Some ee →
  chacha_New (sha256 (sha256 (handshakeHash h ++ pub) ++ ee)) = Some c →
  (ReadMessageB (pub ++ sealed) h).1 =
    match Open c (zeros 12) sealed with
    | None => Err ErrDecrypting
    | Some (pt, spare) =>
      static ← slice (pt ++ spare) 0 32;
      or_fail ErrES ((λ _, ()) <$> X25519 (ephemeralKey h) static)
    end.
Proof.
  intros (_ & He & Hrs & Hre & Hh) Hp Hs Hee Hc. unfold ReadMessageB.
  rewrite length_app, decide_False by lia. rewrite take_app_at, drop_app_at by done.
  unfold mixHash, mixKey, modify, mbind, stateful_bind, get, lift.
  cbn [remoteEphemeral set_remoteEphemeral handshakeHash set_handshakeHash ephemeralKey].
  rewrite !(copy_all (remoteEphemeral h)) by lia. rewrite Hee. cbn [or_fail].
  rewrite (copy_all (handshakeHash h)) by by rewrite length_sha256.
  rewrite (copy_all (sha256 _)) by done. rewrite Hc. cbn [or_fail].
  destruct (Open c (zeros 12) sealed) as [[pt spare]|]; [|done]. cbn [or_fail fst snd].
  destruct (slice (pt ++ spare) 0 32) as [static| | |] eqn:Hsl; try done.
  cbn [remoteStatic set_remoteStatic ephemeralKey set_handshakeHash set_remoteEphemeral].
  unfold outcome_bind.
  assert (length static = 32) as Hl.
  { unfold slice in Hsl. repeat case_decide; simplify_eq. rewrite length_take, length_drop. lia. }
  rewrite copy_all by lia. by destruct (X25519 (ephemeralKey h) static).
Qed.
End facts.

(** ** Properties *)

(** C21. The two sides of an honest handshake do not agree.  The initiator mixes
    the responder's ephemeral key into its hash before the shared secret and the
    responder does not, so the responder seals its identity with one key and the
    initiator opens it with another; they are equal only if SHA-256 maps the
    hash and that ephemeral key back to the hash or has a collision there.  The
    handshake ends with a decryption error exactly when the sealed identity does
    not open under the initiator's key. *)
Theorem handshake_keys_diverge `{CryptoLaws} hA hB randA randB ee es :
  well_formed hA → well_formed hB → initialized hA = true →
  handshakeHash hA = handshakeHash hB → length randA = 32 → length randB = 32 →
  let ephA := ScalarBaseMult (clamp randA) in
  let ephB := ScalarBaseMult (clamp randB) in
  let h1 := sha256 (handshakeHash hA ++ ephA) in
  let keyB := sha256 (h1 ++ ee) in
  let keyA := sha256 (sha256 (h1 ++ ephB) ++ ee) in
  X25519 (clamp randB) ephA = Some ee → X25519 (staticKey hB) ephA = Some es →
  ∃ hA' msgB hB' cA cB,
    WriteMessageA randA hA = (Ok ephA, hA') ∧ ReadMessageA randB ephA hB = (Ok msgB, hB')
    ∧ chacha_New keyA = Some cA ∧ chacha_New keyB = Some cB
    ∧ msgB = ephB ++ Seal cB (zeros 12) (ScalarBaseMult (staticKey hB))
    ∧ ((ReadMessageB msgB hA').1 = Err ErrDecrypting
       ↔ Open cA (zeros 12) (Seal cB (zeros 12) (ScalarBaseMult (staticKey hB))) = None)
    ∧ (keyA = keyB → sha256 (h1 ++ ephB) = h1
         ∨ (sha256 (h1 ++ ephB) ++ ee ≠ h1 ++ ee
            ∧ sha256 (sha256 (h1 ++ ephB) ++ ee) = sha256 (h1 ++ ee))).
Proof.
  intros HwA HwB HiA Hh HrA HrB ephA ephB h1 keyB keyA Hee Hes.
  destruct (New_key keyA) as [cA HcA]; [done|]. destruct (New_key keyB) as [cB HcB]; [done|].
  eexists _, _, _, cA, cB. split; [by apply WriteMessageA_eq|].
  split.
  { apply (ReadMessageA_eq randB ephA hB ee es cB); try done; [apply length_ScalarBaseMult|].
    by rewrite <-Hh. }
  split_and!; [done..| |].
  - assert (32 ≤ length (Seal cB (zeros 12) (ScalarBaseMult (staticKey hB)))) as Hl.
    { rewrite length_Seal, length_ScalarBaseMult. lia. }
    destruct HwA as (H1 & H2 & H3 & H4 & H5).
    erewrite (ReadMessageB_open ephB _ _ ee cA).
    + destruct (Open cA _ _) as [[pt spare]|]; [|done]. split; [|done].
      unfold slice. case_decide; simpl; [|done].
      match goal with |- context [X25519 ?a ?b] => by destruct (X25519 a b) end.
    + repeat split; simpl; rewrite ?length_clamp; done.
    + apply length_ScalarBaseMult.
    + done.
    + simpl. fold ephA. unfold ephB. by rewrite X25519_comm.
    + done.
  - intros Hk. destruct (decide (sha256 (h1 ++ ephB) = h1)) as [|Hne]; [by left|right].
    split; [|done]. intros Heq. by apply app_inv_tail in Heq.
Qed.

(** The initiator checks that message B has 64 bytes, but it needs 80: who
    knows the key can seal fewer than 32 bytes, and slicing the plaintext to 32
    is then out of range (unless [Open] left room after it): the initiator
    panics. *)
Theorem ReadMessageB_short_static `{CryptoLaws} h pub ee c pt spare :
  well_formed h → length pub = 32 → X25519 (ephemeralKey h) pub = Some ee →
  chacha_New (sha256 (sha256 (handshakeHash h ++ pub) ++ ee)) = Some c →
  16 ≤ length pt → Open c (zeros 12) (Seal c (zeros 12) pt) = Some (pt, spare) →
  length (pt ++ spare) < 32 →
  64 ≤ length (pub ++ Seal c (zeros 12) pt)
  ∧ (ReadMessageB (pub ++ Seal c (zeros 12) pt) h).1 = Panic.
Proof.
  intros Hw Hp Hee Hc Hpt Hopen Hl. rewrite length_app, length_Seal. split; [lia|].
  erewrite ReadMessageB_open; [|done|done|rewrite length_Seal; lia|done|done].
  rewrite Hopen. rewrite slice_out by lia. done.
Qed.

(** No mutual authentication: nothing the initiator sends, computes or answers
    depends on its static key, and the responder's record of the remote identity
    is left as it was created, whoever the initiator is. *)
Theorem initiator_not_authenticated `{Crypto} k rand msg h :
  WriteMessageA rand (set_staticKey k h)
    = ((WriteMessageA rand h).1, set_staticKey k (WriteMessageA rand h).2)
  ∧ ReadMessageB msg (set_staticKey k h)
    = ((ReadMessageB msg h).1, set_staticKey k (ReadMessageB msg h).2)
  ∧ GetRemoteStatic (ReadMessageA rand msg (NewNoiseHandshake k)).2 = zeros 32.
Proof.
  split_and!.
  - unfold WriteMessageA, generate_ephemeral, mixHash, modify, get, mbind, stateful_bind.
    simpl. destruct (initialized h); simpl; [|done]. by case_decide.
  - unfold ReadMessageB. case_decide; [done|].
    unfold mixHash, mixKey, modify, get, mbind, stateful_bind, lift. simpl.
    destruct (X25519 _ _); simpl; [|done]. destruct (chacha_New _); simpl; [|done].
    destruct (Open _ _ _) as [[pt spare]|]; simpl; [|done].
    destruct (slice (pt ++ spare) 0 32); simpl; try done. by destruct (X25519 _ _).
  - assert (preserves (λ h, remoteStatic h = zeros 32) (ReadMessageA rand msg)) as Hp; [|by apply Hp].
    unfold ReadMessageA, generate_ephemeral, mixHash, mixKey.
    repeat (intros; apply preserves_bind || apply preserves_if
      || (apply preserves_modify; by intros ? <-) || eauto with preserves).
Qed.


(** C34. Decryption undoes encryption: a message sealed with a key of 32 bytes and
    a nonce of 12 is 28 bytes longer than the plaintext and decrypts to it; when
    the random source fails nothing is sealed, and what is shorter than a nonce
    is rejected. *)
Theorem Decrypt_Encrypt `{CryptoLaws} key rand plaintext :
  length key = 32 → length rand = 12 →
  (∃ ct, Encrypt rand key plaintext = Ok ct ∧ length ct = length plaintext + 28
     ∧ Decrypt key ct = Ok plaintext)
  ∧ (∀ short, length short < 12 →
       Encrypt short key plaintext = Err ErrNonce ∧ Decrypt key short = Err ErrTooShort).
Proof.
  intros Hk Hr. destruct (New_key key Hk) as [c Hc]. unfold Encrypt, Decrypt. rewrite Hc. simpl.
  split.
  - rewrite decide_False by lia. rewrite copy_all by done. eexists. split; [done|].
    rewrite length_app, length_Seal, decide_False by lia. split; [lia|].
    rewrite take_app_at, drop_app_at by done.
    destruct (Open_Seal c rand plaintext) as [spare ->]. done.
  - intros short Hs. by rewrite !decide_True by lia.
Qed.

(** ** Witnesses

    A curve and an AEAD that are not secure, but keep the promises: keys are
    their own public keys, the shared secret is their exclusive or, and sealing
    appends a keyed digest. *)
Definition pad32 (x : list byte) : list byte := take 32 (x ++ zeros 32).
Definition toy_Seal (k nonce pt : list byte) : list byte :=
  pt ++ take 16 (sha256 (k ++ nonce ++ pt)).
Definition toy_Open (k nonce ct : list byte) : option (list byte * list byte) :=
  let pt := take (length ct - 16) ct in
  if decide (ct = toy_Seal k nonce pt) then Some (pt, []) else None.
#[export] Instance toy : Crypto := {|
  Cipher := list byte;
  chacha_New key := if decide (length key = 32) then Some key else None;
  Seal := toy_Seal;
  Open := toy_Open;
  ScalarBaseMult := pad32;
  X25519 a p := Some (zip_with (λ b c, z2b (Z.lxor (b2z b) (b2z c))) (pad32 a) (pad32 p))
|}.

Lemma length_pad32 x : length (pad32 x) = 32.
Proof. unfold pad32, zeros. rewrite length_take, length_app, length_replicate. lia. Qed.
Lemma pad32_pad32 x : pad32 (pad32 x) = pad32 x.
Proof.
  pose proof (length_pad32 x) as Hl. unfold pad32 at 1. by rewrite take_app_at by done.
Qed.

#[export] Instance toy_laws : CryptoLaws (H:=toy).
Proof.
  constructor.
  - intros key Hk. simpl. by rewrite decide_True.
  - intros c nonce pt. exists []. simpl. unfold toy_Open, toy_Seal.
    assert (length (take 16 (sha256 (c ++ nonce ++ pt))) = 16) as Ht by done.
    rewrite length_app, Ht, Nat.add_sub, (take_app_length pt). by rewrite decide_True.
  - intros c nonce pt. simpl. unfold toy_Seal. by rewrite length_app.
  - apply length_pad32.
  - intros a b. simpl. f_equal. rewrite !pad32_pad32. generalize (pad32 a) (pad32 b).
    intros l1. induction l1 as [|x l1 IH]; intros [|y l2]; simpl; [done..|].
    by rewrite Z.lxor_comm, IH.
Qed.

Definition ex_hA : NoiseHandshake := NewNoiseHandshake (replicate 32 x11).
Definition ex_hB : NoiseHandshake := NewNoiseHandshake (replicate 32 x22).
Definition ex_randA : list byte := replicate 32 x33.
Definition ex_randB : list byte := replicate 32 x44.

Lemma handshake_keys_diverge_witness :
  ∃ hA msgB hB, WriteMessageA ex_randA ex_hA = (Ok (clamp ex_randA), hA)
    ∧ ReadMessageA ex_randB (clamp ex_randA) ex_hB = (Ok msgB, hB)
    ∧ (ReadMessageB msgB hA).1 = Err ErrDecrypting.
Proof.
  destruct (handshake_keys_diverge ex_hA ex_hB ex_randA ex_randB
    (default [] (X25519 (clamp ex_randB) (pad32 (clamp ex_randA))))
    (default [] (X25519 (staticKey ex_hB) (pad32 (clamp ex_randA)))))
    as (hA & msgB & hB & cA & cB & HA & HB & HcA & HcB & HmB & Hiff & _).
  1-8: vm_compute; repeat split; reflexivity.
  exists hA, msgB, hB. split_and!; [exact HA|exact HB|].
  apply Hiff. vm_compute in HcA. injection HcA as <-. vm_compute in HcB. injection HcB as <-.
  vm_compute. reflexivity.
Defined.

Lemma ReadMessageB_short_static_witness :
  (ReadMessageB (ex_randB ++ Seal (sha256 (sha256 (handshakeHash ex_hA ++ ex_randB)
      ++ default [] (X25519 (zeros 32) ex_randB))) (zeros 12) (zeros 16)) ex_hA).1 = Panic.
Proof.
  apply (@ReadMessageB_short_static toy toy_laws ex_hA ex_randB (default [] (X25519 (zeros 32) ex_randB))
    (sha256 (sha256 (handshakeHash ex_hA ++ ex_randB) ++ default [] (X25519 (zeros 32) ex_randB)))
    (zeros 16) []).
  1-6: vm_compute; repeat split; reflexivity.
  apply (bool_decide_unpack _). vm_compute. exact I.
Defined.


Lemma Decrypt_Encrypt_witness :
  ∃ ct, Encrypt (zeros 12) (zeros 32) (str "wireguard") = Ok ct
    ∧ Decrypt (zeros 32) ct = Ok (str "wireguard").
Proof.
  destruct (Decrypt_Encrypt (zeros 32) (zeros 12) (str "wireguard") eq_refl eq_refl)
    as [(ct & He & _ & Hd) _].
  by exists ct.
Defined.
