(* ===== verification/Discovery.v ===== *)
(** * discovery.go: peers and heartbeats over MQTT

    The peers a node has heard of, what it publishes, and the loops that publish
    and check.  The handlers get a payload decoded by [json.Unmarshal] ([None] when
    it fails) and publications hold the message before [json.Marshal]; the JSON, the
    topics and the broker between them are [DiscoveryWire]'s.  Entries of [peers] are never removed or replaced,
    only updated in place, so the pointer handed to the callback is the entry of
    that name.  Times are nanoseconds. *)
From S2P Require Import Prelude Bytes Config.
From Stdlib Require Import Init.Byte.
Local Open Scope Z_scope.

Record DiscoveryMessage := mkDiscoveryMessage {
  hb_NodeName : gostring;
  hb_PublicKey : gostring;
  hb_PublicIP : gostring;
  hb_PublicPort : Z;
  hb_WGPort : Z;
  hb_NATType : gostring;
  hb_Timestamp : Z;
  hb_ViaRelay : bool;
  hb_RelayAddr : gostring
}.
Record presence := mkPresence { p_NodeName : gostring; p_Status : gostring }.
#[export] Instance DiscoveryMessage_eq_dec : EqDecision DiscoveryMessage.
Proof. solve_decision. Defined.
#[export] Instance presence_eq_dec : EqDecision presence.
Proof. solve_decision. Defined.

Record PeerInfo := mkPeerInfo {
  message : DiscoveryMessage;
  LastSeen : Z;
  MissedHeartbeats : Z
}.

(** What is published, on which topic, retained or not. *)
Inductive payload := HeartbeatPayload (m : DiscoveryMessage) | PresencePayload (m : presence).
Record publication := mkPublication { topic : gostring; retained : bool; data : payload }.

Record Discovery := mkDiscovery {
  cfg : Config;
  peers : gmap gostring PeerInfo;
  (** Whether [onPeerUpdate] is set, and the names it has been called with. *)
  onPeerUpdate : bool;
  updates : list gostring;
  published : list publication
}.

Definition NewDiscovery (cfg : Config) : Discovery := mkDiscovery cfg ∅ false [] [].
Definition SetPeerUpdateCallback (d : Discovery) : Discovery :=
  mkDiscovery (cfg d) (peers d) true (updates d) (published d).
Definition set_peers (p : gmap gostring PeerInfo) (d : Discovery) : Discovery :=
  mkDiscovery (cfg d) p (onPeerUpdate d) (updates d) (published d).
Definition notify (name : gostring) (d : Discovery) : Discovery :=
  if onPeerUpdate d
  then mkDiscovery (cfg d) (peers d) true (updates d ++ [name]) (published d) else d.
Definition publish (p : publication) (d : Discovery) : Discovery :=
  mkDiscovery (cfg d) (peers d) (onPeerUpdate d) (updates d) (published d ++ [p]).

Definition node_topic (d : Discovery) (kind : gostring) : gostring :=
  mqtt_TopicPrefix (MQTT (cfg d)) ++ str "/" ++ NodeName (cfg d) ++ str "/" ++ kind.

(** ** Handlers *)
Definition handleHeartbeat (msg : option DiscoveryMessage) (now : Z) (d : Discovery) : Discovery :=
  match msg with
  | None => d
  | Some hb =>
    if decide (hb_NodeName hb = NodeName (cfg d)) then d
    else notify (hb_NodeName hb)
      (set_peers (<[hb_NodeName hb := mkPeerInfo hb now 0]> (peers d)) d)
  end.

Definition mark_offline (p : PeerInfo) : PeerInfo := mkPeerInfo (message p) (LastSeen p) 999.
Definition handlePresence (msg : option presence) (d : Discovery) : Discovery :=
  match msg with
  | None => d
  | Some p =>
    if decide (p_NodeName p = NodeName (cfg d)) then d
    else if decide (p_Status p = str "offline")
    then set_peers (alter mark_offline (p_NodeName p) (peers d)) d
    else d
  end.

(** ** Publishing *)
Definition publishHeartbeat (now : Z) (d : Discovery) : Discovery :=
  publish (mkPublication (node_topic d (str "heartbeat")) false
    (HeartbeatPayload (mkDiscoveryMessage (NodeName (cfg d)) [] [] 0
      (wg_ListenPort (WireGuard (cfg d))) [] now false []))) d.

Definition publishPresence (status : gostring) (d : Discovery) : Discovery :=
  publish (mkPublication (node_topic d (str "presence")) true
    (PresencePayload (mkPresence (NodeName (cfg d)) status))) d.

Definition UpdateLocalEndpoint (ip : gostring) (port : Z) (natType : gostring) (now : Z)
    (d : Discovery) : Discovery :=
  publish (mkPublication (node_topic d (str "heartbeat")) false
    (HeartbeatPayload (mkDiscoveryMessage (NodeName (cfg d)) [] ip port
      (wg_ListenPort (WireGuard (cfg d))) natType now false []))) d.

Definition Stop (connected : bool) (d : Discovery) : Discovery :=
  if connected then publishPresence (str "offline") d else d.

(** ** Health *)

(** A product of durations, in 64 bits. *)
Definition wrap64 (x : Z) : Z := (x + 2 ^ 63) mod 2 ^ 64 - 2 ^ 63.
Definition silence_limit (c : Config) : Z := wrap64 (mqtt_HeartbeatInterval (MQTT c) * 3).

(** One peer of the loop, at the time [now]. *)
Definition check_peer (c : Config) (now : Z) (p : PeerInfo) : PeerInfo :=
  if decide (now - LastSeen p > silence_limit c)
  then mkPeerInfo (message p) (LastSeen p) (MissedHeartbeats p + 1) else p.
(** [now] is when the loop reaches a peer. *)
Definition checkPeerHealth (now : gostring → Z) (d : Discovery) : Discovery :=
  set_peers (map_imap (λ name p, Some (check_peer (cfg d) (now name) p)) (peers d)) d.

Definition GetPeer (d : Discovery) (name : gostring) : option PeerInfo := peers d !! name.
Definition GetPeers (d : Discovery) : gmap gostring PeerInfo := peers d.

(** ** Loops

    A ticker with an interval that is not positive panics. *)
Inductive loop_event := Tick (now : Z) | Done.

Fixpoint heartbeat_ticks (events : list loop_event) (d : Discovery) : Discovery :=
  match events with
  | [] => d
  | Done :: _ => publishPresence (str "offline") d
  | Tick now :: events => heartbeat_ticks events (publishHeartbeat now d)
  end.
Definition heartbeatLoop (start : Z) (events : list loop_event) (d : Discovery) :
    outcome Empty_set Discovery :=
  if decide (mqtt_HeartbeatInterval (MQTT (cfg d)) ≤ 0) then Panic
  else Ok (heartbeat_ticks events (publishHeartbeat start d)).

Fixpoint health_ticks (events : list loop_event) (d : Discovery) : Discovery :=
  match events with
  | [] => d
  | Done :: _ => d
  | Tick now :: events => health_ticks events (checkPeerHealth (λ _, now) d)
  end.
Definition healthCheckLoop (events : list loop_event) (d : Discovery) :
    outcome Empty_set Discovery :=
  if decide (silence_limit (cfg d) ≤ 0) then Panic else Ok (health_ticks events d).

(** ** What a node goes through

    Its handlers and loops hold the lock of [peers] while they work on it, so
    they happen one after the other. *)
Inductive event :=
  | HeartbeatIn (msg : option DiscoveryMessage) (now : Z)
  | PresenceIn (msg : option presence)
  | HealthTick (now : gostring → Z)
  | HeartbeatTick (now : Z)
  | LocalEndpoint (ip : gostring) (port : Z) (natType : gostring) (now : Z)
  | Stopping (connected : bool).

Definition step (d : Discovery) (e : event) : Discovery :=
  match e with
  | HeartbeatIn msg now => handleHeartbeat msg now d
  | PresenceIn msg => handlePresence msg d
  | HealthTick now => checkPeerHealth now d
  | HeartbeatTick now => publishHeartbeat now d
  | LocalEndpoint ip port natType now => UpdateLocalEndpoint ip port natType now d
  | Stopping connected => Stop connected d
  end.
Definition run (d : Discovery) (es : list event) : Discovery := foldl step d es.

(** ** One peer's history *)

(** What an event does to the entry of [n]. *)
Definition offline_notice (n : gostring) (e : event) : bool :=
  match e with
  | PresenceIn (Some p) => bool_decide (p_NodeName p = n ∧ p_Status p = str "offline")
  | _ => false
  end.
Definition heartbeat_of (n : gostring) (e : event) : bool :=
  match e with
  | HeartbeatIn (Some hb) _ => bool_decide (hb_NodeName hb = n)
  | _ => false
  end.
Definition late_check (c : Config) (n : gostring) (seen : Z) (e : event) : bool :=
  match e with
  | HealthTick now => bool_decide (now n - seen > silence_limit c)
  | _ => false
  end.
(** The missed heartbeats of [n] after [k] and an event that is not one of them,
    when [n] was last seen at [seen]. *)
Definition missed_step (c : Config) (n : gostring) (seen : Z) (k : Z) (e : event) : Z :=
  if offline_notice n e then 999 else if late_check c n seen e then k + 1 else k.
Definition missed (c : Config) (n : gostring) (seen : Z) (es : list event) : Z :=
  foldl (missed_step c n seen) 0 es.

Lemma cfg_step d e : cfg (step d e) = cfg d.
Proof.
  destruct e as [[hb|] now|[p|]|now|now|ip port nat now|connected]; try done; simpl.
  - case_decide; [done|]. unfold notify. by case_match.
  - by repeat case_decide.
  - by destruct connected.
Qed.

Lemma cfg_run es d : cfg (run d es) = cfg d.
Proof. revert d. induction es as [|e es IH]; intros d; [done|]. simpl. by rewrite IH, cfg_step. Qed.

Lemma step_own d e :
  peers d !! NodeName (cfg d) = None → peers (step d e) !! NodeName (cfg d) = None.
Proof.
  intros Hd. destruct e as [[hb|] now|[p|]|now|now|ip port nat now|connected]; try done; simpl.
  - case_decide; [done|]. unfold notify. case_match; simpl; by rewrite lookup_insert_ne.
  - repeat case_decide; [done| |done]. simpl. by rewrite lookup_alter_ne.
  - rewrite map_lookup_imap, Hd. done.
  - by destruct connected.
Qed.

Lemma step_other d e n :
  n ≠ NodeName (cfg d) → heartbeat_of n e = false →
  peers (step d e) !! n = (λ p, mkPeerInfo (message p) (LastSeen p)
    (missed_step (cfg d) n (LastSeen p) (MissedHeartbeats p) e)) <$> peers d !! n.
Proof.
  intros Hn He.
  assert (∀ o : option PeerInfo,
    o = (λ p, mkPeerInfo (message p) (LastSeen p) (MissedHeartbeats p)) <$> o) as Hid.
  { intros [[m s k]|]; done. }
  destruct e as [[hb|] now|[p|]|now|now|ip port nat now|connected]; try apply Hid; simpl.
  - apply bool_decide_eq_false in He. case_decide; [apply Hid|].
    unfold notify. case_match; simpl; rewrite lookup_insert_ne by done; apply Hid.
  - unfold missed_step. simpl. destruct (decide (p_NodeName p = n)) as [<-|Hp].
    + rewrite decide_False by done. case_decide as Hs.
      * simpl. rewrite lookup_alter_eq, bool_decide_eq_true_2 by done. done.
      * rewrite bool_decide_eq_false_2 by (by intros [_ ?]). apply Hid.
    + rewrite bool_decide_eq_false_2 by (by intros [? _]).
      repeat case_decide; try apply Hid. simpl. rewrite lookup_alter_ne by done. apply Hid.
  - rewrite map_lookup_imap. destruct (peers d !! n) as [[m s k]|]; [|done]. simpl.
    unfold check_peer, missed_step. simpl. by case_decide as Hs; [rewrite bool_decide_eq_true_2|
      rewrite bool_decide_eq_false_2].
  - destruct connected; apply Hid.
Qed.

Lemma run_silent es d n :
  n ≠ NodeName (cfg d) → Forall (λ e, heartbeat_of n e = false) es →
  peers (run d es) !! n = (λ p, mkPeerInfo (message p) (LastSeen p)
    (foldl (missed_step (cfg d) n (LastSeen p)) (MissedHeartbeats p) es)) <$> peers d !! n.
Proof.
  revert d. induction es as [|e es IH]; intros d Hn Hes.
  { simpl. by destruct (peers d !! n) as [[m s k]|]. }
  inversion_clear Hes as [|? ? He Hes']. simpl.
  rewrite IH, step_other, cfg_step by (rewrite ?cfg_step; done).
  by destruct (peers d !! n).
Qed.

Lemma run_app es1 es2 d : run d (es1 ++ es2) = run (run d es1) es2.
Proof. apply foldl_app. Qed.

Lemma run_own es d : peers d !! NodeName (cfg d) = None → peers (run d es) !! NodeName (cfg d) = None.
Proof.
  revert d. induction es as [|e es IH]; intros d Hd; [done|]. simpl.
  rewrite <-(cfg_step d e). apply IH. rewrite cfg_step. by apply step_own.
Qed.

(** The health checks that found [n] late. *)
Definition late_checks (c : Config) (n : gostring) (seen : Z) (es : list event) : Z :=
  Z.of_nat (length (filter (λ e, late_check c n seen e) es)).

Lemma missed_no_notice c n seen es k :
  Forall (λ e, offline_notice n e = false) es →
  foldl (missed_step c n seen) k es = k + late_checks c n seen es.
Proof.
  intros Hes. revert k. unfold late_checks.
  induction Hes as [|e es He Hes IH]; intros k; [simpl; lia|].
  simpl. rewrite IH. unfold missed_step. rewrite He, filter_cons.
  destruct (late_check c n seen e); simpl; lia.
Qed.

Lemma missed_999 c n seen es k : 999 ≤ k → 999 ≤ foldl (missed_step c n seen) k es.
Proof.
  revert k. induction es as [|e es IH]; intros k Hk; [done|]. simpl. apply IH.
  unfold missed_step. repeat case_match; lia.
Qed.

Lemma missed_notice c n seen es k :
  Exists (λ e, offline_notice n e = true) es → 999 ≤ foldl (missed_step c n seen) k es.
Proof.
  intros Hes. revert k. induction Hes as [e es He|e es _ IH]; intros k; simpl; [|apply IH].
  apply missed_999. unfold missed_step. by rewrite He.
Qed.

Lemma run_heartbeat cfg es1 hb now es2 :
  hb_NodeName hb ≠ NodeName cfg → Forall (λ e, heartbeat_of (hb_NodeName hb) e = false) es2 →
  peers (run (NewDiscovery cfg) (es1 ++ HeartbeatIn (Some hb) now :: es2)) !! hb_NodeName hb
  = Some (mkPeerInfo hb now (missed cfg (hb_NodeName hb) now es2)).
Proof.
  intros Hn Hes2. rewrite run_app. simpl. rewrite cfg_run, decide_False by done.
  set (d := run (NewDiscovery cfg) es1).
  set (d1 := notify (hb_NodeName hb) (set_peers (<[hb_NodeName hb:=mkPeerInfo hb now 0]> (peers d)) d)).
  assert (Discovery.cfg d1 = cfg ∧ peers d1 !! hb_NodeName hb = Some (mkPeerInfo hb now 0))
    as [Hcfg Hd1].
  { unfold d1, notify. case_match; simpl; rewrite lookup_insert_eq; split; try done; apply cfg_run. }
  rewrite run_silent, Hd1, Hcfg by (rewrite ?Hcfg; done). done.
Qed.

(** What a node has published is of this kind. *)
Definition announcement (c : Config) (p : publication) : Prop :=
  match data p with
  | HeartbeatPayload m =>
    hb_NodeName m = NodeName c ∧ hb_PublicKey m = [] ∧ hb_WGPort m = wg_ListenPort (WireGuard c)
    ∧ hb_ViaRelay m = false ∧ retained p = false
  | PresencePayload m => p_NodeName m = NodeName c ∧ p_Status m = str "offline" ∧ retained p = true
  end.

Lemma step_published d e :
  published (step d e) = published d
  ∨ ∃ p, published (step d e) = published d ++ [p] ∧ announcement (cfg d) p.
Proof.
  destruct e as [[hb|] now|[p|]|now|now|ip port nat now|connected]; simpl; try by left.
  - left. case_decide; [done|]. unfold notify. by case_match.
  - left. by repeat case_decide.
  - right. eexists. by split.
  - right. eexists. by split.
  - destruct connected; [|by left]. right. eexists. by split.
Qed.

(** A publication as another node's handler gets it. *)
Definition delivered (now : Z) (p : publication) : event :=
  match data p with
  | HeartbeatPayload m => HeartbeatIn (Some m) now
  | PresencePayload m => PresenceIn (Some m)
  end.

(** ** Properties *)

(** C28. What a node knows of a peer is its last heartbeat: whatever else has
    happened before and since, the entry holds that message, the time it came and
    the checks missed since; a peer never heard of has no entry, and the node
    itself never gets one. *)
Theorem peer_history cfg es1 hb now es2 n es :
  hb_NodeName hb ≠ NodeName cfg → Forall (λ e, heartbeat_of (hb_NodeName hb) e = false) es2 →
  n ≠ NodeName cfg → Forall (λ e, heartbeat_of n e = false) es →
  GetPeer (run (NewDiscovery cfg) (es1 ++ HeartbeatIn (Some hb) now :: es2)) (hb_NodeName hb)
    = Some (mkPeerInfo hb now (missed cfg (hb_NodeName hb) now es2))
  ∧ GetPeer (run (NewDiscovery cfg) es) n = None
  ∧ ∀ es, GetPeer (run (NewDiscovery cfg) es) (NodeName cfg) = None.
Proof.
  intros Hhb Hes2 Hn Hes. unfold GetPeer. split_and!.
  - by apply run_heartbeat.
  - rewrite run_silent by done. done.
  - intros es'. by apply (run_own es' (NewDiscovery cfg)).
Qed.

(** How a peer is found to be down: with no offline notice since its last
    heartbeat, its missed heartbeats are exactly the health checks that came more
    than three intervals after it; with one, they are at least 999 until the
    next heartbeat, which sets them to zero. *)
Theorem missed_heartbeats cfg es1 hb now es2 :
  hb_NodeName hb ≠ NodeName cfg → Forall (λ e, heartbeat_of (hb_NodeName hb) e = false) es2 →
  ∃ p, GetPeer (run (NewDiscovery cfg) (es1 ++ HeartbeatIn (Some hb) now :: es2)) (hb_NodeName hb)
      = Some p
    ∧ (Forall (λ e, offline_notice (hb_NodeName hb) e = false) es2 →
       MissedHeartbeats p = late_checks cfg (hb_NodeName hb) now es2)
    ∧ (Exists (λ e, offline_notice (hb_NodeName hb) e = true) es2 → 999 ≤ MissedHeartbeats p).
Proof.
  intros Hhb Hes2. eexists. split; [by apply run_heartbeat|]. split; intros H; simpl.
  - by apply missed_no_notice.
  - by apply missed_notice.
Qed.

(** An announced endpoint does not last: a peer that gets a node's
    announcement knows its public address, and forgets it at the node's next
    regular heartbeat, which carries none. *)
Theorem local_endpoint_forgotten (a b : Config) da ip port natType t1 t2 t3 t4 es :
  NodeName a ≠ NodeName b → cfg da = a →
  let d1 := UpdateLocalEndpoint ip port natType t1 da in
  let d2 := publishHeartbeat t2 d1 in
  ∃ p1 p2, published d1 = published da ++ [p1] ∧ published d2 = published d1 ++ [p2] ∧
  let k1 := run (NewDiscovery b) (es ++ [delivered t3 p1]) in
  let k2 := run k1 [delivered t4 p2] in
  (λ p, (hb_PublicIP (message p), hb_PublicPort (message p))) <$> GetPeer k1 (NodeName a)
    = Some (ip, port)
  ∧ (λ p, (hb_PublicIP (message p), hb_PublicPort (message p))) <$> GetPeer k2 (NodeName a)
    = Some ([], 0).
Proof.
  intros Hab <- d1 d2. eexists _, _. split; [done|]. split; [done|].
  intros k1 k2.
  set (m1 := mkDiscoveryMessage (NodeName (cfg da)) [] ip port
    (wg_ListenPort (WireGuard (cfg da))) natType t1 false []).
  set (m2 := mkDiscoveryMessage (NodeName (cfg da)) [] [] 0
    (wg_ListenPort (WireGuard (cfg da))) [] t2 false []).
  pose proof (run_heartbeat b es m1 t3 [] Hab (Forall_nil_2 _)) as H1.
  pose proof (run_heartbeat b (es ++ [HeartbeatIn (Some m1) t3]) m2 t4 [] Hab (Forall_nil_2 _)) as H2.
  rewrite run_app in H2. unfold GetPeer. split.
  - assert (peers k1 !! NodeName (cfg da) = Some (mkPeerInfo m1 t3 0)) as -> by exact H1. done.
  - assert (peers k2 !! NodeName (cfg da) = Some (mkPeerInfo m2 t4 0)) as -> by exact H2. done.
Qed.

(** Whatever a node goes through, what it publishes announces the node
    itself, but never its public key, nor a relay; and the only presence it ever
    publishes is a retained "offline", which nothing takes back when it comes up
    again. *)
Theorem announcements cfg es : Forall (announcement cfg) (published (run (NewDiscovery cfg) es)).
Proof.
  induction es as [|e es IH] using rev_ind; [constructor|].
  rewrite run_app. simpl. pose proof (cfg_run es (NewDiscovery cfg)) as Hcfg.
  destruct (step_published (run (NewDiscovery cfg) es) e) as [->|(p & -> & Hp)]; [done|].
  apply Forall_app. split; [done|]. rewrite Hcfg in Hp. by constructor.
Qed.

(** The loops: with an interval that is not positive (which the defaults do
    not replace) the ticker panics; otherwise the heartbeat loop publishes one
    heartbeat at once and one at each tick, and "offline" when it is told to
    stop, and touches no peer. *)
Theorem heartbeatLoop_spec start nows rest d :
  (mqtt_HeartbeatInterval (MQTT (cfg d)) ≤ 0 → ∀ es, heartbeatLoop start es d = Panic)
  ∧ (0 < mqtt_HeartbeatInterval (MQTT (cfg d)) →
     ∃ d', heartbeatLoop start ((Tick <$> nows) ++ Done :: rest) d = Ok d' ∧ peers d' = peers d
       ∧ ∃ hbs, published d' = published d ++ hbs
           ++ [mkPublication (node_topic d (str "presence")) true
                 (PresencePayload (mkPresence (NodeName (cfg d)) (str "offline")))]
         ∧ length hbs = S (length nows)
         ∧ Forall (λ p, topic p = node_topic d (str "heartbeat")
             ∧ ∃ m, data p = HeartbeatPayload m) hbs).
Proof.
  unfold heartbeatLoop. split; intros Hi.
  - intros es. by rewrite decide_True.
  - rewrite decide_False by lia. eexists. split; [done|]. clear Hi.
    revert start d. induction nows as [|now nows IH]; intros start d.
    + split; [done|]. simpl. rewrite <-app_assoc. eexists [_]. split_and!; [done..|].
      repeat constructor. by eexists.
    + destruct (IH now (publishHeartbeat start d)) as (Hp & hbs & Hpub & Hl & Hall).
      split; [exact Hp|]. eexists (_ :: hbs). split_and!.
      * etrans; [exact Hpub|]. cbn [published publishHeartbeat publish]. rewrite <-app_assoc. done.
      * simpl. by rewrite Hl.
      * constructor; [|exact Hall]. split; [done|]. by eexists.
Qed.

(** ** Witnesses

    Nodes [a] and [b] with an interval of ten; [b] hears [a] at time 100, checks
    at 120 and at 150, and hears that [a] goes offline. *)
Definition ex_config (name : gostring) : Config :=
  mkConfig name (WireGuard zero_Config) (STUN zero_Config) (Relay zero_Config)
    (mkMQTTConf [] (str "vpn") [] 10 [] []) (DNS zero_Config) (Dashboard zero_Config)
    (Crypto zero_Config) ∅.
Definition ex_hb : DiscoveryMessage := mkDiscoveryMessage (str "a") [] [] 0 51820 [] 7 false [].
Definition ex_checks : list event := [HealthTick (λ _, 120); HealthTick (λ _, 150)].

Lemma peer_history_witness :
  GetPeer (run (NewDiscovery (ex_config (str "b"))) ([] ++ HeartbeatIn (Some ex_hb) 100 :: ex_checks))
    (str "a") = Some (mkPeerInfo ex_hb 100 1)
  ∧ GetPeer (run (NewDiscovery (ex_config (str "b"))) ex_checks) (str "c") = None.
Proof.
  destruct (peer_history (ex_config (str "b")) [] ex_hb 100 ex_checks (str "c") ex_checks)
    as (H1 & H2 & _).
  - discriminate.
  - by repeat constructor.
  - discriminate.
  - by repeat constructor.
  - split; [exact H1|exact H2].
Defined.

Lemma missed_heartbeats_witness :
  ∃ p, GetPeer (run (NewDiscovery (ex_config (str "b"))) ([] ++ HeartbeatIn (Some ex_hb) 100
      :: ex_checks ++ [PresenceIn (Some (mkPresence (str "a") (str "offline")))])) (str "a") = Some p
    ∧ 999 ≤ MissedHeartbeats p.
Proof.
  destruct (missed_heartbeats (ex_config (str "b")) [] ex_hb 100
    (ex_checks ++ [PresenceIn (Some (mkPresence (str "a") (str "offline")))])) as (p & Hp & _ & H).
  - discriminate.
  - by repeat constructor.
  - exists p. split; [exact Hp|]. apply H. do 2 right. left. reflexivity.
Defined.

Lemma local_endpoint_forgotten_witness :
  (λ p, (hb_PublicIP (message p), hb_PublicPort (message p))) <$>
    GetPeer (run (NewDiscovery (ex_config (str "b"))) ([] ++ (delivered 1 <$>
      published (UpdateLocalEndpoint (str "192.0.2.1") 4000 [] 0
        (NewDiscovery (ex_config (str "a"))))))) (str "a")
  = Some (str "192.0.2.1", 4000).
Proof.
  destruct (local_endpoint_forgotten (ex_config (str "a")) (ex_config (str "b"))
    (NewDiscovery (ex_config (str "a"))) (str "192.0.2.1") 4000 [] 0 2 1 3 [])
    as (p1 & p2 & Hp1 & _ & H & _); [discriminate|reflexivity|].
  rewrite Hp1. exact H.
Defined.

Lemma heartbeatLoop_spec_witness :
  ∃ d', heartbeatLoop 0 [Tick 10; Tick 20; Done] (NewDiscovery (ex_config (str "a"))) = Ok d'
    ∧ length (published d') = 4%nat.
Proof.
  destruct (heartbeatLoop_spec 0 [10; 20] [] (NewDiscovery (ex_config (str "a")))) as [_ H].
  destruct H as (d' & Hd & _ & hbs & Hpub & Hl & _); [reflexivity|].
  exists d'. split; [exact Hd|]. rewrite Hpub, !length_app, Hl. reflexivity.
Defined.
