(* ===== verification/DiscoveryWire.v ===== *)
(** * discovery.go: payloads, topics and the MQTT client

    What [Discovery] leaves out: the JSON of heartbeats and presence, the options
    and subscriptions of the client ([Start], [subscribe]) and the delivery of a
    message to the handlers.  The broker is third-party: [Broker] says which
    topics a filter matches, [MqttBroker] what MQTT promises of it. *)
From S2P Require Import Prelude Bytes GoStrings Config NetParse Utf8 Json JsonStruct Rfc3339 Discovery.
From Stdlib Require Import Init.Byte.

(** ** Payloads *)
Definition zero_DiscoveryMessage : DiscoveryMessage := mkDiscoveryMessage [] [] [] 0 0 [] 0 false [].

(** The assignments of [json.Unmarshal] to the fields. *)
Definition set_NodeName (v : gostring) (m : DiscoveryMessage) : DiscoveryMessage :=
  mkDiscoveryMessage v (hb_PublicKey m) (hb_PublicIP m) (hb_PublicPort m) (hb_WGPort m) (hb_NATType m)
    (hb_Timestamp m) (hb_ViaRelay m) (hb_RelayAddr m).
Definition set_PublicKey (v : gostring) (m : DiscoveryMessage) : DiscoveryMessage :=
  mkDiscoveryMessage (hb_NodeName m) v (hb_PublicIP m) (hb_PublicPort m) (hb_WGPort m) (hb_NATType m)
    (hb_Timestamp m) (hb_ViaRelay m) (hb_RelayAddr m).
Definition set_PublicIP (v : gostring) (m : DiscoveryMessage) : DiscoveryMessage :=
  mkDiscoveryMessage (hb_NodeName m) (hb_PublicKey m) v (hb_PublicPort m) (hb_WGPort m) (hb_NATType m)
    (hb_Timestamp m) (hb_ViaRelay m) (hb_RelayAddr m).
Definition set_PublicPort (v : Z) (m : DiscoveryMessage) : DiscoveryMessage :=
  mkDiscoveryMessage (hb_NodeName m) (hb_PublicKey m) (hb_PublicIP m) v (hb_WGPort m) (hb_NATType m)
    (hb_Timestamp m) (hb_ViaRelay m) (hb_RelayAddr m).
Definition set_WGPort (v : Z) (m : DiscoveryMessage) : DiscoveryMessage :=
  mkDiscoveryMessage (hb_NodeName m) (hb_PublicKey m) (hb_PublicIP m) (hb_PublicPort m) v (hb_NATType m)
    (hb_Timestamp m) (hb_ViaRelay m) (hb_RelayAddr m).
Definition set_NATType (v : gostring) (m : DiscoveryMessage) : DiscoveryMessage :=
  mkDiscoveryMessage (hb_NodeName m) (hb_PublicKey m) (hb_PublicIP m) (hb_PublicPort m) (hb_WGPort m) v
    (hb_Timestamp m) (hb_ViaRelay m) (hb_RelayAddr m).
Definition set_Timestamp (v : Z) (m : DiscoveryMessage) : DiscoveryMessage :=
  mkDiscoveryMessage (hb_NodeName m) (hb_PublicKey m) (hb_PublicIP m) (hb_PublicPort m) (hb_WGPort m)
    (hb_NATType m) v (hb_ViaRelay m) (hb_RelayAddr m).
Definition set_ViaRelay (v : bool) (m : DiscoveryMessage) : DiscoveryMessage :=
  mkDiscoveryMessage (hb_NodeName m) (hb_PublicKey m) (hb_PublicIP m) (hb_PublicPort m) (hb_WGPort m)
    (hb_NATType m) (hb_Timestamp m) v (hb_RelayAddr m).
Definition set_RelayAddr (v : gostring) (m : DiscoveryMessage) : DiscoveryMessage :=
  mkDiscoveryMessage (hb_NodeName m) (hb_PublicKey m) (hb_PublicIP m) (hb_PublicPort m) (hb_WGPort m)
    (hb_NATType m) (hb_Timestamp m) (hb_ViaRelay m) v.

Section payloads.
(** The offset of the local zone at a time, and what [time.Parse] makes of a text
    that the parser of RFC 3339 does not take. *)
Variables (zone : Z → Z) (lenient : gostring → option Z).

Definition UnmarshalTime (raw : gostring) : option Z :=
  match parseRFC3339 raw with Some t => Some t | None => lenient raw end.
Definition time_field {A} (set : Z → A → A) (j : json) (a : A) : option A :=
  match j with
  | JNull => Some a
  | JString raw => (λ t, set t a) <$> UnmarshalTime raw
  | _ => None
  end.

Definition heartbeat_fields : list (gostring * (json → DiscoveryMessage → option DiscoveryMessage)) := [
  (str "node_name", string_field set_NodeName);
  (str "public_key", string_field set_PublicKey);
  (str "public_ip", string_field set_PublicIP);
  (str "public_port", int_field set_PublicPort);
  (str "wg_port", int_field set_WGPort);
  (str "nat_type", string_field set_NATType);
  (str "timestamp", time_field set_Timestamp);
  (str "via_relay", bool_field set_ViaRelay);
  (str "relay_addr", string_field set_RelayAddr)].
Definition presence_fields : list (gostring * (json → presence → option presence)) := [
  (str "node_name", string_field (λ v p, mkPresence v (p_Status p)));
  (str "status", string_field (λ v p, mkPresence (p_NodeName p) v))].

(** [json.Unmarshal] into a zero value. *)
Definition UnmarshalHeartbeat (data : gostring) : option DiscoveryMessage :=
  Unmarshal heartbeat_fields data zero_DiscoveryMessage.
Definition UnmarshalPresence (data : gostring) : option presence :=
  Unmarshal presence_fields data (mkPresence [] []).

(** [json.Marshal(hb)]; the last two members are left out when they are empty. *)
Definition heartbeat_members (timestamp : gostring) (m : DiscoveryMessage) : list (gostring * gostring) :=
  [(str "node_name", quote (hb_NodeName m));
   (str "public_key", quote (hb_PublicKey m));
   (str "public_ip", quote (hb_PublicIP m));
   (str "public_port", Itoa (hb_PublicPort m));
   (str "wg_port", Itoa (hb_WGPort m));
   (str "nat_type", quote (hb_NATType m));
   (str "timestamp", quotation :: timestamp ++ [quotation])]
  ++ (if hb_ViaRelay m then [(str "via_relay", str "true")] else [])
  ++ (if decide (hb_RelayAddr m = []) then [] else [(str "relay_addr", quote (hb_RelayAddr m))]).
Definition MarshalHeartbeat (m : DiscoveryMessage) : option gostring :=
  timestamp ← FormatTime (zone (hb_Timestamp m)) (hb_Timestamp m);
  Some (object_text (heartbeat_members timestamp m)).
(** [json.Marshal] of the map, whose keys it sorts. *)
Definition MarshalPresence (p : presence) : gostring :=
  object_text [(str "node_name", quote (p_NodeName p)); (str "status", quote (p_Status p))].

(** ** The client *)
Record client_options := mkClientOptions {
  Brokers : list gostring; ClientID : gostring; AutoReconnect : bool; MaxReconnectInterval : Z;
  CleanSession : bool; Username : gostring; Password : gostring }.
(** [Start]: the options, with credentials where they are configured. *)
Definition start_options (c : Config) : client_options :=
  mkClientOptions [mqtt_Broker (MQTT c)] (mqtt_ClientID (MQTT c)) true (seconds 30) true
    (mqtt_Username (MQTT c)) (mqtt_Password (MQTT c)).

Record mqtt_message := mkMqttMessage {
  msg_topic : gostring; msg_qos : Z; msg_retained : bool; msg_payload : gostring }.

(** The messages behind [publishHeartbeat], [publishPresence] and
    [UpdateLocalEndpoint]: a heartbeat that cannot be encoded is not sent, an
    announcement that cannot be is sent empty. *)
Definition topic_of (c : Config) (kind : gostring) : gostring :=
  mqtt_TopicPrefix (MQTT c) ++ str "/" ++ NodeName c ++ str "/" ++ kind.
Definition heartbeat_message (c : Config) (now : Z) : DiscoveryMessage :=
  mkDiscoveryMessage (NodeName c) [] [] 0 (wg_ListenPort (WireGuard c)) [] now false [].
Definition endpoint_message (c : Config) (ip : gostring) (port : Z) (natType : gostring) (now : Z) :
    DiscoveryMessage :=
  mkDiscoveryMessage (NodeName c) [] ip port (wg_ListenPort (WireGuard c)) natType now false [].

Definition send_heartbeat (c : Config) (now : Z) : option mqtt_message :=
  mkMqttMessage (topic_of c (str "heartbeat")) 1 false <$> MarshalHeartbeat (heartbeat_message c now).
Definition send_presence (c : Config) (status : gostring) : mqtt_message :=
  mkMqttMessage (topic_of c (str "presence")) 1 true (MarshalPresence (mkPresence (NodeName c) status)).
Definition send_endpoint (c : Config) (ip : gostring) (port : Z) (natType : gostring) (now : Z) :
    mqtt_message :=
  mkMqttMessage (topic_of c (str "heartbeat")) 1 false
    (default [] (MarshalHeartbeat (endpoint_message c ip port natType now))).

(** ** Subscriptions *)
Inductive handler := OnHeartbeat | OnPresence.
Definition subscribe (c : Config) : list (gostring * Z * handler) :=
  [(mqtt_TopicPrefix (MQTT c) ++ str "/+/heartbeat", 1%Z, OnHeartbeat);
   (mqtt_TopicPrefix (MQTT c) ++ str "/+/presence", 1%Z, OnPresence)].

(** [Start]: the client connects, or it fails; then the two loops are started, and
    [on_connect] subscribes, now and after every reconnection. *)
Inductive connect_error := ErrMQTTConnect.
Inductive goroutine := HeartbeatLoop | HealthCheckLoop.
Definition on_connect (c : Config) : list (gostring * Z * handler) := subscribe c.
Definition Start (Connect : client_options → bool) (c : Config) : outcome connect_error (list goroutine) :=
  if Connect (start_options c) then Ok [HeartbeatLoop; HealthCheckLoop] else Err ErrMQTTConnect.

Class Broker := matches : gostring → gostring → bool.

Definition handle_payload (h : handler) (payload : gostring) (now : Z) (d : Discovery) : Discovery :=
  match h with
  | OnHeartbeat => handleHeartbeat (UnmarshalHeartbeat payload) now d
  | OnPresence => handlePresence (UnmarshalPresence payload) d
  end.
(** A message arrives at a node: every subscription that matches is served. *)
Definition deliver `{Broker} (msg : mqtt_message) (now : Z) (d : Discovery) : Discovery :=
  foldl (λ d s, if matches s.1.1 (msg_topic msg) then handle_payload s.2 (msg_payload msg) now d else d)
    d (subscribe (cfg d)).
End payloads.

(** What MQTT lets a message be published under: text in UTF-8, without wildcards
    and without U+0000, of 1 to 65535 bytes. *)
Definition topic_name (t : gostring) : Prop :=
  utf8_valid t = true ∧ (x00 ∉ t) ∧ (x2b ∉ t) ∧ (x23 ∉ t) ∧ 1 ≤ length t
  ∧ (Z.of_nat (length t) ≤ 65535)%Z.
(** A level of a filter that is no wildcard and has none in it. *)
Definition plain_level (l : gostring) : Prop := (slash ∉ l) ∧ (x2b ∉ l) ∧ (x23 ∉ l).
#[export] Instance topic_name_dec t : Decision (topic_name t).
Proof. unfold topic_name. apply _. Defined.
#[export] Instance plain_level_dec l : Decision (plain_level l).
Proof. unfold plain_level. apply _. Defined.

(** What MQTT says of the filters the program uses, on the topics that may be
    published under: [+] stands for one level of the topic. *)
Class MqttBroker `{Broker} : Prop := {
  matches_level prefix name kind :
    topic_name (prefix ++ str "/" ++ name ++ str "/" ++ kind) → plain_level kind → slash ∉ name →
    matches (prefix ++ str "/+/" ++ kind) (prefix ++ str "/" ++ name ++ str "/" ++ kind) = true;
  matches_kind prefix name kind kind' :
    topic_name (prefix ++ str "/" ++ name ++ str "/" ++ kind') → plain_level kind → slash ∉ name →
    slash ∉ kind' → kind ≠ kind' →
    matches (prefix ++ str "/+/" ++ kind) (prefix ++ str "/" ++ name ++ str "/" ++ kind') = false;
  matches_one_level prefix name kind kind' :
    topic_name (prefix ++ str "/" ++ name ++ str "/" ++ kind') → plain_level kind → slash ∈ name →
    slash ∉ kind' →
    matches (prefix ++ str "/+/" ++ kind) (prefix ++ str "/" ++ name ++ str "/" ++ kind') = false
}.

(** ** Payloads are read back *)

(** A name in ASCII is found under itself. *)
Definition decode_named {A} (fields : list (gostring * (json → A → option A))) (o : option A)
    (m : gostring * json) : option A :=
  o ≫= λ a, match find_field fields m.1 with Some set => set m.2 a | None => Some a end.

Lemma decode_struct_named {A} (fields : list (gostring * (json → A → option A)))
    (ms : list (gostring * gostring)) vs a :
  Forall (λ m, utf8_valid m.1 = true) ms →
  decode_struct fields (JObject (zip_with (λ m v, (quote_body m.1, v)) ms vs)) a
  = foldl (decode_named fields) (Some a) (zip_with (λ m v, (m.1, v)) ms vs).
Proof.
  intros Hms. unfold decode_struct. generalize (Some a). revert vs.
  induction Hms as [|m ms Hm _ IH]; intros vs o; [done|]. destruct vs as [|v vs]; [done|].
  cbn [zip_with foldl]. rewrite IH. f_equal. destruct o as [x|]; [|done].
  unfold decode_member, decode_named. cbn [mbind option_bind fst snd].
  by rewrite unquote_quote_body, (sanitize_valid _ Hm).
Qed.

(** What is written for a time is taken by the scanner as it is. *)
Lemma digits_plain w n : Forall plain_byte (digits w n).
Proof.
  revert n. induction w as [|w IH]; intros n; [constructor|]. cbn [digits]. apply Forall_app.
  split; [apply IH|]. apply Forall_singleton. unfold digit.
  pose proof (Z.mod_pos_bound n 10 ltac:(lia)) as Hr. revert Hr. generalize (n mod 10)%Z.
  intros r Hr. unfold plain_byte. rewrite b2z_z2b_small by lia.
  split_and!; [..|lia]; intros Hq%(f_equal b2z); rewrite b2z_z2b_small in Hq by lia;
    [change (b2z quotation) with 34%Z in Hq|change (b2z backslash) with 92%Z in Hq]; lia.
Qed.

Lemma time_byte_plain b s :
  b ∈ [x2d; x54; x3a; x2e; x2b; x5a] → Forall plain_byte s → Forall plain_byte (b :: s).
Proof.
  intros Hb Hs. constructor; [|done]. unfold plain_byte. set_unfold.
  naive_solver (done || (vm_compute; discriminate)).
Qed.

Ltac plain_text :=
  repeat lazymatch goal with
  | |- Forall _ (_ ++ _) => apply Forall_app; split
  | |- Forall _ (digits _ _) => apply digits_plain
  | |- Forall _ (_ :: _) => apply time_byte_plain; [set_solver|]
  | |- Forall _ [] => constructor
  end.

Lemma FormatTime_plain offset t s : FormatTime offset t = Some s → Forall plain_byte s.
Proof.
  unfold FormatTime. destruct (clock _) as [[y m d] sod]. case_decide; [|done]. intros Hs.
  apply (inj Some) in Hs as <-. unfold date_text, clock_text. plain_text.
  - unfold fraction_text. destruct (trim_zeros_spec (digits 9 (t mod second))) as [k Hk].
    pose proof (digits_plain 9 (t mod second)) as Hp. rewrite Hk in Hp. apply Forall_app in Hp as [Hp _].
    destruct (trim_zeros _); [constructor|]. by apply time_byte_plain; [set_solver|].
  - unfold zone_text. case_decide; [plain_text|].
    apply time_byte_plain; [case_decide; set_solver|]. plain_text.
Qed.

Lemma reads_plain s : Forall plain_byte s → reads_as (quotation :: s ++ [quotation]) (JString s).
Proof.
  intros Hs. exists (TString s). split; [done|]. intros t _.
  rewrite <-app_comm_cons, <-app_assoc. cbn [app].
  eapply (tokens_scan _ _ _ (S (length s))); [done| | |].
  - unfold scan. cbn [punctuation]. rewrite decide_True, (scan_plain s) by done.
    cbn [scan_string]. rewrite decide_True by done. simpl. by rewrite app_nil_r.
  - rewrite <-Nat.add_1_r, <-drop_drop, drop_app_length. done.
  - rewrite length_app. simpl. lia.
Qed.

(** A message as it arrives: its strings without what is not UTF-8 in them. *)
Definition sanitize_message (m : DiscoveryMessage) : DiscoveryMessage :=
  mkDiscoveryMessage (sanitize (hb_NodeName m)) (sanitize (hb_PublicKey m)) (sanitize (hb_PublicIP m))
    (hb_PublicPort m) (hb_WGPort m) (sanitize (hb_NATType m)) (hb_Timestamp m) (hb_ViaRelay m)
    (sanitize (hb_RelayAddr m)).

Definition int64 (n : Z) : Prop := (- 2 ^ 63 ≤ n < 2 ^ 63)%Z.
#[export] Instance int64_dec n : Decision (int64 n).
Proof. unfold int64. apply _. Defined.

(** The values the members of a heartbeat are read as. *)
Definition heartbeat_values (timestamp : gostring) (m : DiscoveryMessage) : list json :=
  [JString (quote_body (hb_NodeName m)); JString (quote_body (hb_PublicKey m));
   JString (quote_body (hb_PublicIP m)); JNumber (Itoa (hb_PublicPort m)); JNumber (Itoa (hb_WGPort m));
   JString (quote_body (hb_NATType m)); JString timestamp]
  ++ (if hb_ViaRelay m then [JBool true] else [])
  ++ (if decide (hb_RelayAddr m = []) then [] else [JString (quote_body (hb_RelayAddr m))]).

Lemma heartbeat_members_read timestamp m :
  Forall plain_byte timestamp →
  Forall2 (λ m v, reads_as m.2 v) (heartbeat_members timestamp m) (heartbeat_values timestamp m).
Proof.
  intros Ht. unfold heartbeat_members, heartbeat_values.
  apply Forall2_app; [|apply Forall2_app].
  - repeat constructor; cbn [snd]; by auto using reads_quote, reads_Itoa, reads_plain.
  - destruct (hb_ViaRelay m); repeat constructor. apply reads_true.
  - case_decide; repeat constructor. apply reads_quote.
Qed.

Lemma heartbeat_names timestamp m :
  Forall (λ m, utf8_valid m.1 = true) (heartbeat_members timestamp m).
Proof.
  unfold heartbeat_members. destruct (hb_ViaRelay m); case_decide; repeat constructor; vm_compute; reflexivity.
Qed.

Section wire.
Context (zone : Z → Z) (lenient : gostring → option Z).

Lemma UnmarshalTime_FormatTime offset t s :
  (offset mod 60 = 0)%Z → FormatTime offset t = Some s → UnmarshalTime lenient s = Some t.
Proof. intros Ho Ht. unfold UnmarshalTime. by rewrite (parseRFC3339_FormatTime offset t). Qed.

Lemma decode_string {A} (set : gostring → A → A) s a :
  string_field set (JString (quote_body s)) a = Some (set (sanitize s) a).
Proof. simpl. by rewrite unquote_quote_body. Qed.
Lemma decode_int {A} (set : Z → A → A) n a : int64 n → int_field set (JNumber (Itoa n)) a = Some (set n a).
Proof. intros Hn. simpl. by rewrite ParseInt_Itoa. Qed.

(** One member of an object, by its name. *)
Lemma decode_cons {A} (fields : list (gostring * (json → A → option A))) name j l a set a' :
  find_field fields name = Some set → set j a = Some a' →
  foldl (decode_named fields) (Some a) ((name, j) :: l) = foldl (decode_named fields) (Some a') l.
Proof. intros Hf Hs. cbn [foldl]. unfold decode_named at 2. cbn [mbind option_bind fst snd]. by rewrite Hf, Hs. Qed.

Lemma find_field_name {A} (fields : list (gostring * (json → A → option A))) f :
  NoDup fields.*1 → f ∈ fields → find_field fields f.1 = Some f.2.
Proof.
  intros Hnd [i Hi]%list_elem_of_lookup_1. unfold find_field.
  assert (list_find (λ g, g.1 = f.1) fields = Some (i, f)) as ->; [|done].
  apply list_find_Some. split_and!; [done..|]. intros j g Hj Hlt Heq.
  assert (j = i); [|lia]. eapply NoDup_lookup; [exact Hnd|rewrite list_lookup_fmap, Hj; done|].
  by rewrite list_lookup_fmap, Hi, Heq.
Qed.

Lemma heartbeat_field name set :
  (name, set) ∈ heartbeat_fields lenient → find_field (heartbeat_fields lenient) name = Some set.
Proof.
  intros Hf. apply (find_field_name (heartbeat_fields lenient) (name, set)); [|done].
  apply (bool_decide_unpack _). vm_compute. exact I.
Qed.

(** The next member of a heartbeat. *)
Ltac decode_step tac :=
  etrans; [eapply decode_cons; [apply heartbeat_field; unfold heartbeat_fields;
    repeat first [apply list_elem_of_here | apply list_elem_of_further]|tac]|].

Lemma decode_heartbeat timestamp m :
  UnmarshalTime lenient timestamp = Some (hb_Timestamp m) → int64 (hb_PublicPort m) → int64 (hb_WGPort m) →
  foldl (decode_named (heartbeat_fields lenient)) (Some zero_DiscoveryMessage)
    (zip_with (λ m v, (m.1, v)) (heartbeat_members timestamp m) (heartbeat_values timestamp m))
  = Some (sanitize_message m).
Proof.
  intros Ht Hport Hwg. unfold heartbeat_members, heartbeat_values. cbn [app zip_with fst].
  do 3 decode_step ltac:(apply decode_string). do 2 decode_step ltac:(by apply decode_int).
  decode_step ltac:(apply decode_string).
  decode_step ltac:(cbn [time_field]; rewrite Ht; reflexivity).
  unfold sanitize_message. destruct (hb_ViaRelay m), (decide (hb_RelayAddr m = [])) as [Hr|Hr];
    rewrite ?Hr; cbn [app zip_with fst].
  - by decode_step ltac:(reflexivity).
  - decode_step ltac:(reflexivity). by decode_step ltac:(apply decode_string).
  - done.
  - by decode_step ltac:(apply decode_string).
Qed.

Lemma UnmarshalHeartbeat_parsed data j :
  parse_json data = Some j →
  UnmarshalHeartbeat lenient data = decode_struct (heartbeat_fields lenient) j zero_DiscoveryMessage.
Proof. intros Hj. unfold UnmarshalHeartbeat, Unmarshal. by rewrite Hj. Qed.

Lemma UnmarshalHeartbeat_Marshal m data :
  (zone (hb_Timestamp m) mod 60 = 0)%Z → int64 (hb_PublicPort m) → int64 (hb_WGPort m) →
  MarshalHeartbeat zone m = Some data →
  UnmarshalHeartbeat lenient data = Some (sanitize_message m).
Proof.
  intros Hz Hport Hwg. unfold MarshalHeartbeat.
  destruct (FormatTime (zone (hb_Timestamp m)) (hb_Timestamp m)) as [timestamp|] eqn:Ht; [|done].
  intros Hd. apply (inj Some) in Hd as <-.
  etrans; [apply UnmarshalHeartbeat_parsed, parse_object_text;
    eapply heartbeat_members_read, FormatTime_plain, Ht|].
  etrans; [apply decode_struct_named, heartbeat_names|].
  apply decode_heartbeat; [|done..]. by eapply UnmarshalTime_FormatTime.
Qed.

Lemma UnmarshalPresence_Marshal p :
  UnmarshalPresence (MarshalPresence p) = Some (mkPresence (sanitize (p_NodeName p)) (sanitize (p_Status p))).
Proof.
  unfold UnmarshalPresence, Unmarshal, MarshalPresence.
  rewrite (parse_object_text _ [JString (quote_body (p_NodeName p)); JString (quote_body (p_Status p))])
    by (repeat constructor; apply reads_quote).
  cbn [mbind option_bind]. rewrite decode_struct_named by (repeat constructor; vm_compute; reflexivity).
  cbn [zip_with fst].
  etrans; [eapply decode_cons; [reflexivity|apply decode_string]|].
  etrans; [eapply decode_cons; [reflexivity|apply decode_string]|]. done.
Qed.

(** ** Delivery *)
Context `{MqttBroker}.

Lemma cfg_handle_payload h payload now d : cfg (handle_payload lenient h payload now d) = cfg d.
Proof.
  destruct h; simpl.
  - apply (cfg_step d (HeartbeatIn _ now)).
  - apply (cfg_step d (PresenceIn _)).
Qed.

(** The last level of the topics of a kind of message. *)
Definition kind_name (h : handler) : gostring :=
  match h with OnHeartbeat => str "heartbeat" | OnPresence => str "presence" end.

Lemma kind_name_plain h : plain_level (kind_name h).
Proof. destruct h; apply (bool_decide_unpack _); vm_compute; exact I. Qed.

(** A message of a node goes to the handler of its kind, if its name is one level
    of the topic, and to none otherwise. *)
Lemma deliver_kind a h msg now d :
  mqtt_TopicPrefix (MQTT a) = mqtt_TopicPrefix (MQTT (cfg d)) →
  topic_name (topic_of a (kind_name h)) → msg_topic msg = topic_of a (kind_name h) →
  deliver lenient msg now d
  = (if decide (slash ∈ NodeName a) then d else handle_payload lenient h (msg_payload msg) now d).
Proof.
  intros Hp Hname Ht. unfold deliver, subscribe. rewrite <-Hp. cbn [foldl fst snd]. rewrite Ht.
  unfold topic_of in *.
  change (str "/+/heartbeat") with (str "/+/" ++ kind_name OnHeartbeat).
  change (str "/+/presence") with (str "/+/" ++ kind_name OnPresence).
  pose proof (kind_name_plain OnHeartbeat) as Hk1. pose proof (kind_name_plain OnPresence) as Hk2.
  assert (slash ∉ kind_name h) as Hk by apply kind_name_plain.
  case_decide as Hs; [by rewrite !matches_one_level|]. destruct h.
  - rewrite matches_level by done. by rewrite matches_kind.
  - rewrite (matches_level _ _ (kind_name OnPresence)) by done. by rewrite matches_kind.
Qed.

Lemma sanitize_heartbeat a sent :
  utf8_valid (NodeName a) = true → sanitize_message (heartbeat_message a sent) = heartbeat_message a sent.
Proof. intros Hu. unfold sanitize_message, heartbeat_message. simpl. by rewrite (sanitize_valid _ Hu). Qed.

Lemma UnmarshalHeartbeat_sent a sent data :
  utf8_valid (NodeName a) = true → (zone sent mod 60 = 0)%Z → int64 (wg_ListenPort (WireGuard a)) →
  MarshalHeartbeat zone (heartbeat_message a sent) = Some data →
  UnmarshalHeartbeat lenient data = Some (heartbeat_message a sent).
Proof.
  intros Hu Hz Hport Hdata. rewrite <-(sanitize_heartbeat a sent Hu).
  by apply UnmarshalHeartbeat_Marshal.
Qed.

Lemma send_heartbeat_Some a sent msg :
  send_heartbeat zone a sent = Some msg →
  msg_topic msg = topic_of a (str "heartbeat")
  ∧ MarshalHeartbeat zone (heartbeat_message a sent) = Some (msg_payload msg).
Proof.
  unfold send_heartbeat. destruct (MarshalHeartbeat zone _) as [data|]; [|done]. by intros [= <-].
Qed.

Lemma deliver_heartbeat a sent msg now d :
  mqtt_TopicPrefix (MQTT a) = mqtt_TopicPrefix (MQTT (cfg d)) →
  topic_name (topic_of a (str "heartbeat")) →
  utf8_valid (NodeName a) = true → (zone sent mod 60 = 0)%Z → int64 (wg_ListenPort (WireGuard a)) →
  send_heartbeat zone a sent = Some msg →
  deliver lenient msg now d = if decide (slash ∈ NodeName a) then d
    else handleHeartbeat (Some (heartbeat_message a sent)) now d.
Proof.
  intros Hp Hplain Hu Hz Hport (Ht & Hd)%send_heartbeat_Some.
  rewrite (deliver_kind a OnHeartbeat msg now d Hp Hplain Ht). unfold handle_payload.
  by rewrite (UnmarshalHeartbeat_sent a sent _ Hu Hz Hport Hd).
Qed.

Lemma deliver_presence a status now d :
  mqtt_TopicPrefix (MQTT a) = mqtt_TopicPrefix (MQTT (cfg d)) →
  topic_name (topic_of a (str "presence")) →
  utf8_valid (NodeName a) = true → utf8_valid status = true →
  deliver lenient (send_presence a status) now d = if decide (slash ∈ NodeName a) then d
    else handlePresence (Some (mkPresence (NodeName a) status)) d.
Proof.
  intros Hp Hplain Hu Hs. rewrite (deliver_kind a OnPresence (send_presence a status) now d Hp Hplain eq_refl).
  unfold handle_payload. change (msg_payload (send_presence a status)) with
    (MarshalPresence (mkPresence (NodeName a) status)).
  rewrite UnmarshalPresence_Marshal. cbn [p_NodeName p_Status].
  by rewrite (sanitize_valid _ Hu), (sanitize_valid _ Hs).
Qed.
End wire.

(** ** Properties *)

(** C17. A heartbeat survives its encoding: whatever is in its fields and whatever
    the zone of the sender (of whole minutes), what a receiver decodes from what
    [json.Marshal] wrote is the message, to the nanosecond of its time, with
    what is not UTF-8 in its strings replaced; a message in UTF-8 arrives as it
    was.  The same holds of presence. *)
Theorem heartbeat_roundtrip (zone : Z → Z) (lenient : gostring → option Z) m data p :
  (zone (hb_Timestamp m) mod 60 = 0)%Z → int64 (hb_PublicPort m) → int64 (hb_WGPort m) →
  MarshalHeartbeat zone m = Some data →
  UnmarshalHeartbeat lenient data = Some (sanitize_message m)
  ∧ (Forall (λ s, utf8_valid s = true) [hb_NodeName m; hb_PublicKey m; hb_PublicIP m; hb_NATType m;
      hb_RelayAddr m] → sanitize_message m = m)
  ∧ UnmarshalPresence (MarshalPresence p) = Some (mkPresence (sanitize (p_NodeName p)) (sanitize (p_Status p))).
Proof.
  intros Hz Hport Hwg Hm. split_and!.
  - by eapply UnmarshalHeartbeat_Marshal.
  - intros Hall. unfold sanitize_message. inversion_clear Hall as [|? ? H1 Hall2].
    inversion_clear Hall2 as [|? ? H2 Hall3]. inversion_clear Hall3 as [|? ? H3 Hall4].
    inversion_clear Hall4 as [|? ? H4 Hall5]. inversion_clear Hall5 as [|? ? H5 _].
    rewrite !sanitize_valid by done. by destruct m.
  - apply UnmarshalPresence_Marshal.
Qed.

(** C5. From node to node, in bytes: where the topics of a node are such as MQTT
    lets a message be published under (no [+] and no [#] in the prefix or the
    name), its name is text in UTF-8 and its zone of whole minutes, what it
    publishes as its heartbeat makes every other node that shares the topic
    prefix, whatever that has been through, know the node with exactly that
    heartbeat, seen now; and the presence it publishes when it stops marks it
    offline there.  A node whose name has a slash in it is heard by nobody: its
    topics have a level too many. *)
Theorem heartbeat_received `{MqttBroker} zone lenient (a b : Config) es msg sent now later :
  mqtt_TopicPrefix (MQTT a) = mqtt_TopicPrefix (MQTT b) →
  topic_name (topic_of a (str "heartbeat")) → topic_name (topic_of a (str "presence")) →
  NodeName a ≠ NodeName b → utf8_valid (NodeName a) = true →
  (zone sent mod 60 = 0)%Z → int64 (wg_ListenPort (WireGuard a)) →
  send_heartbeat zone a sent = Some msg →
  let d := run (NewDiscovery b) es in
  let d1 := deliver lenient msg now d in
  let d2 := deliver lenient (send_presence a (str "offline")) later d1 in
  if decide (slash ∈ NodeName a) then d1 = d ∧ d2 = d else
  GetPeer d1 (NodeName a) = Some (mkPeerInfo (heartbeat_message a sent) now 0)
  ∧ GetPeer d2 (NodeName a) = Some (mkPeerInfo (heartbeat_message a sent) now 999).
Proof.
  intros Hp Hplain Hplain2 Hab Hu Hz Hport Hmsg d d1 d2.
  assert (cfg d = b) as Hd by apply (cfg_run es (NewDiscovery b)).
  assert (d1 = if decide (slash ∈ NodeName a) then d else
    handleHeartbeat (Some (heartbeat_message a sent)) now d) as Hd1.
  { eapply deliver_heartbeat; try done. by rewrite Hd. }
  assert (cfg d1 = b) as Hcfg1.
  { rewrite Hd1. case_decide; [done|].
    etrans; [exact (cfg_step d (HeartbeatIn (Some (heartbeat_message a sent)) now))|done]. }
  assert (d2 = if decide (slash ∈ NodeName a) then d1 else
    handlePresence (Some (mkPresence (NodeName a) (str "offline"))) d1) as Hd2.
  { apply deliver_presence; try done. by rewrite Hcfg1. }
  clearbody d d1 d2. case_decide as Hs; [by subst d2 d1|].
  assert (GetPeer d1 (NodeName a) = Some (mkPeerInfo (heartbeat_message a sent) now 0)) as H1.
  { rewrite Hd1. unfold handleHeartbeat. cbn [heartbeat_message hb_NodeName].
    rewrite decide_False by (rewrite Hd; done). unfold GetPeer, notify.
    case_match; simpl; apply lookup_insert_eq. }
  split; [done|]. rewrite Hd2. unfold handlePresence. cbn [p_NodeName p_Status].
  rewrite decide_False, decide_True by (done || by rewrite Hcfg1).
  unfold GetPeer in *. simpl. by rewrite lookup_alter_eq, H1.
Qed.

(** Nothing has to be in a heartbeat: a payload that is the literal null, or an
    object without members, is decoded to the empty message, and a node that gets
    it knows from then on a peer without a name. *)
Theorem nameless_heartbeat lenient payload now d :
  payload = str "null" ∨ payload = str "{}" → NodeName (cfg d) ≠ [] →
  GetPeer (handle_payload lenient OnHeartbeat payload now d) [] = Some (mkPeerInfo zero_DiscoveryMessage now 0).
Proof.
  intros Hpay Hn.
  assert (UnmarshalHeartbeat lenient payload = Some zero_DiscoveryMessage) as Hu
    by (destruct Hpay as [->| ->]; reflexivity).
  unfold handle_payload. rewrite Hu. unfold handleHeartbeat. cbn [zero_DiscoveryMessage hb_NodeName].
  rewrite decide_False by congruence. unfold GetPeer, notify. case_match; simpl; apply lookup_insert_eq.
Qed.

(** ** Witnesses

    A broker that matches level by level; a node in a zone two hours east, on
    12 March 2024. *)
Fixpoint match_levels (filter topic : list gostring) : bool :=
  match filter, topic with
  | [], [] => true
  | f :: filter, t :: topic => (bool_decide (f = str "+") || bool_decide (f = t)) && match_levels filter topic
  | _, _ => false
  end.
#[local] Instance ex_broker : Broker := λ filter topic, match_levels (Split filter slash) (Split topic slash).

Lemma match_levels_same p filter topic : match_levels (p ++ filter) (p ++ topic) = match_levels filter topic.
Proof. induction p as [|l p IH]; [done|]. simpl. by rewrite (bool_decide_eq_true_2 (l = l)), orb_true_r. Qed.

Lemma match_levels_length filter topic : length filter ≠ length topic → match_levels filter topic = false.
Proof.
  revert topic. induction filter as [|f filter IH]; intros [|t topic]; try done. simpl. intros Hl.
  rewrite IH by lia. apply andb_false_r.
Qed.

Lemma ex_levels prefix name kind kind' :
  slash ∉ kind → slash ∉ kind' →
  matches (prefix ++ str "/+/" ++ kind) (prefix ++ str "/" ++ name ++ str "/" ++ kind')
  = match_levels [str "+"; kind] (Split name slash ++ [kind']).
Proof.
  intros Hk Hk'. unfold matches, ex_broker.
  change (str "/+/" ++ kind) with (slash :: str "+" ++ slash :: kind).
  change (str "/" ++ name ++ str "/" ++ kind') with (slash :: name ++ slash :: kind').
  rewrite !Split_app_sep, match_levels_same. rewrite (Split_part slash kind), (Split_part slash kind') by done. done.
Qed.

Lemma Split_slash_length name : slash ∈ name → length (Split name slash) ≠ 1.
Proof.
  intros (n1 & n2 & ->)%list_elem_of_split. rewrite Split_app_sep, length_app.
  pose proof (Split_ne slash n1). pose proof (Split_ne slash n2).
  destruct (Split n1 slash), (Split n2 slash); simpl; try done; lia.
Qed.

#[local] Instance ex_mqtt : MqttBroker.
Proof.
  split.
  - intros prefix name kind _ (Hk & _ & _) Hn. rewrite ex_levels by done.
    rewrite (Split_part slash name) by done.
    simpl. by rewrite (bool_decide_eq_true_2 (kind = kind)), orb_true_r.
  - intros prefix name kind kind' _ (Hk & Hp & _) Hn Hk' Hne. rewrite ex_levels by done.
    rewrite (Split_part slash name) by done. simpl.
    rewrite (bool_decide_eq_false_2 (kind = kind')), bool_decide_eq_false_2; [done| |done].
    intros ->. apply Hp. by left.
  - intros prefix name kind kind' _ (Hk & _ & _) Hn Hk'. rewrite ex_levels by done.
    apply match_levels_length. rewrite length_app. apply Split_slash_length in Hn. simpl. lia.
Qed.

Definition ex_zone (t : Z) : Z := 7200.
Definition ex_lenient (s : gostring) : option Z := None.
Definition ex_now : Z := 1710237600123000000.
Definition ex_sent : mqtt_message :=
  default (mkMqttMessage [] 0 false []) (send_heartbeat ex_zone (ex_config (str "a")) ex_now).

(** With apostrophes for quotation marks. *)
Definition quoted (s : gostring) : gostring := (λ b, if decide (b = x27) then quotation else b) <$> s.
Example ex_payload :
  msg_topic ex_sent = str "vpn/a/heartbeat" ∧
  msg_payload ex_sent = quoted (str "{'node_name':'a','public_key':'','public_ip':'','public_port':0,'wg_port':0,'nat_type':'','timestamp':'2024-03-12T12:00:00.123+02:00'}").
Proof. vm_compute. done. Qed.

Lemma heartbeat_received_witness :
  GetPeer (deliver ex_lenient ex_sent 5 (run (NewDiscovery (ex_config (str "b"))) [])) (str "a")
  = Some (mkPeerInfo (heartbeat_message (ex_config (str "a")) ex_now) 5 0).
Proof.
  pose proof (heartbeat_received ex_zone ex_lenient (ex_config (str "a")) (ex_config (str "b")) []
    ex_sent ex_now 5 6 eq_refl) as H.
  destruct H as [H _].
  - apply (bool_decide_unpack _). vm_compute. exact I.
  - apply (bool_decide_unpack _). vm_compute. exact I.
  - discriminate.
  - vm_compute. reflexivity.
  - reflexivity.
  - apply (bool_decide_unpack _). vm_compute. exact I.
  - vm_compute. reflexivity.
  - exact H.
Defined.

Lemma heartbeat_roundtrip_witness :
  UnmarshalHeartbeat ex_lenient (default [] (MarshalHeartbeat ex_zone ex_hb)) = Some ex_hb.
Proof.
  destruct (heartbeat_roundtrip ex_zone ex_lenient ex_hb (default [] (MarshalHeartbeat ex_zone ex_hb))
    (mkPresence [] [])) as (H1 & H2 & _).
  - reflexivity.
  - apply (bool_decide_unpack _). vm_compute. exact I.
  - apply (bool_decide_unpack _). vm_compute. exact I.
  - vm_compute. reflexivity.
  - rewrite H1, H2; [reflexivity|]. apply (bool_decide_unpack _). vm_compute. exact I.
Defined.

Lemma nameless_heartbeat_witness :
  GetPeer (handle_payload ex_lenient OnHeartbeat (str "{}") 5 (NewDiscovery (ex_config (str "b")))) []
  = Some (mkPeerInfo zero_DiscoveryMessage 5 0).
Proof. apply nameless_heartbeat; [by right|discriminate]. Defined.
