(* ===== verification/WireGuard.v ===== *)
(** * wireguard.go: keys, peers and the configuration of the device

    The WireGuard device and the virtual interface are third-party code: the
    class [WireGuardDevice] holds the calls the manager makes on them, and
    [UapiKeys] what the documentation of the device's configuration protocol says
    of keys.  The file system is the contents of its files, and [FileSystem] says
    which directories can be made and how much of a write goes through.
    [os.Read], which does not exist, is taken to fill the key from the random
    source or fail. *)
From S2P Require Import Prelude Bytes GoStrings NetIP NetParse Base64 FilePath Config Noise.
From stdpp Require Import pretty.
From Stdlib Require Import Init.Byte.

Record PeerState := mkPeerState {
  Name : gostring;
  PublicKey : list byte;
  AllowedIPs : list gostring;
  Endpoint : gostring;
  Connected : bool;
  ViaRelay : bool
}.

Class WireGuardDevice := {
  Dev : Type;
  Net : Type;
  (** The interface for an address and an MTU: the device on it, and its network. *)
  NewDevice : IP → Z → option (Dev * Net);
  (** A configuration text; whether it was accepted, and the device after it. *)
  IpcSet : gostring → Dev → bool * Dev;
  Up : Dev → bool * Dev;
  Close : Dev → Dev
}.

Class FileSystem := {
  MkdirAll : gostring → bool;
  (** How many bytes a write to a path can take, if it can be opened. *)
  write_room : gostring → option nat
}.
Abbreviation files := (gmap gostring (list byte)).

Inductive wg_error :=
  | ErrInvalidPrivateKey
  | ErrGenerating (err : wg_error)
  | ErrReadingGenerated
  | ErrInvalidGenerated
  | ErrReadingRandom
  | ErrCreatingKeyDir
  | ErrWritingPrivate
  | ErrWritingPublic
  | ErrCreatingTUN
  | ErrConfiguring
  | ErrBringingUp
  | ErrInvalidPublicKey
  | ErrAddingPeer
  | ErrUnknownPeer
  | ErrUpdatingEndpoint.

Definition newline : byte := x0a.
(** A line of the configuration text. *)
Definition uapi_line (key value : gostring) : gostring := key ++ str "=" ++ value ++ [newline].

Section wireguard.
Context `{Crypto, WireGuardDevice, FileSystem}.

Record WireGuardManager := mkWireGuardManager {
  cfg : Config;
  tun : option Dev;
  net : option Net;
  privateKey : list byte;
  publicKey : list byte;
  peers : gmap gostring PeerState
}.
Definition set_keys (priv pub : list byte) (m : WireGuardManager) : WireGuardManager :=
  mkWireGuardManager (cfg m) (tun m) (net m) priv pub (peers m).
Definition set_tun (d : Dev) (m : WireGuardManager) : WireGuardManager :=
  mkWireGuardManager (cfg m) (Some d) (net m) (privateKey m) (publicKey m) (peers m).
Definition set_net (n : Net) (m : WireGuardManager) : WireGuardManager :=
  mkWireGuardManager (cfg m) (tun m) (Some n) (privateKey m) (publicKey m) (peers m).
Definition set_peers (ps : gmap gostring PeerState) (m : WireGuardManager) : WireGuardManager :=
  mkWireGuardManager (cfg m) (tun m) (net m) (privateKey m) (publicKey m) ps.

(** ** Keys *)
Definition WriteFile (path : gostring) (data : list byte) : stateful files () () := λ fs,
  match write_room path with
  | None => (Err (), fs)
  | Some room =>
    (if decide (length data ≤ room) then Ok () else Err (), <[path := take room data]> fs)
  end.
Definition on_error {S E F A} (e : F) (m : stateful S E A) : stateful S F A := λ s,
  let (o, s) := m s in (map_err (λ _, e) o, s).

Definition GenerateKeys (rand : list byte) (outDir : gostring) : stateful files wg_error () :=
  if decide (length rand < 32) then fail ErrReadingRandom else
  let priv := clamp (copy (zeros 32) rand) in
  let pub := ScalarBaseMult priv in
  if negb (MkdirAll outDir) then fail ErrCreatingKeyDir else
  _ ← on_error ErrWritingPrivate
    (WriteFile (FilepathJoin outDir (str "private.key")) (EncodeToString priv));
  on_error ErrWritingPublic
    (WriteFile (FilepathJoin outDir (str "public.key")) (EncodeToString pub)).

(** A key as a file holds it. *)
Definition decode_key (data : gostring) : option (list byte) :=
  key ← DecodeString data; if decide (length key = 32) then Some key else None.
Definition keep_key (key : list byte) (m : WireGuardManager) : WireGuardManager :=
  set_keys (copy (privateKey m) key) (ScalarBaseMult (copy (privateKey m) key)) m.

Definition privPath (c : Config) : gostring :=
  FilepathJoin (wg_KeyDir (WireGuard c)) (NodeName c ++ str ".key").

Definition loadOrGenerateKeys (rand : list byte) (m : WireGuardManager) :
    stateful files wg_error WireGuardManager :=
  fs ← get;
  match fs !! privPath (cfg m) with
  | Some data =>
    match decode_key data with
    | None => fail ErrInvalidPrivateKey
    | Some key => mret (keep_key key m)
    end
  | None =>
    _ ← (λ fs, let (o, fs) := GenerateKeys rand (wg_KeyDir (WireGuard (cfg m))) fs in
               (map_err ErrGenerating o, fs));
    fs ← get;
    data ← lift (or_fail ErrReadingGenerated (fs !! privPath (cfg m)));
    key ← lift (or_fail ErrInvalidGenerated (decode_key data));
    mret (keep_key key m)
  end.

Definition NewWireGuardManager (rand : list byte) (c : Config) :
    stateful files wg_error WireGuardManager :=
  loadOrGenerateKeys rand (mkWireGuardManager c None None (zeros 32) (zeros 32) ∅).

(** ** Peers *)
Definition peer_config (pubKeyB64 : gostring) (allowedIPs : list gostring)
    (endpoint fallback : gostring) : gostring :=
  uapi_line (str "public_key") pubKeyB64
  ++ (if decide (endpoint ≠ []) then uapi_line (str "endpoint") endpoint
      else if decide (fallback ≠ []) then uapi_line (str "endpoint") fallback else [])
  ++ concat (uapi_line (str "allowed_ip") <$> allowedIPs)
  ++ uapi_line (str "persistent_keepalive_interval") (str "25").

Abbreviation wg_op := (stateful WireGuardManager wg_error).

(** [m.tun.IpcSet(config)]; a call on a nil device panics. *)
Definition ipc_set (e : wg_error) (config : gostring) : wg_op () := λ m,
  match tun m with
  | None => (Panic, m)
  | Some d =>
    let (ok, d) := IpcSet config d in (if ok : bool then Ok () else Err e, set_tun d m)
  end.

Definition AddPeer (name pubKeyB64 : gostring) (allowedIPs : list gostring)
    (endpoint fallback : gostring) : wg_op () :=
  pubKey ← lift (or_fail ErrInvalidPublicKey (decode_key pubKeyB64));
  _ ← ipc_set ErrAddingPeer (peer_config pubKeyB64 allowedIPs endpoint fallback);
  modify (λ m, set_peers (<[name := mkPeerState name (copy (zeros 32) pubKey) [] endpoint
    false false]> (peers m)) m).

Definition endpoint_config (pubKey : list byte) (endpoint : gostring) : gostring :=
  uapi_line (str "public_key") (EncodeToString pubKey) ++ uapi_line (str "endpoint") endpoint
  ++ uapi_line (str "replace_endpoints") (str "true").
Definition set_endpoint (endpoint : gostring) (viaRelay : bool) (p : PeerState) : PeerState :=
  mkPeerState (Name p) (PublicKey p) (AllowedIPs p) endpoint (Connected p) viaRelay.
Definition UpdatePeerEndpoint (name endpoint : gostring) (viaRelay : bool) : wg_op () :=
  m ← get;
  peer ← lift (or_fail ErrUnknownPeer (peers m !! name));
  _ ← ipc_set ErrUpdatingEndpoint (endpoint_config (PublicKey peer) endpoint);
  modify (λ m, set_peers (alter (set_endpoint endpoint viaRelay) name (peers m)) m).

(** ** Start *)
Definition getNodeIP (c : Config) : IP :=
  let fallback :=
    default [] (ParseIP (
      if decide (NodeName c = str "dagda") then str "100.64.0.1"
      else if decide (NodeName c = str "brigid") then str "100.64.0.2"
      else if decide (NodeName c = str "cernunnos") then str "100.64.0.3"
      else if decide (NodeName c = str "aengus") then str "100.64.0.4"
      else str "100.64.0.1")) in
  match Peers c !! NodeName c with
  | None => fallback
  | Some peer =>
    match peer_AllowedIPs peer with
    | [] => fallback
    | cidr :: _ => match ParseCIDR cidr with Some (_, ip) => ip | None => fallback end
    end
  end.

Definition device_config (m : WireGuardManager) : gostring :=
  uapi_line (str "private_key") (EncodeToString (privateKey m))
  ++ uapi_line (str "listen_port") (str (pretty (wg_ListenPort (WireGuard (cfg m))))).

(** The peers of the configuration in the order the map is ranged over; one that
    cannot be added is only logged. *)
Fixpoint add_peers (order : list (gostring * PeerConf)) : wg_op () :=
  match order with
  | [] => mret ()
  | (name, peer) :: order =>
    if decide (peer_PublicKey peer = []) then add_peers order else
    λ m,
    match AddPeer name (peer_PublicKey peer) (peer_AllowedIPs peer) (peer_Endpoint peer)
      (peer_TailscaleFallback peer) m with
    | (Ok _, m) | (Err _, m) => add_peers order m
    | (Panic, m) => (Panic, m)
    | (OutOfFuel, m) => (OutOfFuel, m)
    end
  end.

Definition device_up : wg_op () := λ m,
  match tun m with
  | None => (Panic, m)
  | Some d => let (ok, d) := Up d in (if ok : bool then Ok () else Err ErrBringingUp, set_tun d m)
  end.

Definition Start (order : list (gostring * PeerConf)) : wg_op () :=
  m ← get;
  '(d, n) ← lift (or_fail ErrCreatingTUN (NewDevice (getNodeIP (cfg m)) (wg_MTU (WireGuard (cfg m)))));
  _ ← modify (set_net n);
  _ ← modify (set_tun d);
  m ← get;
  _ ← ipc_set ErrConfiguring (device_config m);
  _ ← add_peers order;
  device_up.

(** The manager keeps its closed device, its network and its peers. *)
Definition Stop (m : WireGuardManager) : WireGuardManager :=
  match tun m with
  | Some d => set_tun (Close d) m
  | None => m
  end.
Definition GetNet (m : WireGuardManager) : option Net := net m.
Definition GetPublicKey (m : WireGuardManager) : list byte := publicKey m.
Definition GetPeerStates (m : WireGuardManager) : gmap gostring PeerState := peers m.

(** The calls a manager gets, in the order they are made. *)
Inductive wg_call :=
  | CallStart (order : list (gostring * PeerConf))
  | CallAddPeer (name pubKey : gostring) (ips : list gostring) (endpoint fallback : gostring)
  | CallUpdatePeerEndpoint (name endpoint : gostring) (viaRelay : bool)
  | CallStop.
Definition run_call (m : WireGuardManager) (call : wg_call) : WireGuardManager :=
  match call with
  | CallStart order => (Start order m).2
  | CallAddPeer name pubKey ips endpoint fallback => (AddPeer name pubKey ips endpoint fallback m).2
  | CallUpdatePeerEndpoint name endpoint viaRelay => (UpdatePeerEndpoint name endpoint viaRelay m).2
  | CallStop => Stop m
  end.
Definition run_calls (calls : list wg_call) (m : WireGuardManager) : WireGuardManager :=
  foldl run_call m calls.
End wireguard.

(** A manager is made with a key of 32 bytes and without peers. *)
Lemma NewWireGuardManager_made `{Crypto, WireGuardDevice, FileSystem} rand c fs m fs' :
  NewWireGuardManager rand c fs = (Ok m, fs') → length (privateKey m) = 32 ∧ peers m = ∅.
Proof.
  assert (∀ key fs m fs', (mret (keep_key key (mkWireGuardManager c None None (zeros 32) (zeros 32) ∅))
      : stateful files wg_error WireGuardManager) fs = (Ok m, fs') →
    length (privateKey m) = 32 ∧ peers m = ∅) as Hkeep.
  { intros key fs0 m0 fs0'. intros [= <- _]. split; [|done]. cbn [keep_key set_keys privateKey].
    by rewrite length_copy. }
  unfold NewWireGuardManager, loadOrGenerateKeys. intros (fs1 & fs2 & _ & Hm)%stateful_bind_Ok.
  cbn [cfg] in Hm. destruct (fs1 !! privPath c) as [data|].
  - destruct (decode_key data) as [key|]; [|done]. by eapply Hkeep.
  - apply stateful_bind_Ok in Hm as (? & fs3 & _ & Hm).
    apply stateful_bind_Ok in Hm as (fs4 & fs5 & _ & Hm).
    apply stateful_bind_Ok in Hm as (data & fs6 & _ & Hm).
    apply stateful_bind_Ok in Hm as (key & fs7 & _ & Hm). by eapply Hkeep.
Qed.

(** The configuration protocol takes keys as 64 hexadecimal digits: a text that
    starts with a key given otherwise is refused. *)
Definition hex_key (v : gostring) : Prop := length v = 64 ∧ Forall (λ c, is_Some (hex_digit c)) v.
Class UapiKeys `{WireGuardDevice} : Prop := uapi_refuses :
  ∀ key v text d, key ∈ [str "private_key"; str "public_key"] →
    head (Split text newline) = Some (key ++ str "=" ++ v) → ¬ hex_key v →
    (IpcSet text d).1 = false.

(** ** Key files *)
Lemma decode_key_Some data key :
  decode_key data = Some key ↔ DecodeString data = Some key ∧ length key = 32.
Proof.
  unfold decode_key. rewrite bind_Some. split.
  - intros (k & Hk & Hl). case_decide; [|done]. by injection Hl as <-.
  - intros [Hk Hl]. exists key. split; [done|]. by rewrite decide_True.
Qed.

Lemma decode_key_encode key : length key = 32 → decode_key (EncodeToString key) = Some key.
Proof. intros Hl. apply decode_key_Some. split; [apply DecodeString_EncodeToString|done]. Qed.

Lemma length_key_base64 key : length key = 32 → length (EncodeToString key) = 44.
Proof.
  intros Hl. apply (inj Z.of_nat). rewrite length_EncodeToString, Hl. reflexivity.
Qed.

Lemma on_error_Ok {S E F A} (e : F) (m : stateful S E A) s a s' :
  on_error e m s = (Ok a, s') ↔ m s = (Ok a, s').
Proof. unfold on_error. destruct (m s) as [[b|x| |] s1]; simpl; naive_solver. Qed.

Lemma WriteFile_Ok `{FileSystem} path data fs fs' :
  WriteFile path data fs = (Ok (), fs') →
  fs' = <[path := data]> fs ∧ ∃ room, write_room path = Some room ∧ length data ≤ room.
Proof.
  unfold WriteFile. destruct (write_room path) as [room|]; [|done].
  case_decide; [|done]. intros [= <-]. rewrite take_ge by done. eauto.
Qed.

Lemma WriteFile_room `{FileSystem} path data fs room :
  write_room path = Some room → length data ≤ room →
  WriteFile path data fs = (Ok (), <[path := data]> fs).
Proof.
  intros Hr Hl. unfold WriteFile. rewrite Hr, decide_True by done. by rewrite take_ge.
Qed.

Section keys.
Context `{CryptoLaws, FileSystem}.

Definition private_path (dir : gostring) : gostring := FilepathJoin dir (str "private.key").
Definition public_path (dir : gostring) : gostring := FilepathJoin dir (str "public.key").

Lemma plain_key_name name : separator ∉ name → plain_name (name ++ str ".key").
Proof.
  intros Hs. assert (separator ∉ str ".key") as Hk by (apply (bool_decide_unpack _); exact I).
  split_and!.
  - by intros [_ ?]%app_eq_nil.
  - rewrite elem_of_app. by intros [|].
  - intros Heq%(f_equal length). rewrite length_app in Heq. simpl in Heq. lia.
  - intros Heq%(f_equal length). rewrite length_app in Heq. simpl in Heq. lia.
Qed.

Lemma key_path_inj dir n1 n2 :
  separator ∉ n1 → separator ∉ n2 →
  FilepathJoin dir (n1 ++ str ".key") = FilepathJoin dir (n2 ++ str ".key") → n1 = n2.
Proof.
  intros Hn1 Hn2. destruct (FilepathJoin_plain dir) as [prefix Hp].
  rewrite !Hp by (by apply plain_key_name). intros Heq%app_inv_head. by eapply app_inv_tail.
Qed.

Lemma GenerateKeys_room rand dir fs r1 r2 :
  length rand = 32 → MkdirAll dir = true →
  write_room (private_path dir) = Some r1 → write_room (public_path dir) = Some r2 →
  44 ≤ r1 → 44 ≤ r2 →
  GenerateKeys rand dir fs = (Ok (),
    <[public_path dir := EncodeToString (ScalarBaseMult (clamp rand))]>
      (<[private_path dir := EncodeToString (clamp rand)]> fs)).
Proof.
  intros Hrand Hmk Hr1 Hr2 Hl1 Hl2. unfold GenerateKeys. rewrite decide_False by lia.
  rewrite Hmk. simpl. rewrite copy_all by (rewrite Hrand; done).
  erewrite (stateful_bind_eq _ _ fs).
  2:{ apply on_error_Ok. eapply WriteFile_room; [exact Hr1|].
      rewrite length_key_base64; [done|]. by rewrite length_clamp. }
  apply on_error_Ok. eapply WriteFile_room; [exact Hr2|].
  rewrite length_key_base64; [done|]. apply length_ScalarBaseMult.
Qed.
End keys.

(** ** Texts the device refuses *)
Lemma head_Split_app s t sep : sep ∉ s → ∃ v, head (Split (s ++ t) sep) = Some (s ++ v)
  ∧ head (Split t sep) = Some v.
Proof.
  induction s as [|c s IH]; simpl; intros Hs.
  - destruct (Split t sep) as [|v vs] eqn:Ht; [by apply Split_ne in Ht|]. by exists v.
  - rewrite decide_False by set_solver. destruct IH as (v & Hv & Ht); [set_solver|].
    exists v. split; [|done]. destruct (Split (s ++ t) sep) as [|p ps]; [done|].
    simpl in *. by injection Hv as ->.
Qed.

Lemma head_Split_line value t :
  ∃ v rest, head (Split (value ++ newline :: t) newline) = Some v ∧ value = v ++ rest
    ∧ newline ∉ v.
Proof.
  induction value as [|c value IH]; simpl.
  - exists [], []. split_and!; [done..|]. set_solver.
  - destruct IH as (v & rest & Hv & -> & Hn). case_decide as Hc.
    + subst c. exists [], (newline :: v ++ rest). split_and!; [done..|]. set_solver.
    + exists (c :: v), rest. split_and!; [|done|set_solver].
      destruct (Split _ _) as [|p ps]; [done|]. simpl in *. by injection Hv as ->.
Qed.

(** The value on the first line of a text that starts with a key. *)
Lemma uapi_first_line key value t :
  newline ∉ key ++ str "=" →
  ∃ v rest, head (Split (uapi_line key value ++ t) newline) = Some (key ++ str "=" ++ v)
    ∧ value = v ++ rest.
Proof.
  intros Hk. unfold uapi_line.
  replace ((key ++ str "=" ++ value ++ [newline]) ++ t)
    with ((key ++ str "=") ++ value ++ newline :: t) by (by rewrite <-!app_assoc).
  destruct (head_Split_app (key ++ str "=") (value ++ newline :: t) newline Hk) as (v & Hv & Hv').
  destruct (head_Split_line value t) as (v' & rest & Hv'' & -> & _). rewrite Hv' in Hv''.
  injection Hv'' as ->. exists v', rest. split; [|done]. by rewrite Hv, <-app_assoc.
Qed.

Lemma hex_not_break c : is_Some (hex_digit c) → line_break c = false.
Proof.
  intros Hc. unfold line_break. apply bool_decide_eq_false. intros [->| ->]; by destruct Hc.
Qed.

Lemma decoded_key_not_hex data key v rest :
  decode_key data = Some key → data = v ++ rest → ¬ hex_key v.
Proof.
  intros [Hd Hl]%decode_key_Some -> [Hv Hhex]. unfold DecodeString in Hd.
  apply decode_quanta_length in Hd. rewrite Hl, filter_app, length_app in Hd.
  rewrite (filter_all _ v) in Hd.
  - rewrite Hv in Hd. change ((Z.of_nat 32 + 2) / 3 * 4)%Z with 44%Z in Hd. lia.
  - eapply Forall_impl; [exact Hhex|]. apply hex_not_break.
Qed.

Section refused.
Context `{Crypto, UapiKeys}.

Lemma refused_text key value t d data :
  key ∈ [str "private_key"; str "public_key"] →
  decode_key value = Some data →
  (IpcSet (uapi_line key value ++ t) d).1 = false.
Proof.
  intros Hkey Hdec. assert (newline ∉ key ++ str "=") as Hn.
  { rewrite !elem_of_cons, elem_of_nil in Hkey.
    destruct Hkey as [->|[->|[]]]; apply (bool_decide_unpack _); vm_compute; exact I. }
  destruct (uapi_first_line key value t Hn) as (v & rest & Hhead & Hv).
  eapply uapi_refuses; [exact Hkey|exact Hhead|]. by eapply decoded_key_not_hex.
Qed.

Lemma ipc_set_refused e text m d :
  tun m = Some d → (IpcSet text d).1 = false →
  ∃ d', ipc_set e text m = (Err e, set_tun d' m).
Proof.
  intros Hm Hr. unfold ipc_set. rewrite Hm. destruct (IpcSet text d) as [ok d']. simpl in Hr.
  subst ok. by exists d'.
Qed.

(** What a call leaves of a manager without peers. *)
Definition refused_from (m m' : WireGuardManager) : Prop :=
  privateKey m' = privateKey m ∧ peers m' = peers m.

Lemma AddPeer_refused m name pubKey ips endpoint fallback :
  let r := AddPeer name pubKey ips endpoint fallback m in
  r.1 = match decode_key pubKey, tun m with
        | None, _ => Err ErrInvalidPublicKey
        | Some _, None => Panic
        | Some _, Some _ => Err ErrAddingPeer
        end
  ∧ refused_from m r.2.
Proof.
  unfold AddPeer, lift, mbind, stateful_bind.
  destruct (decode_key pubKey) as [key|] eqn:Hk; simpl; [|done].
  destruct (tun m) as [d|] eqn:Hm.
  - destruct (ipc_set_refused ErrAddingPeer (peer_config pubKey ips endpoint fallback) m d Hm)
      as [d' Hr]; [|by rewrite Hr].
    eapply (refused_text (str "public_key")); [set_solver|exact Hk].
  - unfold ipc_set. by rewrite Hm.
Qed.

Lemma UpdatePeerEndpoint_unknown m name endpoint relay :
  peers m !! name = None → UpdatePeerEndpoint name endpoint relay m = (Err ErrUnknownPeer, m).
Proof. intros Hp. unfold UpdatePeerEndpoint, lift, mbind, stateful_bind, get. by rewrite Hp. Qed.

Lemma Start_refused m order :
  length (privateKey m) = 32 →
  ((Start order m).1 = Err ErrCreatingTUN ∨ (Start order m).1 = Err ErrConfiguring)
  ∧ refused_from m (Start order m).2.
Proof.
  intros Hpriv. unfold Start, lift, mbind, stateful_bind, get, modify.
  destruct (NewDevice _ _) as [[d n]|]; simpl; [|by split; [left|]].
  destruct (ipc_set_refused ErrConfiguring (device_config (set_tun d (set_net n m)))
    (set_tun d (set_net n m)) d eq_refl)
    as [d' Hr]; [|rewrite Hr; by split; [right|]].
  eapply (refused_text (str "private_key")); [set_solver|]. by apply decode_key_encode.
Qed.

Lemma run_call_refused m call :
  length (privateKey m) = 32 → peers m = ∅ → refused_from m (run_call m call).
Proof.
  intros Hl Hp. destruct call as [order|name pubKey ips endpoint fallback|name endpoint relay|]; simpl.
  - by apply Start_refused.
  - apply AddPeer_refused.
  - rewrite UpdatePeerEndpoint_unknown by (by rewrite Hp). done.
  - unfold Stop. by destruct (tun m).
Qed.

Lemma run_calls_refused m calls :
  length (privateKey m) = 32 → peers m = ∅ → refused_from m (run_calls calls m).
Proof.
  intros Hl Hp. unfold run_calls. induction calls as [|call calls IH] using rev_ind; [done|].
  destruct IH as [IHl IHp]. rewrite foldl_app. cbn [foldl].
  destruct (run_call_refused (foldl run_call m calls) call) as [Hk Hps]; [congruence..|].
  split; congruence.
Qed.
End refused.

(** ** Properties *)

(** What GenerateKeys leaves when it succeeds: two files in the directory that
    decode to a private key clamped as the curve asks and to its public key. *)
Theorem GenerateKeys_pair `{CryptoLaws, FileSystem} rand dir fs fs' :
  GenerateKeys rand dir fs = (Ok (), fs') →
  ∃ priv, clamped priv
    ∧ (fs' !! private_path dir ≫= decode_key) = Some priv
    ∧ (fs' !! public_path dir ≫= decode_key) = Some (ScalarBaseMult priv)
    ∧ ∀ path, path ≠ private_path dir → path ≠ public_path dir → fs' !! path = fs !! path.
Proof.
  unfold GenerateKeys. case_decide as Hr; [done|]. destruct (MkdirAll dir); simpl; [|done].
  set (priv := clamp (copy (zeros 32) rand)).
  assert (length priv = 32) as Hl by (unfold priv; by rewrite length_clamp, length_copy).
  intros (? & fs1 & Hw1%on_error_Ok & Hw2%on_error_Ok)%stateful_bind_Ok. destruct x.
  apply WriteFile_Ok in Hw1 as [-> _]. apply WriteFile_Ok in Hw2 as [-> _].
  fold (private_path dir). fold (public_path dir).
  assert (private_path dir ≠ public_path dir) as Hne.
  { intros Heq. apply (key_path_inj dir (str "private") (str "public")) in Heq; try done;
      apply (bool_decide_unpack _); exact I. }
  exists priv. split_and!.
  - apply clamp_clamped. by rewrite length_copy.
  - rewrite lookup_insert_ne, lookup_insert_eq by done. simpl. by apply decode_key_encode.
  - rewrite lookup_insert_eq. simpl. apply decode_key_encode, length_ScalarBaseMult.
  - intros path Hp1 Hp2. by rewrite !lookup_insert_ne.
Qed.

(** C22. The first start of a node.  When the key file of the node does not exist,
    a pair is generated, but under the names private.key and public.key: whatever
    the node is called (without a separator), the manager then fails to read its own file, except that a
    node called "private" comes up, and one called "public" comes up with its
    public key as its private key. *)
Theorem NewWireGuardManager_first_start `{CryptoLaws, FileSystem, WireGuardDevice} rand c fs r1 r2 :
  separator ∉ NodeName c → fs !! privPath c = None → length rand = 32 →
  let dir := wg_KeyDir (WireGuard c) in
  MkdirAll dir = true → write_room (private_path dir) = Some r1 →
  write_room (public_path dir) = Some r2 → 44 ≤ r1 → 44 ≤ r2 →
  let priv := clamp rand in
  let fs' := <[public_path dir := EncodeToString (ScalarBaseMult priv)]>
    (<[private_path dir := EncodeToString priv]> fs) in
  let m := mkWireGuardManager c None None (zeros 32) (zeros 32) ∅ in
  NewWireGuardManager rand c fs =
    (if decide (NodeName c = str "private") then Ok (keep_key priv m)
     else if decide (NodeName c = str "public") then Ok (keep_key (ScalarBaseMult priv) m)
     else Err ErrReadingGenerated, fs')
  ∧ privateKey (keep_key priv m) = priv
  ∧ privateKey (keep_key (ScalarBaseMult priv) m) = ScalarBaseMult priv.
Proof.
  intros Hname Hnone Hrand dir Hmk Hr1 Hr2 Hl1 Hl2 priv fs' m.
  assert (length priv = 32) as Hpriv by (unfold priv; by rewrite length_clamp).
  split; [|split; apply copy_all; [done|apply length_ScalarBaseMult]].
  unfold NewWireGuardManager, loadOrGenerateKeys. fold m.
  rewrite (stateful_bind_eq _ _ fs fs fs) by done. cbn [cfg m]. rewrite Hnone. fold dir.
  rewrite (stateful_bind_eq _ _ fs () fs')
    by (by rewrite (GenerateKeys_room rand dir fs r1 r2 Hrand Hmk Hr1 Hr2 Hl1 Hl2)).
  rewrite (stateful_bind_eq _ _ fs' fs' fs') by done.
  assert (∀ n, separator ∉ n → privPath c = FilepathJoin dir (n ++ str ".key") → NodeName c = n)
    as Hinj by (intros n Hn Heq; by eapply key_path_inj).
  assert ((separator ∉ str "private") ∧ (separator ∉ str "public")) as [Hs1 Hs2]
    by (split; apply (bool_decide_unpack _); exact I).
  assert (private_path dir ≠ public_path dir) as Hne.
  { intros Heq. by apply (key_path_inj dir (str "private") (str "public")) in Heq. }
  assert (fs' !! privPath c = if decide (NodeName c = str "private") then Some (EncodeToString priv)
    else if decide (NodeName c = str "public") then Some (EncodeToString (ScalarBaseMult priv))
    else None) as Hread.
  { unfold fs'. repeat case_decide.
    - assert (privPath c = private_path dir) as -> by (unfold privPath; match goal with Hn : NodeName c = _ |- _ => by rewrite Hn end).
      by rewrite lookup_insert_ne, lookup_insert_eq.
    - assert (privPath c = public_path dir) as -> by (unfold privPath; match goal with Hn : NodeName c = _ |- _ => by rewrite Hn end).
      by rewrite lookup_insert_eq.
    - rewrite !lookup_insert_ne; [done|..]; intros Heq; symmetry in Heq;
        first [by apply (Hinj _ Hs1) in Heq|by apply (Hinj _ Hs2) in Heq]. }
  rewrite Hread. unfold lift, mbind, stateful_bind. repeat case_decide; simpl.
  - by rewrite decode_key_encode.
  - by rewrite decode_key_encode by apply length_ScalarBaseMult.
  - done.
Qed.

(** C23. The device gets keys in base64 where its protocol wants 64 hexadecimal
    digits.  With a device that keeps to its documentation a manager, whatever key
    files it was made from and whatever calls it has had, therefore never starts and
    never knows a peer: Start fails, after creating the device at the most; AddPeer
    fails, or panics when there is no device yet; UpdatePeerEndpoint finds no
    peer. *)
Theorem device_refuses_keys `{Crypto, FileSystem, UapiKeys} rand c fs m fs' calls :
  NewWireGuardManager rand c fs = (Ok m, fs') →
  let m' := run_calls calls m in
  peers m' = ∅
  ∧ (∀ order, (Start order m').1 = Err ErrCreatingTUN ∨ (Start order m').1 = Err ErrConfiguring)
  ∧ (∀ name pubKey ips endpoint fallback, (AddPeer name pubKey ips endpoint fallback m').1
       = match decode_key pubKey, tun m' with
         | None, _ => Err ErrInvalidPublicKey
         | Some _, None => Panic
         | Some _, Some _ => Err ErrAddingPeer
         end)
  ∧ (∀ name endpoint relay, (UpdatePeerEndpoint name endpoint relay m').1 = Err ErrUnknownPeer).
Proof.
  intros [Hl Hp]%NewWireGuardManager_made m'. destruct (run_calls_refused m calls Hl Hp) as [Hl' Hp'].
  fold m' in Hl', Hp'. split; [congruence|]. split; [|split].
  - intros order. apply Start_refused. congruence.
  - intros. apply AddPeer_refused.
  - intros. by rewrite UpdatePeerEndpoint_unknown by (by rewrite Hp', Hp).
Qed.

(** With a device that takes the text, AddPeer hands it the peer's key, its
    endpoint or else its fallback, its prefixes and a keepalive of 25 seconds
    whatever the configuration says, and then, and only then, records the peer, as
    the only change to the table; the prefixes are not recorded. *)
Theorem AddPeer_spec `{Crypto, WireGuardDevice} m name pubKey ips endpoint fallback :
  AddPeer name pubKey ips endpoint fallback m =
  match decode_key pubKey, tun m with
  | None, _ => (Err ErrInvalidPublicKey, m)
  | _, None => (Panic, m)
  | Some key, Some d =>
    let (ok, d') := IpcSet (peer_config pubKey ips endpoint fallback) d in
    if ok : bool
    then (Ok (), set_peers (<[name := mkPeerState name key [] endpoint false false]> (peers m))
                   (set_tun d' m))
    else (Err ErrAddingPeer, set_tun d' m)
  end.
Proof.
  unfold AddPeer, lift, mbind, stateful_bind, ipc_set, modify.
  destruct (decode_key pubKey) as [key|] eqn:Hk; simpl; [|done].
  apply decode_key_Some in Hk as [_ Hl]. destruct (tun m) as [d|]; [|done].
  destruct (IpcSet _ d) as [[] d']; [|done]. rewrite copy_all by (rewrite Hl; done). done.
Qed.

(** The address of the node is the network address of its own first prefix;
    a node that is not configured, or has no prefix that parses, gets one of four
    fixed addresses, and every name but four gets the address of "dagda". *)
Theorem getNodeIP_spec c a1 a2 a3 a4 mask n rest peer :
  (Peers c !! NodeName c = Some peer →
   peer_AllowedIPs peer = (dotted a1 a2 a3 a4 ++ slash :: mask) :: rest →
   dtoi mask = Some n → (n ≤ 32)%Z → getNodeIP c = network [a1; a2; a3; a4] n)
  ∧ (Peers c !! NodeName c = None →
     ∃ x, getNodeIP c = IPv4 x64 x40 x00 x
       ∧ (NodeName c ∉ [str "brigid"; str "cernunnos"; str "aengus"] → x = x01)).
Proof.
  unfold getNodeIP. split.
  - intros -> -> Hn Hle. rewrite (ParseCIDR_dotted _ _ _ _ _ n) by done. apply Mask_IPv4.
  - intros ->. repeat case_decide.
    + exists x01. split; [vm_compute; reflexivity|done].
    + exists x02. split; [vm_compute; reflexivity|]. set_solver.
    + exists x03. split; [vm_compute; reflexivity|]. set_solver.
    + exists x04. split; [vm_compute; reflexivity|]. set_solver.
    + exists x01. split; [vm_compute; reflexivity|done].
Qed.

(** ** Witnesses *)
#[export] Instance hex_key_dec v : Decision (hex_key v).
Proof. unfold hex_key. apply _. Defined.

(** A device that keeps the texts it takes, and refuses those whose first line
    gives a key that is not hexadecimal. *)
Definition strip (prefix s : gostring) : option gostring :=
  if decide (take (length prefix) s = prefix) then Some (drop (length prefix) s) else None.
Definition ex_refuses (text : gostring) : bool :=
  match head (Split text newline) with
  | None => false
  | Some line =>
    match strip (str "private_key=") line, strip (str "public_key=") line with
    | Some v, _ | _, Some v => bool_decide (¬ hex_key v)
    | None, None => false
    end
  end.
#[export] Instance ex_device : WireGuardDevice := {|
  Dev := list gostring;
  Net := ();
  NewDevice _ _ := Some ([], ());
  IpcSet text d := if ex_refuses text then (false, d) else (true, d ++ [text]);
  Up d := (true, d);
  Close d := []
|}.

Lemma strip_app prefix s : strip prefix (prefix ++ s) = Some s.
Proof.
  unfold strip. rewrite take_app_at, drop_app_at by done. by rewrite decide_True.
Qed.

#[export] Instance ex_uapi : UapiKeys.
Proof.
  intros key v text d Hkey Hhead Hv. simpl. unfold ex_refuses. rewrite Hhead.
  rewrite !elem_of_cons, elem_of_nil in Hkey. destruct Hkey as [->|[->|[]]].
  - rewrite app_assoc. change (str "private_key" ++ str "=") with (str "private_key=").
    rewrite strip_app, bool_decide_eq_true_2; done.
  - rewrite app_assoc. change (str "public_key" ++ str "=") with (str "public_key=").
    rewrite strip_app. change (strip (str "private_key=") (str "public_key=" ++ v)) with
      (None (A:=gostring)). by rewrite bool_decide_eq_true_2.
Qed.

#[export] Instance ex_files : FileSystem := {|
  MkdirAll _ := true;
  write_room _ := Some 100
|}.
Definition ex_node (name : gostring) : Config :=
  mkConfig name (mkWireGuardConf [] 51820 1420 (str "/etc/nexus-vpn/")) (STUN zero_Config)
    (Relay zero_Config) (MQTT zero_Config) (DNS zero_Config) (Dashboard zero_Config)
    (Config.Crypto zero_Config)
    {[ str "brigid" := mkPeerConf [] [] [str "100.64.7.9/16"] [] [] 0 []
         (mkHardwareConf false 0 []) false ]}.
Definition ex_key : list byte := replicate 32 x33.

Lemma GenerateKeys_pair_witness :
  ∃ fs priv, GenerateKeys (H:=toy) ex_key (str "/k") ∅ = (Ok (), fs)
    ∧ (fs !! str "/k/private.key" ≫= decode_key) = Some priv.
Proof.
  destruct (GenerateKeys (H:=toy) ex_key (str "/k") ∅) as [o fs] eqn:Hg.
  assert (o = Ok ()) as -> by (apply (f_equal fst) in Hg; vm_compute in Hg; by subst o).
  destruct (@GenerateKeys_pair toy toy_laws ex_files ex_key (str "/k") ∅ fs Hg)
    as (priv & _ & Hp & _).
  exists fs, priv. split; [done|exact Hp].
Defined.

Lemma NewWireGuardManager_first_start_witness :
  (@NewWireGuardManager toy ex_device ex_files ex_key (ex_node (str "brigid")) ∅).1
  = Err ErrReadingGenerated.
Proof.
  assert (separator ∉ str "brigid") as Hs by (apply (bool_decide_unpack _); vm_compute; exact I).
  destruct (@NewWireGuardManager_first_start toy toy_laws ex_files ex_device ex_key
    (ex_node (str "brigid")) ∅ 100 100 Hs) as [H _].
  1-5: reflexivity.
  1-2: lia.
  rewrite H. reflexivity.
Defined.

(** The key is in its file; the manager is started, then asked to add a peer. *)
Definition ex_made : WireGuardManager :=
  keep_key (H:=toy) ex_key (mkWireGuardManager (ex_node (str "brigid")) None None (zeros 32) (zeros 32) ∅).

Lemma device_refuses_keys_witness :
  let fs := {[privPath (ex_node (str "brigid")) := EncodeToString ex_key]} : files in
  NewWireGuardManager (H:=toy) ex_key (ex_node (str "brigid")) fs = (Ok ex_made, fs)
  ∧ (Start [] ex_made).1 = Err ErrConfiguring
  ∧ (AddPeer (str "a") (EncodeToString ex_key) [] [] [] (run_calls [CallStart []] ex_made)).1
    = Err ErrAddingPeer.
Proof.
  intros fs.
  assert (NewWireGuardManager (H:=toy) ex_key (ex_node (str "brigid")) fs = (Ok ex_made, fs)) as Hm.
  { unfold NewWireGuardManager, loadOrGenerateKeys. erewrite stateful_bind_eq by reflexivity.
    unfold fs. cbn [cfg]. rewrite lookup_singleton_eq. by rewrite decode_key_encode. }
  split; [exact Hm|].
  destruct (device_refuses_keys (H:=toy) ex_key _ fs ex_made fs [] Hm) as (_ & Hs & _).
  destruct (device_refuses_keys (H:=toy) ex_key _ fs ex_made fs [CallStart []] Hm) as (_ & _ & Ha & _).
  split.
  - destruct (Hs []) as [Hx|Hx]; [|exact Hx]. vm_compute in Hx. discriminate Hx.
  - rewrite Ha. vm_compute. reflexivity.
Defined.

Lemma getNodeIP_spec_witness :
  getNodeIP (ex_node (str "brigid")) = [x64; x40; x00; x00]
  ∧ getNodeIP (ex_node (str "nobody")) = IPv4 x64 x40 x00 x01.
Proof.
  split.
  - destruct (getNodeIP_spec (ex_node (str "brigid")) x64 x40 x07 x09 (str "16") 16 []
      (mkPeerConf [] [] [str "100.64.7.9/16"] [] [] 0 [] (mkHardwareConf false 0 []) false))
      as [H _].
    rewrite H; vm_compute; try reflexivity. discriminate.
  - destruct (getNodeIP_spec (ex_node (str "nobody")) x64 x40 x07 x09 [] 0 []
      (mkPeerConf [] [] [] [] [] 0 [] (mkHardwareConf false 0 []) false)) as [_ H].
    destruct H as (x & Hx & Hd); [vm_compute; reflexivity|].
    rewrite Hx, Hd; [reflexivity|]. apply (bool_decide_unpack _). vm_compute. exact I.
Defined.
