(* ===== verification/GoTime.v ===== *)
(** * time.Duration.String

    The standard library's rendering of a duration, in nanoseconds. *)
From stdpp Require Import pretty.
From S2P Require Import Prelude Bytes NetParse.
From Stdlib Require Import Init.Byte.
Local Open Scope Z_scope.

Definition fmtInt (v : Z) : gostring := str (pretty v).

(** The [prec] last digits as a fraction, without trailing zeros, and the rest;
    [acc] is what has been printed. *)
Fixpoint fmtFrac (prec : nat) (v : Z) (acc : gostring) : gostring * Z :=
  match prec with
  | O => (if decide (acc = []) then [] else x2e :: acc, v)
  | S prec =>
    let d := v mod 10 in
    fmtFrac prec (v / 10) (if decide (acc = [] ∧ d = 0) then [] else digit d :: acc)
  end.

Definition small_duration (u : Z) : gostring :=
  if decide (u = 0) then str "0s"
  else
    let '(prec, unit) :=
      if decide (u < 1000) then (0%nat, str "ns")
      else if decide (u < 1000000) then (3%nat, [xc2; xb5; x73])
      else (6%nat, str "ms") in
    let (frac, n) := fmtFrac prec u [] in fmtInt n ++ frac ++ unit.
Definition large_duration (u : Z) : gostring :=
  let (frac, secs) := fmtFrac 9 u [] in
  let tail := fmtInt (secs mod 60) ++ frac ++ str "s" in
  let mins := secs / 60 in
  if decide (mins > 0) then
    let tail := fmtInt (mins mod 60) ++ str "m" ++ tail in
    let hours := mins / 60 in
    if decide (hours > 0) then fmtInt hours ++ str "h" ++ tail else tail
  else tail.
Definition Duration_String (d : Z) : gostring :=
  let u := Z.abs d in
  let s := if decide (u < 1000000000) then small_duration u else large_duration u in
  if decide (d < 0) then str "-" ++ s else s.

Example duration_vectors :
  (Duration_String <$> [0; 1; 1100; 2200000; 3300000000; 245000000000; 18367000000000; -1500000000])
  = [str "0s"; str "1ns"; str "1.1" ++ [xc2; xb5; x73]; str "2.2ms"; str "3.3s"; str "4m5s";
     str "5h6m7s"; str "-1.5s"].
Proof. vm_compute. reflexivity. Qed.
