(* ===== verification/Dashboard.v ===== *)
(** * dashboard.go: the mesh state and its viewers

    [UpdateMeshState] stores a state and broadcasts it; every WebSocket has a
    goroutine ([handleWebSocket]) that enters the connection in the set of
    clients, sends it the current state and then waits for it to close.  A
    connection is a number, what it has been sent is kept, and updates and
    handlers interleave between their accesses to shared state.  A broadcast is
    one step, taken when its writes have all returned: a viewer that does not
    read holds it up, since a write has no deadline, and with it everyone who waits
    for the lock it holds.  The replies of the HTTP handlers are the values they
    encode as JSON.  The order of a range over a map is a parameter, some
    permutation of it. *)
From S2P Require Import Prelude Bytes Config GoTime.
From Stdlib Require Import Init.Byte.

Record NodeState := mkNodeState {
  ns_Name : gostring; ns_IP : gostring; ns_PublicIP : gostring; ns_NATType : gostring;
  ns_Connected : bool; ns_ViaRelay : bool; ns_Latency : Z; ns_BytesTx : Z; ns_BytesRx : Z;
  ns_LastSeen : Z; ns_Role : gostring; ns_Hardware : HardwareConf; ns_Online : bool }.
Record TunnelState := mkTunnelState {
  ts_Source : gostring; ts_Destination : gostring; ts_Active : bool; ts_Latency : Z;
  ts_ViaRelay : bool; ts_BytesTx : Z; ts_BytesRx : Z }.
Record MeshState := mkMeshState {
  LocalNode : option NodeState;
  Peers : gmap gostring NodeState;
  Tunnels : list TunnelState;
  LastUpdate : Z }.

(** ** The API *)
Record topologyNode := mkTopologyNode {
  tn_ID : gostring; tn_Label : gostring; tn_IP : gostring; tn_Online : bool; tn_Role : gostring }.
Record topologyLink := mkTopologyLink {
  tl_Source : gostring; tl_Target : gostring; tl_Active : bool; tl_Latency : gostring;
  tl_ViaRelay : bool }.
Record topology := mkTopology { Nodes : list topologyNode; Links : list topologyLink }.

Class PeerRange := {
  range_peers : gmap gostring NodeState → list (gostring * NodeState);
  range_peers_perm m : range_peers m ≡ₚ map_to_list m
}.

Definition peer_node (p : gostring * NodeState) : topologyNode :=
  mkTopologyNode p.1 p.1 (ns_IP p.2) (ns_Online p.2) (ns_Role p.2).
Definition self_node (n : NodeState) : topologyNode :=
  mkTopologyNode (ns_Name n) (ns_Name n ++ str " (self)") (ns_IP n) true (ns_Role n).
Definition tunnel_link (t : TunnelState) : topologyLink :=
  mkTopologyLink (ts_Source t) (ts_Destination t) (ts_Active t) (Duration_String (ts_Latency t))
    (ts_ViaRelay t).
Definition handleAPITopology `{PeerRange} (mesh : option MeshState) : topology :=
  match mesh with
  | None => mkTopology [] []
  | Some state =>
    mkTopology
      ((peer_node <$> range_peers (Peers state))
       ++ match LocalNode state with None => [] | Some n => [self_node n] end)
      (tunnel_link <$> Tunnels state)
  end.
Definition handleAPIStatus (mesh : option MeshState) : option MeshState := mesh.
Definition handleAPIPeers (mesh : option MeshState) : gmap gostring NodeState :=
  match mesh with None => ∅ | Some state => Peers state end.

(** ** WebSockets

    The points of [handleWebSocket]: entered in the clients, with the state it
    has read, waiting for the connection to end, past the removal. *)
Inductive location :=
  | Entered
  | Sending (state : option MeshState)
  | Waiting
  | Gone.
(** A connection: whether it is open, and the states it has been sent ([None]
    is the encoding of a nil state). *)
Record socket := mkSocket { at_ : location; conn_open : bool; view : list (option MeshState) }.

Record Dashboard := mkDashboard {
  cfg : Config;
  mesh : option MeshState;
  clients : gset nat;
  (** The connections accepted, and the updates that have stored their state and
      not yet broadcast it. *)
  sockets : gmap nat socket;
  updating : list (option MeshState)
}.
Definition NewDashboard (cfg : Config) : Dashboard := mkDashboard cfg None ∅ ∅ [].

Definition set_sockets (s : gmap nat socket) (d : Dashboard) : Dashboard :=
  mkDashboard (cfg d) (mesh d) (clients d) s (updating d).
Definition set_clients (c : gset nat) (d : Dashboard) : Dashboard :=
  mkDashboard (cfg d) (mesh d) c (sockets d) (updating d).

(** [conn.WriteJSON] on an open connection. *)
Definition send (state : option MeshState) (s : socket) : socket :=
  if conn_open s then mkSocket (at_ s) true (view s ++ [state]) else s.
Definition move (l : location) (s : socket) : socket := mkSocket l (conn_open s) (view s).

(** [broadcast]: a client that cannot be written to is closed and dropped. *)
Definition broadcast (state : option MeshState) (d : Dashboard) : Dashboard :=
  let alive := filter (λ c, from_option conn_open false (sockets d !! c) = true) (clients d) in
  set_clients alive
    (set_sockets (map_imap (λ c s, Some (if decide (c ∈ clients d) then send state s else s))
      (sockets d)) d).
#[global] Arguments broadcast : simpl never.

Inductive label :=
  | Store (state : option MeshState)
  | Broadcast (i : nat)
  | Connect (c : nat)
  | Handler (c : nat)
  | PeerCloses (c : nat).

(** One step of [handleWebSocket]. *)
Definition handleWebSocket (c : nat) (d : Dashboard) : option Dashboard :=
  s ← sockets d !! c;
  match at_ s with
  | Entered => Some (set_sockets (<[c := move (Sending (mesh d)) s]> (sockets d)) d)
  | Sending None => Some (set_sockets (<[c := move Waiting s]> (sockets d)) d)
  | Sending (Some state) =>
    Some (set_sockets (<[c := move Waiting (send (Some state) s)]> (sockets d)) d)
  | Waiting =>
    if conn_open s then None
    else Some (set_clients (clients d ∖ {[c]})
           (set_sockets (<[c := move Gone s]> (sockets d)) d))
  | Gone => None
  end.

(** [UpdateMeshState] is [Store] and then [Broadcast]. *)
Definition dash_step (l : label) (d : Dashboard) : option Dashboard :=
  match l with
  | Store state => Some (mkDashboard (cfg d) state (clients d) (sockets d) (updating d ++ [state]))
  | Broadcast i =>
    state ← updating d !! i;
    Some (broadcast state (mkDashboard (cfg d) (mesh d) (clients d) (sockets d)
      (take i (updating d) ++ drop (S i) (updating d))))
  | Connect c =>
    match sockets d !! c with
    | Some _ => None
    | None => Some (set_clients ({[c]} ∪ clients d)
                (set_sockets (<[c := mkSocket Entered true []]> (sockets d)) d))
    end
  | Handler c => handleWebSocket c d
  | PeerCloses c =>
    s ← sockets d !! c;
    Some (set_sockets (<[c := mkSocket (at_ s) false (view s)]> (sockets d)) d)
  end.

(** ** Clients have a goroutine *)
Definition clients_live (d : Dashboard) : Prop :=
  ∀ c, c ∈ clients d → ∃ s, sockets d !! c = Some s ∧ at_ s ≠ Gone.

Lemma broadcast_socket state d c :
  sockets (broadcast state d) !! c
  = (λ s, if decide (c ∈ clients d) then send state s else s) <$> sockets d !! c.
Proof. unfold broadcast. simpl. rewrite map_lookup_imap. by destruct (sockets d !! c). Qed.

Lemma elem_of_broadcast state d c :
  c ∈ clients (broadcast state d) ↔
    c ∈ clients d ∧ ∃ s, sockets d !! c = Some s ∧ conn_open s = true.
Proof.
  unfold broadcast. simpl. rewrite elem_of_filter.
  destruct (sockets d !! c) as [s|]; simpl; naive_solver.
Qed.

Lemma send_proj state s : at_ (send state s) = at_ s ∧ conn_open (send state s) = conn_open s.
Proof. unfold send. destruct (conn_open s) eqn:Ho; simpl; split; congruence. Qed.

Lemma set_socket_live c s s' d cs :
  clients_live d → sockets d !! c = Some s → (at_ s' = Gone → c ∉ cs) → cs ⊆ clients d →
  clients_live (set_clients cs (set_sockets (<[c := s']> (sockets d)) d)).
Proof.
  intros Hd Hs Hgone Hcs c'. simpl. intros Hc'. destruct (decide (c' = c)) as [->|Hne].
  - exists s'. rewrite lookup_insert_eq. split; [done|]. intros Hg. by apply Hgone in Hg.
  - rewrite lookup_insert_ne by done. by apply Hd, Hcs.
Qed.

Lemma set_clients_same d s : set_clients (clients d) (set_sockets s d) = set_sockets s d.
Proof. done. Qed.

Lemma dash_step_live l d d' : clients_live d → dash_step l d = Some d' → clients_live d'.
Proof.
  intros Hd. destruct l as [state|i|c|c|c]; simpl.
  - by intros [= <-].
  - intros (state & _ & [= <-])%bind_Some c [Hc (s & Hs & _)]%elem_of_broadcast. simpl in Hc, Hs.
    rewrite broadcast_socket. simpl. destruct (Hd c Hc) as (s1 & Hs1 & Hat). rewrite Hs1. simpl.
    eexists. split; [done|]. case_decide; [|done]. by rewrite (proj1 (send_proj _ _)).
  - destruct (sockets d !! c) eqn:Hc; [done|]. intros [= <-] c'. simpl. intros Hc'.
    destruct (decide (c' = c)) as [->|Hne]; [rewrite lookup_insert_eq; by eexists|].
    rewrite lookup_insert_ne by done. apply Hd. set_solver.
  - unfold handleWebSocket. intros (s & Hs & Hstep)%bind_Some.
    destruct (at_ s) as [|[state|]| |] eqn:Hat; try done.
    + injection Hstep as <-. rewrite <-set_clients_same. by eapply set_socket_live.
    + injection Hstep as <-. rewrite <-set_clients_same. by eapply set_socket_live.
    + injection Hstep as <-. rewrite <-set_clients_same. by eapply set_socket_live.
    + destruct (conn_open s); [done|]. injection Hstep as <-.
      eapply set_socket_live; [done..| |]; set_solver.
  - intros (s & Hs & [= <-])%bind_Some. rewrite <-set_clients_same.
    eapply set_socket_live; [done..| |done]. simpl. intros Hg Hc.
    destruct (Hd c Hc) as (s1 & Hs1 & Hat). congruence.
Qed.

(** ** What viewers see *)

(** The view ends with the mesh state; before the first one it may be empty. *)
Definition up_to_date (m : option MeshState) (v : list (option MeshState)) : Prop :=
  last v = Some m ∨ (m = None ∧ v = []).

(** Each handler sends the state it has read with no update in between, and
    updates do not overlap. *)
Definition settled (d : Dashboard) : Prop :=
  updating d = [] ∧ map_Forall (λ _ s, at_ s = Waiting ∨ at_ s = Gone) (sockets d).
Definition orderly (d : Dashboard) (l : label) : Prop :=
  match l with
  | Store _ => settled d
  | Connect _ | Handler _ => updating d = []
  | Broadcast _ | PeerCloses _ => True
  end.

Definition views_ok (d : Dashboard) : Prop :=
  (updating d = [] ∧
   ∀ c s, sockets d !! c = Some s → c ∈ clients d → conn_open s = true →
     match at_ s with
     | Waiting => up_to_date (mesh d) (view s)
     | Sending m => m = mesh d ∧ view s = []
     | Entered => view s = []
     | Gone => True
     end)
  ∨ (updating d = [mesh d] ∧ map_Forall (λ _ s, at_ s = Waiting ∨ at_ s = Gone) (sockets d)).

Lemma up_to_date_send state s :
  conn_open s = true → up_to_date state (view (send state s)).
Proof. intros Ho. unfold send. rewrite Ho. left. simpl. by rewrite last_snoc. Qed.

Lemma handler_views c d d' :
  updating d = [] → views_ok d → handleWebSocket c d = Some d' → views_ok d'.
Proof.
  intros Hu [[_ Hv]|[Hu' _]]; [|congruence]. unfold handleWebSocket.
  intros (s & Hs & Hstep)%bind_Some.
  assert (∀ s' cs, cs ⊆ clients d →
    (c ∈ cs → conn_open s' = true → match at_ s' with
     | Waiting => up_to_date (mesh d) (view s')
     | Sending m => m = mesh d ∧ view s' = []
     | Entered => view s' = []
     | Gone => True
     end) → views_ok (set_clients cs (set_sockets (<[c := s']> (sockets d)) d))) as Hset.
  { intros s' cs Hcs Hs'. left. split; [done|]. intros c' s1. simpl.
    intros [[<- <-]|[Hne Hs1]]%lookup_insert_Some Hc' Ho; [by apply Hs'|]. apply (Hv c'); auto. }
  specialize (Hv c s Hs).
  destruct (at_ s) as [|[state|]| |] eqn:Hat; try done.
  - injection Hstep as <-. rewrite <-set_clients_same. apply Hset; [done|].
    intros Hc Ho. simpl. split; [done|]. by apply Hv.
  - injection Hstep as <-. rewrite <-set_clients_same. apply Hset; [done|].
    intros Hc Ho. simpl in *. rewrite (proj2 (send_proj _ _)) in Ho. destruct (Hv Hc Ho) as [<- _].
    by apply up_to_date_send.
  - injection Hstep as <-. rewrite <-set_clients_same. apply Hset; [done|].
    intros Hc Ho. simpl in *. destruct (Hv Hc Ho) as [<- Hview]. by right.
  - destruct (conn_open s) eqn:Ho; [done|]. injection Hstep as <-. apply Hset; [set_solver|].
    intros _ Ho'. simpl in Ho'. congruence.
Qed.

Lemma dash_step_views l d d' :
  views_ok d → orderly d l → dash_step l d = Some d' → views_ok d'.
Proof.
  intros Hd Hok. destruct l as [state|i|c|c|c]; simpl in *.
  - intros [= <-]. destruct Hok as [Hu Hall]. right. by rewrite Hu.
  - intros (state & Hi & [= <-])%bind_Some. destruct Hd as [[Hu _]|[Hu Hall]];
      rewrite Hu in Hi; [done|].
    apply list_lookup_singleton_Some in Hi as [-> <-]. rewrite Hu. left. split; [done|].
    intros c s Hs [Hc _]%elem_of_broadcast Ho. rewrite broadcast_socket in Hs. simpl in *.
    apply fmap_Some in Hs as (s1 & Hs1 & ->). rewrite decide_True in Ho |- * by done.
    destruct (send_proj (mesh d) s1) as [-> Ho']. rewrite Ho' in Ho.
    destruct (Hall c s1 Hs1) as [-> | ->]; [|done]. by apply up_to_date_send.
  - destruct (sockets d !! c) eqn:Hc; [done|]. intros [= <-].
    destruct Hd as [[Hu Hv]|[Hu _]]; [|congruence]. left. split; [done|]. intros c' s'. simpl.
    intros [[<- <-]|[Hne Hs']]%lookup_insert_Some Hc' Ho; [done|]. apply (Hv c'); [done| |done].
    set_solver.
  - by apply handler_views.
  - intros (s & Hs & [= <-])%bind_Some. destruct Hd as [[Hu Hv]|[Hu Hall]].
    + left. split; [done|]. intros c' s'. simpl.
      intros [[<- <-]|[Hne Hs']]%lookup_insert_Some Hc' Ho; [done|]. by apply (Hv c').
    + right. split; [done|]. simpl. apply map_Forall_insert_2; [|done]. exact (Hall c s Hs).
Qed.

(** ** Properties *)

(** Whatever connects, closes, is updated and in whatever order, every client
    the dashboard holds has its goroutine still running, and a broadcast reaches
    all of them: afterwards the clients are exactly those whose connection is
    open, and the last thing each has been sent is the state broadcast. *)
Theorem broadcast_reaches cfg ls d state c :
  trace dash_step any_step (NewDashboard cfg) ls d →
  (c ∈ clients d → ∃ s, sockets d !! c = Some s ∧ at_ s ≠ Gone)
  ∧ (c ∈ clients (broadcast state d) ↔
       c ∈ clients d ∧ ∃ s, sockets d !! c = Some s ∧ conn_open s = true)
  ∧ (c ∈ clients (broadcast state d) →
       ∃ s, sockets (broadcast state d) !! c = Some s ∧ conn_open s = true
         ∧ last (view s) = Some state).
Proof.
  intros Hrun. split; [|split; [apply elem_of_broadcast|]].
  - revert c. change (clients_live d). eapply trace_invariant, Hrun.
    + by intros c Hc%elem_of_empty.
    + intros d1 l d2 Hd _. by apply dash_step_live.
  - intros (Hc & s & Hs & Ho)%elem_of_broadcast. rewrite broadcast_socket, Hs. simpl.
    eexists. split; [done|]. rewrite decide_True by done.
    destruct (send_proj state s) as [_ ->]. split; [done|].
    unfold send. rewrite Ho. simpl. apply last_snoc.
Qed.


(** Without that condition they are left behind.  A handler reads the state,
    an update is stored and broadcast, and the handler then sends what it had
    read: the viewer is left with the old state.  Two updates that overlap may be
    broadcast in the other order, with the same effect on everyone. *)
Theorem viewers_left_behind d c old new first second s :
  sockets d !! c = None → mesh d = Some old → updating d = [] →
  (∃ d' v, exec dash_step [Connect c; Handler c; Store new; Broadcast 0; Handler c] d = Some d'
     ∧ sockets d' !! c = Some (mkSocket Waiting true v) ∧ c ∈ clients d' ∧ updating d' = []
     ∧ mesh d' = new ∧ last v = Some (Some old))
  ∧ (∀ c2, c2 ∈ clients d → sockets d !! c2 = Some s → conn_open s = true →
     ∃ d' s', exec dash_step [Store first; Store second; Broadcast 1; Broadcast 0] d = Some d'
       ∧ sockets d' !! c2 = Some s' ∧ updating d' = []
       ∧ mesh d' = second ∧ last (view s') = Some first).
Proof.
  intros Hc Hm Hu. split.
  - unfold exec. simpl. rewrite Hc. simpl. unfold handleWebSocket. simpl.
    rewrite lookup_insert_eq. simpl. rewrite Hu. simpl. unfold handleWebSocket. rewrite broadcast_socket. simpl.
    rewrite lookup_insert_eq. simpl. rewrite decide_True by set_solver. simpl. rewrite Hm.
    eexists _, _. split; [done|]. split; [apply lookup_insert_eq|].
    split; [|split_and!; done].
    apply elem_of_broadcast. simpl. split; [set_solver|]. rewrite lookup_insert_eq. eauto.
  - intros c2 Hc2 Hs Ho. unfold exec. simpl. rewrite Hu. simpl.
    eexists _, _. split; [done|]. split; [|split_and!; try done].
    + rewrite !broadcast_socket. cbn [sockets clients]. rewrite map_lookup_imap, Hs.
      cbn [fmap option_fmap option_map mbind option_bind].
      rewrite (decide_True (P:=c2 ∈ clients d)) by done. rewrite decide_True; [done|].
      apply elem_of_filter. rewrite Hs. by split.
    + unfold send. rewrite Ho. simpl. apply last_snoc.
Qed.

(** The topology: one node per peer, under its name and with its address and
    state, one for the local node, always online, and one link per tunnel, in
    order; before the first update it is empty. *)
Theorem handleAPITopology_spec `{PeerRange} mesh :
  match mesh with
  | None => handleAPITopology mesh = mkTopology [] []
  | Some state =>
    Nodes (handleAPITopology mesh) ≡ₚ
      (peer_node <$> map_to_list (Peers state)) ++ option_list (self_node <$> LocalNode state)
    ∧ Links (handleAPITopology mesh) = tunnel_link <$> Tunnels state
    ∧ (∀ n, tn_Online n = false → n ∈ Nodes (handleAPITopology mesh) →
         ∃ p, Peers state !! tn_ID n = Some p ∧ ns_Online p = false)
    ∧ ((∀ l, LocalNode state = Some l → Peers state !! ns_Name l = None) →
       NoDup (tn_ID <$> Nodes (handleAPITopology mesh)))
  end.
Proof.
  destruct mesh as [state|]; [|done].
  assert (Nodes (handleAPITopology (Some state)) ≡ₚ
    (peer_node <$> map_to_list (Peers state)) ++ option_list (self_node <$> LocalNode state)) as Hp.
  { simpl. rewrite range_peers_perm. by destruct (LocalNode state). }
  split; [done|]. split; [done|]. split.
  - intros n Hn. rewrite Hp, elem_of_app, list_elem_of_fmap. intros [(q & -> & Hq)|Hl].
    + destruct q as [name p]. apply elem_of_map_to_list in Hq. by exists p.
    + destruct (LocalNode state); simpl in Hl; [|by apply elem_of_nil in Hl].
      apply list_elem_of_singleton in Hl as ->. done.
  - intros Hl. rewrite Hp, fmap_app, <-list_fmap_compose.
    assert (tn_ID ∘ peer_node <$> map_to_list (Peers state) = (map_to_list (Peers state)).*1)
      as -> by done.
    apply NoDup_app. split; [apply NoDup_fst_map_to_list|].
    destruct (LocalNode state) as [l|] eqn:Hlocal; simpl; [|split; [set_solver|constructor]].
    split; [|by repeat constructor; set_solver].
    intros x (q & -> & Hq)%list_elem_of_fmap Heq%list_elem_of_singleton.
    destruct q as [name p]. apply elem_of_map_to_list in Hq. simpl in Heq. subst name.
    by rewrite Hl in Hq.
Qed.

(** ** Witnesses *)
Definition ex_mesh (t : Z) : option MeshState := Some (mkMeshState None ∅ [] t).
Definition ex_start : Dashboard := NewDashboard zero_Config.
Definition ex_orderly : list label :=
  [Store (ex_mesh 1); Broadcast 0; Connect 1; Handler 1; Handler 1; Store (ex_mesh 2); Broadcast 0].
#[export] Instance location_waiting_dec l : Decision (l = Waiting).
Proof. destruct l; (left; reflexivity) || (right; discriminate). Defined.
#[export] Instance location_gone_dec l : Decision (l = Gone).
Proof. destruct l; (left; reflexivity) || (right; discriminate). Defined.
#[export] Instance settled_dec d : Decision (settled d).
Proof. unfold settled. apply _. Defined.
#[export] Instance orderly_dec d l : Decision (orderly d l).
Proof. destruct l; simpl; apply _. Defined.

Definition ex_d : Dashboard := default ex_start (exec_ok dash_step orderly ex_orderly ex_start).
Lemma ex_orderly_run : trace dash_step orderly ex_start ex_orderly ex_d.
Proof. apply (exec_ok_trace _ orderly). vm_compute. reflexivity. Qed.


Lemma broadcast_reaches_witness :
  ∃ s, sockets (broadcast (ex_mesh 3) ex_d) !! 1 = Some s ∧ last (view s) = Some (ex_mesh 3).
Proof.
  assert (trace dash_step any_step (NewDashboard zero_Config) ex_orderly ex_d) as Hrun
    by (apply exec_trace; vm_compute; reflexivity).
  destruct (broadcast_reaches zero_Config ex_orderly ex_d (ex_mesh 3) 1 Hrun) as (_ & _ & H).
  destruct H as (s & Hs & _ & Hl); [apply (bool_decide_unpack _); vm_compute; exact I|].
  by exists s.
Defined.

Lemma viewers_left_behind_witness :
  ∃ d' v, exec dash_step [Connect 2; Handler 2; Store (ex_mesh 3); Broadcast 0; Handler 2] ex_d
      = Some d'
    ∧ sockets d' !! 2 = Some (mkSocket Waiting true v) ∧ mesh d' = ex_mesh 3
    ∧ last v = Some (ex_mesh 2).
Proof.
  destruct (viewers_left_behind ex_d 2 (mkMeshState None ∅ [] 2) (ex_mesh 3) None None
    (mkSocket Gone false [])) as [(d' & v & H1 & H2 & _ & _ & H3 & H4) _].
  1-3: vm_compute; reflexivity.
  by exists d', v.
Defined.

(** Ranging in the order of the keys. *)
#[export] Instance ex_range : PeerRange := {|
  range_peers := map_to_list;
  range_peers_perm m := reflexivity _
|}.
Lemma handleAPITopology_spec_witness :
  NoDup (tn_ID <$> Nodes (handleAPITopology (ex_mesh 1))).
Proof.
  destruct (handleAPITopology_spec (ex_mesh 1)) as (_ & _ & _ & H). apply H. discriminate.
Defined.
