(* ===== verification/DashboardServer.v ===== *)
(** * dashboard.go: the HTTP server

    The routes [Start] registers and how the standard library's [ServeMux]
    chooses among them, and the life of the server: [Start], connections and their
    requests, the goroutine that waits for the context, and [Stop].  A connection
    that has been upgraded to a WebSocket is no longer the server's; its handler is
    [Dashboard]'s. *)
From S2P Require Import Prelude Bytes GoStrings NetParse FilePath Config Dashboard.
From Stdlib Require Import Init.Byte.

(** ** Routes *)
Inductive handler := HandleIndex | HandleStatus | HandlePeers | HandleTopology | HandleWS.
Definition NewServeMux : list (gostring * handler) :=
  [(str "/", HandleIndex); (str "/api/status", HandleStatus); (str "/api/peers", HandlePeers);
   (str "/api/topology", HandleTopology); (str "/ws", HandleWS)].

(** [cleanPath] of net/http. *)
Definition ends_in_slash (path : gostring) : bool := bool_decide (last path = Some separator).
Definition cleanPath (path : gostring) : gostring :=
  let path := if is_rooted path then path else separator :: path in
  let np := Clean path in
  if ends_in_slash path && bool_decide (np ≠ [separator]) then np ++ [separator] else np.

(** [url.PathUnescape] of a segment; one that is not well escaped stays as it is. *)
Fixpoint unescape_from (skip : nat) (s : gostring) : option gostring :=
  match s with
  | [] => Some []
  | c :: t =>
    match skip with
    | S skip => unescape_from skip t
    | O =>
      if decide (c = x25) then
        match t with
        | h1 :: h2 :: _ =>
          a ← hex_digit h1; b ← hex_digit h2;
          cons (z2b (a * 16 + b)) <$> unescape_from 2 t
        | _ => None
        end
      else cons c <$> unescape_from 0 t
    end
  end.
Definition pathUnescape (s : gostring) : gostring := default s (unescape_from 0 s).
Definition segments (path : gostring) : list gostring := tail (Split path separator).

(** A pattern without a slash at its end is for one path, one with a slash for
    all the paths below it. *)
Definition pattern_matches (pattern path : gostring) : bool :=
  let ps := segments pattern in
  let segs := pathUnescape <$> segments path in
  if ends_in_slash pattern
  then bool_decide (removelast ps `prefix_of` segs) && bool_decide (length ps ≤ length segs)
  else bool_decide (segs = ps).
(** Of the patterns that match a path the longest is taken, and of two of the same
    length the one for the path alone. *)
Definition specificity (pattern : gostring) : nat :=
  2 * length (segments pattern) + (if ends_in_slash pattern then 0 else 1).
Definition better (p : gostring * handler) (o : option (gostring * handler)) : option (gostring * handler) :=
  match o with
  | Some q => if decide (specificity p.1 < specificity q.1) then o else Some p
  | None => Some p
  end.
Definition lookup_pattern (path : gostring) : option (gostring * handler) :=
  foldr (λ p o, if pattern_matches p.1 path then better p o else o) None NewServeMux.
(** A path with a slash is the one a pattern with a slash is written for. *)
Definition exact_match (o : option (gostring * handler)) (path : gostring) : bool :=
  match o with
  | Some (pattern, _) =>
    negb (ends_in_slash pattern)
    || ends_in_slash path && bool_decide (length (segments path) = length (segments pattern))
  | None => false
  end.

(** A path that is not clean is redirected, and so is one that only lacks the slash
    of a pattern (for requests other than CONNECT); the path of the target is
    given. *)
Inductive routed := Handled (h : handler) | MovedPermanently (path : gostring) | NotFound.
Definition route (path : gostring) : routed :=
  let np := cleanPath path in
  let slashed := np ++ [separator] in
  if negb (exact_match (lookup_pattern np) np) && negb (ends_in_slash np)
     && exact_match (lookup_pattern slashed) slashed
  then MovedPermanently slashed
  else if decide (np = path) then
    match lookup_pattern np with Some (_, h) => Handled h | None => NotFound end
  else MovedPermanently np.

Example route_vectors :
  ((λ s, route (str s)) <$>
     ["/"; "/api/status"; "/api/status/"; "/api//peers"; "/ws/../api/topology"; "/%61pi/peers"; "/nothing"; ""]%string)
  = [Handled HandleIndex; Handled HandleStatus; Handled HandleIndex; MovedPermanently (str "/api/peers");
     MovedPermanently (str "/api/topology"); Handled HandlePeers; Handled HandleIndex;
     MovedPermanently (str "/")].
Proof. vm_compute. reflexivity. Qed.

(** ** Replies *)
Inductive body :=
  | DashboardHTML
  | StatusJSON (mesh : option MeshState)
  | PeersJSON (peers : gmap gostring NodeState)
  | TopologyJSON (top : topology)
  | Moved (path : gostring)
  | NotFoundText.
Definition handleIndex : body := DashboardHTML.
(** The header a handler of the program sets. *)
Definition content_type (b : body) : option gostring :=
  match b with
  | DashboardHTML => Some (str "text/html")
  | StatusJSON _ | PeersJSON _ | TopologyJSON _ => Some (str "application/json")
  | Moved _ | NotFoundText => None
  end.

(** The answer to a request for a path, unless it is the WebSocket's. *)
Definition answer `{PeerRange} (d : Dashboard) (path : gostring) : option body :=
  match route path with
  | Handled HandleIndex => Some handleIndex
  | Handled HandleStatus => Some (StatusJSON (handleAPIStatus (mesh d)))
  | Handled HandlePeers => Some (PeersJSON (handleAPIPeers (mesh d)))
  | Handled HandleTopology => Some (TopologyJSON (handleAPITopology (mesh d)))
  | Handled HandleWS => None
  | MovedPermanently path => Some (Moved path)
  | NotFound => Some NotFoundText
  end.

(** ** The server *)
Inductive serve_error := ErrListen | ErrServe.
Inductive start_loc := NotCalled | Starting | InServe | Returned (r : outcome serve_error ()).
#[export] Instance serve_error_eq_dec : EqDecision serve_error.
Proof. solve_decision. Defined.
#[export] Instance served_eq_dec : EqDecision (outcome serve_error ()).
Proof. solve_decision. Defined.
#[export] Instance start_loc_eq_dec : EqDecision start_loc.
Proof. solve_decision. Defined.

(** Plain HTTP unless both files are configured. *)
Inductive serve_mode := ListenAndServe | ListenAndServeTLS (certFile keyFile : gostring).
Definition mode_of (c : Config) : serve_mode :=
  let tls := dash_TLS (Config.Dashboard c) in
  if decide (tls_CertFile tls ≠ [] ∧ tls_KeyFile tls ≠ [])
  then ListenAndServeTLS (tls_CertFile tls) (tls_KeyFile tls) else ListenAndServe.
(** The address net/http listens on. *)
Definition listen_addr (c : Config) : gostring :=
  let addr := dash_ListenAddr (Config.Dashboard c) in
  if decide (addr = []) then
    match mode_of c with ListenAndServe => str ":http" | ListenAndServeTLS _ _ => str ":https" end
  else addr.

(** [has_server] once [Start] has made the server, which also starts the goroutine
    that waits for the context; [shut] once [Shutdown] has been called on it.
    [conns] are the connections accepted and not closed, without those upgraded,
    and [replies] what requests have been answered with, on which connection. *)
Record http_service := mkHttpService {
  dash : Dashboard;
  has_server : bool;
  shut : bool;
  start : start_loc;
  ctx_done : bool;
  conns : gset nat;
  replies : list (nat * body)
}.
Definition new_service (c : Config) : http_service :=
  mkHttpService (NewDashboard c) false false NotCalled false ∅ [].

Definition set_dash (d : Dashboard) (s : http_service) : http_service :=
  mkHttpService d (has_server s) (shut s) (start s) (ctx_done s) (conns s) (replies s).
Definition set_start (l : start_loc) (s : http_service) : http_service :=
  mkHttpService (dash s) (has_server s) (shut s) l (ctx_done s) (conns s) (replies s).
Definition set_conns (X : gset nat) (s : http_service) : http_service :=
  mkHttpService (dash s) (has_server s) (shut s) (start s) (ctx_done s) X (replies s).
Definition reply (r : nat) (b : body) (s : http_service) : http_service :=
  mkHttpService (dash s) (has_server s) (shut s) (start s) (ctx_done s) (conns s) (replies s ++ [(r, b)]).
(** [d.server.Shutdown]: the listener is closed at once, and [Serve] told so; the
    connections with a request under way, or that have just been accepted, are
    left to end on their own, the others closed. *)
Definition Shutdown (s : http_service) : http_service :=
  mkHttpService (dash s) (has_server s) true (start s) (ctx_done s) (conns s) (replies s).

(** Besides the calls of the program: a connection is accepted, a request for a path
    is answered on it, it is upgraded to the WebSocket of the same number, or it is
    closed. *)
Inductive label :=
  | CallStart
  | Listens
  | ServeFails
  | ServeReturns
  | Watch
  | CancelCtx
  | CallStop
  | AcceptConn (r : nat)
  | Get (r : nat) (path : gostring)
  | OpenWebSocket (r : nat) (path : gostring)
  | CloseConn (r : nat)
  | Dash (l : Dashboard.label).

Section service.
Context `{PeerRange} (Listen : serve_mode → gostring → bool).

Definition Stop (s : http_service) : http_service := if has_server s then Shutdown s else s.

(** [Start] up to the point where it listens, and from there. *)
Definition Start (s : http_service) : http_service :=
  mkHttpService (dash s) true (shut s) Starting (ctx_done s) (conns s) (replies s).
Definition listen_and_serve (s : http_service) : http_service :=
  set_start
    (if shut s then Returned (Ok ())
     else if Listen (mode_of (cfg (dash s))) (listen_addr (cfg (dash s))) then InServe
     else Returned (Err ErrListen)) s.

Definition service_step (l : label) (s : http_service) : option http_service :=
  match l with
  | CallStart => if decide (start s = NotCalled) then Some (Start s) else None
  | Listens => if decide (start s = Starting) then Some (listen_and_serve s) else None
  | ServeFails =>
    if decide (start s = InServe ∧ shut s = false)
    then Some (set_start (Returned (Err ErrServe)) s) else None
  | ServeReturns =>
    if decide (start s = InServe ∧ shut s = true) then Some (set_start (Returned (Ok ())) s) else None
  | Watch =>
    if decide (has_server s = true ∧ ctx_done s = true ∧ shut s = false) then Some (Shutdown s) else None
  | CancelCtx =>
    Some (mkHttpService (dash s) (has_server s) (shut s) (start s) true (conns s) (replies s))
  | CallStop => Some (Stop s)
  | AcceptConn r =>
    if decide (start s = InServe ∧ shut s = false ∧ (r ∉ conns s) ∧ sockets (dash s) !! r = None)
    then Some (set_conns ({[r]} ∪ conns s) s) else None
  | Get r path =>
    if decide (r ∈ conns s) then b ← answer (dash s) path; Some (reply r b s) else None
  | OpenWebSocket r path =>
    if decide (r ∈ conns s) then
      match route path with
      | Handled HandleWS =>
        (λ d, set_dash d (set_conns (conns s ∖ {[r]}) s)) <$> dash_step (Connect r) (dash s)
      | _ => None
      end
    else None
  | CloseConn r => if decide (r ∈ conns s) then Some (set_conns (conns s ∖ {[r]}) s) else None
  | Dash (Connect _) => None
  | Dash l => (λ d, set_dash d s) <$> dash_step l (dash s)
  end.
End service.

(** [RunDashboard]: a dashboard that nothing else in the program can reach, so
    nobody updates it or stops it. *)
Definition unreachable_dashboard (s : http_service) (l : label) : Prop :=
  match l with CallStop | Dash (Store _) => False | _ => True end.
Definition RunDashboard `{PeerRange} (Listen : serve_mode → gostring → bool) (c : Config)
    (ls : list label) (s : http_service) : Prop :=
  trace (service_step Listen) unreachable_dashboard (Start (new_service c)) ls s.

(** ** Clean paths *)
Lemma last_rooted_path names :
  Forall plain_name names → names ≠ [] → ends_in_slash (rooted_path names) = false.
Proof.
  intros Hn Hne. destruct names as [|name names' _] using rev_ind; [done|].
  apply Forall_app in Hn as [_ (Hname & Hsep & _)%Forall_singleton].
  unfold ends_in_slash, rooted_path. destruct (Join_snoc names' separator) as [prefix ->].
  apply bool_decide_eq_false. rewrite app_comm_cons, last_app.
  destruct (last name) as [c|] eqn:Hl; [|by apply last_None in Hl].
  intros [= ->]. by apply Hsep, last_Some_elem_of.
Qed.

Lemma ends_in_slash_snoc path : ends_in_slash (path ++ [separator]) = true.
Proof. unfold ends_in_slash. rewrite last_snoc. by apply bool_decide_eq_true. Qed.

(** A path as [cleanPath] makes them. *)
Definition clean_path (path : gostring) : Prop :=
  ∃ names, Forall plain_name names
    ∧ (path = rooted_path names ∨ names ≠ [] ∧ path = rooted_path names ++ [separator]).

Lemma cleanPath_clean path : clean_path (cleanPath path).
Proof.
  unfold cleanPath. set (p := if is_rooted path then path else separator :: path).
  assert (is_rooted p = true) as (names & Hn & Hp)%Clean_rooted.
  { unfold p. destruct (is_rooted path) eqn:Hr; [done|]. by apply bool_decide_eq_true. }
  rewrite Hp. exists names. split; [done|].
  destruct (ends_in_slash p); [|by left]. case_bool_decide as Hne; [|by left].
  right. split; [|done]. by intros ->.
Qed.

Lemma clean_path_fixed path : clean_path path → cleanPath path = path.
Proof.
  intros (names & Hn & Hp). assert (is_rooted path = true) as Hr.
  { apply bool_decide_eq_true. by destruct Hp as [->|[_ ->]]. }
  unfold cleanPath. rewrite Hr. cbv zeta. destruct Hp as [->|[Hne ->]].
  - pose proof (Clean_names names [] Hn (or_introl eq_refl)) as Hc. rewrite app_nil_r in Hc.
    rewrite Hc. destruct (decide (names = [])) as [->|Hne]; [by rewrite andb_false_r|].
    by rewrite last_rooted_path.
  - rewrite (Clean_names names [separator]), ends_in_slash_snoc by auto.
    rewrite bool_decide_eq_true_2; [done|]. intros Heq.
    pose proof (last_rooted_path names Hn Hne) as Hl. by rewrite Heq in Hl.
Qed.

Lemma cleanPath_idemp path : cleanPath (cleanPath path) = cleanPath path.
Proof. apply clean_path_fixed, cleanPath_clean. Qed.

(** ** Where a path leads *)
Lemma segments_rooted path : is_rooted path = true → segments path ≠ [].
Proof.
  intros Hr%bool_decide_eq_true. destruct path as [|b path]; [done|]. injection Hr as ->.
  unfold segments. change (separator :: path) with ([] ++ separator :: path).
  rewrite Split_app_sep. cbn. apply Split_ne.
Qed.

Lemma segments_slashed path :
  is_rooted path = true → segments (path ++ [separator]) = segments path ++ [[]].
Proof.
  intros Hr. unfold segments. change [separator] with (separator :: []).
  rewrite Split_app_sep. pose proof (Split_ne separator path). by destruct (Split path separator).
Qed.

(** The named patterns are tried, and the page is for the rest. *)
Definition named_pattern (path : gostring) : option (nat * (gostring * handler)) :=
  list_find (λ p, pathUnescape <$> segments path = segments p.1) (tail NewServeMux).

Lemma lookup_pattern_eq path :
  is_rooted path = true →
  lookup_pattern path
  = Some (default (str "/", HandleIndex) (snd <$> named_pattern path)).
Proof.
  intros Hr%segments_rooted. unfold lookup_pattern, named_pattern. cbn [NewServeMux foldr tail list_find fst].
  unfold pattern_matches.
  assert (bool_decide (removelast (segments (str "/")) `prefix_of` (pathUnescape <$> segments path)) = true) as ->.
  { apply bool_decide_eq_true. vm_compute (removelast _). apply prefix_nil. }
  assert (bool_decide (length (segments (str "/")) ≤ length (pathUnescape <$> segments path)) = true) as ->.
  { apply bool_decide_eq_true. rewrite length_fmap. destruct (segments path); [done|]. simpl. lia. }
  generalize (pathUnescape <$> segments path). intros segs.
  repeat match goal with |- context [ends_in_slash ?p] =>
    let v := eval vm_compute in (ends_in_slash p) in change (ends_in_slash p) with v end.
  cbn [andb].
  destruct (decide (segs = segments (str "/api/status"))) as [->|H1]; [vm_compute; reflexivity|].
  destruct (decide (segs = segments (str "/api/peers"))) as [->|H2]; [vm_compute; reflexivity|].
  destruct (decide (segs = segments (str "/api/topology"))) as [->|H3]; [vm_compute; reflexivity|].
  destruct (decide (segs = segments (str "/ws"))) as [->|H4]; [vm_compute; reflexivity|].
  by rewrite !bool_decide_eq_false_2.
Qed.

(** No pattern but the page's is for a path with a slash at its end, and that one is
    for the root alone. *)
Lemma lookup_slashed path :
  is_rooted path = true →
  exact_match (lookup_pattern (path ++ [separator])) (path ++ [separator]) = false.
Proof.
  intros Hr. assert (is_rooted (path ++ [separator]) = true) as Hr'.
  { apply bool_decide_eq_true in Hr. apply bool_decide_eq_true. by destruct path. }
  rewrite lookup_pattern_eq by done. unfold named_pattern. rewrite segments_slashed, fmap_app by done.
  assert (list_find (λ p, (pathUnescape <$> segments path) ++ (pathUnescape <$> [[]]) = segments p.1)
    (tail NewServeMux) = None) as ->.
  { apply list_find_None. repeat constructor; intros Hs%(f_equal last); rewrite last_app in Hs;
      vm_compute in Hs; discriminate Hs. }
  cbn [fmap option_fmap option_map default exact_match]. rewrite segments_slashed by done.
  rewrite bool_decide_eq_false_2, andb_false_r; [reflexivity|].
  pose proof (segments_rooted path Hr). rewrite length_app.
  change (length (segments (str "/"))) with 1. destruct (segments path); [done|]. simpl. lia.
Qed.

Lemma cleanPath_rooted path : is_rooted (cleanPath path) = true.
Proof.
  destruct (cleanPath_clean path) as (names & _ & [->|[_ ->]]); by apply bool_decide_eq_true.
Qed.

Lemma route_eq path :
  route path = if decide (cleanPath path = path) then
      Handled (from_option (λ p, p.2.2) HandleIndex (named_pattern path))
    else MovedPermanently (cleanPath path).
Proof.
  unfold route. pose proof (cleanPath_rooted path) as Hr. rewrite lookup_slashed, andb_false_r by done.
  case_decide as Hp; [|done]. rewrite lookup_pattern_eq by done. rewrite Hp.
  by destruct (named_pattern path) as [[i [p h]]|].
Qed.

Lemma route_found path : route path ≠ NotFound.
Proof. rewrite route_eq. by case_decide. Qed.

(** ** Connections are only opened by requests *)
Lemma dash_step_dom l d d' :
  (∀ c, l ≠ Connect c) → dash_step l d = Some d' → dom (sockets d') = dom (sockets d).
Proof.
  assert (∀ c (s s' : socket) (m : gmap nat socket), m !! c = Some s → dom (<[c:=s']> m) = dom m) as Hset.
  { intros c s s' m Hs. rewrite dom_insert_L. apply elem_of_dom_2 in Hs. set_solver. }
  intros Hl. destruct l as [state|i|c|c|c]; simpl.
  - by intros [= <-].
  - intros (state & _ & [= <-])%bind_Some. apply set_eq. intros c.
    rewrite !elem_of_dom, broadcast_socket. simpl. by rewrite fmap_is_Some.
  - by destruct (Hl c).
  - intros (s & Hs & Hd)%bind_Some.
    destruct (at_ s) as [|[state|]| |]; [..|done]; [| | |destruct (conn_open s); [done|]];
      injection Hd as <-; by eapply Hset.
  - intros (s & Hs & [= <-])%bind_Some. by eapply Hset.
Qed.

Lemma dash_step_viewing v l d d' :
  v ∈ clients d ∧ (∃ sock, sockets d !! v = Some sock ∧ conn_open sock = true) →
  l ≠ PeerCloses v → dash_step l d = Some d' →
  v ∈ clients d' ∧ ∃ sock, sockets d' !! v = Some sock ∧ conn_open sock = true.
Proof.
  intros (Hc & sock & Hs & Ho) Hl. destruct l as [state|i|c|c|c]; simpl.
  - intros [= <-]. split; [done|]. by exists sock.
  - intros (state & _ & [= <-])%bind_Some. split.
    + apply elem_of_broadcast. split; [done|]. by exists sock.
    + rewrite broadcast_socket. cbn [sockets]. rewrite Hs. eexists. split; [done|].
      case_decide; [|done]. by rewrite (proj2 (send_proj _ _)).
  - destruct (sockets d !! c) eqn:Hcs; [done|]. intros [= <-]. simpl.
    rewrite lookup_insert_ne by congruence. split; [set_solver|]. by exists sock.
  - unfold handleWebSocket. intros (s & Hcs & Hd)%bind_Some. destruct (decide (c = v)) as [->|Hne].
    + rewrite Hs in Hcs. injection Hcs as <-.
      destruct (at_ sock) as [|[state|]| |]; [| | | |done]; [| | |by rewrite Ho in Hd];
        injection Hd as <-; (split; [done|]); simpl; rewrite lookup_insert_eq; eexists; (split; [done|]);
        cbn; rewrite ?(proj2 (send_proj _ _)); exact Ho.
    + assert (∀ (s' : socket) (cl : gset nat), v ∈ cl → v ∈ cl ∧ ∃ sock, <[c := s']> (sockets d) !! v = Some sock
        ∧ conn_open sock = true) as Hset.
      { intros s' cl Hv. split; [done|]. exists sock. by rewrite lookup_insert_ne. }
      destruct (at_ s) as [|[state|]| |]; [| | | |done]; [| | |destruct (conn_open s); [done|]];
        injection Hd as <-; apply Hset; set_solver.
  - intros (s & Hcs & [= <-])%bind_Some. simpl. split; [done|]. exists sock.
    rewrite lookup_insert_ne; [done|]. congruence.
Qed.

Section lemmas.
Context `{PeerRange} (Listen : serve_mode → gostring → bool).

(** ** Shutting down *)

(** [called] says whether [Stop] has been called. *)
Record shut_invariant (called : Prop) (s : http_service) : Prop := mkShutInvariant {
  shut_why : shut s = true → has_server s = true ∧ (ctx_done s = true ∨ called);
  shut_ok : start s = Returned (Ok ()) → shut s = true;
  has_server_start : has_server s = true ↔ start s ≠ NotCalled
}.

Lemma shut_invariant_mono (P Q : Prop) s : (P → Q) → shut_invariant P s → shut_invariant Q s.
Proof. intros HPQ [Hw Ho Hh]. split; [|done..]. intros [? [?|?]]%Hw; auto. Qed.

Lemma service_step_shut P l s s' :
  shut_invariant P s → service_step Listen l s = Some s' → shut_invariant (P ∨ l = CallStop) s'.
Proof.
  intros [Hw Ho Hh]. destruct l as [| | | | | | |r|r path|r path|r|l]; unfold service_step.
  - case_decide as Hl; [|done]. intros [= <-]. split; cbn; [|done..]. intros [? [?|?]]%Hw; auto.
  - case_decide as Hl; [|done]. intros [= <-]. unfold listen_and_serve.
    split; cbn; [intros [? [?|?]]%Hw; auto|destruct (shut s); [done|by case_match]|].
    rewrite Hh, Hl. split; [|done]. intros _. by repeat case_match.
  - case_decide as Hl; [|done]. intros [= <-]. destruct Hl as [Hl Hs].
    split; cbn; [by rewrite Hs|done|]. by rewrite Hh, Hl.
  - case_decide as Hl; [|done]. intros [= <-]. destruct Hl as [Hl Hs].
    split; cbn; [intros [? [?|?]]%Hw; auto|done|]. by rewrite Hh, Hl.
  - case_decide as Hl; [|done]. intros [= <-]. destruct Hl as (? & ? & _). split; cbn; auto.
  - intros [= <-]. split; cbn; [|done..]. intros [? _]%Hw; auto.
  - intros [= <-]. unfold Stop. destruct (has_server s) eqn:Hs; split; cbn; rewrite ?Hs; auto.
    intros [? [?|?]]%Hw; auto.
  - case_decide as Hl; [|done]. intros [= <-]. split; cbn; [intros [? [?|?]]%Hw; auto|done..].
  - case_decide as Hl; [|done]. intros (b & _ & [= <-])%bind_Some.
    split; cbn; [intros [? [?|?]]%Hw; auto|done..].
  - case_decide as Hl; [|done]. destruct (route path) as [[]| |]; try done.
    intros (d & _ & ->)%fmap_Some. split; cbn; [intros [? [?|?]]%Hw; auto|done..].
  - case_decide as Hl; [|done]. intros [= <-]. split; cbn; [intros [? [?|?]]%Hw; auto|done..].
  - destruct l; try done; intros (d & _ & ->)%fmap_Some;
      (split; cbn; [intros [? [?|?]]%Hw; auto|done..]).
Qed.

Lemma service_run_shut ok c ls s :
  trace (service_step Listen) ok (new_service c) ls s → shut_invariant (CallStop ∈ ls) s.
Proof.
  induction 1 as [|ls s1 l s2 _ IH _ Hl]; [by split|].
  eapply shut_invariant_mono; [|by eapply service_step_shut]. rewrite elem_of_app, list_elem_of_singleton.
  by intros [?| <-]; auto.
Qed.

Lemma service_step_replies l s s' :
  service_step Listen l s = Some s' → ∃ new, replies s' = replies s ++ new.
Proof.
  assert (∀ s1 : http_service, replies s1 = replies s → ∃ new, replies s1 = replies s ++ new) as Hsame.
  { intros s1 ->. exists []. by rewrite app_nil_r. }
  destruct l as [| | | | | | |r|r path|r path|r|l]; unfold service_step.
  1-5: case_decide; [|done]; intros [= <-]; by apply Hsame.
  - intros [= <-]. by apply Hsame.
  - intros [= <-]. apply Hsame. unfold Stop. by destruct (has_server s).
  - case_decide; [|done]. intros [= <-]. by apply Hsame.
  - case_decide; [|done]. intros (b & _ & [= <-])%bind_Some. by eexists.
  - case_decide; [|done]. destruct (route path) as [[]| |]; try done.
    intros (d & _ & ->)%fmap_Some. by apply Hsame.
  - case_decide; [|done]. intros [= <-]. by apply Hsame.
  - destruct l; try done; intros (d & _ & ->)%fmap_Some; by apply Hsame.
Qed.

(** What [Shutdown] leaves: connections only go, whatever is answered is answered on
    one of them, and a viewer that is let in was one of them. *)
Definition winding_down (X : gset nat) (d0 : gset nat) (n : nat) (s : http_service) : Prop :=
  shut s = true ∧ conns s ⊆ X ∧ Forall (λ p, p.1 ∈ X) (drop n (replies s))
  ∧ dom (sockets (dash s)) ⊆ d0 ∪ (X ∖ conns s).

Lemma service_step_winding X d0 n l s s' :
  n ≤ length (replies s) → winding_down X d0 n s → service_step Listen l s = Some s' →
  n ≤ length (replies s') ∧ winding_down X d0 n s'.
Proof.
  intros Hn (Hs & Hc & Hr & Hd). destruct l as [| | | | | | |r|r path|r path|r|l]; unfold service_step.
  1-5: case_decide; [|done]; by intros [= <-].
  - by intros [= <-].
  - intros [= <-]. unfold Stop. by destruct (has_server s).
  - rewrite decide_False; [done|]. rewrite Hs. by intros (_ & ? & _).
  - case_decide; [|done]. intros (b & _ & [= <-])%bind_Some. split; [cbn; rewrite length_app; lia|].
    split_and!; [done..| |done]. cbn. rewrite drop_app_le by done. apply Forall_app.
    split; [done|]. apply Forall_singleton. cbn. set_solver.
  - case_decide; [|done]. destruct (route path) as [[]| |]; try done.
    intros (d & Hd' & ->)%fmap_Some. split; [done|].
    assert (dom (sockets d) = {[r]} ∪ dom (sockets (dash s))) as Hdom.
    { simpl in Hd'. destruct (sockets (dash s) !! r); [done|]. injection Hd' as <-. cbn.
      by rewrite dom_insert_L. }
    split_and!; cbn; [done|set_solver|done|]. rewrite Hdom. intros c Hin.
    destruct (decide (c ∈ d0)); [set_solver|]. set_unfold. naive_solver.
  - case_decide; [|done]. intros [= <-]. split; [done|]. split_and!; cbn; [done|set_solver|done|].
    set_solver.
  - destruct l; try done; intros (d & Hd' & ->)%fmap_Some; (split; [done|]);
      (split_and!; [done..|]); cbn; by erewrite (dash_step_dom _ _ _ _ Hd').
  Unshelve. all: done.
Qed.

Lemma service_run_winding ok s ls s' :
  shut s = true → trace (service_step Listen) ok s ls s' →
  shut s' = true ∧ conns s' ⊆ conns s
  ∧ (∃ new, replies s' = replies s ++ new ∧ Forall (λ p, p.1 ∈ conns s) new)
  ∧ dom (sockets (dash s')) ⊆ dom (sockets (dash s)) ∪ (conns s ∖ conns s').
Proof.
  intros Hs Hrun.
  assert ((∃ new, replies s' = replies s ++ new)
    ∧ length (replies s) ≤ length (replies s')
    ∧ winding_down (conns s) (dom (sockets (dash s))) (length (replies s)) s') as ([new Hnew] & _ & H1 & H2 & H3 & H4).
  { eapply (trace_invariant _ _ (λ s', (∃ new, replies s' = replies s ++ new)
      ∧ length (replies s) ≤ length (replies s')
      ∧ winding_down (conns s) (dom (sockets (dash s))) (length (replies s)) s')), Hrun.
    - split; [exists []; by rewrite app_nil_r|]. split; [done|].
      split_and!; [done..|by rewrite drop_all|set_solver].
    - intros s1 l s2 ([new Hnew] & Hn & Hw) _ Hl. split; [|by eapply service_step_winding].
      assert (∃ new', replies s2 = replies s1 ++ new') as [new' ->] by by eapply service_step_replies.
      exists (new ++ new'). by rewrite Hnew, app_assoc. }
  split_and!; [done..| |done]. exists new. split; [done|]. by rewrite Hnew, drop_app_length in H3.
Qed.

(** A viewer stays until its connection is closed at the other end. *)
Definition viewing (v : nat) (s : http_service) : Prop :=
  v ∈ clients (dash s) ∧ ∃ sock, sockets (dash s) !! v = Some sock ∧ conn_open sock = true.

Lemma service_step_viewing v l s s' :
  viewing v s → l ≠ Dash (PeerCloses v) → service_step Listen l s = Some s' → viewing v s'.
Proof.
  intros Hv Hl. destruct l as [| | | | | | |r|r path|r path|r|l]; unfold service_step.
  1-5: case_decide; [|done]; by intros [= <-].
  - by intros [= <-].
  - intros [= <-]. unfold Stop. by destruct (has_server s).
  - case_decide; [|done]. by intros [= <-].
  - case_decide; [|done]. by intros (b & _ & [= <-])%bind_Some.
  - case_decide; [|done]. destruct (route path) as [[]| |]; try done.
    intros (d & Hd & ->)%fmap_Some. by apply (dash_step_viewing v (Connect r) (dash s)).
  - case_decide; [|done]. by intros [= <-].
  - assert (l ≠ PeerCloses v) by congruence.
    destruct l; try done; intros (d & Hd & ->)%fmap_Some; by eapply dash_step_viewing.
Qed.

(** ** A dashboard nobody updates *)
Definition empty_body (b : body) : Prop :=
  b ∈ [DashboardHTML; StatusJSON None; PeersJSON ∅; TopologyJSON (mkTopology [] [])]
  ∨ ∃ path, b = Moved path.
Definition nothing_sent (sock : socket) : Prop :=
  view sock = [] ∧ match at_ sock with Sending (Some _) => False | _ => True end.
Record empty_dashboard (s : http_service) : Prop := mkEmptyDashboard {
  empty_mesh : mesh (dash s) = None;
  empty_updating : updating (dash s) = [];
  empty_views : map_Forall (λ _, nothing_sent) (sockets (dash s));
  empty_replies : Forall (λ p, empty_body p.2) (replies s)
}.

Lemma dash_step_empty l d d' :
  (∀ state, l ≠ Store state) → mesh d = None → updating d = [] →
  map_Forall (λ _, nothing_sent) (sockets d) → dash_step l d = Some d' →
  mesh d' = None ∧ updating d' = [] ∧ map_Forall (λ _, nothing_sent) (sockets d').
Proof.
  intros Hl Hm Hu Hs. destruct l as [state|i|c|c|c]; cbn [dash_step].
  - by destruct (Hl state).
  - by rewrite Hu.
  - destruct (sockets d !! c) eqn:Hc; [done|]. intros [= <-]. split; [done|]. split; [done|].
    by apply map_Forall_insert_2.
  - intros (s & Hc & Hd)%bind_Some. specialize (Hs c s Hc) as Hn. destruct Hn as [Hv Ha].
    destruct (at_ s) as [|[state|]| |]; [|done| | |done]; [| |destruct (conn_open s); [done|]];
      injection Hd as <-; (split; [done|]; split; [done|]; apply map_Forall_insert_2; [|done]);
      by rewrite ?Hm.
  - intros (s & Hc & [= <-])%bind_Some. split; [done|]. split; [done|].
    apply map_Forall_insert_2; [|done]. exact (Hs c s Hc).
Qed.

Lemma empty_step l s d :
  (∀ state, l ≠ Store state) → empty_dashboard s → dash_step l (dash s) = Some d →
  empty_dashboard (set_dash d s).
Proof.
  intros Hl [Hm Hu Hv Hr] Hd. destruct (dash_step_empty l (dash s) d Hl Hm Hu Hv Hd) as (? & ? & ?).
  by split.
Qed.

Lemma answer_empty d path b : mesh d = None → answer d path = Some b → empty_body b.
Proof.
  unfold answer. intros ->.
  pose proof (route_found path) as Hfound.
  destruct (route path) as [[]|target|]; [..|done]; intros [= <-]; unfold empty_body; [..|by right; eexists];
    left; cbn; set_solver.
Qed.

Lemma service_step_empty l s s' :
  empty_dashboard s → unreachable_dashboard s l → service_step Listen l s = Some s' → empty_dashboard s'.
Proof.
  intros Hs Hok. destruct l as [| | | | | | |r|r path|r path|r|l]; unfold service_step.
  - case_decide; [|done]. intros [= <-]. by destruct Hs.
  - case_decide; [|done]. intros [= <-]. by destruct Hs.
  - case_decide; [|done]. intros [= <-]. by destruct Hs.
  - case_decide; [|done]. intros [= <-]. by destruct Hs.
  - case_decide; [|done]. intros [= <-]. by destruct Hs.
  - intros [= <-]. by destruct Hs.
  - done.
  - case_decide; [|done]. intros [= <-]. by destruct Hs.
  - case_decide; [|done]. intros (b & Hb & [= <-])%bind_Some.
    destruct Hs as [Hm Hu Hv Hr]. split; try done.
    apply Forall_app. split; [done|]. apply Forall_singleton. by eapply answer_empty.
  - case_decide; [|done]. destruct (route path) as [[]| |]; try done.
    intros (d & Hd & ->)%fmap_Some. apply (empty_step (Connect r) (set_conns _ s)); [done| |done].
    by destruct Hs.
  - case_decide; [|done]. intros [= <-]. by destruct Hs.
  - destruct l; cbn in Hok; try done; intros (d & Hd & ->)%fmap_Some;
      (eapply empty_step; [|exact Hs|exact Hd]; done).
Qed.

Lemma RunDashboard_run c ls s :
  RunDashboard Listen c ls s →
  empty_dashboard s ∧ (ctx_done s = true ↔ CancelCtx ∈ ls) ∧ (shut s = true → ctx_done s = true).
Proof.
  intros Hrun. split; [|split].
  - eapply trace_invariant, Hrun; [by split|]. intros s1 l s2 Hs Hok. by apply service_step_empty.
  - induction Hrun as [|ls s1 l s2 _ IH Hok Hl]; [cbn; set_solver|].
    rewrite elem_of_app, list_elem_of_singleton, <-IH. revert Hl.
    destruct l as [| | | | | | |r|r path|r path|r|l]; unfold service_step; try done.
    + case_decide; [|done]. intros [= <-]. naive_solver.
    + case_decide; [|done]. intros [= <-]. naive_solver.
    + case_decide; [|done]. intros [= <-]. naive_solver.
    + case_decide; [|done]. intros [= <-]. naive_solver.
    + case_decide; [|done]. intros [= <-]. naive_solver.
    + intros [= <-]. naive_solver.
    + case_decide; [|done]. intros [= <-]. naive_solver.
    + case_decide; [|done]. intros (b & _ & [= <-])%bind_Some. naive_solver.
    + case_decide; [|done]. destruct (route path) as [[]| |]; try done.
      intros (d & _ & ->)%fmap_Some. naive_solver.
    + case_decide; [|done]. intros [= <-]. naive_solver.
    + destruct l; try done; intros (d & _ & ->)%fmap_Some; naive_solver.
  - assert (shut_invariant False s) as [Hw _ _]; [|by intros [_ [?|[]]]%Hw].
    eapply trace_invariant, Hrun; [by split|]. intros s1 l s2 Hs Hok Hl.
    eapply shut_invariant_mono; [|by eapply service_step_shut]. intros [[]| ->]. done.
Qed.

(** It returns without an error only when its context is cancelled. *)
Lemma RunDashboard_returns c ls s :
  RunDashboard Listen c ls s → start s = Returned (Ok ()) → CancelCtx ∈ ls.
Proof.
  intros Hrun Hret. destruct (RunDashboard_run _ _ _ Hrun) as (_ & Hctx & Hs). apply Hctx, Hs.
  revert Hret. assert (shut_invariant True s) as [_ Ho _]; [|exact Ho].
  eapply trace_invariant, Hrun; [by split|]. intros s1 l s2 Hs1 _ Hl.
  eapply shut_invariant_mono; [|by eapply service_step_shut]. done.
Qed.
End lemmas.

(** ** Properties *)

(** C20. Every path leads to one of the five handlers, after one redirect at most:
    nothing is ever not found.  A path goes to one of the named handlers when its
    segments, unescaped, are those of the handler's pattern and to the page
    otherwise, so a misspelt API path is answered with the page. *)
Theorem every_path_answered `{PeerRange} d path :
  route path ≠ NotFound
  ∧ (∃ h, route (cleanPath path) = Handled h)
  ∧ (∀ target, route path = MovedPermanently target → target ≠ path ∧ ∃ h, route target = Handled h)
  ∧ (∀ h, route path = Handled h →
       h = HandleIndex ∧ answer d path = Some DashboardHTML
         ∧ Forall (λ p, pathUnescape <$> segments path ≠ segments p.1) (tail NewServeMux)
       ∨ ∃ pattern, (pattern, h) ∈ tail NewServeMux ∧ pathUnescape <$> segments path = segments pattern).
Proof.
  assert (∀ path, cleanPath path = path → ∃ h, route path = Handled h) as Hclean.
  { intros p Hp. rewrite route_eq, decide_True by done. by eexists. }
  split; [apply route_found|]. split; [apply Hclean, cleanPath_idemp|]. split.
  - intros target. rewrite route_eq. case_decide as Hp; [done|]. intros [= <-]. split; [done|].
    apply Hclean, cleanPath_idemp.
  - intros h Hr. unfold answer. rewrite Hr. rewrite route_eq in Hr. case_decide; [|done].
    injection Hr as <-.
    destruct (named_pattern path) as [[i [pattern h]]|] eqn:Hf.
    + apply list_find_Some in Hf as (Hi & Hs & _). right. exists pattern.
      split; [exact (list_elem_of_lookup_2 _ _ _ Hi)|exact Hs].
    + left. split_and!; [done..|]. apply list_find_None in Hf.
      eapply Forall_impl; [exact Hf|]. intros p Hne Heq. by apply Hne.
Qed.


(** C39. The dashboard that the program starts on its own shows nothing, ever: every
    reply is the page, a redirect, or an empty answer of the API, and no viewer is
    sent anything.  It returns without an error only if its context is cancelled. *)
Theorem RunDashboard_empty `{PeerRange} Listen c ls s :
  RunDashboard Listen c ls s →
  Forall (λ p, p.2 ∈ [DashboardHTML; StatusJSON None; PeersJSON ∅; TopologyJSON (mkTopology [] [])]
               ∨ ∃ path, p.2 = Moved path) (replies s)
  ∧ map_Forall (λ _ sock, view sock = []) (sockets (dash s))
  ∧ (start s = Returned (Ok ()) → CancelCtx ∈ ls).
Proof.
  intros Hrun. destruct (RunDashboard_run _ _ _ _ Hrun) as ([_ _ Hv Hr] & _).
  split; [exact Hr|]. split; [|by eapply RunDashboard_returns].
  eapply map_Forall_impl; [exact Hv|]. by intros ? ? [? _].
Qed.

(** ** Witnesses *)
Definition ex_listen (mode : serve_mode) (addr : gostring) : bool := true.
Definition ex_labels : list label :=
  [CallStart; Listens; AcceptConn 1; OpenWebSocket 1 (str "/ws"); AcceptConn 2; CancelCtx; Watch;
   ServeReturns; Get 2 (str "/api/status"); CloseConn 2].
#[export] Instance unreachable_dashboard_dec s l : Decision (unreachable_dashboard s l).
Proof. destruct l as [| | | | | | |r|r path|r path|r|[]]; simpl; apply _. Defined.


Lemma RunDashboard_empty_witness :
  ∃ s, RunDashboard ex_listen zero_Config (tail ex_labels) s ∧ start s = Returned (Ok ())
    ∧ map_Forall (λ _ sock, view sock = []) (sockets (dash s)).
Proof.
  destruct (exec_ok (service_step ex_listen) unreachable_dashboard (tail ex_labels)
    (Start (new_service zero_Config))) as [s|] eqn:Hs; [|vm_compute in Hs; discriminate Hs].
  pose proof (exec_ok_trace _ unreachable_dashboard _ _ _ Hs) as Hrun. exists s.
  destruct (RunDashboard_empty ex_listen zero_Config (tail ex_labels) s Hrun) as (_ & Hv & _).
  vm_compute in Hs. injection Hs as Hs. split_and!; [exact Hrun|rewrite <-Hs; reflexivity|exact Hv].
Defined.
