(* ===== verification/Cli.v ===== *)
(** * main.go: the command line

    The seven commands with their flags, what each calls, the exit status of the
    process, and the signals of [up].  The library that parses the arguments
    (cobra) is the class [Cobra]; the functions the commands call are values of
    [call], and what a call returns is a parameter: [Run], [Teardown],
    [ShowStatus], [ListPeers] and [RunDNS] are not in the repository,
    [RunDashboard] is [DashboardServer]'s and [GenerateKeys] [WireGuard]'s. *)
From S2P Require Import Prelude Bytes GoStrings NetIP Base64 FilePath Config Noise WireGuard Dashboard DashboardServer.
From Stdlib Require Import Init.Byte.

Abbreviation Config := Config.Config.

Inductive command := Up | Down | Status | Peers | Dashboard | GenKeys | DNS.
#[export] Instance command_eq_dec : EqDecision command.
Proof. solve_decision. Defined.

(** A flag with its shorthand and its default. *)
Record flag := mkFlag { flag_name : gostring; shorthand : byte; flag_default : gostring }.
#[export] Instance flag_eq_dec : EqDecision flag.
Proof. solve_decision. Defined.
Record cobra_command := mkCommand { Use : gostring; Flags : list flag }.

Definition config_flag : flag := mkFlag (str "config") x63 (str "/etc/nexus-vpn/config.yaml").
Definition node_flag : flag := mkFlag (str "node") x6e [].
Definition out_flag : flag := mkFlag (str "out") x6f (str ".").

Definition newUpCmd : cobra_command := mkCommand (str "up") [config_flag; node_flag].
Definition newDownCmd : cobra_command := mkCommand (str "down") [node_flag].
Definition newStatusCmd : cobra_command := mkCommand (str "status") [config_flag; node_flag].
Definition newPeersCmd : cobra_command := mkCommand (str "peers") [config_flag; node_flag].
Definition newDashboardCmd : cobra_command := mkCommand (str "dashboard") [config_flag; node_flag].
Definition newGenKeysCmd : cobra_command := mkCommand (str "gen-keys") [out_flag].
Definition newDNSCmd : cobra_command := mkCommand (str "dns") [config_flag; node_flag].
Definition cobra_of (cmd : command) : cobra_command :=
  match cmd with
  | Up => newUpCmd | Down => newDownCmd | Status => newStatusCmd | Peers => newPeersCmd
  | Dashboard => newDashboardCmd | GenKeys => newGenKeysCmd | DNS => newDNSCmd
  end.
Definition commands : list command := [Up; Down; Status; Peers; Dashboard; GenKeys; DNS].

(** What the library makes of the arguments: help or the version are shown, the
    arguments are in error, or a command is run with the values of the flags
    that were given. *)
Inductive parsed := Shown | Invalid | Invoke (cmd : command) (given : gmap gostring gostring).
Class Cobra := Parse : list gostring → parsed.

(** A flag as it is written, by its name or its shorthand, with its value. *)
Definition flag_args (p : bool * flag * gostring) : list gostring :=
  let '(short, f, v) := p in [if short : bool then [x2d; shorthand f] else str "--" ++ flag_name f; v].
Definition set_flag (given : gmap gostring gostring) (p : bool * flag * gostring) : gmap gostring gostring :=
  <[flag_name p.1.2 := p.2]> given.
(** A command and its flags with their values are taken as such, the last value
    of a flag counting. *)
Class CobraLaws `{Cobra} : Prop := parse_command :
  ∀ cmd (fs : list (bool * flag * gostring)), Forall (λ p, p.1.2 ∈ Flags (cobra_of cmd)) fs →
    Parse (Use (cobra_of cmd) :: concat (flag_args <$> fs)) = Invoke cmd (foldl set_flag ∅ fs).

Definition value (f : flag) (given : gmap gostring gostring) : gostring :=
  default (flag_default f) (given !! flag_name f).

(** ** What a command calls *)
Inductive call :=
  | Run (cfg : Config)
  | Teardown (nodeName : gostring)
  | ShowStatus (cfg : Config)
  | ListPeers (cfg : Config)
  | RunDashboard (cfg : Config)
  | GenerateKeys (outDir : gostring)
  | RunDNS (cfg : Config).
Inductive cli_error := ErrLoadingConfig (e : config_error).

Section cli.
Context `{Cobra} (ReadFile : gostring → option gostring) (Getenv : gostring → gostring)
  (Unmarshal : gostring → Config → option Config).

Definition with_config (f : Config → call) (given : gmap gostring gostring) : outcome cli_error call :=
  map_err ErrLoadingConfig
    (cfg ← LoadConfig ReadFile Getenv Unmarshal (value config_flag given) (value node_flag given);
     Ok (f cfg)).
(** The [RunE] of each command. *)
Definition RunE (cmd : command) (given : gmap gostring gostring) : outcome cli_error call :=
  match cmd with
  | Up => with_config Run given
  | Down => Ok (Teardown (value node_flag given))
  | Status => with_config ShowStatus given
  | Peers => with_config ListPeers given
  | Dashboard => with_config RunDashboard given
  | GenKeys => Ok (GenerateKeys (value out_flag given))
  | DNS => with_config RunDNS given
  end.

(** The exit status for what a command returns; 2 is that of a panic. *)
Definition exit_status {E A} (r : outcome E A) : Z :=
  match r with Ok _ => 0 | Err _ => 1 | Panic | OutOfFuel => 2 end.

(** [main]: the call that is made, if one is, and the exit status, if the process
    ends; [returns] is what a call returns, if it does. *)
Definition main {E} (returns : call → option (outcome E ())) (args : list gostring) :
    option call * option Z :=
  match Parse args with
  | Shown => (None, Some 0%Z)
  | Invalid => (None, Some 1%Z)
  | Invoke cmd given =>
    match RunE cmd given with
    | Ok f => (Some f, exit_status <$> returns f)
    | r => (None, Some (exit_status r))
    end
  end.
End cli.

(** ** Signals

    The process of [up] around the call of [Run]: the configuration is loaded,
    SIGINT and SIGTERM are asked for, and a goroutine waits for the first.  A
    signal before that has its default effect; later ones go in a channel with
    room for one, and are dropped when it is full. *)
Inductive up_loc := Loading | Loaded (cfg : Config) | InRun (cfg : Config) | Exited (status : Z) | Killed.
Record up_process := mkUp { loc : up_loc; sigCh : nat; waiting : bool; cancelled : bool }.
Definition new_up : up_process := mkUp Loading 0 false false.

Inductive up_label {E : Type} :=
  | Load
  | Notify
  | Signal
  | HandlerRuns
  | RunReturns (r : outcome E ()).
Arguments up_label : clear implicits.

Section up.
Context {E : Type} (load : outcome config_error Config).

Definition up_step (l : up_label E) (s : up_process) : option up_process :=
  match l, loc s with
  | Load, Loading =>
    match load with
    | Ok cfg => Some (mkUp (Loaded cfg) (sigCh s) (waiting s) (cancelled s))
    | r => Some (mkUp (Exited (exit_status r)) (sigCh s) (waiting s) (cancelled s))
    end
  | Notify, Loaded cfg => Some (mkUp (InRun cfg) (sigCh s) true (cancelled s))
  | Signal, (Loading | Loaded _) => Some (mkUp Killed (sigCh s) (waiting s) (cancelled s))
  | Signal, InRun cfg => Some (mkUp (InRun cfg) 1 (waiting s) (cancelled s))
  | HandlerRuns, InRun cfg =>
    if waiting s then
      match sigCh s with
      | S n => Some (mkUp (InRun cfg) n false true)
      | O => None
      end
    else None
  | RunReturns r, InRun cfg =>
    Some (mkUp (Exited (exit_status r)) (sigCh s) (waiting s) true)
  | _, _ => None
  end.
End up.

(** ** Lemmas *)

(** The value a flag has been given last. *)
Definition given_last (name : gostring) (fs : list (bool * flag * gostring)) : option gostring :=
  snd <$> last (filter (λ p, flag_name p.1.2 = name) fs).
Lemma lookup_given name fs : foldl set_flag ∅ fs !! name = given_last name fs.
Proof.
  unfold given_last. induction fs as [|p fs IH] using rev_ind; [done|].
  rewrite foldl_app, filter_app. cbn [foldl]. unfold set_flag at 1.
  rewrite filter_cons, filter_nil. case_decide as Hp.
  - by rewrite Hp, lookup_insert_eq, last_snoc.
  - by rewrite lookup_insert_ne, app_nil_r.
Qed.
Definition flag_value (f : flag) (fs : list (bool * flag * gostring)) : gostring :=
  default (flag_default f) (given_last (flag_name f) fs).
Lemma value_given f fs : value f (foldl set_flag ∅ fs) = flag_value f fs.
Proof. unfold value, flag_value. by rewrite lookup_given. Qed.

(** The name on the command line is the node's. *)
Lemma LoadConfig_node ReadFile Getenv Unmarshal path node c :
  LoadConfig ReadFile Getenv Unmarshal path node = Ok c → node ≠ [] → NodeName c = node.
Proof.
  unfold LoadConfig, finishConfig. destruct (ReadFile path); [|done].
  destruct (Unmarshal _ _) as [c0|]; [|done]. case_decide; [done|]. intros [= <-] Hn.
  unfold deriveClientID. rewrite overrideSecrets_eq, overrideNodeName_eq.
  assert (∀ l, first_set (node :: l) = node) as -> by (intros l'; cbn; by rewrite decide_False).
  by case_decide.
Qed.

Lemma LoadConfig_returns ReadFile Getenv Unmarshal path node :
  returns (LoadConfig ReadFile Getenv Unmarshal path node).
Proof.
  unfold LoadConfig, finishConfig. destruct (ReadFile path); [|done].
  destruct (Unmarshal _ _); [|done]. by case_decide.
Qed.

(** The configuration of a call. *)
Definition call_config (f : call) : option Config :=
  match f with
  | Run c | ShowStatus c | ListPeers c | RunDashboard c | RunDNS c => Some c
  | Teardown _ | GenerateKeys _ => None
  end.

(** What [main] does with a command that loads the configuration. *)
Lemma main_invoke `{CobraLaws} {E} ReadFile Getenv Unmarshal (returns : call → option (outcome E ())) cmd fs :
  Forall (λ p, p.1.2 ∈ Flags (cobra_of cmd)) fs →
  main ReadFile Getenv Unmarshal returns (Use (cobra_of cmd) :: concat (flag_args <$> fs))
  = match RunE ReadFile Getenv Unmarshal cmd (foldl set_flag ∅ fs) with
    | Ok f => (Some f, exit_status <$> returns f)
    | r => (None, Some (exit_status r))
    end.
Proof. intros Hfs. unfold main. by rewrite parse_command. Qed.

Lemma with_config_eq ReadFile Getenv Unmarshal f fs :
  with_config ReadFile Getenv Unmarshal f (foldl set_flag ∅ fs)
  = match LoadConfig ReadFile Getenv Unmarshal (flag_value config_flag fs) (flag_value node_flag fs) with
    | Ok c => Ok (f c)
    | Err e => Err (ErrLoadingConfig e)
    | Panic => Panic
    | OutOfFuel => OutOfFuel
    end.
Proof. unfold with_config. rewrite !value_given. by destruct (LoadConfig _ _ _ _ _). Qed.

(** ** Properties *)

(** C16. A command with its flags.  A command that needs the configuration loads it
    from the file and for the node of its flags (the last value of each, or its
    default); that always returns, and if it fails the process ends with status 1
    and calls nothing;
    otherwise the command makes its one call, with that configuration, whose node
    is the one named by the flag if it names one.  [down] and [gen-keys] load
    nothing.  The exit status is 0 exactly when the call returns without an error,
    and there is none while the call has not returned. *)
Theorem main_spec `{CobraLaws} {E} ReadFile Getenv Unmarshal (returns : call → option (outcome E ())) cmd fs :
  Forall (λ p, p.1.2 ∈ Flags (cobra_of cmd)) fs →
  let '(made, status) :=
    main ReadFile Getenv Unmarshal returns (Use (cobra_of cmd) :: concat (flag_args <$> fs)) in
  (∀ f, made = Some f → status = exit_status <$> returns f
     ∧ (status = Some 0%Z ↔ returns f = Some (Ok ()))
     ∧ ∀ c, call_config f = Some c → flag_value node_flag fs ≠ [] → NodeName c = flag_value node_flag fs)
  ∧ match cmd with
    | Down => made = Some (Teardown (flag_value node_flag fs))
    | GenKeys => made = Some (GenerateKeys (flag_value out_flag fs))
    | _ =>
      match LoadConfig ReadFile Getenv Unmarshal (flag_value config_flag fs) (flag_value node_flag fs) with
      | Ok c => made = Some (match cmd with
                             | Up => Run c | Status => ShowStatus c | Peers => ListPeers c
                             | Dashboard => RunDashboard c | _ => RunDNS c end)
      | Err _ => made = None ∧ status = Some 1%Z
      | _ => False
      end
    end.
Proof.
  intros Hfs. rewrite main_invoke by done.
  assert (∀ o : option (outcome E ()), exit_status <$> o = Some 0%Z ↔ o = Some (Ok ())) as Hstatus.
  { intros [[[]|e| |]|]; naive_solver. }
  pose proof (LoadConfig_node ReadFile Getenv Unmarshal (flag_value config_flag fs) (flag_value node_flag fs))
    as Hnode.
  pose proof (LoadConfig_returns ReadFile Getenv Unmarshal (flag_value config_flag fs)
    (flag_value node_flag fs)) as Hload.
  destruct cmd; cbn [RunE]; rewrite ?with_config_eq, ?value_given;
    try destruct (LoadConfig _ _ _ _ _) as [c|e| |]; (split; [|done]); intros f [= <-];
    (split; [done|]; split; [apply Hstatus|]); intros c' [= <-]; by apply Hnode.
Qed.

(** C19. Keys generated for a node are lost when it starts, unless the node is called
    "private" or "public" (and if its name has no separator in it).  [gen-keys] into
    the key directory of a node ends with status 0 and leaves the pair as
    private.key and public.key; the node's manager looks for another name, finds
    nothing, writes a new pair over the first, and fails. *)
Theorem gen_keys_then_start `{CobraLaws, CryptoLaws, FileSystem, WireGuardDevice}
    ReadFile Getenv Unmarshal (returns : call → option (outcome wg_error ()))
    rand1 rand2 c fs r1 r2 short :
  let dir := wg_KeyDir (WireGuard c) in
  let generated := WireGuard.GenerateKeys rand1 dir fs in
  length rand1 = 32 → length rand2 = 32 → MkdirAll dir = true →
  write_room (private_path dir) = Some r1 → write_room (public_path dir) = Some r2 → 44 ≤ r1 → 44 ≤ r2 →
  (separator ∉ NodeName c) → NodeName c ≠ str "private" → NodeName c ≠ str "public" →
  fs !! privPath c = None →
  returns (GenerateKeys dir) = Some generated.1 →
  main ReadFile Getenv Unmarshal returns (str "gen-keys" :: flag_args (short, out_flag, dir))
    = (Some (GenerateKeys dir), Some 0%Z)
  ∧ (generated.2 !! private_path dir ≫= decode_key) = Some (clamp rand1)
  ∧ let '(result, fs') := NewWireGuardManager rand2 c generated.2 in
    result = Err ErrReadingGenerated
    ∧ (fs' !! private_path dir ≫= decode_key) = Some (clamp rand2).
Proof.
  intros dir generated Hr1 Hr2 Hmk Hroom1 Hroom2 Hl1 Hl2 Hname Hpriv Hpub Hnone Hret.
  assert (∀ rand fs, length rand = 32 → WireGuard.GenerateKeys rand dir fs = (Ok (),
    <[public_path dir := EncodeToString (ScalarBaseMult (clamp rand))]>
      (<[private_path dir := EncodeToString (clamp rand)]> fs))) as Hgen
    by (intros; by eapply GenerateKeys_room).
  assert ((separator ∉ str "private") ∧ (separator ∉ str "public")) as [Hs1 Hs2]
    by (split; apply (bool_decide_unpack _); exact I).
  assert (private_path dir ≠ privPath c ∧ public_path dir ≠ privPath c) as [Hne1 Hne2].
  { split; intros Heq; symmetry in Heq;
      [by apply (key_path_inj _ (NodeName c) (str "private")) in Heq
      |by apply (key_path_inj _ (NodeName c) (str "public")) in Heq]. }
  assert (public_path dir ≠ private_path dir) as Hne.
  { intros Heq. by apply (key_path_inj dir (str "public") (str "private")) in Heq. }
  assert (∀ rand (fs : files), length rand = 32 →
    ((<[public_path dir := EncodeToString (ScalarBaseMult (clamp rand))]>
      (<[private_path dir := EncodeToString (clamp rand)]> fs)) !! private_path dir ≫= decode_key)
    = Some (clamp rand)) as Hread.
  { intros rand fs0 Hl. rewrite lookup_insert_ne, lookup_insert_eq by done. cbn [mbind option_bind].
    apply decode_key_encode. by rewrite length_clamp. }
  subst generated. rewrite Hgen in Hret |- * by done. cbn [fst snd] in *. split_and!; [|by apply Hread|].
  - change (str "gen-keys" :: flag_args (short, out_flag, dir))
      with (Use (cobra_of GenKeys) :: concat (flag_args <$> [(short, out_flag, dir)])).
    rewrite main_invoke by (repeat constructor). cbn [RunE]. rewrite value_given.
    change (flag_value out_flag [(short, out_flag, dir)]) with dir. by rewrite Hret.
  - unfold NewWireGuardManager, loadOrGenerateKeys.
    erewrite stateful_bind_eq by reflexivity.
    cbn [WireGuard.cfg]. rewrite !lookup_insert_ne, Hnone by done. fold dir.
    erewrite stateful_bind_eq by (by rewrite Hgen).
    erewrite stateful_bind_eq by reflexivity.
    rewrite !lookup_insert_ne, Hnone by done. split; [done|by apply Hread].
Qed.

(** The process of [dashboard] never ends well: nothing cancels the context of
    its server, so the call returns only with an error, and no arguments give the
    exit status 0. *)
Theorem dashboard_command `{CobraLaws, PeerRange} ReadFile Getenv Unmarshal Listen
    (returns : call → option (outcome serve_error ())) fs :
  Forall (λ p, p.1.2 ∈ Flags newDashboardCmd) fs →
  (∀ c r, returns (RunDashboard c) = Some r →
     ∃ ls s, (CancelCtx ∉ ls) ∧ DashboardServer.RunDashboard Listen c ls s ∧ start s = Returned r) →
  (main ReadFile Getenv Unmarshal returns (str "dashboard" :: concat (flag_args <$> fs))).2 ≠ Some 0%Z.
Proof.
  intros Hfs Hret. change (str "dashboard") with (Use (cobra_of Dashboard)).
  rewrite main_invoke by done. cbn [RunE]. rewrite with_config_eq.
  destruct (LoadConfig _ _ _ _ _) as [c|e| |]; [|done..]. cbn [snd].
  destruct (returns (RunDashboard c)) as [r|] eqn:Hr; [|done]. apply Hret in Hr as (ls & s & Hls & Hrun & Hs).
  destruct r as [[]|e| |]; [|done..]. by eapply RunDashboard_returns in Hrun.
Qed.

(** ** Signals of [up] *)
Section signals.
Context {E : Type} (load : outcome config_error Config).
Local Abbreviation up_run := (trace (up_step (E:=E) load) any_step new_up).

Record up_invariant (ls : list (up_label E)) (s : up_process) : Prop := mkUpInvariant {
  up_before : match loc s with Loading | Loaded _ | Killed => Notify ∉ ls | _ => True end;
  up_handler : match loc s with
               | Loading | Loaded _ => (HandlerRuns ∉ ls) ∧ cancelled s = false
               | InRun _ => waiting s = negb (cancelled s) ∧ (cancelled s = true ↔ HandlerRuns ∈ ls)
               | _ => True
               end
}.

Lemma up_run_invariant ls s : up_run ls s → up_invariant ls s.
Proof.
  induction 1 as [|ls s1 l s2 _ [Hb Hh] _ Hl]; [split; cbn; set_solver|].
  assert (∀ l', l' ∈ ls ++ [l] ↔ l' ∈ ls ∨ l' = l) as Hls
    by (intros l'; by rewrite elem_of_app, list_elem_of_singleton).
  destruct s1 as [at_ ch w x]. cbn [loc waiting cancelled] in *.
  destruct l as [| | | |r], at_ as [|c|c|n|]; cbn in Hl; try done.
  - destruct load; injection Hl as <-; split; cbn; rewrite ?Hls; naive_solver.
  - injection Hl as <-. split; cbn; [done|]. rewrite Hls. destruct Hh as [? ->]. naive_solver.
  - injection Hl as <-. split; cbn; rewrite ?Hls; naive_solver.
  - injection Hl as <-. split; cbn; rewrite ?Hls; naive_solver.
  - injection Hl as <-. split; cbn; rewrite ?Hls; naive_solver.
  - destruct w; [|done]. destruct ch; [done|]. injection Hl as <-. split; cbn; rewrite ?Hls; naive_solver.
  - injection Hl as <-. by split.
Qed.

End signals.

(** ** Witnesses

    A parser that knows the commands and their flags, and no help. *)
Definition names_flag (a : gostring) (f : flag) : Prop := a = str "--" ++ flag_name f ∨ a = [x2d; shorthand f].
#[local] Instance names_flag_dec a f : Decision (names_flag a f).
Proof. unfold names_flag. apply _. Defined.
Fixpoint ex_given (flags : list flag) (m : gmap gostring gostring) (args : list gostring) :
    option (gmap gostring gostring) :=
  match args with
  | [] => Some m
  | a :: v :: args => '(_, f) ← list_find (names_flag a) flags; ex_given flags (<[flag_name f := v]> m) args
  | _ => None
  end.
#[local] Instance ex_cobra : Cobra := λ args,
  match args with
  | [] => Shown
  | name :: args =>
    match list_find (λ cmd, Use (cobra_of cmd) = name) commands with
    | Some (_, cmd) => from_option (Invoke cmd) Invalid (ex_given (Flags (cobra_of cmd)) ∅ args)
    | None => Invalid
    end
  end.

Lemma ex_names_flag cmd short f :
  f ∈ Flags (cobra_of cmd) → ∃ i, list_find (names_flag (if short : bool then [x2d; shorthand f]
    else str "--" ++ flag_name f)) (Flags (cobra_of cmd)) = Some (i, f).
Proof.
  intros Hf. destruct cmd; cbn in Hf; rewrite ?elem_of_cons, ?elem_of_nil in Hf; destruct_or? Hf; try done;
    subst f; destruct short; eexists; vm_compute; reflexivity.
Qed.

#[local] Instance ex_cobra_laws : CobraLaws.
Proof.
  intros cmd fs Hfs. unfold Parse, ex_cobra.
  assert (∃ i, list_find (λ cmd', Use (cobra_of cmd') = Use (cobra_of cmd)) commands = Some (i, cmd))
    as [i ->] by (destruct cmd; eexists; vm_compute; reflexivity).
  generalize (∅ : gmap gostring gostring). induction Hfs as [|p fs Hp _ IH]; intros m; [done|].
  destruct p as [[short f] v]. destruct (ex_names_flag cmd short f Hp) as [j Hj].
  cbn [fmap list_fmap flag_args concat app ex_given]. rewrite Hj. cbn [mbind option_bind]. exact (IH _).
Qed.

Definition ex_returns {E} (f : call) : option (outcome E ()) := Some (Ok ()).
Definition ex_up : list (bool * flag * gostring) := [(false, node_flag, str "brigid")].

Example ex_up_args : Use newUpCmd :: concat (flag_args <$> ex_up) = [str "up"; str "--node"; str "brigid"].
Proof. reflexivity. Qed.

(** The node of the flag, where the environment has another. *)
Lemma main_spec_witness :
  ∃ c, main (λ _, Some []) (λ _, str "dagda") (λ _ c, Some c) (E:=()) ex_returns
      (Use (cobra_of Up) :: concat (flag_args <$> ex_up)) = (Some (Run c), Some 0%Z)
    ∧ NodeName c = str "brigid".
Proof.
  assert (Forall (λ p : bool * flag * gostring, p.1.2 ∈ Flags (cobra_of Up)) ex_up) as Hfs
    by (apply (bool_decide_unpack _); vm_compute; exact I).
  pose proof (main_spec (λ _, Some []) (λ _, str "dagda") (λ _ c, Some c) (E:=()) ex_returns Up ex_up Hfs) as H.
  destruct (main _ _ _ _ _) as [made status]. destruct H as [Hcall Hmade].
  destruct (LoadConfig _ _ _ _ _) as [c|e| |] eqn:Hc; [|vm_compute in Hc; discriminate Hc..].
  exists c. destruct (Hcall _ Hmade) as (-> & _ & Hnode). rewrite Hmade. split; [reflexivity|].
  apply Hnode; [reflexivity|]. vm_compute. discriminate.
Defined.

Lemma gen_keys_then_start_witness :
  (NewWireGuardManager (H:=toy) ex_key (ex_node (str "brigid"))
     (WireGuard.GenerateKeys (H:=toy) ex_key (str "/etc/nexus-vpn/") ∅).2).1 = Err ErrReadingGenerated.
Proof.
  assert (separator ∉ str "brigid") as Hs by (apply (bool_decide_unpack _); vm_compute; exact I).
  destruct (gen_keys_then_start (H1:=toy) (H2:=toy_laws) (λ _, None) (λ _, []) (λ _ c, Some c) ex_returns
    ex_key ex_key (ex_node (str "brigid")) ∅ 100 100 true) as (_ & _ & H).
  1-5: reflexivity.
  1-2: lia.
  1: exact Hs.
  1-2: discriminate.
  1-2: reflexivity.
  revert H. cbn [wg_KeyDir WireGuard ex_node].
  destruct (NewWireGuardManager _ _ _) as [o fs]. intros [-> _]. reflexivity.
Defined.

(** A dashboard whose address cannot be listened on. *)
Definition ex_deaf (mode : serve_mode) (addr : gostring) : bool := false.
Definition ex_dashboard_returns (f : call) : option (outcome serve_error ()) :=
  match f with RunDashboard _ => Some (Err ErrListen) | _ => None end.
Lemma dashboard_command_witness :
  main (λ _, Some []) (λ _, str "dagda") (λ _ c, Some c) ex_dashboard_returns
    (str "dashboard" :: concat (flag_args <$> ex_up)) ≠ (None, Some 0%Z)
  ∧ (main (λ _, Some []) (λ _, str "dagda") (λ _ c, Some c) ex_dashboard_returns
      (str "dashboard" :: concat (flag_args <$> ex_up))).2 ≠ Some 0%Z.
Proof.
  assert ((main (λ _, Some []) (λ _, str "dagda") (λ _ c, Some c) ex_dashboard_returns
      (str "dashboard" :: concat (flag_args <$> ex_up))).2 ≠ Some 0%Z) as H.
  { apply (dashboard_command _ _ _ ex_deaf).
    - apply (bool_decide_unpack _). vm_compute. exact I.
    - intros c r [= <-]. exists [Listens].
      exists (set_start (Returned (Err ErrListen)) (Start (new_service c))). split_and!.
      + intros Hin%list_elem_of_singleton. discriminate Hin.
      + apply (trace_step _ _ _ [] (Start (new_service c)) Listens); [constructor|exact I|reflexivity].
      + reflexivity. }
  split; [|exact H]. intros Hm. rewrite Hm in H. exact (H eq_refl).
Defined.

Definition ex_signals : list (up_label ()) := [Load; Notify; Signal; HandlerRuns; Signal].
